(* ===== verification/_CoqProject ===== *)
-Q . S2P
Prelude.v
GoIO.v
Block.v
Stats.v
Aead.v
WriteTo.v
WriterRace.v
Cipher.v
Processor.v
RingBuffer.v
Connection.v
Inbound.v
Outbound.v
GoNet.v
Text.v
GoTime.v
Logger.v
LoggerWin.v
GoIP.v
Socks5.v
Relay.v
Tunnel.v
TunnelPool.v
PoolManager.v
ConnPool.v
Delivery.v
EndToEnd.v
Sendable.v
Wire.v
Ledger.v
PoolCopy.v
Peer.v
PeerGroup.v
Server.v
Client.v
FrontEnd.v
Config.v
Setup.v
Status.v
System.v
Sending.v
Receiving.v
Arrival.v
Process.v
Applications.v
