(* ===== verification/Prelude.v ===== *)
(** Rabbit-TCP: verification library (root file).

    * The program

    Rabbit-TCP carries the TCP connections of local applications over a set of
    long-lived tunnels.  A client process accepts applications (SOCKS5 or a fixed
    target), a server process dials their targets; between them run several TCP
    connections, each encrypted, over which the bytes of all applications travel cut
    into numbered blocks.  A block may take any tunnel, so that blocks arrive out of
    order, and are put in order again per connection.

    On one side, from the application to the wire:

      cmd/rabbit.go (main)        Process, Applications    (all of the below, joined)
      client/client.go            FrontEnd, Socks5, Client, Relay
                                                           (the application's socket)
      connection/                 Inbound (client), Outbound (server), over
                                  Connection, Processor, RingBuffer
      connection_pool/pool.go     ConnPool, Delivery
      peer/                       Peer, PeerGroup, PoolCopy  (one pool of each kind)
      tunnel_pool/                TunnelPool, Ledger, Tunnel, PoolManager
      block/block.go              Block                    (the wire format)
      tunnel/                     Aead, WriteTo, WriterRace, Cipher   (encryption)

    and around it cmd/rabbit.go (Config, Status, Setup, Text), server/server.go
    (Server, over PeerGroup), stats/stats.go (Stats) and logger/ (Logger, and
    LoggerWin for the Windows build).  GoIO, GoNet, GoIP and GoTime say what is used of
    Go's channels and of packages io, net, fmt, strconv and time.  EndToEnd, Sendable,
    Wire and System carry a block from one peer to another; Ledger holds what a pool says
    it has sent against the bytes on its tunnels; Sending, Receiving and Arrival show that
    a block gets there.

    * How the code is modelled

    A struct is a Record with the source's fields, a method a function on it that
    returns the record afterwards; a call on a shared object returns the new object.
    Integers are Z, wrapped explicitly where Go wraps ([u8], [u32], [u64], [i64]);
    bytes are [Byte.byte]; Go maps are [gmap]s; a Go map of pointers maps to the index
    of the object in a list that only grows, so that aliases stay visible.  An error is
    a value of [GoIO.error] in a [result]; [outcome] says of a call that it returns,
    panics or waits for ever.  A channel is its buffer, its capacity and whether it
    is closed ([GoIO.chan]); sending on a closed one panics.

    A goroutine is a program counter in the state of the object that runs it and the
    steps between two waits; a component with several is a function
    [state -> label -> outcome], whose labels say which goroutine moves, what its
    [select] chooses and what clock, network and random source answer.  [Prelude.run]
    runs a list of labels, [Prelude.reachable] and [Prelude.run_invariant] are the
    rule induction; [Prelude.execution] is an infinite run, in which nothing may happen
    as well, [Prelude.fair] says that steps of some kind are not put off for ever, and
    [Prelude.fair_rests] that such a run rests where every step of the kind costs
    something.  The systems nest: [Outbound.oc_step], [Inbound.ic_step] and
    [Processor.relay_step] are steps of [ConnPool.cp_step], which with
    [TunnelPool.pool_step] and the manager makes [Peer.peer_step], of which
    [PeerGroup.group_step] runs many.  [Server.serve_step] accepts the connections of
    a group; [Process.proc_step] is a whole client - listener, one [Relay.bi_step] per
    application, peer, [main] - and [Process.server_step] a whole server.

    Interfaces of the source are classes with their contracts as law classes:
    [Reader], [Writer] and [Duplex] (io.Reader, io.Writer, net.Conn), [Manager] and
    [ManagerRun] (the manager of a tunnel pool), [Primitives] (the cryptographic
    packages).  Package variables that the configuration sets are the classes
    [TunnelVars] and [ConnVars].

    * What is proved

    - The whole way (Applications, over Process, System, EndToEnd, Sendable, Wire): in
      runs of a client process and a server peer joined by tunnels that may reorder,
      repeat, hold back or lose blocks, the server dials the target an application was
      let in with and nothing else, and what the application sends is what the target
      is sent, and back: always a prefix, all of it once it has arrived.  Every step of
      the process is a step of its peer ([Process.proc_step_effect]), so that System,
      which proves the same of two peers, applies.  What is asked of the environment
      is labels in range ([Applications.kl_ok]), tunnels that deliver a prefix of what
      was put on them ([System.wired]), keep-alives not torn.
      [System.blocks_well_typed]: every number stays in its Go type whatever the
      tunnels bring.
    - Sending (Sending): in any interleaving the relays that send take at most five
      steps a block, and under fair scheduling, while one tunnel lives, come again and
      again to where nothing is left: every block issued has been sent on one tunnel, or
      given up by the retry of a tunnel that failed, and what is on the connection of a
      tunnel is what was sent on it (Ledger).
    - Receiving (Delivery, Receiving, Arrival): the relays of a pool take at most five
      steps a block and rest only where everything is delivered or one reader is behind;
      a peer gets there again and again under fair scheduling, every whole block of its
      tunnels having been handed to the connection of its ID and every reader having its
      stream in order up to the first number that is missing
      ([Arrival.receiving_happens]); a connection that died with a full queue stops it
      for ever.
    - Arrival (Arrival): between a client and a server that have so come to rest
      nothing is lost.  A block issued is on the bytes of a tunnel
      ([Arrival.all_written]), a block on those bytes has come to the other pool once
      they have been read ([Arrival.waits_read]), and a block that has come to a pool
      that knows its connection has been handed to it ([Arrival.none_lost]): each
      target has been sent exactly what the user wrote, and each user has been given,
      or can read, exactly what the target answered.
    - Start and end (Process, FrontEnd, Config, Setup): who a SOCKS5 listener with a
      password relays; an interrupt ends client and server from any state, without
      waiting, and what is unsent is lost; the seed, the gauges, the TLS settings.
    - Blocks (Block): round trip, soundness of the parser, truncation, splitting.
    - Order (Processor): a prefix of the stream, once, in order; nothing below a hole
      held back; the inner loop ends; the time-out means a hole; numbers wrap.
    - Tunnels (TunnelPool, Ledger, Tunnel, PoolManager): no block lost or doubled by
      failures but by one race that is exhibited, by the bytes on the connections and not
      only by the count; the queues can drain; the exchange of IDs; the client's pool is
      refilled and the server's countdown only removes empty pools.
    - Connections (Inbound, Outbound, ConnPool): Read loses nothing and returns; what
      Close does, once; both directions of an outbound connection under any
      interleaving, and the one block that makes it panic; routing by ID: what is found,
      made or dropped; the gauges.
    - Encryption (Aead, WriteTo, Cipher): round trip of the stream however the wire is cut,
      fresh nonces, the key derivation is EVP_BytesToKey, equal configurations
      understand each other, a wrong cipher name means none.
    - Server (Server, PeerGroup): a server does to its peers what the group does with
      the connections it accepts; each peer behaves as if alone (a refinement), one
      live peer per client, a connection becomes a tunnel of its peer.
    - Client (Socks5, Client, Relay): nothing is dialled without the password, the
      request becomes the target, the relay copies both ways and closes both ends; what
      a write that races with the closing sends behind the end.
    - Surroundings (Config, Status, Text, Logger, LoggerWin, Stats): what configuration
      is accepted, who sees the status pages, the string helpers, the levels and leaks
      of the loggers, that both builds log the same lines, the counters and their
      history, the calendar of the time stamps.

    Races and dead ends of the code are theorems too, by a run that shows them:
    [ConnPool.late_block_panics], [Inbound.closed_connection_hazards],
    [Outbound.cancel_leaks_socket], [Outbound.outbound_panic_iff],
    [Relay.relay_writes_after_close], [TunnelPool.failed_block_may_be_dropped],
    [TunnelPool.close_panics_forwarding_tunnel], [Tunnel.broken_ping_desynchronises],
    [PeerGroup.tunnel_joins_dead_peer], [PoolManager.no_endpoints_spins],
    [WriterRace.concurrent_writes_reuse_nonce], [Delivery.dead_connection_stalls_peer],
    [PoolCopy.copied_pools_crash].

    * Fuel

    Loops that are not structural take fuel and say [None] when it runs out; that
    enough of it gives a result is proved: [Inbound.Read] (one pass over the queue,
    [read_returns]), [Aead.ReadFrom] and [GoIO.read_at_least] (the bytes delivered),
    [Block.NewDataBlocks_loop] (the length of the data), [Cipher.kdf_loop] (the
    key length), [PoolManager.DecreaseNotify] (attempts before endpoints answer plus
    the tunnels missing, [client_refills_pool]), [Text.split] (the length of the string).
    [GoIP], [GoNet] and [Text.Split] recurse on the digits, groups and bytes there are.

    * Simplifications

    - A call that sends several blocks waits until all fit, instead of sending those
      that do.  [Inbound.Write] is such a call, and also, as the relay of an application
      makes it ([Relay.bi_step]), its bits with other goroutines in between: the check,
      one block after the other, the count ([Inbound.Write_in_steps]).  A block gets its
      number and its place on the queue in one step; the code numbers all blocks of a
      write before it queues the first, so that with others in between the queue may be
      out of the order of the numbers, which is the order that the other end restores and
      in which the runs of the model list the blocks.
    - [packThenSend] is one step, although pings, pongs and blocks may be
      written concurrently: WriterRace takes the writer apart and shows what that
      does, everywhere else a write is whole.
    - [OutboundConnection.RecvBlock] starts the dial once its send has succeeded.
    - The future input of a tunnel is part of the state of its connection, so that
      "reads what the other end has written" is a relation between final states.
    - [ToUpper], [ToLower] and [TrimSpace] are those of ASCII text.
    - The result of the flag parser, YAML, the file system, [url.Parse], accepted
      sockets, clocks and random numbers are inputs.  HKDF-SHA1, AES-GCM and
      ChaCha20-Poly1305 are parameters with their contracts ([AEADLaws],
      [PrimitiveLaws]); MD5 is defined.
    - The multiplexer of the status servers is the choice by path, without the cleaning
      of paths; answers are the values given to the encoders.
    - Mutexes only delimit steps.  Peers copy their pools, mutexes included: PoolCopy
      takes the calls of the program on a map in any number and says exactly when two of
      them can be in it at once, which the runtime ends by stopping the process;
      everywhere else a call on a map is whole.  The
      maps and channels of the copies are shared, which is how the model has them.
    - The handshake of an application and the dial that follows are one step of the
      goroutine that serves it, the bytes behind it the inputs of its relay.

    * Not modelled

    The flag parser, YAML, [fmt.Sprintf] and the encoders of JSON and of metrics are
    packages the program calls; so are the profiling listener and the date and time
    that package log puts before a line.  The time zone of the process is a parameter
    of the stamps ([GoTime.LocalZone]).

    The write deadlines of a tunnel are not steps of their own: a write that times out
    is one that fails.  The server of Applications is its peers, one by one
    ([PeerGroup.group_refines_peers]).  The runs of two peers are related by the bytes
    between them and not by time.  So that a client has dialled before an answer comes,
    and has not yet removed the connection, is a condition of
    [Arrival.no_answer_lost] ([Arrival.all_known]; a server accepts connections and
    knows every block), and the liveness of one peer ([Sending.sending_happens],
    [Arrival.receiving_happens]) and the rest of both are theorems of their own. *)

From Stdlib Require Export ZArith Lia Strings.Byte.
From stdpp Require Export base gmap list strings numbers list_numbers.

(** * Notation scope and tactics *)

Declare Scope go_scope.
Delimit Scope go_scope with go.

(** [destr H] is inversion for the development: it inverts [H], substitutes
    and normalises the equations it leaves. *)
Ltac destr H := inversion H; subst; clear H; simplify_eq/=.

(** Linear arithmetic with [Z.div] and [Z.modulo]. *)
Ltac zlia := Z.to_euclidean_division_equations; lia.

(** Case analysis on every guard ([decide]) and [match] left in a step. *)
Ltac split_guards := repeat (case_decide || case_match); simplify_eq/=.

(** * Results of fallible calls *)

(** The pair [(value, error)] of a Go call of which exactly one component is
    meaningful. *)
Inductive result (E A : Type) : Type :=
  | Ok (a : A)
  | Err (e : E).
Arguments Ok {E A} _.
Arguments Err {E A} _.

#[export] Instance result_eq_dec {E A} `{EqDecision E, EqDecision A} :
  EqDecision (result E A).
Proof. solve_decision. Defined.

#[export] Instance result_ret {E} : MRet (result E) := fun A a => Ok a.
#[export] Instance result_bind {E} : MBind (result E) := fun A B f r =>
  match r with Ok a => f a | Err e => Err e end.

(** * Machine integers

    A Go integer of width [w] is the [Z] it denotes; the operations wrap. *)

Definition u8 (z : Z) : Z := z `mod` 2 ^ 8.
Definition u32 (z : Z) : Z := z `mod` 2 ^ 32.
Definition u64 (z : Z) : Z := z `mod` 2 ^ 64.

(** Reinterpretation of a 64-bit pattern as a signed integer, [int64(x)]. *)
Definition i64 (z : Z) : Z := (z + 2 ^ 63) `mod` 2 ^ 64 - 2 ^ 63.

(** [int32] arithmetic, used by the counters of package stats. *)
Definition i32 (z : Z) : Z := (z + 2 ^ 31) `mod` 2 ^ 32 - 2 ^ 31.

Definition is_u8 (z : Z) : Prop := (0 <= z < 2 ^ 8)%Z.
Definition is_u32 (z : Z) : Prop := (0 <= z < 2 ^ 32)%Z.
Definition is_i64 (z : Z) : Prop := (- 2 ^ 63 <= z < 2 ^ 63)%Z.

Notation "a +u32 b" := (u32 (a + b)%Z) (at level 50, left associativity) : go_scope.

Lemma u8_small (z : Z) : is_u8 z -> u8 z = z.
Proof. unfold is_u8, u8. intros. apply Z.mod_small. lia. Qed.

Lemma u32_small (z : Z) : is_u32 z -> u32 z = z.
Proof. unfold is_u32, u32. intros. apply Z.mod_small. lia. Qed.

Lemma u32_range (z : Z) : is_u32 (u32 z).
Proof. unfold is_u32, u32. apply Z.mod_pos_bound. lia. Qed.

Lemma u32_u32 (z : Z) : u32 (u32 z) = u32 z.
Proof. apply u32_small, u32_range. Qed.

Lemma u32_add_l (a b : Z) : u32 (u32 a + b) = u32 (a + b).
Proof. unfold u32. by rewrite Z.add_mod_idemp_l. Qed.

Lemma i64_u64 (z : Z) : is_i64 z -> i64 (u64 z) = z.
Proof. unfold is_i64, i64, u64. intros. zlia. Qed.

Lemma u64_range (z : Z) : (0 <= u64 z < 2 ^ 64)%Z.
Proof. unfold u64. apply Z.mod_pos_bound. lia. Qed.

Lemma u64_i64 (z : Z) : (0 <= z < 2 ^ 64)%Z -> u64 (i64 z) = z.
Proof. unfold i64, u64. intros. zlia. Qed.

Lemma i64_range (z : Z) : is_i64 (i64 z).
Proof. unfold is_i64, i64. zlia. Qed.

(** * Bytes *)

#[export] Instance byte_eq_dec : EqDecision byte := Byte.byte_eq_dec.

#[export] Instance byte_inhabited : Inhabited byte := populate x00.

Definition Z_of_byte (b : byte) : Z := Z.of_N (Byte.to_N b).

(** [byte(z)]: the conversion keeps the low eight bits. *)
Definition byte_of_Z (z : Z) : byte :=
  match Byte.of_N (Z.to_N (u8 z)) with
  | Some b => b
  | None => x00
  end.

Lemma Z_of_byte_range (b : byte) : is_u8 (Z_of_byte b).
Proof. unfold is_u8, Z_of_byte. pose proof (Byte.to_N_bounded b). lia. Qed.

Lemma Z_of_byte_of_Z (z : Z) : Z_of_byte (byte_of_Z z) = u8 z.
Proof.
  unfold byte_of_Z, Z_of_byte, u8.
  assert (0 <= z `mod` 2 ^ 8 < 256)%Z by (apply Z.mod_pos_bound; lia).
  destruct (Byte.of_N _) as [b|] eqn:E.
  - apply Byte.to_of_N in E. rewrite E. lia.
  - apply Byte.of_N_None_iff in E. lia.
Qed.

Lemma byte_of_Z_of_byte (b : byte) : byte_of_Z (Z_of_byte b) = b.
Proof.
  unfold byte_of_Z. rewrite u8_small by apply Z_of_byte_range.
  unfold Z_of_byte. by rewrite N2Z.id, Byte.of_to_N.
Qed.

#[export] Instance Z_of_byte_inj : Inj (=) (=) Z_of_byte.
Proof. intros a b E. by rewrite <-(byte_of_Z_of_byte a), E, byte_of_Z_of_byte. Qed.

Create HintDb go_bytes.
Create Rewrite HintDb go_bytes.
#[export] Hint Resolve u32_range u64_range i64_range Z_of_byte_range : go_bytes.
#[export] Hint Rewrite Z_of_byte_of_Z byte_of_Z_of_byte u32_u32 : go_bytes.

(** * encoding/binary, little endian *)

(** [PutUint32]/[PutUint64]: the [n] low bytes of [z], least significant first. *)
Fixpoint le_put (n : nat) (z : Z) : list byte :=
  match n with
  | O => []
  | S n => byte_of_Z z :: le_put n (Z.shiftr z 8)
  end.

(** [Uint32]/[Uint64]: the integer whose little-endian bytes are [bs]. *)
Fixpoint le_get (bs : list byte) : Z :=
  match bs with
  | [] => 0
  | b :: bs => Z_of_byte b + 256 * le_get bs
  end.

Lemma length_le_put (n : nat) (z : Z) : length (le_put n z) = n.
Proof. revert z. induction n; intros z; cbn; auto. Qed.

Lemma le_get_put (n : nat) (z : Z) :
  le_get (le_put n z) = (z `mod` 2 ^ (8 * Z.of_nat n))%Z.
Proof.
  revert z. induction n as [|n IH]; intros z.
  - cbn. by rewrite Z.mod_1_r.
  - cbn [le_put le_get]. rewrite IH, Z_of_byte_of_Z, Z.shiftr_div_pow2 by lia.
    replace (8 * Z.of_nat (S n))%Z with (8 + 8 * Z.of_nat n)%Z by lia.
    rewrite Z.pow_add_r by lia. unfold u8.
    rewrite Z.rem_mul_r by (try apply Z.pow_nonzero; lia). done.
Qed.

Lemma le_get_range (bs : list byte) :
  (0 <= le_get bs < 2 ^ (8 * Z.of_nat (length bs)))%Z.
Proof.
  induction bs as [|b bs IH]; [cbn; lia|].
  cbn [le_get length]. pose proof (Z_of_byte_range b) as Hb. unfold is_u8 in Hb.
  replace (8 * Z.of_nat (S (length bs)))%Z with (8 + 8 * Z.of_nat (length bs))%Z by lia.
  rewrite Z.pow_add_r by lia. change (2 ^ 8)%Z with 256%Z in *.
  generalize dependent (2 ^ (8 * Z.of_nat (length bs)))%Z. lia.
Qed.

Lemma le_put_get (bs : list byte) : le_put (length bs) (le_get bs) = bs.
Proof.
  induction bs as [|b bs IH]; [done|].
  cbn [length le_put le_get]. pose proof (Z_of_byte_range b) as Hb. unfold is_u8 in Hb.
  f_equal.
  - apply (inj Z_of_byte). rewrite Z_of_byte_of_Z. unfold u8.
    change (2 ^ 8)%Z with 256%Z in *. zlia.
  - rewrite Z.shiftr_div_pow2 by lia. change (2 ^ 8)%Z with 256%Z in *.
    assert ((Z_of_byte b + 256 * le_get bs) `div` 256 = le_get bs)%Z as -> by zlia.
    exact IH.
Qed.

#[export] Hint Rewrite length_le_put : go_bytes.

(** [binary.LittleEndian.Uint64(b)] on a slice of any length: reading past the
    end is a run-time panic, written [None]. *)
Definition Uint64 (b : list byte) : option Z :=
  if decide (length b < 8)%nat then None else Some (le_get (take 8 b)).

Lemma Uint64_put (z : Z) (rest : list byte) :
  Uint64 (le_put 8 z ++ rest) = Some (u64 z).
Proof.
  unfold Uint64. rewrite decide_False by (rewrite length_app, length_le_put; lia).
  rewrite take_app_length' by (by rewrite length_le_put). by rewrite le_get_put.
Qed.

(** * Slices *)

(** [l[lo:hi]], for bounds the code has checked. *)
Definition slice {A} (lo hi : nat) (l : list A) : list A := take (hi - lo) (drop lo l).

(** The backing array after [copy(l[off:], d)], for [d] that fits. *)
Definition overwrite {A} (off : nat) (d l : list A) : list A :=
  take off l ++ d ++ drop (off + length d) l.

Lemma length_overwrite {A} (off : nat) (d l : list A) :
  (off + length d <= length l)%nat -> length (overwrite off d l) = length l.
Proof. intros. unfold overwrite. rewrite !length_app, length_take, length_drop. lia. Qed.

Lemma slice_overwrite {A} (off : nat) (d l : list A) :
  (off + length d <= length l)%nat -> slice off (off + length d) (overwrite off d l) = d.
Proof.
  intros. unfold slice, overwrite.
  rewrite drop_app_length' by (rewrite length_take; lia).
  replace (off + length d - off)%nat with (length d) by lia.
  by rewrite take_app_length.
Qed.

Lemma length_slice {A} (lo hi : nat) (l : list A) :
  (hi <= length l)%nat -> length (slice lo hi l) = (hi - lo)%nat.
Proof. intros. unfold slice. rewrite length_take, length_drop. lia. Qed.

Lemma take_slice {A} (n lo hi : nat) (l : list A) :
  (lo + n <= hi)%nat -> take n (slice lo hi l) = slice lo (lo + n) l.
Proof. intros. unfold slice. rewrite take_take. f_equal. lia. Qed.

Lemma drop_slice {A} (n lo hi : nat) (l : list A) :
  drop n (slice lo hi l) = slice (lo + n) hi l.
Proof.
  unfold slice. rewrite skipn_firstn_comm, drop_drop. f_equal. lia.
Qed.

Lemma slice_empty {A} (lo : nat) (l : list A) : slice lo lo l = [].
Proof. unfold slice. by rewrite Nat.sub_diag. Qed.

Lemma slice_all {A} (l : list A) : slice 0 (length l) l = l.
Proof. unfold slice. by rewrite Nat.sub_0_r, drop_0, firstn_all. Qed.

#[export] Hint Rewrite @drop_slice @slice_empty @slice_all : go_bytes.

(** * Labelled transition systems

    A goroutine is a partial step function on labels: a label names the branch
    of the [select] that fires, with the value received or sent. *)

Section Lts.
Context {S L : Type} (step : S -> L -> option S).

Fixpoint run (s : S) (ls : list L) : option S :=
  match ls with
  | [] => Some s
  | l :: ls => match step s l with Some s' => run s' ls | None => None end
  end.

(** States reachable from [s0], with the trace that leads to them. *)
Inductive reachable (s0 : S) : list L -> S -> Prop :=
  | reach_init : reachable s0 [] s0
  | reach_step tr s l s' :
      reachable s0 tr s -> step s l = Some s' -> reachable s0 (tr ++ [l]) s'.

Lemma run_cons (s : S) (l : L) (ls : list L) :
  run s (l :: ls) = match step s l with Some s' => run s' ls | None => None end.
Proof. done. Qed.

Lemma run_app (s : S) (l1 l2 : list L) :
  run s (l1 ++ l2) = match run s l1 with Some s' => run s' l2 | None => None end.
Proof.
  revert s. induction l1 as [|l l1 IH]; intros s; [done|].
  cbn. destruct (step s l); auto.
Qed.

Lemma reachable_run (s0 : S) (tr : list L) (s : S) :
  reachable s0 tr s -> run s0 tr = Some s.
Proof.
  induction 1 as [|tr s l s' _ IH Hstep]; [done|].
  rewrite run_app, IH. cbn. by rewrite Hstep.
Qed.

Lemma run_reachable_from (s0 : S) (tr0 tr : list L) (s s' : S) :
  reachable s0 tr0 s -> run s tr = Some s' -> reachable s0 (tr0 ++ tr) s'.
Proof.
  revert tr0 s. induction tr as [|l tr IH]; intros tr0 s Hr; cbn.
  - intros [= ->]. by rewrite app_nil_r.
  - destruct (step s l) as [s1|] eqn:E; [|done]. intros Hrun.
    replace (tr0 ++ l :: tr) with ((tr0 ++ [l]) ++ tr) by (by rewrite <-app_assoc).
    eapply IH; [|exact Hrun]. by econstructor.
Qed.

Lemma run_reachable (s0 : S) (tr : list L) (s : S) :
  run s0 tr = Some s -> reachable s0 tr s.
Proof. apply (run_reachable_from s0 []). constructor. Qed.

(** Rule induction: a trace invariant kept by every step holds everywhere. *)
Lemma run_invariant (I : list L -> S -> Prop) (s0 : S) :
  I [] s0 ->
  (forall tr s l s', I tr s -> step s l = Some s' -> I (tr ++ [l]) s') ->
  forall tr s, run s0 tr = Some s -> I tr s.
Proof.
  intros H0 Hstep tr s Hrun%run_reachable.
  induction Hrun; eauto.
Qed.
End Lts.

(** Infinite executions, in which nothing may happen for a while.  One is fair to
    the steps [move] if there is no point after which one of them could always be
    taken and none ever is. *)
Section Executions.
Context {S L : Type} (step : S -> L -> option S) (move : L -> bool).

Definition execution (s : nat -> S) (l : nat -> option L) : Prop :=
  forall n, match l n with
            | Some r => step (s n) r = Some (s (Datatypes.S n))
            | None => s (Datatypes.S n) = s n
            end.

Definition at_rest (p : S) : Prop := forall r, move r = true -> step p r = None.
Definition moving (o : option L) : Prop := match o with Some r => move r = true | None => False end.

Definition fair (s : nat -> S) (l : nat -> option L) : Prop :=
  forall n, exists m, (n <= m)%nat /\ (moving (l m) \/ at_rest (s m)).

Lemma execution_invariant (I : S -> Prop) s l n m :
  (forall p r p', I p -> step p r = Some p' -> I p') -> execution s l -> (n <= m)%nat -> I (s n) -> I (s m).
Proof.
  intros Hstep He Hm Hn. induction Hm as [|m _ IH]; [done|]. specialize (He m).
  destruct (l m) as [r|]; [by eapply Hstep|by rewrite He].
Qed.

(** Where every move costs something a fair execution comes to rest. *)
Lemma fair_rests (cost : S -> nat) s l n :
  execution s l -> fair s l ->
  (forall j r, (n <= j)%nat -> l j = Some r -> (cost (s (Datatypes.S j)) + (if move r then 1 else 0) <= cost (s j))%nat) ->
  exists m, (n <= m)%nat /\ at_rest (s m).
Proof.
  intros He Hf Hc.
  assert (forall i m, (n <= i <= m)%nat -> (cost (s m) <= cost (s i))%nat) as Hle.
  { intros i m [Hi Hm]. induction Hm as [|m Hm IH]; [done|]. etrans; [|exact IH]. specialize (He m).
    destruct (l m) as [r|] eqn:El; [|by rewrite He]. specialize (Hc m r ltac:(lia) El). lia. }
  remember (cost (s n)) as k eqn:Hk. assert (exists i, (n <= i)%nat /\ (cost (s i) <= k)%nat) as (i & Hi & Hik) by (exists n; lia).
  clear Hk. revert i Hi Hik. induction (lt_wf k) as [k _ IH]. intros i Hi Hik.
  destruct (Hf i) as (m & Hm & [Hr|Hr]); [|exists m; split; [lia|done]].
  destruct (l m) as [r|] eqn:El; [|done]. cbn in Hr. specialize (Hc m r ltac:(lia) El). rewrite Hr in Hc.
  specialize (Hle i m ltac:(lia)). apply (IH (cost (s (Datatypes.S m))) ltac:(lia) (Datatypes.S m)); lia.
Qed.

(** The execution that makes these steps and then nothing. *)
Definition traced (s0 : S) (tr : list L) (n : nat) : S := default s0 (run step s0 (take n tr)).

Lemma traced_execution s0 tr s : run step s0 tr = Some s -> execution (traced s0 tr) (fun n => tr !! n).
Proof.
  intros Hrun n. unfold traced. destruct (tr !! n) as [r|] eqn:Hn.
  - rewrite <-(take_drop_middle tr n r Hn) in Hrun. rewrite (take_S_r tr n r Hn).
    rewrite run_app in Hrun |- *. destruct (run step s0 (take n tr)) as [p|]; [|done]. cbn in Hrun |- *.
    by destruct (step p r).
  - apply lookup_ge_None in Hn. rewrite !take_ge by lia. done.
Qed.

Lemma traced_late s0 tr s n : run step s0 tr = Some s -> (length tr <= n)%nat -> traced s0 tr n = s.
Proof. intros Hrun Hn. unfold traced. by rewrite take_ge, Hrun. Qed.

Lemma traced_fair s0 tr s : run step s0 tr = Some s -> at_rest s -> fair (traced s0 tr) (fun n => tr !! n).
Proof.
  intros Hrun Hs n. exists (Nat.max n (length tr)). split; [lia|]. right. by rewrite (traced_late _ _ s) by (done || lia).
Qed.
End Executions.

(** A sum over a list of which one element changes, or all go down. *)
Lemma sum_list_insert {A} (f : A -> nat) (l : list A) k x y :
  l !! k = Some x -> (sum_list (f <$> <[k := y]> l) + f x = sum_list (f <$> l) + f y)%nat.
Proof.
  revert k. induction l as [|a l IH]; [done|]. intros [|k]; cbn [lookup list_lookup].
  - intros [= ->]. cbn. lia.
  - intros Hk. specialize (IH _ Hk). change (<[S k := y]> (a :: l)) with (a :: <[k := y]> l).
    rewrite !fmap_cons. cbn [sum_list_with]. lia.
Qed.

Lemma sum_list_le {A} (f : A -> nat) (l l' : list A) :
  Forall2 (fun x y => f y <= f x)%nat l l' -> (sum_list (f <$> l') <= sum_list (f <$> l))%nat.
Proof. induction 1; cbn; lia. Qed.

(** Writing [d] right after a prefix already in place. *)
Lemma overwrite_app {A} (off : nat) (d pre suf : list A) :
  length pre = off -> overwrite off d (pre ++ suf) = (pre ++ d) ++ drop (length d) suf.
Proof.
  intros <-. unfold overwrite.
  rewrite take_app_length, drop_app_add, <-app_assoc. done.
Qed.

Lemma overwrite_0 {A} (d l : list A) : overwrite 0 d l = d ++ drop (length d) l.
Proof. done. Qed.

(** A field of [n] bytes read and written back. *)
Lemma le_put_get_n (n : nat) (bs : list byte) : length bs = n -> le_put n (le_get bs) = bs.
Proof. intros <-. apply le_put_get. Qed.

Lemma le_get_u32 (bs : list byte) : length bs = 4%nat -> is_u32 (le_get bs).
Proof. intros E. unfold is_u32. pose proof (le_get_range bs) as B. by rewrite E in B. Qed.

(** Adjacent slices. *)
Lemma slice_app {A} (lo mid hi : nat) (l : list A) :
  (lo <= mid <= hi)%nat -> slice lo mid l ++ slice mid hi l = slice lo hi l.
Proof.
  intros. unfold slice.
  replace (drop mid l) with (drop (mid - lo) (drop lo l)) by (rewrite drop_drop; f_equal; lia).
  replace (hi - lo)%nat with ((mid - lo) + (hi - mid))%nat by lia.
  by rewrite <-take_take_drop.
Qed.

(** Slices of an array that was written elsewhere. *)
Lemma slice_overwrite_after {A} (off lo hi : nat) (d l : list A) :
  (off + length d <= lo)%nat -> (off + length d <= length l)%nat ->
  slice lo hi (overwrite off d l) = slice lo hi l.
Proof.
  intros. unfold slice, overwrite. f_equal.
  rewrite app_assoc, drop_app_ge by (rewrite length_app, length_take; lia).
  rewrite drop_drop. f_equal. rewrite length_app, length_take. lia.
Qed.

Lemma slice_overwrite_0 {A} (d l : list A) :
  (length d <= length l)%nat -> slice 0 (length d) (overwrite 0 d l) = d.
Proof. intros. apply (slice_overwrite 0). lia. Qed.

Lemma slice_prefix {A} (n : nat) (l : list A) : slice 0 n l = take n l.
Proof. unfold slice. by rewrite Nat.sub_0_r, drop_0. Qed.

Lemma slice_overwrite_before {A} (off lo hi : nat) (d l : list A) :
  (hi <= off)%nat -> (off <= length l)%nat ->
  slice lo hi (overwrite off d l) = slice lo hi l.
Proof.
  intros. unfold slice, overwrite.
  destruct (decide (lo <= off)%nat).
  - rewrite drop_app_le by (rewrite length_take; lia).
    rewrite take_app_le by (rewrite length_drop, length_take; lia).
    rewrite skipn_firstn_comm, take_take. f_equal. lia.
  - by replace (hi - lo)%nat with 0%nat by lia.
Qed.

(** Running a computation only to see that it succeeds. *)
Lemma run_succeeds {A} (o : option A) : (match o with Some _ => true | None => false end) = true -> exists a, o = Some a.
Proof. destruct o; [eauto|discriminate]. Qed.

Lemma run_succeeds_with {A} (o : option A) (P : A -> bool) :
  (match o with Some a => P a | None => false end) = true -> exists a, o = Some a /\ P a = true.
Proof. destruct o; [eauto|discriminate]. Qed.

Lemma concat_singletons {A} (l : list A) : concat ((fun x => [x]) <$> l) = l.
Proof. induction l; cbn; congruence. Qed.

Lemma filter_none {A} (P : A -> Prop) `{forall x, Decision (P x)} (l : list A) :
  Forall (fun x => ~ P x) l -> filter P l = [].
Proof. induction 1 as [|x l Hx _ IH]; [done|]. by rewrite filter_cons_False. Qed.

Lemma Permutation_interleave {A} (a b c d : list A) : a ++ b ++ c ++ d ≡ₚ c ++ a ++ d ++ b.
Proof.
  rewrite (Permutation_app_swap_app b c d), (Permutation_app_swap_app a c), (Permutation_app_comm b d). done.
Qed.

(** Concatenations with the same parts. *)
Ltac solve_perm :=
  repeat match goal with
    | |- context [?b :: ?l] => lazymatch l with [] => fail | _ => change (b :: l) with ([b] ++ l) end
    end;
  apply (Permutation_count_occ (fun x y => decide (x = y))); intros ?; rewrite ?count_occ_app; cbn [count_occ]; lia.

(** Membership in concatenations. *)
Ltac in_app :=
  repeat first [rewrite elem_of_app in * | rewrite elem_of_cons in * | rewrite elem_of_nil in *]; tauto.
