(* ===== verification/GoIO.v ===== *)
(** Package io and channels, as far as the sources use them: the error values,
    the [io.Reader] and [io.Writer] interfaces with their contracts as law
    classes, [io.ReadFull], [io.Copy] of a byte slice, the network streams the
    witnesses run on, and buffered channels. *)

From S2P Require Import Prelude.

(** * Errors *)

Inductive error : Type :=
  | EOF
  | ErrUnexpectedEOF
  | ErrShortWrite
  | ErrTimeout                 (** a [net.Error] whose [Timeout()] is true *)
  | ErrClosed                  (** use of a closed network connection *)
  | EINVAL
  | ErrMsg (msg : string).     (** [errors.New], [fmt.Errorf] and the rest *)

#[export] Instance error_eq_dec : EqDecision error.
Proof. solve_decision. Defined.

(** * io.Reader *)

(** [rread n r] is [r.Read(p)] with [len(p) = n]: the bytes stored at the front
    of [p], the error, and the reader afterwards.  [None]: the call does not
    return (no data and the stream still open). *)
Class Reader (R : Type) : Type :=
  rread : nat -> R -> option (list byte * option error * R).

(** The contract of [io.Reader] the callers rely on.  [delivers r bs oe]: [r]
    will deliver exactly [bs], however cut into reads, and then the error [oe],
    or block for ever when [oe] is [None]. *)
Class LawfulReader (R : Type) `{Reader R} : Type := {
  delivers : R -> list byte -> option error -> Prop;
  rread_end r n : (0 < n)%nat ->
    delivers r [] None -> rread n r = None;
  rread_error r n e : (0 < n)%nat ->
    delivers r [] (Some e) ->
    exists r', rread n r = Some ([], Some e, r') /\ delivers r' [] (Some e);
  rread_more r n bs oe : (0 < n)%nat -> bs <> [] ->
    delivers r bs oe ->
    exists c rest r', rread n r = Some (c, None, r') /\ bs = c ++ rest /\
      c <> [] /\ (length c <= n)%nat /\ delivers r' rest oe;
}.

Section ReadFull.
Context {R : Type} `{LawfulReader R}.

(** The loop of [io.ReadAtLeast(r, buf, len(buf))]: read until [need] more
    bytes are there or an error comes. [fuel] bounds the number of [Read]
    calls; a lawful reader needs at most [need] of them. *)
Fixpoint read_at_least (fuel need : nat) (r : R)
    : option (list byte * option error * R) :=
  match need, fuel with
  | O, _ => Some ([], None, r)
  | S _, O => None
  | S _, S fuel =>
      match rread need r with
      | None => None
      | Some (c, Some e, r') =>
          if decide (need <= length c)%nat then Some (c, None, r')
          else Some (c, Some e, r')
      | Some (c, None, r') =>
          match read_at_least fuel (need - length c) r' with
          | None => None
          | Some (c', oe, r'') => Some (c ++ c', oe, r'')
          end
      end
  end.

(** [io.ReadFull(r, buf)] with [len(buf) = n]. *)
Definition ReadFull (n : nat) (r : R) : option (list byte * option error * R) :=
  match read_at_least n n r with
  | Some (c, Some EOF, r') =>
      if decide (c = []) then Some (c, Some EOF, r')
      else Some (c, Some ErrUnexpectedEOF, r')
  | res => res
  end.

(** The error of a [ReadFull] that finds only [bs] before the error [e]. *)
Definition short_error (bs : list byte) (e : error) : error :=
  if decide (e = EOF /\ bs <> []) then ErrUnexpectedEOF else e.

Lemma read_at_least_enough (fuel need : nat) (r : R) (bs : list byte) (oe : option error) :
  (need <= fuel)%nat -> delivers r bs oe -> (need <= length bs)%nat ->
  exists r', read_at_least fuel need r = Some (take need bs, None, r') /\
    delivers r' (drop need bs) oe.
Proof.
  revert need r bs. induction fuel as [|fuel IH]; intros need r bs Hf Hd Hl.
  - destruct need; [|lia]. exists r. by rewrite drop_0.
  - destruct need as [|need]; [exists r; by rewrite drop_0|].
    destruct (rread_more r (S need) bs oe) as (c & rest & r' & Hr & -> & Hc & Hcl & Hd');
      [lia|intros ->; cbn in Hl; lia|done|].
    cbn [read_at_least]. rewrite Hr.
    assert (0 < length c)%nat by (destruct c; [done|cbn; lia]).
    rewrite length_app in Hl.
    destruct (IH (S need - length c)%nat r' rest) as (r'' & -> & Hd''); [lia|done|lia|].
    exists r''. rewrite take_app, drop_app, (take_ge c), (drop_ge c) by lia. done.
Qed.

Lemma read_at_least_short (fuel need : nat) (r : R) (bs : list byte) (e : error) :
  (need <= fuel)%nat -> delivers r bs (Some e) -> (length bs < need)%nat ->
  exists r', read_at_least fuel need r = Some (bs, Some e, r') /\
    delivers r' [] (Some e).
Proof.
  revert need r bs. induction fuel as [|fuel IH]; intros need r bs Hf Hd Hl; [lia|].
  destruct need as [|need]; [lia|]. cbn [read_at_least].
  destruct (decide (bs = [])) as [->|Hne].
  - destruct (rread_error r (S need) e) as (r' & -> & Hd'); [lia|done|].
    cbn. eauto.
  - destruct (rread_more r (S need) bs (Some e)) as (c & rest & r' & -> & -> & Hc & Hcl & Hd');
      [lia|done|done|].
    assert (0 < length c)%nat by (destruct c; [done|cbn; lia]).
    rewrite length_app in Hl.
    destruct (IH (S need - length c)%nat r' rest) as (r'' & -> & Hd''); [lia|done|lia|].
    eauto.
Qed.

Lemma read_at_least_block (fuel need : nat) (r : R) (bs : list byte) :
  delivers r bs None -> (length bs < need)%nat -> read_at_least fuel need r = None.
Proof.
  revert need r bs. induction fuel as [|fuel IH]; intros need r bs Hd Hl;
    (destruct need as [|need]; [lia|]); [done|]. cbn [read_at_least].
  destruct (decide (bs = [])) as [->|Hne].
  - by rewrite rread_end by (done || lia).
  - destruct (rread_more r (S need) bs None) as (c & rest & r' & -> & -> & Hc & Hcl & Hd');
      [lia|done|done|].
    rewrite length_app in Hl.
    assert (0 < length c)%nat by (destruct c; [done|cbn; lia]).
    by erewrite IH by (done || lia).
Qed.

(** [ReadFull] on a stream that has the bytes. *)
Lemma ReadFull_enough (n : nat) (r : R) (bs : list byte) (oe : option error) :
  delivers r bs oe -> (n <= length bs)%nat ->
  exists r', ReadFull n r = Some (take n bs, None, r') /\ delivers r' (drop n bs) oe.
Proof.
  intros Hd Hl. destruct (read_at_least_enough n n r bs oe) as (r' & E & Hd'); [lia|done..|].
  exists r'. unfold ReadFull. by rewrite E.
Qed.

Lemma ReadFull_short (n : nat) (r : R) (bs : list byte) (e : error) :
  delivers r bs (Some e) -> (length bs < n)%nat ->
  exists r', ReadFull n r = Some (bs, Some (short_error bs e), r') /\
    delivers r' [] (Some e).
Proof.
  intros Hd Hl. destruct (read_at_least_short n n r bs e) as (r' & E & Hd'); [lia|done..|].
  exists r'. split; [|done]. unfold ReadFull, short_error. rewrite E.
  destruct e; repeat case_decide; intuition congruence.
Qed.

Lemma ReadFull_block (n : nat) (r : R) (bs : list byte) :
  delivers r bs None -> (length bs < n)%nat -> ReadFull n r = None.
Proof. intros Hd Hl. unfold ReadFull. by erewrite read_at_least_block. Qed.
End ReadFull.

(** * Network streams *)

(** The receiving side of a connection: the segments still to arrive, cut as
    the network cut them, and the error after them ([None]: still open). *)
Record stream : Type := Stream { st_chunks : list (list byte); st_end : option error }.

Fixpoint read_chunks (n : nat) (cs : list (list byte)) : option (list byte * list (list byte)) :=
  match cs with
  | [] => None
  | [] :: cs => read_chunks n cs
  | c :: cs => Some (take n c, drop n c :: cs)
  end.

(** [net.Conn.Read]: one segment at most; an empty [p] reads nothing. *)
#[export] Instance stream_reader : Reader stream := fun n s =>
  match n with
  | O => Some ([], None, s)
  | S _ =>
      match read_chunks n (st_chunks s) with
      | Some (c, cs) => Some (c, None, Stream cs (st_end s))
      | None => match st_end s with
                | None => None
                | Some e => Some ([], Some e, s)
                end
      end
  end.

Lemma read_chunks_nil (n : nat) (cs : list (list byte)) :
  concat cs = [] -> read_chunks n cs = None.
Proof. induction cs as [|[|b c] cs IH]; cbn; [done|done|discriminate]. Qed.

Lemma read_chunks_some (n : nat) (cs : list (list byte)) :
  (0 < n)%nat -> concat cs <> [] ->
  exists c cs', read_chunks n cs = Some (c, cs') /\ concat cs = c ++ concat cs' /\
    c <> [] /\ (length c <= n)%nat.
Proof.
  intros Hn. induction cs as [|[|b c] cs IH]; cbn [concat read_chunks]; intros Hne; [done|auto|].
  eexists _, _. split; [done|]. cbn [concat]. rewrite app_assoc, take_drop.
  split; [done|]. split; [by destruct n; [lia|]|]. rewrite length_take. lia.
Qed.

#[export] Instance stream_lawful : LawfulReader stream.
Proof.
  refine {| delivers s bs oe := concat (st_chunks s) = bs /\ st_end s = oe |}.
  - intros [cs e] n Hn [Hc He]. destruct n; [lia|]. cbn in *. subst.
    by rewrite read_chunks_nil.
  - intros [cs e] n e' Hn [Hc He]. destruct n; [lia|]. cbn in *. subst.
    rewrite read_chunks_nil by done. eauto.
  - intros [cs e] n bs oe Hn Hne [Hc He]. cbn in *. subst.
    destruct (read_chunks_some n cs Hn Hne) as (c & cs' & E & Hcat & Hc & Hl).
    exists c, (concat cs'), (Stream cs' oe).
    split; [|done]. destruct n; [lia|]. unfold rread, stream_reader. cbn [st_chunks]. by rewrite E.
Defined.

(** Two streams are equivalent when they carry the same bytes, however cut. *)
#[export] Instance stream_equiv : Equiv stream := fun s1 s2 =>
  concat (st_chunks s1) = concat (st_chunks s2) /\ st_end s1 = st_end s2.

#[export] Instance stream_equivalence : Equivalence (≡@{stream}).
Proof. split; repeat intros []; unfold equiv, stream_equiv in *; cbn in *; intuition congruence. Qed.

(** Results of reads that agree on bytes and error, and on the stream left up
    to equivalence. *)
Definition same_read {A} (x y : option (A * stream)) : Prop :=
  option_Forall2 (fun p q => p.1 = q.1 /\ p.2 ≡ q.2) x y.

Lemma same_read_Some {A} (a : A) (s1 s2 : stream) :
  s1 ≡ s2 -> same_read (Some (a, s1)) (Some (a, s2)).
Proof. by constructor. Qed.

Lemma same_read_None {A} : same_read (A:=A) None None.
Proof. constructor. Qed.

#[export] Hint Resolve same_read_Some same_read_None : go_bytes.

Lemma stream_delivers (s : stream) : delivers s (concat (st_chunks s)) (st_end s).
Proof. done. Qed.

Lemma stream_equiv_delivers (s1 s2 : stream) (bs : list byte) (oe : option error) :
  s1 ≡ s2 -> delivers s1 bs oe -> delivers s2 bs oe.
Proof. intros [E1 E2] [H1 H2]. split; cbn; congruence. Qed.

Lemma delivers_stream_equiv (s1 s2 : stream) (bs : list byte) (oe : option error) :
  delivers s1 bs oe -> delivers s2 bs oe -> s1 ≡ s2.
Proof. intros [H1 H2] [H3 H4]. split; cbn in *; congruence. Qed.

#[export] Hint Resolve stream_delivers stream_equiv_delivers delivers_stream_equiv : go_bytes.

#[export] Instance ReadFull_proper (n : nat) :
  Proper ((≡@{stream}) ==> same_read) (ReadFull n).
Proof.
  intros s1 s2 Heq. pose proof (stream_delivers s1) as H1.
  pose proof (stream_equiv_delivers _ _ _ _ Heq H1) as H2.
  set (bs := concat (st_chunks s1)) in *.
  destruct (decide (n <= length bs)%nat) as [Hl|Hl].
  - destruct (ReadFull_enough _ _ _ _ H1 Hl) as (r1 & -> & D1).
    destruct (ReadFull_enough _ _ _ _ H2 Hl) as (r2 & -> & D2).
    constructor. eauto with go_bytes.
  - destruct (st_end s1) as [e|].
    + destruct (ReadFull_short n s1 bs e) as (r1 & -> & D1); [done|lia|].
      destruct (ReadFull_short n s2 bs e) as (r2 & -> & D2); [done|lia|].
      constructor. eauto with go_bytes.
    + rewrite (ReadFull_block n s1 bs), (ReadFull_block n s2 bs) by (lia || assumption). constructor.
Qed.

(** * io.Writer *)

(** [wwrite p w] is [w.Write(p)]: the number of bytes taken, the error, and the
    writer afterwards. *)
Class Writer (W : Type) : Type := wwrite : list byte -> W -> nat * option error * W.

(** The contract of [io.Writer]: a short write returns an error. *)
Class LawfulWriter (W : Type) `{Writer W} : Type := {
  emitted : W -> list byte;
  wwrite_spec p w n oe w' : wwrite p w = (n, oe, w') ->
    (n <= length p)%nat /\ emitted w' = emitted w ++ take n p /\
    (oe = None -> n = length p);
}.

(** The sending side of a connection: the bytes put on the wire so far, and how
    many more it takes before it fails ([None]: it never fails). *)
Record sink : Type := Sink { sk_out : list byte; sk_room : option nat }.

#[export] Instance sink_writer : Writer sink := fun p s =>
  match sk_room s with
  | None => (length p, None, Sink (sk_out s ++ p) None)
  | Some k =>
      if decide (length p <= k)%nat
      then (length p, None, Sink (sk_out s ++ p) (Some (k - length p)%nat))
      else (k, Some ErrTimeout, Sink (sk_out s ++ take k p) (Some 0%nat))
  end.

#[export] Instance sink_lawful : LawfulWriter sink.
Proof.
  refine {| emitted := sk_out |}.
  intros p [out [k|]] n oe w'; unfold wwrite, sink_writer; cbn; intros E; split_guards.
  - rewrite take_ge by lia. auto.
  - split; [lia|]. done.
  - rewrite take_ge by lia. auto.
Defined.

Section Copy.
Context {W : Type} `{LawfulWriter W}.

(** [io.Copy(w, bytes.NewReader(data))]: the reader hands all its bytes to one
    [Write] ([bytes.Reader] is an [io.WriterTo]). *)
Definition copy_bytes (data : list byte) (w : W) : nat * option error * W :=
  if decide (data = []) then (0%nat, None, w)
  else match wwrite data w with
       | (m, None, w') =>
           if decide (m = length data) then (m, None, w') else (m, Some ErrShortWrite, w')
       | res => res
       end.

Lemma copy_bytes_spec (data : list byte) (w : W) (n : nat) (oe : option error) (w' : W) :
  copy_bytes data w = (n, oe, w') ->
  (n <= length data)%nat /\ emitted w' = emitted w ++ take n data /\
  (oe = None -> n = length data).
Proof.
  unfold copy_bytes. case_decide; [intros; simplify_eq/=; by rewrite app_nil_r|].
  destruct (wwrite data w) as [[m [e|]] w1] eqn:E; apply wwrite_spec in E as (? & ? & ?);
    intros; split_guards; intuition congruence.
Qed.
End Copy.

(** * Channels *)

(** A buffered channel, oldest element first. *)
Record chan (A : Type) : Type := Chan { ch_buf : list A; ch_cap : nat; ch_closed : bool }.
Arguments Chan {A} _ _ _.
Arguments ch_buf {A} _.
Arguments ch_cap {A} _.
Arguments ch_closed {A} _.

(** [c <- a] goes through, waits for room, or panics on a closed channel. *)
Inductive send_result (A : Type) : Type :=
  | Sent (c : chan A)
  | SendBlocks
  | SendPanics.
Arguments Sent {A} _.
Arguments SendBlocks {A}.
Arguments SendPanics {A}.

(** [<-c] takes the oldest element, waits, or sees the channel closed and
    drained (the zero value, [ok = false]). *)
Inductive recv_result (A : Type) : Type :=
  | Received (a : A) (c : chan A)
  | RecvClosed
  | RecvBlocks.
Arguments Received {A} _ _.
Arguments RecvClosed {A}.
Arguments RecvBlocks {A}.

Section Chan.
Context {A : Type}.
Implicit Types (c : chan A) (a : A).

Definition make_chan (cap : nat) : chan A := Chan [] cap false.

Definition chan_send a c : send_result A :=
  if ch_closed c then SendPanics
  else if decide (length (ch_buf c) < ch_cap c)%nat
  then Sent (Chan (ch_buf c ++ [a]) (ch_cap c) false)
  else SendBlocks.

Definition chan_recv c : recv_result A :=
  match ch_buf c with
  | a :: rest => Received a (Chan rest (ch_cap c) (ch_closed c))
  | [] => if ch_closed c then RecvClosed else RecvBlocks
  end.

(** [close(c)]; closing twice panics. *)
Definition chan_close c : option (chan A) :=
  if ch_closed c then None else Some (Chan (ch_buf c) (ch_cap c) true).

Definition chan_wf c : Prop := (length (ch_buf c) <= ch_cap c)%nat.

Lemma chan_send_wf a c c' : chan_wf c -> chan_send a c = Sent c' -> chan_wf c'.
Proof.
  unfold chan_wf, chan_send. intros. split_guards. rewrite length_app. cbn. lia.
Qed.

Lemma chan_recv_wf a c c' : chan_wf c -> chan_recv c = Received a c' -> chan_wf c'.
Proof. unfold chan_wf, chan_recv. destruct c as [[|b l] cap cl]; cbn; intros; split_guards. lia. Qed.

(** First in, first out. *)
Lemma chan_send_buf a c c' : chan_send a c = Sent c' -> ch_buf c' = ch_buf c ++ [a].
Proof. unfold chan_send. intros. by split_guards. Qed.

Lemma chan_recv_buf a c c' : chan_recv c = Received a c' -> ch_buf c = a :: ch_buf c'.
Proof. unfold chan_recv. intros. by split_guards. Qed.

Lemma chan_send_closed a c c' :
  chan_send a c = Sent c' -> ch_closed c = false /\ ch_closed c' = false.
Proof. unfold chan_send. intros. by split_guards. Qed.

Lemma chan_recv_closed a c c' : chan_recv c = Received a c' -> ch_closed c' = ch_closed c.
Proof. unfold chan_recv. intros. by split_guards. Qed.

(** Sending and receiving leave a channel's capacity, and whether it is closed. *)
Definition shape c : bool * nat := (ch_closed c, ch_cap c).

Lemma chan_send_shape a c c' : chan_send a c = Sent c' -> shape c' = shape c.
Proof. unfold chan_send, shape. intros. split_guards. cbn. congruence. Qed.

Lemma chan_recv_shape a c c' : chan_recv c = Received a c' -> shape c' = shape c.
Proof. unfold chan_recv. intros. by split_guards. Qed.
End Chan.

#[export] Hint Resolve chan_send_wf chan_recv_wf : go_bytes.

(** [bytes.Buffer] and [bytes.Reader]: the bytes not read yet. *)
Record bytesBuffer : Type := Buffer { buf_bytes : list byte }.

#[export] Instance bytesBuffer_reader : Reader bytesBuffer := fun n b =>
  match n, buf_bytes b with
  | O, _ => Some ([], None, b)
  | S _, [] => Some ([], Some EOF, b)
  | S _, l => Some (take n l, None, Buffer (drop n l))
  end.

#[export] Instance bytesBuffer_lawful : LawfulReader bytesBuffer.
Proof.
  refine {| delivers b bs oe := buf_bytes b = bs /\ oe = Some EOF |}.
  - intros [l] n Hn [? ?]. done.
  - intros [l] n e Hn [Hl He]. cbn in *. simplify_eq. exists (Buffer []). destruct n; [lia|done].
  - intros [l] n bs oe Hn Hne [Hl He]. cbn in *. subst l.
    exists (take n bs), (drop n bs), (Buffer (drop n bs)).
    destruct n as [|n]; [lia|]. destruct bs as [|x bs]; [done|].
    rewrite take_drop. repeat split; [discriminate| |done]. rewrite length_take. lia.
Defined.

(** * Outcomes of calls

    A call returns, panics, or waits for something that has not happened yet. *)
Inductive outcome (A : Type) : Type :=
  | Ret (a : A)
  | Panic
  | Blocks.
Arguments Ret {A} _.
Arguments Panic {A}.
Arguments Blocks {A}.

#[export] Instance outcome_ret : MRet outcome := fun A a => Ret a.
#[export] Instance outcome_bind : MBind outcome := fun A B f o =>
  match o with Ret a => f a | Panic => Panic | Blocks => Blocks end.

(** [x := <-c] without the [ok] flag: a closed channel yields the zero value. *)
Definition recv_or_zero {A} (zero : A) (c : chan A) : option (A * chan A) :=
  match chan_recv c with
  | Received a c' => Some (a, c')
  | RecvClosed => Some (zero, c)
  | RecvBlocks => None
  end.

(** A blocking send as a call. *)
Definition send_call {A} (a : A) (c : chan A) : outcome (chan A) :=
  match chan_send a c with Sent c' => Ret c' | SendBlocks => Blocks | SendPanics => Panic end.

(** [close(c)] as a call. *)
Definition close_call {A} (c : chan A) : outcome (chan A) :=
  match chan_close c with Some c' => Ret c' | None => Panic end.

(** * Connections

    A [net.Conn] reads and writes independently. *)
Class Duplex (C : Type) `{LawfulReader C} `{LawfulWriter C} : Prop := {
  write_delivers p c n oe c' bs e :
    wwrite p c = (n, oe, c') -> delivers c bs e -> delivers c' bs e;
  read_emitted n c bs oe c' : rread n c = Some (bs, oe, c') -> emitted c' = emitted c;
}.

Record duplex (R W : Type) : Type := mkDuplex { dx_in : R; dx_out : W }.
Arguments mkDuplex {R W} _ _.
Arguments dx_in {R W} _.
Arguments dx_out {R W} _.

Section DuplexInstance.
Context {R W : Type} `{LawfulReader R} `{LawfulWriter W}.

#[export] Instance duplex_reader : Reader (duplex R W) := fun n c =>
  match rread n (dx_in c) with
  | Some (bs, oe, r) => Some (bs, oe, mkDuplex r (dx_out c))
  | None => None
  end.

#[export] Instance duplex_writer : Writer (duplex R W) := fun p c =>
  let '(n, oe, w) := wwrite p (dx_out c) in (n, oe, mkDuplex (dx_in c) w).

#[export] Instance duplex_lawful_reader : LawfulReader (duplex R W).
Proof.
  refine {| delivers c := delivers (dx_in c) |}; intros c; unfold rread at 1, duplex_reader.
  - intros n Hn Hd. by rewrite rread_end.
  - intros n e Hn Hd. destruct (rread_error _ n e Hn Hd) as (r' & -> & ?). eauto.
  - intros n bs oe Hn Hne Hd. destruct (rread_more _ n bs oe Hn Hne Hd) as (ch & rest & r' & -> & ? & ? & ? & ?).
    eauto 10.
Defined.

#[export] Instance duplex_lawful_writer : LawfulWriter (duplex R W).
Proof.
  refine {| emitted c := emitted (dx_out c) |}.
  intros p c n oe c'. unfold wwrite at 1, duplex_writer.
  destruct (wwrite p (dx_out c)) as [[m e] w] eqn:E. intros [= <- <- <-]. by apply wwrite_spec in E.
Defined.

#[export] Instance duplex_duplex : Duplex (duplex R W).
Proof.
  split.
  - intros p c n oe c' bs e. unfold wwrite, duplex_writer.
    destruct (wwrite p (dx_out c)) as [[m e'] w]. by intros [= <- <- <-].
  - intros n c bs oe c'. unfold rread, duplex_reader.
    destruct (rread n (dx_in c)) as [[[b e] r]|]; [|done]. by intros [= <- <- <-].
Qed.
End DuplexInstance.

Section DuplexFacts.
Context {C : Type} `{Duplex C}.

Lemma read_at_least_emitted fuel need c bs oe c' :
  read_at_least fuel need c = Some (bs, oe, c') -> emitted c' = emitted c.
Proof.
  revert need c bs. induction fuel as [|fuel IH]; intros [|need] c bs; cbn [read_at_least];
    try (by intros [= <- <- <-]).
  destruct (rread (S need) c) as [[[ch [e|]] c1]|] eqn:E; [| |done]; apply read_emitted in E.
  - case_decide; by intros [= <- <- <-].
  - destruct (read_at_least fuel _ c1) as [[[ch' oe'] c2]|] eqn:E2; [|done].
    intros [= <- <- <-]. apply IH in E2. congruence.
Qed.

Lemma ReadFull_emitted n c bs oe c' : ReadFull n c = Some (bs, oe, c') -> emitted c' = emitted c.
Proof.
  unfold ReadFull. destruct (read_at_least n n c) as [[[b e] c1]|] eqn:E; [|done].
  apply read_at_least_emitted in E. intros H'. by split_guards.
Qed.

Lemma copy_bytes_delivers data c n oe c' bs e :
  copy_bytes data c = (n, oe, c') -> delivers c bs e -> delivers c' bs e.
Proof.
  unfold copy_bytes. case_decide; [by intros [= <- <- <-]|].
  destruct (wwrite data c) as [[m [err|]] c1] eqn:E; intros Heq Hd;
    pose proof (write_delivers _ _ _ _ _ _ _ E Hd); by split_guards.
Qed.
End DuplexFacts.
