(* ===== verification/Block.v ===== *)
(** block/block.go: the wire unit of the tunnels.  [Pack] lays a block out as a
    21-byte little-endian header followed by the data, [NewBlockFromReader]
    parses one from a connection, and the [New*Block*] constructors build the
    blocks of each kind. *)

From S2P Require Import Prelude GoIO.

Local Open Scope Z_scope.

Definition TypeConnect : Z := 0.
Definition TypeDisconnect : Z := 1.
Definition TypeData : Z := 2.
Definition TypePing : Z := 3.
Definition TypePong : Z := 4.

(** [iota] is not reset inside the [const] block. *)
Definition ShutdownRead : Z := 5.
Definition ShutdownWrite : Z := 6.
Definition ShutdownBoth : Z := 7.

Definition HeaderSize : Z := 1 + 4 + 8 + 4 + 4.
Definition DataSize : Z := 32 * 1024 - 13.
Definition MaxSize : Z := HeaderSize + DataSize.

Record Block : Type := mkBlock {
  Type_ : Z;                       (** uint8 *)
  ConnectionID : Z;                (** uint32 *)
  TimeStamp : Z;                   (** int64 *)
  BlockID : Z;                     (** uint32 *)
  BlockLength : Z;                 (** uint32 *)
  BlockData : list byte;
  packed : option (list byte);     (** [None] is the nil slice *)
}.

#[export] Instance Block_eq_dec : EqDecision Block.
Proof. solve_decision. Defined.

(** Go's zero value, what a receive from a closed channel yields. *)
Definition zero_block : Block := mkBlock 0 0 0 0 0 [] None.

#[export] Instance Block_inhabited : Inhabited Block := populate zero_block.

Definition set_packed (p : option (list byte)) (b : Block) : Block :=
  mkBlock (Type_ b) (ConnectionID b) (TimeStamp b) (BlockID b) (BlockLength b) (BlockData b) p.

Definition set_BlockData (d : list byte) (b : Block) : Block :=
  mkBlock (Type_ b) (ConnectionID b) (TimeStamp b) (BlockID b) (BlockLength b) d (packed b).

(** [block.Pack()]: the packed bytes, and the block with its cache filled. *)
Definition Pack (b : Block) : list byte * Block :=
  match packed b with
  | Some p => (p, b)
  | None =>
      let buf := replicate (Z.to_nat HeaderSize + length (BlockData b)) x00 in
      let buf := overwrite 0 [byte_of_Z (Type_ b)] buf in
      let buf := overwrite 1 (le_put 4 (ConnectionID b)) buf in
      let buf := overwrite 5 (le_put 8 (u64 (TimeStamp b))) buf in
      let buf := overwrite 13 (le_put 4 (BlockID b)) buf in
      let buf := overwrite 17 (le_put 4 (BlockLength b)) buf in
      let buf := overwrite (Z.to_nat HeaderSize) (BlockData b) buf in
      (buf, set_packed (Some buf) b)
  end.

(** [NewBlockFromReader(reader)]; [None] when the reader never returns. *)
Definition NewBlockFromReader {R} `{Reader R} (reader : R) : option (result error Block * R) :=
  match ReadFull (Z.to_nat HeaderSize) reader with
  | None => None
  | Some (_, Some err, reader) => Some (Err err, reader)
  | Some (headerBuf, None, reader) =>
      let typ := le_get (slice 0 1 headerBuf) in
      let cid := le_get (slice 1 5 headerBuf) in
      let ts := i64 (le_get (slice 5 13 headerBuf)) in
      let bid := le_get (slice 13 17 headerBuf) in
      let len := le_get (slice 17 21 headerBuf) in
      if decide (len > 0) then
        match ReadFull (Z.to_nat len) reader with
        | None => None
        | Some (_, Some err, reader) => Some (Err err, reader)
        | Some (data, None, reader) => Some (Ok (mkBlock typ cid ts bid len data None), reader)
        end
      else Some (Ok (mkBlock typ cid ts bid len [] None), reader)
  end.

(** The constructors; [now] is what [time.Now().UnixNano()] returns. *)

Definition NewConnectBlock (now connectID blockID : Z) (address : string) : Block :=
  let data := String.list_byte_of_string address in
  mkBlock TypeConnect connectID now blockID (u32 (Z.of_nat (length data))) data None.

Definition newDataBlock (now connectID blockID : Z) (data : list byte) : Block :=
  let blk := mkBlock TypeData connectID now blockID (u32 (Z.of_nat (length data))) data None in
  (Pack blk).2.

Definition NewDisconnectBlock (now connectID blockID shutdownType : Z) : Block :=
  mkBlock TypeDisconnect connectID now blockID 1 [byte_of_Z shutdownType] None.

Definition NewPingBlock (now connectID blockID lancenty : Z) : Block :=
  mkBlock TypePing connectID now blockID 8 (le_put 8 lancenty) None.

Definition NewPongBlock (now connectID blockID timestamp : Z) : Block :=
  mkBlock TypePong connectID now blockID 8 (le_put 8 timestamp) None.

(** The loop of [NewDataBlocks]: [now k] is the clock at the [k]-th block;
    [blockID.Inc()-1] returns the counter's old value.  [fuel] bounds the
    iterations; the length of [data] is enough. *)
Fixpoint NewDataBlocks_loop (fuel : nat) (connectID : Z) (now : nat -> Z)
    (data : list byte) (k cursor : nat) (blockID : Z) : list Block * Z :=
  match fuel with
  | O => ([], blockID)
  | S fuel =>
      if decide (cursor < length data)%nat then
        let end_ := (cursor + Z.to_nat DataSize)%nat in
        let end_ := if decide (length data < end_)%nat then length data else end_ in
        let blockID := u32 (blockID + 1) in
        let blk := newDataBlock (now k) connectID (u32 (blockID - 1)) (slice cursor end_ data) in
        let '(blocks, blockID) := NewDataBlocks_loop fuel connectID now data (S k) end_ blockID in
        (blk :: blocks, blockID)
      else ([], blockID)
  end.

(** [NewDataBlocks(connectID, blockID, data)]: the blocks and the counter. *)
Definition NewDataBlocks (connectID blockID : Z) (now : nat -> Z) (data : list byte)
    : list Block * Z :=
  NewDataBlocks_loop (length data) connectID now data 0 0 blockID.

(** * Specification *)

(** The byte layout of a block. *)
Definition encode (b : Block) : list byte :=
  [byte_of_Z (Type_ b)] ++ le_put 4 (ConnectionID b) ++ le_put 8 (u64 (TimeStamp b)) ++
  le_put 4 (BlockID b) ++ le_put 4 (BlockLength b) ++ BlockData b.

(** A block whose fields have their Go types and whose length field is right. *)
Record block_wf (b : Block) : Prop := {
  wf_type : is_u8 (Type_ b);
  wf_cid : is_u32 (ConnectionID b);
  wf_ts : is_i64 (TimeStamp b);
  wf_bid : is_u32 (BlockID b);
  wf_len_range : is_u32 (BlockLength b);
  wf_len : BlockLength b = Z.of_nat (length (BlockData b));
}.

(** The blocks a tunnel keeps to itself. *)
Definition keepalive (b : Block) : Prop := Type_ b = TypePing \/ Type_ b = TypePong.

(** The cache, when filled, holds the layout. *)
Definition packed_ok (b : Block) : Prop := packed b = None \/ packed b = Some (encode b).

(** What a receiver gets: the same block with the cache empty. *)
Definition received (b : Block) : Block := set_packed None b.

(** What a connection may pass on: a block that [Pack] lays out right. *)
Definition sendable (b : Block) : Prop := block_wf b /\ packed_ok b /\ ~ keepalive b.

#[export] Instance block_wf_dec (b : Block) : Decision (block_wf b).
Proof.
  refine (cast_if (decide (is_u8 (Type_ b) /\ is_u32 (ConnectionID b) /\ is_i64 (TimeStamp b) /\
    is_u32 (BlockID b) /\ is_u32 (BlockLength b) /\
    BlockLength b = Z.of_nat (length (BlockData b)))));
  abstract (first [ by destruct_and!; constructor | by intros []; tauto ]).
Defined.

(** * Layout *)

Definition header (b : Block) : list byte :=
  [byte_of_Z (Type_ b)] ++ le_put 4 (ConnectionID b) ++ le_put 8 (u64 (TimeStamp b)) ++
  le_put 4 (BlockID b) ++ le_put 4 (BlockLength b).

Lemma encode_header (b : Block) : encode b = header b ++ BlockData b.
Proof. unfold encode, header. by rewrite <-!app_assoc. Qed.

Lemma length_header (b : Block) : length (header b) = Z.to_nat HeaderSize.
Proof. reflexivity. Qed.

Lemma length_encode (b : Block) :
  length (encode b) = (Z.to_nat HeaderSize + length (BlockData b))%nat.
Proof. by rewrite encode_header, length_app, length_header. Qed.

Lemma Pack_None (b : Block) : packed b = None -> (Pack b).1 = encode b.
Proof.
  intros E. unfold Pack. rewrite E. cbn [fst].
  change (Z.to_nat HeaderSize) with 21%nat.
  rewrite overwrite_0, drop_replicate.
  rewrite (overwrite_app 1) by done. rewrite drop_replicate.
  rewrite (overwrite_app 5) by (by autorewrite with go_bytes). rewrite drop_replicate.
  rewrite (overwrite_app 13) by (by rewrite !length_app; autorewrite with go_bytes).
  rewrite drop_replicate.
  rewrite (overwrite_app 17) by (by rewrite !length_app; autorewrite with go_bytes).
  rewrite drop_replicate.
  rewrite (overwrite_app 21) by (by rewrite !length_app; autorewrite with go_bytes).
  rewrite drop_replicate. autorewrite with go_bytes.
  replace (replicate _ x00) with (@nil byte)
    by (symmetry; apply length_zero_iff_nil; rewrite length_replicate; cbn; lia).
  unfold encode. by rewrite app_nil_r, <-!app_assoc.
Qed.

Lemma Pack_encode (b : Block) : packed_ok b -> (Pack b).1 = encode b.
Proof. intros [E|E]; [by apply Pack_None|]. unfold Pack. by rewrite E. Qed.

Lemma Pack_packed_ok (b : Block) : packed_ok b -> packed_ok (Pack b).2.
Proof.
  intros [E|E].
  - right. pose proof (Pack_None b E) as P. revert P. unfold Pack. rewrite E. cbn. by intros ->.
  - unfold Pack. rewrite E. by right.
Qed.

Lemma Pack_received (b : Block) : received (Pack b).2 = received b.
Proof. unfold Pack. by destruct (packed b). Qed.

Lemma encode_received (b : Block) : encode (received b) = encode b.
Proof. done. Qed.

Lemma received_idemp (b : Block) : received (received b) = received b.
Proof. done. Qed.

(** What a tunnel that has received the block passes on: the block parsed, with
    the cache its [Pack] has filled. *)
Definition forwarded (b : Block) : Block := (Pack (received b)).2.

Lemma forwarded_received (b : Block) : received (forwarded b) = received b.
Proof. unfold forwarded. by rewrite Pack_received. Qed.

Lemma forwarded_fields (b : Block) :
  Type_ (forwarded b) = Type_ b /\ ConnectionID (forwarded b) = ConnectionID b /\
  BlockID (forwarded b) = BlockID b /\ BlockData (forwarded b) = BlockData b.
Proof. done. Qed.

Lemma block_wf_received (b : Block) : block_wf (received b) <-> block_wf b.
Proof. split; intros []; by constructor. Qed.

(** The fields read back from the header. *)
Lemma parse_header (b : Block) :
  block_wf b ->
  le_get (slice 0 1 (header b)) = Type_ b /\
  le_get (slice 1 5 (header b)) = ConnectionID b /\
  i64 (le_get (slice 5 13 (header b))) = TimeStamp b /\
  le_get (slice 13 17 (header b)) = BlockID b /\
  le_get (slice 17 21 (header b)) = BlockLength b.
Proof.
  intros [Ht Hc Hs Hb Hl _].
  change (slice 0 1 (header b)) with [byte_of_Z (Type_ b)].
  change (slice 1 5 (header b)) with (le_put 4 (ConnectionID b)).
  change (slice 5 13 (header b)) with (le_put 8 (u64 (TimeStamp b))).
  change (slice 13 17 (header b)) with (le_put 4 (BlockID b)).
  change (slice 17 21 (header b)) with (le_put 4 (BlockLength b)).
  rewrite !le_get_put. unfold is_u8, is_u32 in *.
  split; [cbn [le_get]; rewrite Z_of_byte_of_Z, u8_small by (unfold is_u8; lia); lia|].
  split; [by apply Z.mod_small|].
  split; [|split; by apply Z.mod_small].
  rewrite (Z.mod_small (u64 _)) by apply u64_range. by apply i64_u64.
Qed.

(** * Parsing *)

Section Parse.
Context {R : Type} `{LawfulReader R}.
Implicit Types (r : R).

(** What the parser makes of a stream that starts with a whole header. *)
Lemma parse_step r (b : Block) (data : list byte) (oe : option error) :
  block_wf b -> delivers r (header b ++ data) oe ->
  exists r1, delivers r1 data oe /\
    NewBlockFromReader r =
      if decide (BlockLength b > 0) then
        match ReadFull (Z.to_nat (BlockLength b)) r1 with
        | None => None
        | Some (_, Some err, r2) => Some (Err err, r2)
        | Some (d, None, r2) =>
            Some (Ok (mkBlock (Type_ b) (ConnectionID b) (TimeStamp b) (BlockID b)
                        (BlockLength b) d None), r2)
        end
      else Some (Ok (mkBlock (Type_ b) (ConnectionID b) (TimeStamp b) (BlockID b)
                       (BlockLength b) [] None), r1).
Proof.
  intros Hwf Hd.
  destruct (ReadFull_enough (Z.to_nat HeaderSize) r _ _ Hd) as (r1 & E & Hd1).
  { rewrite length_app, length_header. lia. }
  exists r1. rewrite drop_app_length' in Hd1 by (by rewrite length_header).
  split; [done|]. unfold NewBlockFromReader. rewrite E.
  rewrite take_app_length' by (by rewrite length_header).
  destruct (parse_header b Hwf) as (-> & -> & -> & -> & ->). done.
Qed.

Lemma parse_encode r (b : Block) (rest : list byte) (oe : option error) :
  block_wf b -> delivers r (encode b ++ rest) oe ->
  exists r', NewBlockFromReader r = Some (Ok (received b), r') /\ delivers r' rest oe.
Proof.
  intros Hwf. rewrite encode_header, <-app_assoc. intros Hd.
  destruct (parse_step r b _ oe Hwf Hd) as (r1 & Hd1 & ->).
  pose proof (wf_len b Hwf) as Hlen. case_decide as Hpos.
  - destruct (ReadFull_enough (Z.to_nat (BlockLength b)) r1 _ _ Hd1) as (r2 & -> & Hd2).
    { rewrite length_app. lia. }
    rewrite take_app_length', drop_app_length' in * by lia. by exists r2.
  - destruct b as [ty cid ts bid len data pk]; cbn in *.
    assert (data = []) as -> by (destruct data; [done|cbn in Hlen; lia]).
    by exists r1.
Qed.

(** A stream that ends inside a block. *)
Lemma parse_short r (b : Block) (k : nat) (e : error) :
  block_wf b -> (k < length (encode b))%nat ->
  delivers r (take k (encode b)) (Some e) ->
  exists r', NewBlockFromReader r =
    Some (Err (short_error (if decide (k < Z.to_nat HeaderSize)%nat then take k (encode b)
                            else drop (Z.to_nat HeaderSize) (take k (encode b))) e), r').
Proof.
  intros Hwf Hk Hd. case_decide as Hh.
  - destruct (ReadFull_short (Z.to_nat HeaderSize) r _ _ Hd) as (r' & E & _).
    { rewrite length_take. lia. }
    exists r'. unfold NewBlockFromReader. by rewrite E.
  - pose proof (wf_len b Hwf) as Hlen. rewrite length_encode in Hk.
    rewrite encode_header, take_app, (take_ge (header b)) in * by (rewrite length_header; lia).
    rewrite length_header in *. rewrite drop_app_length' by (by rewrite length_header).
    destruct (parse_step r b _ _ Hwf Hd) as (r1 & Hd1 & ->).
    rewrite decide_True by lia.
    destruct (ReadFull_short (Z.to_nat (BlockLength b)) r1 _ _ Hd1) as (r2 & -> & _).
    { rewrite length_take. lia. }
    by exists r2.
Qed.
End Parse.

(** The block a header describes. *)
Definition header_block (h : list byte) (data : list byte) : Block :=
  mkBlock (le_get (slice 0 1 h)) (le_get (slice 1 5 h)) (i64 (le_get (slice 5 13 h)))
    (le_get (slice 13 17 h)) (le_get (slice 17 21 h)) data None.

Lemma header_header_block (h data : list byte) :
  length h = 21%nat -> header (header_block h data) = h.
Proof.
  intros Hl. unfold header, header_block; cbn [Type_ ConnectionID TimeStamp BlockID BlockLength].
  assert (L4 : length (slice 5 13 h) = 8%nat) by (rewrite length_slice; lia).
  rewrite u64_i64.
  2:{ pose proof (le_get_range (slice 5 13 h)) as B. by rewrite L4 in B. }
  rewrite !le_put_get_n by (rewrite length_slice; lia).
  assert (length (slice 0 1 h) = 1%nat) as L1 by (rewrite length_slice; lia).
  destruct (slice 0 1 h) as [|x [|]] eqn:E; try done. cbn [le_get].
  rewrite Z.mul_0_r, Z.add_0_r, byte_of_Z_of_byte, <-E.
  rewrite !slice_app by lia. rewrite <-Hl. apply slice_all.
Qed.

Lemma header_block_wf (h data : list byte) :
  length h = 21%nat -> le_get (slice 17 21 h) = Z.of_nat (length data) ->
  block_wf (header_block h data).
Proof.
  intros Hl Hd.
  constructor; try (apply le_get_u32; rewrite length_slice; lia); [|apply i64_range|exact Hd].
  unfold is_u8. pose proof (le_get_range (slice 0 1 h)) as B. by rewrite length_slice in B by lia.
Qed.

Section ParseSound.
Context {R : Type} `{LawfulReader R}.

(** Whatever the parser accepts is the layout of the block it returns. *)
Lemma parse_inv (r r' : R) (bs : list byte) (oe : option error) (b : Block) :
  delivers r bs oe -> NewBlockFromReader r = Some (Ok b, r') ->
  block_wf b /\ packed b = None /\
  exists rest, bs = encode b ++ rest /\ delivers r' rest oe.
Proof.
  intros Hd Hp.
  destruct (decide (Z.to_nat HeaderSize <= length bs)%nat) as [Hl|Hl].
  2:{ unfold NewBlockFromReader in Hp. destruct oe as [e|].
      - destruct (ReadFull_short (Z.to_nat HeaderSize) r bs e) as (r1 & E & _); [done|lia|].
        by rewrite E in Hp.
      - by rewrite (ReadFull_block _ _ bs) in Hp by (done || lia). }
  change (Z.to_nat HeaderSize) with 21%nat in *.
  pose (h := take 21 bs). assert (length h = 21%nat) as Hh by (subst h; rewrite length_take; lia).
  destruct (ReadFull_enough 21 r bs oe) as (r1 & E & Hd1); [done..|].
  unfold NewBlockFromReader in Hp. change (Z.to_nat HeaderSize) with 21%nat in Hp.
  rewrite E in Hp. fold h in Hp.
  assert (forall data rest r2, le_get (slice 17 21 h) = Z.of_nat (length data) ->
    drop 21 bs = data ++ rest -> delivers r2 rest oe ->
    block_wf (header_block h data) /\ packed (header_block h data) = None /\
    exists rest, bs = encode (header_block h data) ++ rest /\ delivers r2 rest oe) as Hfin.
  { intros data rest r2 Hlen Hdata Hd2. split; [by apply header_block_wf|]. split; [done|].
    exists rest. split; [|done].
    rewrite encode_header, header_header_block, <-app_assoc by done.
    change (BlockData (header_block h data)) with data. rewrite <-Hdata. unfold h.
    by rewrite take_drop. }
  case_decide as Hpos; cycle 1.
  { simplify_eq. apply (Hfin [] (drop 21 bs)); [|done..].
    pose proof (le_get_range (slice 17 21 h)). change (Z.of_nat (length (@nil byte))) with 0. lia. }
  set (n := Z.to_nat (le_get (slice 17 21 h))) in *.
  destruct (decide (n <= length (drop 21 bs))%nat) as [Hn|Hn].
  - destruct (ReadFull_enough n r1 _ _ Hd1 Hn) as (r2 & E2 & Hd2).
    rewrite E2 in Hp. simplify_eq. apply (Hfin _ (drop n (drop 21 bs))); [|by rewrite take_drop|done].
    rewrite length_take. lia.
  - destruct oe as [e|].
    + destruct (ReadFull_short n r1 _ _ Hd1) as (r2 & E2 & _); [lia|]. by rewrite E2 in Hp.
    + rewrite (ReadFull_block n r1 _ Hd1) in Hp by lia. done.
Qed.
End ParseSound.

#[export] Instance NewBlockFromReader_proper :
  Proper ((≡@{stream}) ==> same_read) NewBlockFromReader.
Proof.
  intros s1 s2 Heq. unfold NewBlockFromReader.
  destruct (ReadFull_proper (Z.to_nat HeaderSize) s1 s2 Heq) as [[[h [e|]] t1] [[h' oe'] t2] [Hb Ht]|];
    cbn [fst snd] in *; simplify_eq; auto with go_bytes.
  case_decide as Hlen; [|auto with go_bytes].
  destruct (ReadFull_proper (Z.to_nat (le_get (slice 17 21 h'))) t1 t2 Ht)
    as [[[d [e|]] u1] [[d' oe'] u2] [Hb' Ht']|]; cbn [fst snd] in *; simplify_eq;
    auto with go_bytes.
Qed.

(** * Splitting into data blocks *)

(** Consecutive IDs, starting at the counter, on consecutive pieces. *)
Definition number_blocks (connectID : Z) (now : nat -> Z) (k : nat) (blockID : Z)
    (chunks : list (list byte)) : list Block :=
  imap (fun i d => newDataBlock (now (k + i)%nat) connectID (u32 (blockID + Z.of_nat i)) d) chunks.

Definition chunk_ok (c : list byte) : Prop := (0 < length c <= Z.to_nat DataSize)%nat.

Lemma number_blocks_cons cid now k bid c cs :
  is_u32 bid ->
  number_blocks cid now k bid (c :: cs) =
  newDataBlock (now k) cid bid c :: number_blocks cid now (S k) (u32 (bid + 1)) cs.
Proof.
  intros Hb. unfold number_blocks. cbn [imap]. rewrite Nat.add_0_r, Z.add_0_r, u32_small by done.
  f_equal. apply imap_ext. intros i x _. unfold compose.
  rewrite u32_add_l. replace (S k + i)%nat with (k + S i)%nat by lia.
  by replace (bid + 1 + Z.of_nat i) with (bid + Z.of_nat (S i)) by lia.
Qed.

Lemma DataSize_pos : (0 < Z.to_nat DataSize)%nat.
Proof. assert (0 < DataSize) by done. lia. Qed.

Lemma Forall_removelast_cons {A} (P : A -> Prop) (x : A) (l : list A) :
  (l <> [] -> P x) -> Forall P (removelast l) -> Forall P (removelast (x :: l)).
Proof. destruct l as [|y l]; cbn; [constructor|]. intros. constructor; auto. Qed.

Lemma NewDataBlocks_loop_types fuel cid now data k cursor bid :
  Forall (fun b => Type_ b = TypeData) (NewDataBlocks_loop fuel cid now data k cursor bid).1.
Proof.
  revert k cursor bid. induction fuel as [|fuel IH]; intros k cursor bid; cbn [NewDataBlocks_loop]; [apply Forall_nil_2|].
  case_decide; [|apply Forall_nil_2]. set (e := if decide _ then _ else _).
  specialize (IH (S k) e (u32 (bid + 1))). destruct (NewDataBlocks_loop _ _ _ _ _ _ _) as [bs n].
  by apply Forall_cons_2.
Qed.

(** A step of the loop, on what is left of the data. *)
Lemma loop_chunk (data : list byte) (cursor : nat) :
  (cursor < length data)%nat ->
  let e := if decide (length data < cursor + Z.to_nat DataSize)%nat then length data else (cursor + Z.to_nat DataSize)%nat in
  slice cursor e data = take (Z.to_nat DataSize) (drop cursor data) /\ drop e data = drop (Z.to_nat DataSize) (drop cursor data).
Proof.
  intros Hc. cbv zeta. unfold slice. rewrite drop_drop. case_decide as Hd.
  - rewrite (take_ge _ (length data - cursor)), (take_ge _ (Z.to_nat DataSize)) by (rewrite length_drop; lia).
    split; [done|]. by rewrite (drop_ge _ (length data)), (drop_ge _ (cursor + Z.to_nat DataSize)) by lia.
  - split; [|done]. f_equal. lia.
Qed.

(** The loop depends on what is left of the data and on the clock readings to come. *)
Lemma NewDataBlocks_loop_ext fuel cid (now now' : nat -> Z) (data data' : list byte) k k' cursor cursor' bid :
  drop cursor data = drop cursor' data' -> (forall j, now (k + j)%nat = now' (k' + j)%nat) ->
  NewDataBlocks_loop fuel cid now data k cursor bid = NewDataBlocks_loop fuel cid now' data' k' cursor' bid.
Proof.
  revert k k' cursor cursor' bid. induction fuel as [|fuel IH]; intros k k' cursor cursor' bid Hd Hn; [done|].
  cbn [NewDataBlocks_loop].
  assert ((cursor < length data)%nat <-> (cursor' < length data')%nat) as Hiff.
  { apply (f_equal length) in Hd. rewrite !length_drop in Hd. lia. }
  destruct (decide (cursor < length data)%nat) as [Hc|Hc]; [|by rewrite decide_False by (by rewrite <-Hiff)].
  pose proof (proj1 Hiff Hc) as Hc'. rewrite (decide_True _ _ Hc').
  destruct (loop_chunk data cursor Hc) as [S1 D1], (loop_chunk data' cursor' Hc') as [S2 D2].
  set (e := if decide (length data < _)%nat then _ else _) in *. set (e' := if decide (length data' < _)%nat then _ else _) in *.
  rewrite S1, S2, Hd. pose proof (Hn 0%nat) as H0. rewrite !Nat.add_0_r in H0. rewrite H0.
  rewrite (IH (S k) (S k') e e'); [done|by rewrite D1, D2, Hd|]. intros j. specialize (Hn (S j)). by rewrite !Nat.add_succ_r in Hn.
Qed.

(** Fuel for the bytes that are left is enough. *)
Lemma NewDataBlocks_loop_fuel fuel fuel' cid now (data : list byte) k cursor bid :
  (length data - cursor <= fuel)%nat -> (length data - cursor <= fuel')%nat ->
  NewDataBlocks_loop fuel cid now data k cursor bid = NewDataBlocks_loop fuel' cid now data k cursor bid.
Proof.
  pose proof DataSize_pos as HD. revert fuel' k cursor bid.
  induction fuel as [|fuel IH]; intros [|fuel'] k cursor bid Hf Hf'; cbn [NewDataBlocks_loop]; [done|by rewrite decide_False by lia..|].
  destruct (decide (cursor < length data)%nat) as [Hc|Hc]; [|done].
  rewrite (IH fuel'); [done|..]; case_decide; lia.
Qed.

(** Data that fits goes in one block. *)
Lemma NewDataBlocks_one cid bid now (data : list byte) :
  data <> [] -> (length data <= Z.to_nat DataSize)%nat ->
  NewDataBlocks cid bid now data = ([newDataBlock (now 0%nat) cid (u32 (u32 (bid + 1) - 1)) data], u32 (bid + 1)).
Proof.
  intros Hne Hs. unfold NewDataBlocks. destruct (length data) as [|n] eqn:El; [by destruct data|]. cbn [NewDataBlocks_loop].
  destruct (loop_chunk data 0 ltac:(lia)) as [S1 D1]. rewrite drop_0 in S1, D1. rewrite decide_True by lia.
  rewrite (take_ge data) in S1 by lia. rewrite (drop_ge data (Z.to_nat DataSize)) in D1 by lia. rewrite El in *.
  set (e := if decide (S n < _)%nat then _ else _) in *. rewrite S1.
  apply (f_equal length) in D1. rewrite length_drop in D1. cbn in D1.
  destruct n; [done|]. cbn [NewDataBlocks_loop]. by rewrite decide_False by lia.
Qed.

(** The blocks of data are those of its first block's worth and those of the rest. *)
Lemma NewDataBlocks_cons cid bid now (data : list byte) :
  data <> [] ->
  NewDataBlocks cid bid now data =
    let '(bs1, n1) := NewDataBlocks cid bid (fun _ => now 0%nat) (take (Z.to_nat DataSize) data) in
    let '(bs2, n2) := NewDataBlocks cid n1 (fun k => now (S k)) (drop (Z.to_nat DataSize) data) in
    (bs1 ++ bs2, n2).
Proof.
  intros Hne. pose proof DataSize_pos as HD. assert (0 < length data)%nat as Hl by (destruct data; [done|cbn; lia]).
  set (first := take (Z.to_nat DataSize) data). assert (0 < length first)%nat as Hl1 by (unfold first; rewrite length_take; lia).
  rewrite (NewDataBlocks_one cid bid _ first); [|by intros E; rewrite E in Hl1; cbn in Hl1; lia|unfold first; rewrite length_take; lia].
  cbn beta iota. unfold NewDataBlocks. destruct (length data) as [|n] eqn:El; [lia|]. cbn [NewDataBlocks_loop].
  rewrite El, decide_True by lia. destruct (loop_chunk data 0 ltac:(lia)) as [S1 D1]. rewrite El in S1, D1. rewrite drop_0 in *.
  set (e := if decide (S n < _)%nat then _ else _) in *. rewrite S1. fold first.
  assert (0 < e)%nat as He by (unfold e; case_decide; lia).
  rewrite (NewDataBlocks_loop_ext n cid now (fun k => now (S k)) data (drop (Z.to_nat DataSize) data) 1 0 e 0);
    [|by rewrite drop_0|done].
  rewrite (NewDataBlocks_loop_fuel n (length (drop (Z.to_nat DataSize) data))) by (rewrite ?length_drop; lia).
  by destruct (NewDataBlocks_loop _ _ _ _ _ _ _).
Qed.

Lemma NewDataBlocks_loop_spec (fuel : nat) (cid : Z) (now : nat -> Z) (data : list byte)
    (k cursor : nat) (bid : Z) :
  (length data - cursor <= fuel)%nat -> is_u32 bid ->
  exists chunks, concat chunks = drop cursor data /\ Forall chunk_ok chunks /\
    Forall (fun c => length c = Z.to_nat DataSize) (removelast chunks) /\
    NewDataBlocks_loop fuel cid now data k cursor bid =
      (number_blocks cid now k bid chunks, u32 (bid + Z.of_nat (length chunks))).
Proof.
  pose proof DataSize_pos as HD.
  revert k cursor bid. induction fuel as [|fuel IH]; intros k cursor bid Hf Hb.
  - exists []. rewrite drop_ge by lia. cbn. rewrite Z.add_0_r, u32_small by done. auto.
  - cbn [NewDataBlocks_loop]. case_decide as Hc.
    2:{ exists []. rewrite drop_ge by lia. cbn. rewrite Z.add_0_r, u32_small by done. auto. }
    set (e := if decide (length data < cursor + Z.to_nat DataSize)%nat then length data
              else (cursor + Z.to_nat DataSize)%nat).
    assert (cursor < e <= length data /\ e <= cursor + Z.to_nat DataSize /\
      (e < length data -> e = cursor + Z.to_nat DataSize))%nat as (He & He' & Hfull)
      by (subst e; case_decide; lia).
    destruct (IH (S k) e (u32 (bid + 1))) as (cs & Hcat & Hok & Hlast & ->);
      [lia|apply u32_range|].
    exists (slice cursor e data :: cs). split; [|split; [|split]].
    + cbn. rewrite Hcat. unfold slice.
      replace (drop e data) with (drop (e - cursor) (drop cursor data))
        by (rewrite drop_drop; f_equal; lia).
      apply take_drop.
    + constructor; [|done]. unfold chunk_ok. rewrite length_slice by lia. lia.
    + apply Forall_removelast_cons; [|done]. intros Hne. rewrite length_slice by lia.
      rewrite Hfull; [lia|]. destruct (decide (e < length data)%nat); [done|].
      rewrite drop_ge in Hcat by lia. destruct cs as [|c cs]; [done|].
      apply Forall_cons in Hok as [Hc1 _]. unfold chunk_ok in Hc1.
      apply (f_equal length) in Hcat. cbn in Hcat. rewrite length_app in Hcat. lia.
    + rewrite number_blocks_cons by done.
      assert (u32 (u32 (bid + 1) - 1) = bid) as ->.
      { unfold u32, is_u32 in *. rewrite Zminus_mod_idemp_l.
        rewrite Z.mod_small by lia. lia. }
      f_equal. rewrite u32_add_l. f_equal. cbn [length]. lia.
Qed.

(** The blocks made from one write. *)
Lemma NewDataBlocks_spec (cid bid : Z) (now : nat -> Z) (data : list byte) :
  is_u32 bid ->
  exists chunks, concat chunks = data /\ Forall chunk_ok chunks /\
    Forall (fun c => length c = Z.to_nat DataSize) (removelast chunks) /\
    NewDataBlocks cid bid now data =
      (number_blocks cid now 0 bid chunks, u32 (bid + Z.of_nat (length chunks))).
Proof.
  intros Hb. destruct (NewDataBlocks_loop_spec (length data) cid now data 0 0 bid)
    as (cs & Hcat & H); [lia|done|]. exists cs. split; [exact Hcat|exact H].
Qed.

Lemma number_blocks_data cid now k bid cs :
  BlockData <$> number_blocks cid now k bid cs = cs.
Proof.
  unfold number_blocks. rewrite fmap_imap. apply list_eq. intros i.
  rewrite list_lookup_imap. by destruct (cs !! i).
Qed.

Lemma newDataBlock_wf (now cid bid : Z) (d : list byte) :
  is_i64 now -> is_u32 cid -> is_u32 bid -> is_u32 (Z.of_nat (length d)) ->
  block_wf (newDataBlock now cid bid d) /\ packed_ok (newDataBlock now cid bid d).
Proof.
  intros Hn Hc Hb Hd. unfold newDataBlock. split.
  - apply block_wf_received. rewrite Pack_received. apply block_wf_received.
    constructor; cbn; auto with go_bytes; [by unfold is_u8, TypeData|by apply u32_small].
  - apply Pack_packed_ok. by left.
Qed.

(** What a block carries laid out with it is its encoding, whatever it holds. *)
Lemma newDataBlock_packed (now cid bid : Z) (d : list byte) : packed_ok (newDataBlock now cid bid d).
Proof. apply Pack_packed_ok. by left. Qed.

Lemma NewDataBlocks_packed cid bid now (data : list byte) : Forall packed_ok (NewDataBlocks cid bid now data).1.
Proof.
  assert (forall fuel k cursor b, Forall packed_ok (NewDataBlocks_loop fuel cid now data k cursor b).1) as Hl; [|apply Hl].
  intros fuel. induction fuel as [|fuel IH]; intros k cursor b; cbn [NewDataBlocks_loop]; [apply Forall_nil_2|].
  case_decide; [|apply Forall_nil_2]. set (e := if decide _ then _ else _). specialize (IH (S k) e (u32 (b + 1))).
  destruct (NewDataBlocks_loop _ _ _ _ _ _ _) as [bs n]. apply Forall_cons_2; [apply newDataBlock_packed|exact IH].
Qed.

(** The constructors make blocks that can be sent. *)
Lemma connect_sendable (now cid bid : Z) (address : string) :
  is_i64 now -> is_u32 cid -> is_u32 bid -> Z.of_nat (length (String.list_byte_of_string address)) < 2 ^ 32 ->
  sendable (NewConnectBlock now cid bid address).
Proof.
  intros Hn Hc Hb Hl. split; [|split; [by left|by intros [?|?]]]. constructor; cbn [NewConnectBlock Type_ ConnectionID TimeStamp BlockID BlockLength BlockData];
    try done; [apply u32_range|apply u32_small; unfold is_u32; lia].
Qed.

Lemma disconnect_sendable (now cid bid st : Z) :
  is_i64 now -> is_u32 cid -> is_u32 bid -> sendable (NewDisconnectBlock now cid bid st).
Proof. intros. split; [by constructor|]. split; [by left|by intros [?|?]]. Qed.

Lemma data_blocks_sendable (cid bid : Z) (now : nat -> Z) (data : list byte) :
  (forall k, is_i64 (now k)) -> is_u32 cid -> is_u32 bid -> Forall sendable (NewDataBlocks cid bid now data).1.
Proof.
  intros Hn Hc Hb. destruct (NewDataBlocks_spec cid bid now data Hb) as (cs & _ & Hok & _ & ->). cbn [fst].
  apply Forall_lookup_2. intros i b. unfold number_blocks. rewrite list_lookup_imap.
  destruct (cs !! i) as [c|] eqn:Ei; [|done]. intros [= <-].
  pose proof (Forall_lookup_1 _ _ _ _ Hok Ei) as Hc1.
  apply and_assoc. split; [|by intros [?|?]].
  apply newDataBlock_wf; [done..|apply u32_range|].
  unfold chunk_ok in Hc1. change DataSize with 32755 in Hc1. unfold is_u32. lia.
Qed.

(** * Properties *)

(** C12: Parsing what [Pack] wrote gives the block back, from any lawful reader
    (any fragmentation of the stream, any connection wrapper), and leaves the
    bytes after it unread. *)
Theorem block_roundtrip {R} `{LawfulReader R} (r : R) (b : Block) (rest : list byte)
    (oe : option error) :
  block_wf b -> packed_ok b -> delivers r ((Pack b).1 ++ rest) oe ->
  exists r', NewBlockFromReader r = Some (Ok (received b), r') /\ delivers r' rest oe.
Proof. intros Hwf Hp. rewrite Pack_encode by done. by apply parse_encode. Qed.

Lemma block_roundtrip_witness :
  let b := NewDisconnectBlock 1700000000000000000 7 41 ShutdownWrite in
  let bytes := (Pack b).1 in
  exists r', NewBlockFromReader (Stream [take 5 bytes; []; drop 5 bytes ++ [x2a]] None) =
    Some (Ok b, r') /\ delivers r' [x2a] None.
Proof.
  apply (block_roundtrip (R := stream) _ (NewDisconnectBlock 1700000000000000000 7 41 ShutdownWrite)).
  - apply (bool_decide_unpack _). vm_compute. exact I.
  - left. reflexivity.
  - split; vm_compute; reflexivity.
Defined.

(** C14: A block the parser accepts is well formed and its layout is exactly the
    bytes consumed: the parser accepts no second encoding of a block. *)
Theorem block_parse_sound {R} `{LawfulReader R} (r r' : R) (bs : list byte)
    (oe : option error) (b : Block) :
  delivers r bs oe -> NewBlockFromReader r = Some (Ok b, r') ->
  block_wf b /\ packed_ok b /\ exists rest, bs = (Pack b).1 ++ rest /\ delivers r' rest oe.
Proof.
  intros Hd Hp. destruct (parse_inv r r' bs oe b Hd Hp) as (Hwf & Hpk & rest & -> & Hd').
  split; [done|]. split; [by left|]. exists rest. by rewrite Pack_None.
Qed.

Lemma block_parse_sound_witness :
  let b := mkBlock 2 1 (-1) 3 1 [x2a] None in
  block_wf b /\ packed_ok b /\
  exists rest, encode b ++ [x00] = (Pack b).1 ++ rest /\ delivers (Stream [[x00]] None) rest None.
Proof.
  set (b := mkBlock 2 1 (-1) 3 1 [x2a] None).
  apply (block_parse_sound (Stream [encode b ++ [x00]] None)).
  - split; reflexivity.
  - vm_compute. reflexivity.
Defined.

(** C15: A stream cut strictly inside a block never yields a block: the parser
    returns an error, and it is [ErrUnexpectedEOF] when the cut is an EOF that
    leaves a partial header. *)
Theorem block_truncated {R} `{LawfulReader R} (r : R) (b : Block) (k : nat) (e : error) :
  block_wf b -> packed_ok b -> (k < length (Pack b).1)%nat ->
  delivers r (take k (Pack b).1) (Some e) ->
  exists e' r', NewBlockFromReader r = Some (Err e', r') /\
    ((0 < k < Z.to_nat HeaderSize)%nat -> e = EOF -> e' = ErrUnexpectedEOF).
Proof.
  intros Hwf Hp. rewrite Pack_encode by done. intros Hk Hd.
  destruct (parse_short r b k e Hwf Hk Hd) as (r' & E). eexists _, r'.
  split; [exact E|]. intros Hkk ->. rewrite decide_True by lia.
  unfold short_error. rewrite decide_True; [done|]. split; [done|].
  destruct k; [lia|]. by rewrite encode_header.
Qed.

Lemma block_truncated_witness :
  let b := mkBlock 2 1 0 3 1 [x2a] None in
  exists e' r', NewBlockFromReader (Stream [take 20 (encode b)] (Some EOF)) = Some (Err e', r') /\
    ((0 < 20 < Z.to_nat HeaderSize)%nat -> EOF = EOF -> e' = ErrUnexpectedEOF).
Proof.
  apply (block_truncated (R := stream) _ (mkBlock 2 1 0 3 1 [x2a] None)).
  - apply (bool_decide_unpack _). vm_compute. exact I.
  - left. reflexivity.
  - apply Nat.ltb_lt. vm_compute. reflexivity.
  - split; vm_compute; reflexivity.
Defined.

(** Parsing does not depend on how the network cut the bytes: equivalent
    streams give the same block or error, and equivalent streams afterwards. *)
Theorem block_fragmentation (s1 s2 : stream) :
  s1 ≡ s2 -> same_read (NewBlockFromReader s1) (NewBlockFromReader s2).
Proof. intros Heq. by apply NewBlockFromReader_proper. Qed.

Lemma block_fragmentation_witness :
  let bytes := encode (mkBlock 2 1 0 3 1 [x2a] None) in
  same_read (NewBlockFromReader (Stream [bytes] None))
            (NewBlockFromReader (Stream ((fun x => [x]) <$> bytes) None)).
Proof. apply block_fragmentation. split; vm_compute; reflexivity. Defined.

(** C13: One write is cut into data blocks that carry it in order without loss:
    their data concatenates to the input, every block is non-empty and at most
    [DataSize] long and all but the last are full, IDs are consecutive (modulo
    2^32) from the counter, which ends just after the last, and every block is
    well formed with its packed bytes cached. *)
Theorem data_blocks_split (cid bid : Z) (now : nat -> Z) (data : list byte) :
  is_u32 cid -> is_u32 bid -> (forall k, is_i64 (now k)) ->
  let '(blocks, bid') := NewDataBlocks cid bid now data in
  concat (BlockData <$> blocks) = data /\
  bid' = u32 (bid + Z.of_nat (length blocks)) /\
  Forall (fun c => length c = Z.to_nat DataSize) (removelast (BlockData <$> blocks)) /\
  forall i b, blocks !! i = Some b ->
    Type_ b = TypeData /\ ConnectionID b = cid /\ BlockID b = u32 (bid + Z.of_nat i) /\
    (0 < length (BlockData b) <= Z.to_nat DataSize)%nat /\
    block_wf b /\ packed b = Some (encode b).
Proof.
  intros Hc Hb Hnow. destruct (NewDataBlocks_spec cid bid now data Hb) as (cs & Hcat & Hok & Hlast & ->).
  rewrite number_blocks_data. split; [done|].
  split; [unfold number_blocks; by rewrite length_imap|]. split; [done|].
  intros i b Hi. unfold number_blocks in Hi. rewrite list_lookup_imap in Hi.
  destruct (cs !! i) as [c|] eqn:Ec; [|done]. injection Hi as <-.
  assert (chunk_ok c) as Hcok by (eapply Forall_lookup_1; eauto).
  destruct (newDataBlock_wf (now (0 + i)%nat) cid (u32 (bid + Z.of_nat i)) c)
    as [Hwf _]; auto with go_bytes.
  { unfold is_u32. unfold chunk_ok in Hcok. change DataSize with 32755 in Hcok. lia. }
  split; [done|]. split; [done|]. split; [done|]. split; [exact Hcok|]. split; [done|].
  unfold newDataBlock, Pack. cbn [packed snd]. cbn [set_packed packed]. f_equal.
  exact (Pack_None (mkBlock TypeData cid (now (0 + i)%nat) (u32 (bid + Z.of_nat i))
    (u32 (Z.of_nat (length c))) c None) eq_refl).
Qed.

Lemma data_blocks_split_witness :
  let '(blocks, bid') := NewDataBlocks 9 (2 ^ 32 - 1) (fun _ => 0) [x01; x02] in
  concat (BlockData <$> blocks) = [x01; x02] /\
  bid' = u32 (2 ^ 32 - 1 + Z.of_nat (length blocks)) /\
  Forall (fun c => length c = Z.to_nat DataSize) (removelast (BlockData <$> blocks)) /\
  forall i b, blocks !! i = Some b ->
    Type_ b = TypeData /\ ConnectionID b = 9 /\ BlockID b = u32 (2 ^ 32 - 1 + Z.of_nat i) /\
    (0 < length (BlockData b) <= Z.to_nat DataSize)%nat /\
    block_wf b /\ packed b = Some (encode b).
Proof.
  apply (data_blocks_split 9 (2 ^ 32 - 1) (fun _ => 0) [x01; x02]).
  - split; [discriminate|reflexivity].
  - split; [discriminate|reflexivity].
  - intros _. split; [discriminate|reflexivity].
Defined.

(** A data block owns its bytes: whatever the caller later writes into the
    buffer the block aliases, [Pack] still returns the bytes of the data handed
    over ([RecvRelay] reuses its receive buffer for every read). *)
Theorem pack_survives_buffer_reuse (now cid bid : Z) (data data' : list byte) :
  (Pack (set_BlockData data' (newDataBlock now cid bid data))).1 =
  encode (mkBlock TypeData cid now bid (u32 (Z.of_nat (length data))) data None).
Proof. exact (Pack_None (mkBlock TypeData cid now bid (u32 (Z.of_nat (length data))) data None) eq_refl). Qed.
