(* ===== verification/Stats.v ===== *)
(** stats/stats.go and the metric update of cmd/rabbit.go: the traffic counters
    every other component updates, the history they are sampled into, the map
    [GetStats] builds and the gauges set from it. *)

From S2P Require Import Prelude.

Local Open Scope Z_scope.

(** A [Stats]; a time stamp is its nanoseconds. *)
Record Stats : Type := mkStats {
  totalSentBytes : Z;
  totalRecvBytes : Z;
  tunnelCount : Z;
  connectionCount : Z;
  sentBytesHistory : list Z;
  recvBytesHistory : list Z;
  timestamps : list Z;
  historySize : nat;
}.

Definition NewStats (historySize : nat) : Stats := mkStats 0 0 0 0 [] [] [] historySize.

Definition AddSentBytes (n : Z) (s : Stats) : Stats :=
  mkStats (u64 (totalSentBytes s + n)) (totalRecvBytes s) (tunnelCount s) (connectionCount s)
    (sentBytesHistory s) (recvBytesHistory s) (timestamps s) (historySize s).
Definition AddRecvBytes (n : Z) (s : Stats) : Stats :=
  mkStats (totalSentBytes s) (u64 (totalRecvBytes s + n)) (tunnelCount s) (connectionCount s)
    (sentBytesHistory s) (recvBytesHistory s) (timestamps s) (historySize s).
Definition add_tunnels (n : Z) (s : Stats) : Stats :=
  mkStats (totalSentBytes s) (totalRecvBytes s) (i32 (tunnelCount s + n)) (connectionCount s)
    (sentBytesHistory s) (recvBytesHistory s) (timestamps s) (historySize s).
Definition add_connections (n : Z) (s : Stats) : Stats :=
  mkStats (totalSentBytes s) (totalRecvBytes s) (tunnelCount s) (i32 (connectionCount s + n))
    (sentBytesHistory s) (recvBytesHistory s) (timestamps s) (historySize s).

Definition IncrementTunnelCount : Stats -> Stats := add_tunnels 1.
Definition DecrementTunnelCount : Stats -> Stats := add_tunnels (-1).
Definition IncrementConnectionCount : Stats -> Stats := add_connections 1.
Definition DecrementConnectionCount : Stats -> Stats := add_connections (-1).

(** [s.UpdateHistory()]: one sample more, the oldest dropped beyond
    [historySize]. *)
Definition UpdateHistory (now : Z) (s : Stats) : Stats :=
  let sent := sentBytesHistory s ++ [totalSentBytes s] in
  let recv := recvBytesHistory s ++ [totalRecvBytes s] in
  let ts := timestamps s ++ [now] in
  let cut {A} (l : list A) := if decide (historySize s < length ts)%nat then drop 1 l else l in
  mkStats (totalSentBytes s) (totalRecvBytes s) (tunnelCount s) (connectionCount s)
    (cut sent) (cut recv) (cut ts) (historySize s).

(** The values of a [map[string]interface{}], by dynamic type.  A float64 is the
    quotient it was computed as; rounding is not modelled. *)
Inductive dyn : Type :=
  | VInt (z : Z)
  | VInt32 (z : Z)
  | VUint32 (z : Z)
  | VUint64 (z : Z)
  | VFloat64 (num den : Z)
  | VTime (ns : Z).

#[export] Instance dyn_eq_dec : EqDecision dyn.
Proof. solve_decision. Defined.

(** The bytes of the window over its nanoseconds, per second. *)
Definition rate (history : list Z) (ts : list Z) : dyn :=
  match last ts, head ts, last history, head history with
  | Some t1, Some t0, Some b1, Some b0 =>
      if decide (2 <= length ts)%nat then
        if decide (0 < t1 - t0) then VFloat64 (u64 (b1 - b0) * 10 ^ 9) (t1 - t0) else VFloat64 0 1
      else VFloat64 0 1
  | _, _, _, _ => VFloat64 0 1
  end.

(** [runtime.ReadMemStats] and [runtime.NumGoroutine]. *)
Record MemStats : Type := mkMemStats {
  NumGoroutine : Z; Alloc : Z; TotalAlloc : Z; HeapAlloc : Z; Sys : Z; HeapSys : Z; HeapIdle : Z;
  HeapInuse : Z; HeapReleased : Z; HeapObjects : Z; Mallocs : Z; Frees : Z; PauseTotalNs : Z;
  NumGC : Z; LastGC : Z;
}.

Definition stats_entries (m : MemStats) (s : Stats) : list (string * dyn) := [
    ("total_sent_bytes"%string, VUint64 (totalSentBytes s));
    ("total_recv_bytes"%string, VUint64 (totalRecvBytes s));
    ("tunnel_count"%string, VInt32 (tunnelCount s));
    ("connection_count"%string, VInt32 (connectionCount s));
    ("send_rate_Bps"%string, rate (sentBytesHistory s) (timestamps s));
    ("recv_rate_Bps"%string, rate (recvBytesHistory s) (timestamps s));
    ("goroutine_count"%string, VInt (NumGoroutine m));
    ("mem_alloc"%string, VUint64 (Alloc m));
    ("total_mem_alloc"%string, VUint64 (TotalAlloc m));
    ("mem_heap_alloc"%string, VUint64 (HeapAlloc m));
    ("mem_sys"%string, VUint64 (Sys m));
    ("heap_sys"%string, VUint64 (HeapSys m));
    ("heap_idle"%string, VUint64 (HeapIdle m));
    ("heap_inuse"%string, VUint64 (HeapInuse m));
    ("heap_released"%string, VUint64 (HeapReleased m));
    ("heap_objects"%string, VUint64 (HeapObjects m));
    ("obj_mallocs"%string, VUint64 (Mallocs m));
    ("obj_release"%string, VUint64 (Frees m));
    ("gc_pause_ms"%string, VFloat64 (PauseTotalNs m) (10 ^ 6));
    ("gc_count"%string, VUint32 (NumGC m));
    ("last_gc"%string, VTime (i64 (LastGC m)))].

Definition GetStats (m : MemStats) (s : Stats) : gmap string dyn := list_to_map (stats_entries m s).

(** [data[key].(T)] for the types the metric update asserts. *)
Definition as_int (v : option dyn) : option dyn := match v with Some (VInt _) => v | _ => None end.
Definition as_uint64 (v : option dyn) : option dyn := match v with Some (VUint64 _) => v | _ => None end.
Definition as_uint32 (v : option dyn) : option dyn := match v with Some (VUint32 _) => v | _ => None end.
Definition as_float64 (v : option dyn) : option dyn := match v with Some (VFloat64 _ _) => v | _ => None end.
Definition as_time (v : option dyn) : option dyn := match v with Some (VTime _) => v | _ => None end.

(** [updatePrometheusMetrics(data)]: the gauges by name, with the keys and the
    assertions of the code in its order. *)
Definition gauge_table : list (string * string * (option dyn -> option dyn)) := [
  ("totalSentBytes"%string, "total_sent_bytes"%string, as_uint64);
  ("totalRecvBytes"%string, "total_recv_bytes"%string, as_uint64);
  ("connectionCount"%string, "connection_count"%string, as_int);
  ("tunnelCount"%string, "tunnel_count"%string, as_int);
  ("sendRate"%string, "send_rate_Bps"%string, as_float64);
  ("recvRate"%string, "recv_rate_Bps"%string, as_float64);
  ("goroutineCount"%string, "goroutine_count"%string, as_int);
  ("memAlloc"%string, "mem_alloc"%string, as_uint64);
  ("memHeapAlloc"%string, "mem_heap_alloc"%string, as_uint64);
  ("totalMemAlloc"%string, "total_mem_alloc"%string, as_uint64);
  ("memSys"%string, "mem_sys"%string, as_uint64);
  ("heapSys"%string, "heap_sys"%string, as_uint64);
  ("heapIdle"%string, "heap_idle"%string, as_uint64);
  ("heapInuse"%string, "heap_inuse"%string, as_uint64);
  ("heapReleased"%string, "heap_released"%string, as_uint64);
  ("heapObjects"%string, "heap_objects"%string, as_uint64);
  ("objMallocs"%string, "obj_mallocs"%string, as_uint64);
  ("objFrees"%string, "obj_release"%string, as_uint64);
  ("gcPauseMs"%string, "gc_pause_ms"%string, as_float64);
  ("gcCount"%string, "gc_count"%string, as_uint32);
  ("lastGcTime"%string, "last_gc"%string, as_time)].

Definition set_gauge (data g : gmap string dyn) (e : string * string * (option dyn -> option dyn))
    : gmap string dyn :=
  let '(gauge, key, assert) := e in
  match assert (data !! key) with Some v => <[gauge := v]> g | None => g end.

Definition updatePrometheusMetrics (data gauges : gmap string dyn) : gmap string dyn :=
  foldl (set_gauge data) gauges gauge_table.

(** The two global instances. *)
Record global_stats : Type := mkGlobal { ClientStats : Stats; ServerStats : Stats }.

Definition on_client (f : Stats -> Stats) (g : global_stats) : global_stats :=
  mkGlobal (f (ClientStats g)) (ServerStats g).
Definition on_server (f : Stats -> Stats) (g : global_stats) : global_stats :=
  mkGlobal (ClientStats g) (f (ServerStats g)).

(** The instance of a mode: [if IsClientMode { stats.ClientStats } else { stats.ServerStats }]. *)
Definition on_mode (client : bool) (f : Stats -> Stats) (g : global_stats) : global_stats :=
  if client then on_client f g else on_server f g.

Definition InitStats (historySize : nat) : global_stats :=
  mkGlobal (NewStats historySize) (NewStats historySize).

(** * The history is a sliding window *)

Definition sample : Type := Z * Z * Z.   (** sent, received, time *)

(** The counters move to the sample's totals, then the tick samples them. *)
Definition tick (s : Stats) (p : sample) : Stats :=
  let '(sent, recv, now) := p in
  UpdateHistory now
    (mkStats sent recv (tunnelCount s) (connectionCount s)
       (sentBytesHistory s) (recvBytesHistory s) (timestamps s) (historySize s)).

Definition window {A} (n : nat) (l : list A) : list A := drop (length l - n) l.

Lemma window_snoc {A} (n : nat) (l : list A) (a : A) :
  (0 < n)%nat ->
  window n (l ++ [a]) =
  let w := window n l ++ [a] in if decide (n < length w)%nat then drop 1 w else w.
Proof.
  intros Hn. unfold window. cbv zeta. rewrite !length_app, length_drop. cbn [length].
  destruct (decide (length l < n)%nat).
  - replace (length l + 1 - n)%nat with 0%nat by lia. replace (length l - n)%nat with 0%nat by lia.
    rewrite !drop_0, decide_False by lia. done.
  - rewrite decide_True by lia. rewrite drop_app_le by lia.
    rewrite drop_app_le by (rewrite length_drop; lia). rewrite drop_drop. do 2 f_equal. lia.
Qed.

Lemma length_window {A} (n : nat) (l : list A) : length (window n l) = Nat.min n (length l).
Proof. unfold window. rewrite length_drop. lia. Qed.

(** After any sequence of samples the three histories hold the last
    [historySize] samples, oldest first, and stay of equal length: the rates of
    [GetStats] are over that window. *)
Theorem history_window (n : nat) (l : list sample) :
  (0 < n)%nat ->
  let s := foldl tick (NewStats n) l in
  sentBytesHistory s = window n (fst ∘ fst <$> l) /\
  recvBytesHistory s = window n (snd ∘ fst <$> l) /\
  timestamps s = window n (snd <$> l) /\
  (length (timestamps s) <= n)%nat.
Proof.
  intros Hn. cbv zeta.
  assert (historySize (foldl tick (NewStats n) l) = n /\
    sentBytesHistory (foldl tick (NewStats n) l) = window n (fst ∘ fst <$> l) /\
    recvBytesHistory (foldl tick (NewStats n) l) = window n (snd ∘ fst <$> l) /\
    timestamps (foldl tick (NewStats n) l) = window n (snd <$> l)) as (_ & -> & -> & ->).
  { induction l as [|[[a b] c] l (Hh & H1 & H2 & H3)] using rev_ind; [done|].
    rewrite foldl_app. cbn [foldl tick UpdateHistory]. unfold UpdateHistory.
    cbn [historySize sentBytesHistory recvBytesHistory timestamps totalSentBytes totalRecvBytes].
    rewrite Hh, H1, H2, H3, !fmap_app. cbn [fmap list_fmap compose fst snd].
    rewrite !window_snoc by done. cbv zeta.
    rewrite !length_app, !length_window, !length_fmap. cbn [length]. done. }
  repeat split. rewrite length_window. lia.
Qed.

Lemma history_window_witness :
  let l := [(10, 1, 1000); (20, 2, 2000); (30, 3, 3000)] in
  let s := foldl tick (NewStats 2) l in
  sentBytesHistory s = window 2 (fst ∘ fst <$> l) /\
  recvBytesHistory s = window 2 (snd ∘ fst <$> l) /\
  timestamps s = window 2 (snd <$> l) /\ (length (timestamps s) <= 2)%nat.
Proof. apply (history_window 2). lia. Defined.

(** ** The goroutine that samples

    [InitStats] makes the instances and starts it once; a tick samples the client's
    counters, then the server's. *)
Record sampler : Type := mkSampler { sp_stats : option global_stats; sp_running : bool }.

Inductive sampler_label : Type :=
  | SInit (historySize : nat)
  | STick (now1 now2 : Z)
  | SCount (g : Stats * Stats -> Stats * Stats)    (** the program moves its counters *)
  | SDone.

(** [f] leaves the histories alone. *)
Definition counts_only (f : Stats * Stats -> Stats * Stats) : Prop :=
  forall c s, let '(c', s') := f (c, s) in
    sentBytesHistory c' = sentBytesHistory c /\ recvBytesHistory c' = recvBytesHistory c /\ timestamps c' = timestamps c /\
    historySize c' = historySize c /\
    sentBytesHistory s' = sentBytesHistory s /\ recvBytesHistory s' = recvBytesHistory s /\ timestamps s' = timestamps s /\
    historySize s' = historySize s.

Definition sampler_step (p : sampler) (l : sampler_label) : option sampler :=
  match l, sp_stats p with
  | SInit n, None => Some (mkSampler (Some (InitStats n)) true)
  | SInit _, Some _ => Some p
  | STick now1 now2, Some g =>
      if sp_running p
      then Some (mkSampler (Some (mkGlobal (UpdateHistory now1 (ClientStats g)) (UpdateHistory now2 (ServerStats g)))) true)
      else None
  | SCount f, Some g => let '(c, s) := f (ClientStats g, ServerStats g) in Some (mkSampler (Some (mkGlobal c s)) (sp_running p))
  | SDone, Some g => if sp_running p then Some (mkSampler (Some g) false) else None
  | _, None => None
  end.

(** Three histories of one length, at most what was asked for first. *)
Definition history_ok (n : nat) (s : Stats) : Prop :=
  historySize s = n /\ length (sentBytesHistory s) = length (timestamps s) /\
  length (recvBytesHistory s) = length (timestamps s) /\ (length (timestamps s) <= n)%nat.

Lemma UpdateHistory_ok n now s : history_ok n s -> history_ok n (UpdateHistory now s).
Proof.
  intros (H1 & H2 & H3 & H4). unfold history_ok, UpdateHistory. cbn [historySize sentBytesHistory recvBytesHistory timestamps].
  rewrite H1. split; [done|]. rewrite length_app. cbn [length].
  destruct (decide (n < length (timestamps s) + 1)%nat); rewrite ?length_drop, !length_app; cbn [length]; lia.
Qed.

(** Whenever [InitStats] is called, and whatever the clock says, only the first call
    counts and the histories never outgrow its size. *)
Theorem sampler_bounded (n : nat) (tr : list sampler_label) (p : sampler) :
  (forall f, SCount f ∈ tr -> counts_only f) ->
  run sampler_step (mkSampler None false) (SInit n :: tr) = Some p ->
  exists g, sp_stats p = Some g /\ history_ok n (ClientStats g) /\ history_ok n (ServerStats g).
Proof.
  intros Hf. cbn [run sampler_step sp_stats].
  assert (history_ok n (ClientStats (InitStats n)) /\ history_ok n (ServerStats (InitStats n))) as Hg
    by (unfold history_ok; cbn; lia).
  revert Hg. generalize (InitStats n) true. revert Hf. induction tr as [|l tr IH]; intros Hf g b Hg; cbn [run].
  - intros [= <-]. by exists g.
  - destruct l as [m|now1 now2|f|]; cbn [sampler_step sp_stats sp_running].
    + apply IH; [|done]. intros f Hin. apply Hf. by right.
    + destruct b; [|done]. apply IH; [intros f Hin; apply Hf; by right|]. destruct Hg. by split; apply UpdateHistory_ok.
    + destruct (f (ClientStats g, ServerStats g)) as [c s] eqn:Ef. apply IH; [intros f' Hin; apply Hf; by right|].
      pose proof (Hf f ltac:(by left) (ClientStats g) (ServerStats g)) as Hc. rewrite Ef in Hc.
      destruct Hc as (E1 & E2 & E3 & E4 & E5 & E6 & E7 & E8). unfold history_ok in *. cbn.
      by rewrite E1, E2, E3, E4, E5, E6, E7, E8.
    + destruct b; [|done]. apply IH; [|done]. intros f Hin. apply Hf. by right.
Qed.

Lemma sampler_bounded_witness :
  exists p g, run sampler_step (mkSampler None false) [SInit 2; STick 1 2; STick 3 4; SInit 9; STick 5 6; SDone] = Some p /\
    sp_stats p = Some g /\ history_ok 2 (ClientStats g) /\ history_ok 2 (ServerStats g).
Proof.
  destruct (run_succeeds (run sampler_step (mkSampler None false) [SInit 2; STick 1 2; STick 3 4; SInit 9; STick 5 6; SDone]))
    as [p E]; [reflexivity|]. destruct (sampler_bounded 2 [STick 1 2; STick 3 4; SInit 9; STick 5 6; SDone] p) as (g & Hg); [|exact E|].
  - intros f Hin. do 5 (apply elem_of_cons in Hin as [Hin|Hin]; [discriminate Hin|]). by apply elem_of_nil in Hin.
  - by exists p, g.
Defined.

(** * Which gauges an update sets *)

Lemma GetStats_lookup (m : MemStats) (s : Stats) (key : string) (v : dyn) :
  (key, v) ∈ stats_entries m s -> GetStats m s !! key = Some v.
Proof.
  intros H. apply elem_of_list_to_map_1; [|done]. cbn [stats_entries fmap list_fmap fst].
  apply (bool_decide_eq_true_1 _). vm_compute. reflexivity.
Qed.

Lemma set_gauge_other (data g : gmap string dyn) e name :
  e.1.1 <> name -> set_gauge data g e !! name = g !! name.
Proof.
  destruct e as [[gauge key] assert]. cbn. intros Hn.
  destruct (assert _); [by rewrite lookup_insert_ne|done].
Qed.

Lemma foldl_set_gauge_other (data g : gmap string dyn) table name :
  (name ∉ (fun e => e.1.1) <$> table) -> foldl (set_gauge data) g table !! name = g !! name.
Proof.
  revert g. induction table as [|e table IH]; intros g; cbn; [done|].
  intros [Hn Ht]%not_elem_of_cons. rewrite IH by done. by apply set_gauge_other.
Qed.

(** The gauge of an entry whose name no other entry has. *)
Lemma foldl_set_gauge (data g : gmap string dyn) table1 table2 gauge key assert :
  (gauge ∉ (fun e => e.1.1) <$> table1) -> (gauge ∉ (fun e => e.1.1) <$> table2) ->
  foldl (set_gauge data) g (table1 ++ (gauge, key, assert) :: table2) !! gauge =
  match assert (data !! key) with Some v => Some v | None => g !! gauge end.
Proof.
  intros H1 H2. rewrite foldl_app. cbn [foldl]. rewrite foldl_set_gauge_other by done.
  unfold set_gauge at 1. destruct (assert _); [by rewrite lookup_insert_eq|].
  by apply foldl_set_gauge_other.
Qed.

(** The [i]-th entry of the table. *)
Lemma update_gauge (data g : gmap string dyn) (i : nat) gauge key assert :
  gauge_table !! i = Some (gauge, key, assert) ->
  updatePrometheusMetrics data g !! gauge =
  match assert (data !! key) with Some v => Some v | None => g !! gauge end.
Proof.
  intros Hi. unfold updatePrometheusMetrics.
  assert (NoDup ((fun e => e.1.1) <$> gauge_table)) as Hnd
    by (apply (bool_decide_eq_true_1 _); vm_compute; reflexivity).
  rewrite <-(take_drop_middle _ _ _ Hi) in Hnd |- *.
  rewrite fmap_app, fmap_cons in Hnd. apply NoDup_app in Hnd as (_ & H1 & H2).
  apply NoDup_cons in H2 as [H2 _]. apply foldl_set_gauge; [|done].
  intros Hin. apply (H1 _ Hin). by left.
Qed.

(** The update sets the byte gauges from the counters, but never the two
    gauges of live connections and tunnels: [GetStats] stores those counts as
    int32 and the update asserts int. *)
Theorem count_gauges_never_set (m : MemStats) (s : Stats) (g : gmap string dyn) :
  let g' := updatePrometheusMetrics (GetStats m s) g in
  g' !! "connectionCount"%string = g !! "connectionCount"%string /\
  g' !! "tunnelCount"%string = g !! "tunnelCount"%string /\
  g' !! "totalSentBytes"%string = Some (VUint64 (totalSentBytes s)) /\
  g' !! "totalRecvBytes"%string = Some (VUint64 (totalRecvBytes s)).
Proof.
  cbv zeta.
  rewrite (update_gauge _ g 2 "connectionCount" "connection_count" as_int) by done.
  rewrite (update_gauge _ g 3 "tunnelCount" "tunnel_count" as_int) by done.
  rewrite (update_gauge _ g 0 "totalSentBytes" "total_sent_bytes" as_uint64) by done.
  rewrite (update_gauge _ g 1 "totalRecvBytes" "total_recv_bytes" as_uint64) by done.
  rewrite (GetStats_lookup m s "connection_count" (VInt32 (connectionCount s)))
    by (do 3 right; left).
  rewrite (GetStats_lookup m s "tunnel_count" (VInt32 (tunnelCount s))) by (do 2 right; left).
  rewrite (GetStats_lookup m s "total_sent_bytes" (VUint64 (totalSentBytes s))) by left.
  rewrite (GetStats_lookup m s "total_recv_bytes" (VUint64 (totalRecvBytes s))) by (right; left).
  done.
Qed.
