(* ===== verification/Aead.v ===== *)
(** tunnel/tunnel.go: the encrypted stream under every tunnel.  A [writer] cuts
    the bytes into records of at most [payloadSizeMask] bytes, each sealed as an
    encrypted length and an encrypted payload under successive nonces; a
    [reader] opens them; a [streamConn] derives both from a random salt sent
    first.  The AEAD itself ([cipher.AEAD]) is an interface in the code and a
    record with laws here. *)

From S2P Require Import Prelude GoIO.

Local Open Scope Z_scope.

(** * cipher.AEAD *)

Record AEAD : Type := {
  Overhead : nat;
  NonceSize : nat;
  Seal : list byte -> list byte -> list byte;                 (** nonce, plaintext *)
  Open : list byte -> list byte -> result error (list byte);  (** nonce, ciphertext *)
}.

(** The documented contract: a ciphertext is [Overhead] bytes longer than its
    plaintext, and opens to it under the same nonce. *)
Class AEADLaws (a : AEAD) : Prop := {
  Seal_length nonce p : length (Seal a nonce p) = (length p + Overhead a)%nat;
  Open_Seal nonce p : length nonce = NonceSize a -> Open a nonce (Seal a nonce p) = Ok p;
}.

(** * Nonces *)

(** [increment(b)]: little-endian increment in place. *)
Fixpoint increment (b : list byte) : list byte :=
  match b with
  | [] => []
  | x :: rest =>
      let x := byte_of_Z (Z_of_byte x + 1) in
      if decide (Z_of_byte x <> 0) then x :: rest else x :: increment rest
  end.

Definition payloadSizeMask : Z := 0x7FFF.

(** * The writer *)

Record writer (W : Type) : Type := mkWriter {
  w_Writer : W;
  w_AEAD : AEAD;
  w_nonce : list byte;
  w_buf : list byte;
}.
Arguments mkWriter {W} _ _ _ _.
Arguments w_Writer {W} _.
Arguments w_AEAD {W} _.
Arguments w_nonce {W} _.
Arguments w_buf {W} _.

Definition newWriter {W} (w : W) (aead : AEAD) : writer W :=
  mkWriter w aead (replicate (NonceSize aead) x00)
    (replicate (2 + Overhead aead + Z.to_nat payloadSizeMask + Overhead aead) x00).

Section Writer.
Context {W R : Type} `{Writer W} `{Reader R}.

(** One record: the [nr] payload bytes [p] are in [buf] already; the length is
    sealed at the front and the payload in place behind it. *)
Definition seal_record (p : list byte) (w : writer W) : nat * option error * writer W :=
  let ov := Overhead (w_AEAD w) in
  let nr := length p in
  let buf := overwrite (2 + ov) p (w_buf w) in
  let buf := overwrite 0 [byte_of_Z (Z.shiftr (Z.of_nat nr) 8); byte_of_Z (Z.of_nat nr)] buf in
  let buf := overwrite 0 (Seal (w_AEAD w) (w_nonce w) (slice 0 2 buf)) buf in
  let nonce := increment (w_nonce w) in
  let buf := overwrite (2 + ov) (Seal (w_AEAD w) nonce (slice (2 + ov) (2 + ov + nr) buf)) buf in
  let nonce := increment nonce in
  let '(n, ew, w') := wwrite (slice 0 (2 + ov + nr + ov) buf) (w_Writer w) in
  (n, ew, mkWriter w' (w_AEAD w) nonce buf).

(** [w.ReadFrom(r)]: the number of bytes read from [r] and the error.  [fuel]
    bounds the iterations. *)
Fixpoint ReadFrom (fuel : nat) (w : writer W) (r : R) (n : nat)
    : option (nat * option error * writer W * R) :=
  match fuel with
  | O => None
  | S fuel =>
      match rread (Z.to_nat payloadSizeMask) r with
      | None => None
      | Some (p, er, r) =>
          let '(n, ew, w) :=
            if decide (0 < length p)%nat then
              let '(_, ew, w) := seal_record p w in ((n + length p)%nat, ew, w)
            else (n, None, w) in
          match ew, er with
          | Some e, _ => Some (n, Some e, w, r)
          | None, Some EOF => Some (n, None, w, r)
          | None, Some e => Some (n, Some e, w, r)
          | None, None => ReadFrom fuel w r n
          end
      end
  end.
End Writer.

(** [w.Write(b)]: one iteration per record and one for the EOF are enough. *)
#[export] Instance writer_writer {W} `{Writer W} : Writer (writer W) := fun b w =>
  match ReadFrom (S (length b)) w (Buffer b) 0 with
  | Some (n, oe, w, _) => (n, oe, w)
  | None => (0%nat, None, w)
  end.

(** * The reader *)

(** [leftover] is the slice [buf[lo:hi]] of the reader's own buffer. *)
Record reader (R : Type) : Type := mkReader {
  r_Reader : R;
  r_AEAD : AEAD;
  r_nonce : list byte;
  r_buf : list byte;
  r_lo : nat;
  r_hi : nat;
}.
Arguments mkReader {R} _ _ _ _ _ _.
Arguments r_Reader {R} _.
Arguments r_AEAD {R} _.
Arguments r_nonce {R} _.
Arguments r_buf {R} _.
Arguments r_lo {R} _.
Arguments r_hi {R} _.

Definition newReader {R} (r : R) (aead : AEAD) : reader R :=
  mkReader r aead (replicate (NonceSize aead) x00)
    (replicate (Z.to_nat payloadSizeMask + Overhead aead) x00) 0 0.

Definition leftover {R} (r : reader R) : list byte := slice (r_lo r) (r_hi r) (r_buf r).

Section Reader.
Context {R : Type} `{Reader R}.

(** The two halves of [r.read()]: fill the first [n] bytes of the buffer from
    the connection and open them in place; the nonce advances either way. *)
Definition open_in_place (n : nat) (r : reader R) : option (option error * reader R) :=
  match ReadFull n (r_Reader r) with
  | None => None
  | Some (bs, Some err, rd) =>
      Some (Some err, mkReader rd (r_AEAD r) (r_nonce r) (overwrite 0 bs (r_buf r)) (r_lo r) (r_hi r))
  | Some (bs, None, rd) =>
      let buf := overwrite 0 bs (r_buf r) in
      let nonce := increment (r_nonce r) in
      match Open (r_AEAD r) (r_nonce r) (slice 0 n buf) with
      | Err err => Some (Some err, mkReader rd (r_AEAD r) nonce buf (r_lo r) (r_hi r))
      | Ok p => Some (None, mkReader rd (r_AEAD r) nonce (overwrite 0 p buf) (r_lo r) (r_hi r))
      end
  end.

(** The payload size in the first two bytes of the buffer. *)
Definition record_size (buf : list byte) : nat :=
  Z.to_nat (Z.land (Z.shiftl (Z_of_byte (nth 0 buf x00)) 8 + Z_of_byte (nth 1 buf x00))
              payloadSizeMask).

(** [r.read()]: one record into the buffer. *)
Definition read_record (r : reader R) : option (nat * option error * reader R) :=
  match open_in_place (2 + Overhead (r_AEAD r)) r with
  | None => None
  | Some (Some err, r) => Some (0%nat, Some err, r)
  | Some (None, r) =>
      let size := record_size (r_buf r) in
      match open_in_place (size + Overhead (r_AEAD r)) r with
      | None => None
      | Some (Some err, r) => Some (0%nat, Some err, r)
      | Some (None, r) => Some (size, None, r)
      end
  end.

(** The reader with [leftover = buf[lo:hi]]. *)
Definition set_leftover (lo hi : nat) (r : reader R) : reader R :=
  mkReader (r_Reader r) (r_AEAD r) (r_nonce r) (r_buf r) lo hi.

(** [r.Read(b)] with [len(b) = n]. *)
#[export] Instance reader_reader : Reader (reader R) := fun n r =>
  if decide (0 < r_hi r - r_lo r)%nat then
    let m := Nat.min n (r_hi r - r_lo r) in
    Some (slice (r_lo r) (r_lo r + m) (r_buf r), None, set_leftover (r_lo r + m) (r_hi r) r)
  else
    match read_record r with
    | None => None
    | Some (size, err, r) =>
        let m := Nat.min n size in
        Some (slice 0 m (r_buf r), err, if decide (m < size)%nat then set_leftover m size r else r)
    end.
End Reader.

(** * Nonce arithmetic *)

Lemma length_increment (b : list byte) : length (increment b) = length b.
Proof. induction b as [|x b IH]; cbn; [done|]. case_decide; cbn; auto. Qed.

Lemma le_get_increment (b : list byte) :
  le_get (increment b) = (le_get b + 1) `mod` 2 ^ (8 * Z.of_nat (length b)).
Proof.
  induction b as [|x b IH]; [by cbn; rewrite Z.mod_1_r|].
  pose proof (Z_of_byte_range x) as Hx. unfold is_u8 in Hx. change (2 ^ 8) with 256 in Hx.
  pose proof (le_get_range b) as Hb.
  cbn [increment length]. rewrite Z_of_byte_of_Z.
  replace (8 * Z.of_nat (S (length b))) with (8 + 8 * Z.of_nat (length b)) by lia.
  rewrite Z.pow_add_r by lia. change (2 ^ 8) with 256 in *.
  set (P := 2 ^ (8 * Z.of_nat (length b))) in *. unfold u8. change (2 ^ 8) with 256.
  case_decide as Hz; cbn [le_get]; rewrite Z_of_byte_of_Z; unfold u8; change (2 ^ 8) with 256.
  - assert (Z_of_byte x + 1 < 256) by zlia.
    rewrite (Z.mod_small (Z_of_byte x + 1)) by lia.
    rewrite Z.mod_small by nia. lia.
  - assert (Z_of_byte x = 255) as -> by zlia.
    rewrite IH. replace (255 + 256 * le_get b + 1) with (256 * (le_get b + 1)) by lia.
    rewrite Z.mul_mod_distr_l by lia. zlia.
Qed.

(** The nonce after [k] increments of the zero nonce. *)
Definition nonce_at (size k : nat) : list byte := Nat.iter k increment (replicate size x00).

Lemma length_nonce_at (size k : nat) : length (nonce_at size k) = size.
Proof.
  induction k as [|k IH]; [apply length_replicate|]. cbn. by rewrite length_increment.
Qed.

Lemma nonce_at_S (size k : nat) : nonce_at size (S k) = increment (nonce_at size k).
Proof. done. Qed.

Lemma le_get_zeros (size : nat) : le_get (replicate size x00) = 0.
Proof. induction size as [|n IH]; cbn [replicate le_get]; [done|]. by rewrite IH. Qed.

Lemma le_get_nonce_at (size k : nat) :
  le_get (nonce_at size k) = Z.of_nat k `mod` 2 ^ (8 * Z.of_nat size).
Proof.
  induction k as [|k IH].
  - cbn. rewrite le_get_zeros. by rewrite Z.mod_0_l by (apply Z.pow_nonzero; lia).
  - rewrite nonce_at_S, le_get_increment, length_nonce_at, IH.
    rewrite Z.add_mod_idemp_l by (apply Z.pow_nonzero; lia). f_equal. lia.
Qed.

Lemma nonce_at_inj (size i j : nat) :
  Z.of_nat i < 2 ^ (8 * Z.of_nat size) -> Z.of_nat j < 2 ^ (8 * Z.of_nat size) ->
  nonce_at size i = nonce_at size j -> i = j.
Proof.
  intros Hi Hj E. apply (f_equal le_get) in E. rewrite !le_get_nonce_at in E.
  rewrite !Z.mod_small in E by lia. lia.
Qed.

(** * The wire format *)

Definition payload_ok (p : list byte) : Prop := (0 < length p <= Z.to_nat payloadSizeMask)%nat.

(** The encrypted length: big endian. *)
Definition size_bytes (p : list byte) : list byte :=
  [byte_of_Z (Z.shiftr (Z.of_nat (length p)) 8); byte_of_Z (Z.of_nat (length p))].

Lemma length_size_bytes (p : list byte) : length (size_bytes p) = 2%nat.
Proof. done. Qed.

Definition record (a : AEAD) (nonce p : list byte) : list byte :=
  Seal a nonce (size_bytes p) ++ Seal a (increment nonce) p.

Fixpoint records (a : AEAD) (nonce : list byte) (ps : list (list byte)) : list byte :=
  match ps with
  | [] => []
  | p :: ps => record a nonce p ++ records a (increment (increment nonce)) ps
  end.

Lemma records_app a nonce ps qs :
  records a nonce (ps ++ qs) =
  records a nonce ps ++ records a (Nat.iter (2 * length ps) increment nonce) qs.
Proof.
  revert nonce. induction ps as [|p ps IH]; intros nonce; [done|].
  cbn [app records length]. rewrite IH, <-app_assoc. do 3 f_equal.
  replace (2 * S (length ps))%nat with (2 * length ps + 1 + 1)%nat by lia.
  by rewrite !Nat.iter_add.
Qed.

Lemma length_record a nonce p `{!AEADLaws a} :
  length (record a nonce p) = (2 + Overhead a + (length p + Overhead a))%nat.
Proof. unfold record. rewrite length_app, !Seal_length. done. Qed.

Lemma record_size_spec (p buf : list byte) :
  payload_ok p -> record_size (size_bytes p ++ buf) = length p.
Proof.
  intros [_ Hp]. unfold record_size, size_bytes. cbn [app nth].
  rewrite !Z_of_byte_of_Z. unfold u8, payloadSizeMask in *.
  rewrite Z.shiftr_div_pow2, Z.shiftl_mul_pow2 by lia.
  change 0x7FFF with (Z.ones 15) in *. rewrite Z.land_ones by lia.
  assert (Z.of_nat (length p) <= 32767) by (change (Z.ones 15) with 32767 in Hp; lia).
  zlia.
Qed.

(** * The writer emits records *)

Record writer_inv {W} (w : writer W) : Prop := {
  wi_laws :: AEADLaws (w_AEAD w);
  wi_nonce : length (w_nonce w) = NonceSize (w_AEAD w);
  wi_buf : length (w_buf w) =
    (2 + Overhead (w_AEAD w) + Z.to_nat payloadSizeMask + Overhead (w_AEAD w))%nat;
}.

Lemma newWriter_inv {W} (w : W) (a : AEAD) : AEADLaws a -> writer_inv (newWriter w a).
Proof.
  intros. constructor; cbn [newWriter w_AEAD w_nonce w_buf];
    [done|apply length_replicate|apply length_replicate].
Qed.

Section WriterSpec.
Context {W : Type} `{LawfulWriter W}.
Implicit Types (w : writer W).

(** Sealing in place inside the scratch buffer yields one record. *)
Lemma seal_record_spec (p : list byte) w :
  writer_inv w -> payload_ok p ->
  exists buf, length buf = length (w_buf w) /\
    seal_record p w =
      let '(n, ew, w') := wwrite (record (w_AEAD w) (w_nonce w) p) (w_Writer w) in
      (n, ew, mkWriter w' (w_AEAD w) (increment (increment (w_nonce w))) buf).
Proof.
  intros [Hlaws Hn Hbuf] [Hp0 Hp].
  unfold seal_record. fold (size_bytes p).
  set (a := w_AEAD w) in *. set (nonce := w_nonce w) in *. set (ov := Overhead a) in *.
  set (b1 := overwrite (2 + ov) p (w_buf w)).
  assert (L1 : length b1 = length (w_buf w)) by (apply length_overwrite; lia).
  set (b2 := overwrite 0 (size_bytes p) b1).
  assert (L2 : length b2 = length b1) by (apply length_overwrite; rewrite length_size_bytes; lia).
  assert (slice 0 2 b2 = size_bytes p) as -> 
    by (rewrite <-(length_size_bytes p); apply slice_overwrite_0; rewrite length_size_bytes; lia).
  set (s1 := Seal a nonce (size_bytes p)).
  assert (LS1 : length s1 = (2 + ov)%nat) by apply Seal_length.
  set (b3 := overwrite 0 s1 b2).
  assert (L3 : length b3 = length b2) by (apply length_overwrite; lia).
  assert (slice (2 + ov) (2 + ov + length p) b3 = p) as ->.
  { subst b3 b2. rewrite !slice_overwrite_after by (rewrite ?LS1, ?length_size_bytes; lia).
    apply slice_overwrite. lia. }
  set (s2 := Seal a (increment nonce) p).
  assert (LS2 : length s2 = (length p + ov)%nat) by apply Seal_length.
  set (b4 := overwrite (2 + ov) s2 b3).
  assert (L4 : length b4 = length b3) by (apply length_overwrite; lia).
  assert (slice 0 (2 + ov + length p + ov) b4 = record a nonce p) as ->.
  { rewrite <-(slice_app 0 (2 + ov)) by lia. unfold record. fold s1 s2. f_equal.
    - unfold b4. rewrite slice_overwrite_before by lia. rewrite <-LS1.
      apply slice_overwrite_0. lia.
    - replace (2 + ov + length p + ov)%nat with (2 + ov + length s2)%nat by lia.
      apply slice_overwrite. lia. }
  exists b4. split; [lia|done].
Qed.

(** What [ReadFrom] did with the bytes it was given: they went out as records
    under successive nonces, entirely when no error is returned. *)
Definition wrote (w w' : writer W) (bs : list byte) (oe : option error) : Prop :=
  writer_inv w' /\ w_AEAD w' = w_AEAD w /\
  exists ps, Forall payload_ok ps /\
    match oe with
    | None => concat ps = bs /\ w_nonce w' = Nat.iter (2 * length ps) increment (w_nonce w) /\
        emitted (w_Writer w') = emitted (w_Writer w) ++ records (w_AEAD w) (w_nonce w) ps
    | Some _ => concat ps `prefix_of` bs /\
        exists k, emitted (w_Writer w') =
          emitted (w_Writer w) ++ take k (records (w_AEAD w) (w_nonce w) ps)
    end.

Lemma ReadFrom_spec {R} `{LawfulReader R} (fuel : nat) w (r : R) (bs : list byte) (n : nat) :
  writer_inv w -> delivers r bs (Some EOF) -> (length bs < fuel)%nat ->
  exists n' oe w' r', ReadFrom fuel w r n = Some (n', oe, w', r') /\ wrote w w' bs oe /\
    (oe = None -> n' = (n + length bs)%nat).
Proof.
  revert w r bs n. induction fuel as [|fuel IH]; intros w r bs n Hw Hd Hf; [lia|].
  assert (0 < Z.to_nat payloadSizeMask)%nat as Hmask by (assert (0 < payloadSizeMask) by done; lia).
  cbn [ReadFrom]. destruct (decide (bs = [])) as [->|Hne].
  { destruct (rread_error r (Z.to_nat payloadSizeMask) EOF) as (r' & -> & Hd'); [lia|done|].
    cbn. exists n, None, w, r'. split; [done|]. split; [|lia].
    split; [done|]. split; [done|]. exists []. cbn. rewrite app_nil_r. auto. }
  destruct (rread_more r (Z.to_nat payloadSizeMask) bs (Some EOF) Hmask Hne Hd)
    as (p & rest & r' & -> & -> & Hp & Hpl & Hd').
  assert (Hpok : payload_ok p) by (split; [destruct p; [done|cbn; lia]|lia]).
  rewrite decide_True by apply Hpok.
  destruct (seal_record_spec p w Hw Hpok) as (buf & Hbuf & ->).
  destruct (wwrite (record _ _ p) (w_Writer w)) as [[m ew] w1] eqn:Ew.
  apply wwrite_spec in Ew as (Hm & Hem & Hfull).
  set (w2 := mkWriter w1 (w_AEAD w) (increment (increment (w_nonce w))) buf).
  assert (Hw2 : writer_inv w2).
  { destruct Hw. constructor; cbn [w2 w_AEAD w_nonce w_buf];
      [done|by rewrite !length_increment|lia]. }
  destruct ew as [e|].
  - exists (n + length p)%nat, (Some e), w2, r'. split; [done|]. split; [|done].
    split; [done|]. split; [done|]. exists [p]. split; [by constructor|].
    cbn. rewrite !app_nil_r. split; [by apply prefix_app_r|]. by exists m.
  - rewrite (Hfull eq_refl), firstn_all in Hem.
    rewrite length_app in Hf. destruct Hpok as [Hp0 _].
    destruct (IH w2 r' rest (n + length p)%nat Hw2 Hd') as (n' & oe & w' & r'' & -> & Hwr & Hn');
      [lia|].
    exists n', oe, w', r''. split; [done|]. rewrite length_app.
    split; [|intros; rewrite Hn' by done; lia].
    destruct Hwr as (Hi & Ha & ps & Hok & Hps). split; [done|]. split; [done|].
    exists (p :: ps). split; [by constructor|]. cbn [concat records w2 w_nonce w_AEAD w_Writer] in *.
    destruct oe as [e|].
    + destruct Hps as (Hpre & k & ->). split; [by apply prefix_app|].
      exists (length (record (w_AEAD w) (w_nonce w) p) + k)%nat.
      by rewrite take_app_add, Hem, <-app_assoc.
    + destruct Hps as (-> & -> & ->). split; [done|]. rewrite Hem, <-app_assoc. split; [|done].
      cbn [length]. replace (2 * S (length ps))%nat with (2 * length ps + 1 + 1)%nat by lia.
      by rewrite !Nat.iter_add.
Qed.

Lemma writer_write_spec w (bs : list byte) (n : nat) (oe : option error) (w' : writer W) :
  writer_inv w -> wwrite bs w = (n, oe, w') ->
  wrote w w' bs oe /\ (oe = None -> n = length bs).
Proof.
  intros Hw. unfold wwrite, writer_writer.
  destruct (ReadFrom_spec (S (length bs)) w (Buffer bs) bs 0 Hw) as (n' & oe' & w1 & r' & -> & Hwr & Hn);
    [done|lia|]. intros [= <- <- <-]. auto.
Qed.
End WriterSpec.

(** * The reader delivers the payloads *)

Record reader_inv {R} (r : reader R) : Prop := {
  ri_laws :: AEADLaws (r_AEAD r);
  ri_nonce : length (r_nonce r) = NonceSize (r_AEAD r);
  ri_buf : length (r_buf r) = (Z.to_nat payloadSizeMask + Overhead (r_AEAD r))%nat;
  ri_bounds : (r_lo r <= r_hi r <= length (r_buf r))%nat;
}.

Lemma newReader_inv {R} (r : R) (a : AEAD) : AEADLaws a -> reader_inv (newReader r a).
Proof.
  intros. constructor; cbn [newReader r_AEAD r_nonce r_buf r_lo r_hi];
    [done|apply length_replicate|apply length_replicate|lia].
Qed.

(** The reader once [rd] is left to read, the nonce is [nonce] and the buffer
    holds [buf]. *)
Definition advance {R} (rd : R) (nonce buf : list byte) (r : reader R) : reader R :=
  mkReader rd (r_AEAD r) nonce buf (r_lo r) (r_hi r).

Section ReaderSpec.
Context {R : Type} `{LawfulReader R}.
Implicit Types (r : reader R).

Lemma open_in_place_spec (n : nat) r (p rest : list byte) (oe : option error) :
  reader_inv r -> n = (length p + Overhead (r_AEAD r))%nat -> (n <= length (r_buf r))%nat ->
  delivers (r_Reader r) (Seal (r_AEAD r) (r_nonce r) p ++ rest) oe ->
  exists rd buf, open_in_place n r = Some (None, advance rd (increment (r_nonce r)) buf r) /\
    delivers rd rest oe /\ length buf = length (r_buf r) /\ take (length p) buf = p.
Proof.
  intros [Hlaws Hn Hbuf _] -> Hlen Hd.
  pose proof (Seal_length (r_nonce r) p) as LS.
  set (c := Seal (r_AEAD r) (r_nonce r) p) in *.
  destruct (ReadFull_enough (length p + Overhead (r_AEAD r)) (r_Reader r) _ _ Hd) as (rd & E & Hd').
  { rewrite length_app. lia. }
  rewrite drop_app_length' in Hd' by done. rewrite take_app_length' in E by done.
  set (buf := overwrite 0 c (r_buf r)).
  assert (Lb : length buf = length (r_buf r)) by (apply length_overwrite; lia).
  exists rd, (overwrite 0 p buf). unfold open_in_place. rewrite E. fold buf.
  assert (slice 0 (length p + Overhead (r_AEAD r)) buf = c) as ->.
  { rewrite <-LS. apply slice_overwrite_0. lia. }
  unfold c. rewrite Open_Seal by done. split; [done|]. split; [done|].
  split; [rewrite length_overwrite; lia|].
  rewrite <-slice_prefix. apply slice_overwrite_0. lia.
Qed.

Lemma read_record_spec r (p rest : list byte) (oe : option error) :
  reader_inv r -> payload_ok p ->
  delivers (r_Reader r) (record (r_AEAD r) (r_nonce r) p ++ rest) oe ->
  exists rd buf,
    read_record r = Some (length p, None, advance rd (increment (increment (r_nonce r))) buf r) /\
    delivers rd rest oe /\ length buf = length (r_buf r) /\ slice 0 (length p) buf = p.
Proof.
  intros Hr Hp Hd. pose proof Hr as [Hlaws Hn Hbuf Hb].
  assert (2 <= Z.to_nat payloadSizeMask)%nat by (assert (2 <= payloadSizeMask) by done; lia).
  unfold record in Hd. rewrite <-app_assoc in Hd.
  destruct (open_in_place_spec (2 + Overhead (r_AEAD r)) r (size_bytes p)
    (Seal (r_AEAD r) (increment (r_nonce r)) p ++ rest) oe Hr)
    as (rd1 & buf1 & E1 & Hd1 & L1 & T1); [done|lia|exact Hd|].
  unfold read_record. rewrite E1. clear E1.
  set (r1 := advance rd1 (increment (r_nonce r)) buf1 r).
  assert (record_size (r_buf r1) = length p) as Hsz.
  { change (r_buf r1) with buf1. rewrite length_size_bytes in T1.
    rewrite <-(take_drop 2 buf1), T1. by apply record_size_spec. }
  assert (Hr1 : reader_inv r1).
  { constructor; cbn [r1 advance r_AEAD r_nonce r_buf r_lo r_hi];
      [done|by rewrite length_increment|lia|lia]. }
  cbv beta iota zeta. rewrite Hsz. destruct Hp as [Hp0 Hp].
  destruct (open_in_place_spec (length p + Overhead (r_AEAD r1)) r1 p rest oe Hr1)
    as (rd2 & buf2 & E2 & Hd2 & L2 & T2);
    [done|change (r_buf r1) with buf1; change (r_AEAD r1) with (r_AEAD r); lia|exact Hd1|].
  rewrite E2. exists rd2, buf2. split; [done|]. split; [done|].
  split; [change (r_buf r1) with buf1 in L2; lia|]. by rewrite slice_prefix.
Qed.

Lemma read_record_end r (oe : option error) :
  reader_inv r -> delivers (r_Reader r) [] oe ->
  match oe with
  | None => read_record r = None
  | Some e => exists rd, read_record r = Some (0%nat, Some e, advance rd (r_nonce r) (r_buf r) r) /\
      delivers rd [] oe
  end.
Proof.
  intros Hr Hd. unfold read_record, open_in_place. destruct oe as [e|].
  - destruct (ReadFull_short (2 + Overhead (r_AEAD r)) (r_Reader r) [] e Hd) as (rd & -> & Hd');
      [cbn; lia|].
    exists rd. split; [|done]. rewrite overwrite_0. cbn. unfold short_error.
    rewrite decide_False by (by intros [_ []]). by rewrite drop_0.
  - by rewrite (ReadFull_block (2 + Overhead (r_AEAD r)) (r_Reader r) [] Hd) by (cbn; lia).
Qed.
End ReaderSpec.

(** What the reader will deliver: the rest of its current record, then the
    payloads of the records still on the wire. *)
Definition reader_delivers {R} `{LawfulReader R} (r : reader R) (bs : list byte)
    (oe : option error) : Prop :=
  reader_inv r /\
  exists ps, Forall payload_ok ps /\ bs = leftover r ++ concat ps /\
    delivers (r_Reader r) (records (r_AEAD r) (r_nonce r) ps) oe.

Section ReaderLaws.
Context {R : Type} `{LawfulReader R}.
Implicit Types (r : reader R).

Lemma leftover_nil r :
  reader_inv r -> leftover r = [] <-> ~ (0 < r_hi r - r_lo r)%nat.
Proof.
  intros Hr. pose proof (ri_bounds r Hr). unfold leftover.
  rewrite <-length_zero_iff_nil, length_slice by lia. lia.
Qed.

Lemma reader_delivers_nil r (oe : option error) :
  reader_delivers r [] oe ->
  reader_inv r /\ leftover r = [] /\ delivers (r_Reader r) [] oe.
Proof.
  intros (Hr & ps & Hok & Hbs & Hd). symmetry in Hbs. apply app_nil in Hbs as [Hl Hc].
  destruct ps as [|p ps]; [done|].
  apply Forall_cons in Hok as [[Hp _] _]. apply (f_equal length) in Hc.
  cbn in Hc. rewrite length_app in Hc. lia.
Qed.

(** A read served from the leftover of the last record. *)
Lemma reader_read_leftover r (n : nat) (bs : list byte) (oe : option error) :
  (0 < n)%nat -> (0 < r_hi r - r_lo r)%nat -> reader_delivers r bs oe ->
  exists c rest r', rread n r = Some (c, None, r') /\ bs = c ++ rest /\
    c <> [] /\ (length c <= n)%nat /\ reader_delivers r' rest oe.
Proof.
  intros Hn Hlo (Hr & ps & Hok & -> & Hd). pose proof (ri_bounds r Hr) as Hb.
  unfold rread, reader_reader. rewrite decide_True by done.
  set (m := Nat.min n (r_hi r - r_lo r)).
  exists (slice (r_lo r) (r_lo r + m) (r_buf r)),
    (slice (r_lo r + m) (r_hi r) (r_buf r) ++ concat ps), (set_leftover (r_lo r + m) (r_hi r) r).
  split; [done|]. unfold leftover. rewrite app_assoc, slice_app by lia. split; [done|].
  assert (length (slice (r_lo r) (r_lo r + m) (r_buf r)) = m) as Lm
    by (rewrite length_slice; lia).
  split; [intros E; rewrite E in Lm; cbn in Lm; lia|]. split; [lia|].
  split; [destruct Hr; constructor; cbn [set_leftover r_AEAD r_nonce r_buf r_lo r_hi]; [done..|lia]|].
  by exists ps.
Qed.

(** The state after a record of payload [p] of which [m] bytes were handed out. *)
Lemma reader_delivers_record r (p buf rd_nonce : list byte) (rd : R) (m : nat)
    (ps : list (list byte)) (oe : option error) :
  reader_inv (advance rd rd_nonce buf r) -> leftover r = [] ->
  length buf = length (r_buf r) -> slice 0 (length p) buf = p ->
  (m <= length p <= length buf)%nat -> Forall payload_ok ps ->
  delivers rd (records (r_AEAD r) rd_nonce ps) oe ->
  let r' := advance rd rd_nonce buf r in
  reader_delivers (if decide (m < length p)%nat then set_leftover m (length p) r' else r')
    (drop m p ++ concat ps) oe.
Proof.
  intros Hr Hl L S Hm Hok Hd r'. case_decide as Hlt.
  - split; [destruct Hr; constructor; cbn [set_leftover r_AEAD r_nonce r_buf r_lo r_hi] in *; [done..|]|].
    + change (r_buf r') with buf. lia.
    + exists ps. split; [done|]. split; [|done]. unfold leftover.
      cbn [set_leftover r_buf r_lo r_hi]. change (r_buf r') with buf.
      f_equal. rewrite <-S at 1. by rewrite drop_slice.
  - split; [done|]. exists ps. split; [done|]. split; [|done].
    rewrite drop_ge by lia. symmetry. rewrite (proj2 (leftover_nil r' Hr)); [done|].
    pose proof (ri_bounds _ Hr) as Hb. unfold leftover in Hl.
    change (r_lo r') with (r_lo r). change (r_hi r') with (r_hi r).
    apply (f_equal length) in Hl. cbn in Hb. rewrite length_slice in Hl by lia. cbn in Hl. lia.
Qed.

(** A read that opens the next record. *)
Lemma reader_read_fresh r (n : nat) (bs : list byte) (oe : option error) :
  (0 < n)%nat -> bs <> [] -> ~ (0 < r_hi r - r_lo r)%nat -> reader_delivers r bs oe ->
  exists c rest r', rread n r = Some (c, None, r') /\ bs = c ++ rest /\
    c <> [] /\ (length c <= n)%nat /\ reader_delivers r' rest oe.
Proof.
  intros Hn Hne Hlo (Hr & ps & Hok & -> & Hd).
  pose proof (proj2 (leftover_nil r Hr) Hlo) as Hl. rewrite Hl in *.
  unfold rread, reader_reader. rewrite decide_False by done.
  destruct ps as [|p ps]; [done|]. apply Forall_cons in Hok as [Hp Hok].
  destruct (read_record_spec r p _ oe Hr Hp Hd) as (rd & buf & -> & Hd' & L & S).
  set (m := Nat.min n (length p)). set (nonce := increment (increment (r_nonce r))) in *.
  assert (length p <= length (r_buf r))%nat
    by (rewrite (ri_buf r Hr); unfold payload_ok in Hp; lia).
  assert (slice 0 m (r_buf (advance rd nonce buf r)) = take m p) as ->.
  { cbn [advance r_buf]. rewrite <-S. rewrite take_slice by lia. done. }
  exists (take m p), (drop m p ++ concat ps). eexists. split; [done|].
  split; [cbn; by rewrite app_assoc, take_drop|]. unfold payload_ok in Hp.
  split; [intros E; apply (f_equal length) in E; rewrite length_take in E; cbn in E; lia|].
  split; [rewrite length_take; lia|].
  apply reader_delivers_record; try done; [|lia].
  destruct Hr. constructor; cbn [advance r_AEAD r_nonce r_buf r_lo r_hi];
    [done|unfold nonce; by rewrite !length_increment|lia|lia].
Qed.
End ReaderLaws.

(** The reader of a record stream is itself a lawful reader, of the plaintext. *)
#[export] Instance reader_lawful {R} `{LawfulReader R} : LawfulReader (reader R).
Proof.
  refine {| delivers := reader_delivers |}.
  - intros r n Hn (Hr & Hl & Hd)%reader_delivers_nil.
    unfold rread, reader_reader. rewrite decide_False by (by apply leftover_nil).
    by rewrite (read_record_end r None Hr Hd).
  - intros r n e Hn (Hr & Hl & Hd)%reader_delivers_nil.
    unfold rread, reader_reader. rewrite decide_False by (by apply leftover_nil).
    destruct (read_record_end r (Some e) Hr Hd) as (rd & -> & Hd').
    exists (advance rd (r_nonce r) (r_buf r) r). rewrite Nat.min_0_r, slice_empty, decide_False by lia.
    split; [done|]. split; [destruct Hr; by constructor|].
    exists []. split; [constructor|]. split; [|done]. change ([] = leftover r ++ []). by rewrite Hl.
  - intros r n bs oe Hn Hne Hd. destruct (decide (0 < r_hi r - r_lo r)%nat).
    + by apply reader_read_leftover.
    + by apply reader_read_fresh.
Defined.

(** * Encrypted connections *)

(** The [Cipher] interface of tunnel/cipher.go. *)
Record Cipher : Type := {
  KeySize : nat;
  SaltSize : nat;
  Encrypter : list byte -> result error AEAD;
  Decrypter : list byte -> result error AEAD;
}.

(** What the two ends rely on: both directions derive the same AEAD from the
    same salt, and it obeys the AEAD contract. *)
Class CipherLaws (c : Cipher) : Prop := {
  SaltSize_pos : (0 < SaltSize c)%nat;
  Decrypter_Encrypter salt a : Encrypter c salt = Ok a -> Decrypter c salt = Ok a;
  Encrypter_laws salt a : Encrypter c salt = Ok a -> AEADLaws a;
}.

(** [streamConn]: each direction starts as the bare connection ([r == nil],
    [w == nil]) and is wrapped at its first use.  [sc_rand] is what filling the
    writer's salt from [rand.Reader] gives. *)
Record streamConn (R W : Type) : Type := mkStreamConn {
  sc_Cipher : Cipher;
  sc_r : R + reader R;
  sc_w : W + writer W;
  sc_rand : result error (list byte);
}.
Arguments mkStreamConn {R W} _ _ _ _.
Arguments sc_Cipher {R W} _.
Arguments sc_r {R W} _.
Arguments sc_w {R W} _.
Arguments sc_rand {R W} _.

Section StreamConn.
Context {R W : Type} `{Reader R} `{Writer W}.
Implicit Types (c : streamConn R W).

Definition set_r (r : R + reader R) c : streamConn R W :=
  mkStreamConn (sc_Cipher c) r (sc_w c) (sc_rand c).
Definition set_w (w : W + writer W) c : streamConn R W :=
  mkStreamConn (sc_Cipher c) (sc_r c) w (sc_rand c).

(** [c.initReader()] on the bare connection [conn]. *)
Definition initReader (conn : R) c : option (result error (reader R) * streamConn R W) :=
  match ReadFull (SaltSize (sc_Cipher c)) conn with
  | None => None
  | Some (_, Some err, conn) => Some (Err err, set_r (inl conn) c)
  | Some (salt, None, conn) =>
      match Decrypter (sc_Cipher c) salt with
      | Err err => Some (Err err, set_r (inl conn) c)
      | Ok aead => let r := newReader conn aead in Some (Ok r, set_r (inr r) c)
      end
  end.

(** [c.Read(b)]. *)
#[export] Instance streamConn_reader : Reader (streamConn R W) := fun n c =>
  let read r c := match rread n r with
                  | None => None
                  | Some (bs, err, r) => Some (bs, err, set_r (inr r) c)
                  end in
  match sc_r c with
  | inr r => read r c
  | inl conn =>
      match initReader conn c with
      | None => None
      | Some (Err err, c) => Some ([], Some err, c)
      | Some (Ok r, c) => read r c
      end
  end.

(** [c.initWriter()] on the bare connection [conn]. *)
Definition initWriter (conn : W) c : result error (writer W) * streamConn R W :=
  match sc_rand c with
  | Err err => (Err err, c)
  | Ok salt =>
      match Encrypter (sc_Cipher c) salt with
      | Err err => (Err err, c)
      | Ok aead =>
          match wwrite salt conn with
          | (_, Some err, conn) => (Err err, set_w (inl conn) c)
          | (_, None, conn) => let w := newWriter conn aead in (Ok w, set_w (inr w) c)
          end
      end
  end.

(** [c.Write(b)]. *)
#[export] Instance streamConn_writer : Writer (streamConn R W) := fun b c =>
  let write w c := let '(n, oe, w) := wwrite b w in (n, oe, set_w (inr w) c) in
  match sc_w c with
  | inr w => write w c
  | inl conn =>
      match initWriter conn c with
      | (Err err, c) => (0%nat, Some err, c)
      | (Ok w, c) => write w c
      end
  end.
End StreamConn.

(** What a [streamConn] will deliver: before the salt has arrived nothing, or a
    salt and records under the key it selects. *)
Definition streamConn_delivers {R W} `{LawfulReader R} (c : streamConn R W) (bs : list byte)
    (oe : option error) : Prop :=
  match sc_r c with
  | inr r => delivers r bs oe
  | inl conn => (0 < SaltSize (sc_Cipher c))%nat /\
      ((bs = [] /\ delivers conn [] oe) \/
       exists salt a ps, length salt = SaltSize (sc_Cipher c) /\
         Decrypter (sc_Cipher c) salt = Ok a /\ AEADLaws a /\ Forall payload_ok ps /\
         bs = concat ps /\
         delivers conn (salt ++ records a (replicate (NonceSize a) x00) ps) oe)
  end.

Section StreamConnLaws.
Context {R W : Type} `{LawfulReader R} `{Writer W}.
Implicit Types (c : streamConn R W).

(** The first read: either the connection ends before the salt, or the salt
    is consumed and the rest is a record stream. *)
Lemma initReader_spec (conn : R) c (bs : list byte) (oe : option error) :
  sc_r c = inl conn -> streamConn_delivers c bs oe ->
  (bs = [] /\ match oe with
              | None => initReader conn c = None
              | Some e => exists conn', initReader conn c = Some (Err e, set_r (inl conn') c) /\
                  delivers conn' [] (Some e)
              end) \/
  exists r, initReader conn c = Some (Ok r, set_r (inr r) c) /\ delivers r bs oe.
Proof.
  intros Hc Hd. unfold streamConn_delivers in Hd. rewrite Hc in Hd.
  destruct Hd as [Hpos [[-> Hd]|(salt & a & ps & Hs & Ha & Hlaws & Hok & -> & Hd)]].
  - left. split; [done|]. unfold initReader. destruct oe as [e|].
    + destruct (ReadFull_short _ conn [] e Hd Hpos) as (conn' & -> & Hd').
      exists conn'. split; [|done]. unfold short_error. by rewrite decide_False by (by intros [_ []]).
    + by rewrite (ReadFull_block _ conn [] Hd Hpos).
  - right. unfold initReader.
    destruct (ReadFull_enough (SaltSize (sc_Cipher c)) conn _ _ Hd) as (conn' & -> & Hd');
      [rewrite length_app; lia|].
    rewrite take_app_length', drop_app_length' in * by done. rewrite Ha.
    eexists. split; [done|]. split; [by apply newReader_inv|]. by exists ps.
Qed.

Lemma set_r_delivers (r : reader R) c (bs : list byte) (oe : option error) :
  delivers r bs oe -> streamConn_delivers (set_r (inr r) c) bs oe.
Proof. done. Qed.
End StreamConnLaws.

#[export] Instance streamConn_lawful {R W} `{LawfulReader R} `{Writer W} :
  LawfulReader (streamConn R W).
Proof.
  refine {| delivers := streamConn_delivers |}; intros c n;
    unfold rread, streamConn_reader.
  - intros Hn Hd. destruct (sc_r c) as [conn|r] eqn:Hc.
    + destruct (initReader_spec conn c [] None Hc Hd) as [[_ ->]|(r & -> & Hr)]; [done|].
      by rewrite rread_end.
    + unfold streamConn_delivers in Hd. rewrite Hc in Hd. by rewrite rread_end.
  - intros e Hn Hd. destruct (sc_r c) as [conn|r] eqn:Hc.
    + pose proof Hd as Hd0. unfold streamConn_delivers in Hd0. rewrite Hc in Hd0.
      destruct Hd0 as [Hpos _].
      destruct (initReader_spec conn c [] (Some e) Hc Hd)
        as [[_ (conn' & -> & Hd')]|(r & -> & Hr)].
      * eexists. split; [done|]. split; [done|]. by left.
      * destruct (rread_error r n e Hn Hr) as (r' & -> & Hr'). eauto using set_r_delivers.
    + unfold streamConn_delivers in Hd. rewrite Hc in Hd.
      destruct (rread_error r n e Hn Hd) as (r' & -> & Hr'). eauto using set_r_delivers.
  - intros bs oe Hn Hne Hd.
    assert (forall r c, delivers r bs oe -> exists ch rest c',
      match rread n r with
      | None => None
      | Some (bs0, err, r0) => Some (bs0, err, set_r (inr r0) c)
      end = Some (ch, None, c') /\ bs = ch ++ rest /\ ch <> [] /\ (length ch <= n)%nat /\
      streamConn_delivers (W:=W) c' rest oe) as Hread.
    { intros r c' Hr. destruct (rread_more r n bs oe Hn Hne Hr) as (ch & rest & r' & -> & ? & ? & ? & ?).
      exists ch, rest. eauto 10 using set_r_delivers. }
    destruct (sc_r c) as [conn|r] eqn:Hc.
    + destruct (initReader_spec conn c bs oe Hc Hd) as [[? _]|(r & -> & Hr)]; [done|auto].
    + unfold streamConn_delivers in Hd. rewrite Hc in Hd. auto.
Defined.

(** [NewEncryptedConn(c, ciph)]: without a cipher the connection itself. *)
Inductive enc_conn (R W : Type) : Type :=
  | PlainConn (r : R) (w : W)
  | CipherConn (c : streamConn R W).
Arguments PlainConn {R W} _ _.
Arguments CipherConn {R W} _.

Definition NewEncryptedConn {R W} (r : R) (w : W) (rand : result error (list byte))
    (ciph : option Cipher) : enc_conn R W :=
  match ciph with
  | None => PlainConn r w
  | Some ciph => CipherConn (mkStreamConn ciph (inl r) (inl w) rand)
  end.

#[export] Instance enc_conn_reader {R W} `{Reader R, Writer W} : Reader (enc_conn R W) := fun n c =>
  match c with
  | PlainConn r w =>
      match rread n r with Some (bs, oe, r) => Some (bs, oe, PlainConn r w) | None => None end
  | CipherConn c =>
      match rread n c with Some (bs, oe, c) => Some (bs, oe, CipherConn c) | None => None end
  end.

#[export] Instance enc_conn_writer {R W} `{Reader R, Writer W} : Writer (enc_conn R W) := fun b c =>
  match c with
  | PlainConn r w => let '(n, oe, w) := wwrite b w in (n, oe, PlainConn r w)
  | CipherConn c => let '(n, oe, c) := wwrite b c in (n, oe, CipherConn c)
  end.

#[export] Instance enc_conn_lawful {R W} `{LawfulReader R} `{Writer W} :
  LawfulReader (enc_conn R W).
Proof.
  refine {| delivers c bs oe :=
    match c with PlainConn r _ => delivers r bs oe | CipherConn c => delivers c bs oe end |};
    intros [r w|c]; unfold rread at 1, enc_conn_reader.
  1, 2: intros n Hn Hd; by rewrite rread_end.
  1, 2: intros n e Hn Hd; destruct (rread_error _ n e Hn Hd) as (r' & -> & Hd'); eauto.
  1, 2: intros n bs oe Hn Hne Hd;
    destruct (rread_more _ n bs oe Hn Hne Hd) as (ch & rest & r' & -> & ? & ? & ? & ?); eauto 10.
Defined.

(** * Successive writes on one connection *)

Section WriteAll.
Context {R W : Type} `{Reader R} `{LawfulWriter W}.
Implicit Types (c : streamConn R W).

(** All the messages written, [None] as soon as a write fails. *)
Fixpoint write_all (msgs : list (list byte)) c : option (streamConn R W) :=
  match msgs with
  | [] => Some c
  | m :: msgs => match wwrite m c with
                 | (_, None, c) => write_all msgs c
                 | (_, Some _, _) => None
                 end
  end.

(** The bytes the connection has put on the wire. *)
Definition wire c : list byte :=
  match sc_w c with inl w => emitted w | inr w => emitted (w_Writer w) end.

Lemma write_all_records (msgs : list (list byte)) c c' (w : writer W) :
  sc_w c = inr w -> writer_inv w -> write_all msgs c = Some c' ->
  exists ps, Forall payload_ok ps /\ concat ps = concat msgs /\
    wire c' = emitted (w_Writer w) ++ records (w_AEAD w) (w_nonce w) ps.
Proof.
  revert c w. induction msgs as [|m msgs IH]; intros c w Hw Hi; cbn [write_all].
  - intros [= <-]. exists []. unfold wire. rewrite Hw. cbn. by rewrite app_nil_r.
  - unfold wwrite, streamConn_writer. rewrite Hw.
    destruct (wwrite m w) as [[n oe] w1] eqn:E.
    apply writer_write_spec in E as [(Hi1 & Ha & ps & Hok & Hps) _]; [|done].
    destruct oe as [e|]; [done|]. destruct Hps as (Hcat & Hn & Hem). intros Hall.
    destruct (IH (set_w (inr w1) c) w1 eq_refl Hi1 Hall) as (qs & Hokq & Hcatq & Hwire).
    exists (ps ++ qs). rewrite Forall_app, !concat_app, Hcat, Hcatq. split; [done|]. split; [done|].
    rewrite Hwire, Hem, records_app, Ha, Hn. by rewrite <-app_assoc.
Qed.

Lemma write_all_wire (msgs : list (list byte)) c c' (conn : W) (salt : list byte) :
  CipherLaws (sc_Cipher c) -> sc_w c = inl conn -> sc_rand c = Ok salt ->
  msgs <> [] -> write_all msgs c = Some c' ->
  exists a ps, Encrypter (sc_Cipher c) salt = Ok a /\ Forall payload_ok ps /\
    concat ps = concat msgs /\
    wire c' = emitted conn ++ salt ++ records a (replicate (NonceSize a) x00) ps.
Proof.
  intros Hlaws Hw Hrand Hne Hall. destruct msgs as [|m msgs]; [done|].
  cbn [write_all] in Hall. unfold wwrite, streamConn_writer in Hall. rewrite Hw in Hall.
  unfold initWriter in Hall. rewrite Hrand in Hall.
  destruct (Encrypter (sc_Cipher c) salt) as [a|e] eqn:Ea; [|done].
  destruct (wwrite salt conn) as [[n oe] conn'] eqn:Es.
  apply wwrite_spec in Es as (_ & Hem & Hfull).
  destruct oe as [e|]; [done|]. rewrite (Hfull eq_refl), firstn_all in Hem.
  pose proof (newWriter_inv conn' a (Encrypter_laws salt a Ea)) as Hi.
  destruct (write_all_records (m :: msgs) (set_w (inr (newWriter conn' a)) c) c'
    (newWriter conn' a) eq_refl Hi) as (ps & Hok & Hcat & Hwire).
  { cbn [write_all]. unfold wwrite at 1, streamConn_writer. exact Hall. }
  exists a, ps. rewrite Hwire. cbn [newWriter w_Writer w_AEAD w_nonce].
  rewrite Hem, <-app_assoc. done.
Qed.
End WriteAll.

(** ** Both ends of an encrypted connection *)

Lemma stream_roundtrip {R W R' W'} `{Reader R} `{LawfulWriter W} `{LawfulReader R'}
    `{Writer W'} (c c' : streamConn R W) (conn : W) (salt : list byte) (msgs : list (list byte))
    (peer : streamConn R' W') (conn' : R') (oe : option error) (n : nat) :
  CipherLaws (sc_Cipher c) -> sc_w c = inl conn -> emitted conn = [] ->
  sc_rand c = Ok salt -> length salt = SaltSize (sc_Cipher c) -> msgs <> [] ->
  write_all msgs c = Some c' ->
  sc_Cipher peer = sc_Cipher c -> sc_r peer = inl conn' -> delivers conn' (wire c') oe ->
  (n <= length (concat msgs))%nat ->
  exists peer', ReadFull n peer = Some (take n (concat msgs), None, peer') /\
    delivers peer' (drop n (concat msgs)) oe.
Proof.
  intros Hlaws Hw Hem Hrand Hsalt Hne Hall Hc Hr Hd Hn.
  destruct (write_all_wire msgs c c' conn salt) as (a & ps & Ha & Hok & Hcat & Hwire); try done.
  rewrite Hwire, Hem, app_nil_l in Hd. apply ReadFull_enough; [|done].
  cbn. unfold streamConn_delivers. rewrite Hr, Hc. split; [apply SaltSize_pos|]. right.
  exists salt, a, ps. split; [done|]. split; [by apply Decrypter_Encrypter|].
  split; [by eapply Encrypter_laws|]. done.
Qed.

(** The records of a fresh writer, with the nonce of every seal spelt out. *)
Lemma records_nonces (a : AEAD) (ps : list (list byte)) (k : nat) :
  records a (nonce_at (NonceSize a) k) ps =
  concat (imap (fun i p => Seal a (nonce_at (NonceSize a) (k + 2 * i)) (size_bytes p) ++
                           Seal a (nonce_at (NonceSize a) (k + 2 * i + 1)) p) ps).
Proof.
  revert k. induction ps as [|p ps IH]; intros k; [done|].
  cbn [records imap concat]. rewrite <-!nonce_at_S, IH. unfold record, compose.
  rewrite <-nonce_at_S. replace (k + 2 * 0)%nat with k by lia.
  replace (k + 1)%nat with (S k) by lia. f_equal. f_equal. apply imap_ext. intros i q _.
  replace (S (S k) + 2 * i)%nat with (k + 2 * S i)%nat by lia. done.
Qed.

(** * A concrete AEAD for the witnesses

    One tag byte derived from the nonce and the key; not encryption, but it
    obeys the contract and rejects a wrong nonce. *)

Definition toy_tag (key nonce : list byte) : byte := byte_of_Z (le_get key + le_get nonce + 1).

Definition toy_aead (key : list byte) : AEAD := {|
  Overhead := 1;
  NonceSize := 2;
  Seal nonce p := p ++ [toy_tag key nonce];
  Open nonce c :=
    if decide (last c = Some (toy_tag key nonce)) then Ok (removelast c)
    else Err (ErrMsg "message authentication failed");
|}.

#[export] Instance toy_aead_laws (key : list byte) : AEADLaws (toy_aead key).
Proof.
  split; intros nonce p; cbn [toy_aead Seal Open Overhead].
  - by rewrite length_app.
  - intros _. rewrite last_snoc, decide_True by done. by rewrite removelast_last.
Qed.

Definition toy_cipher : Cipher := {|
  KeySize := 4;
  SaltSize := 4;
  Encrypter salt := Ok (toy_aead salt);
  Decrypter salt := Ok (toy_aead salt);
|}.

#[export] Instance toy_cipher_laws : CipherLaws toy_cipher.
Proof. split; cbn; [lia|done|]. intros salt a [= <-]. apply toy_aead_laws. Qed.

(** * Properties *)

(** [increment] counts: the nonce read as a little-endian integer goes up by
    one and wraps around at its width, which it keeps. *)
Theorem increment_counts (b : list byte) :
  length (increment b) = length b /\
  le_get (increment b) = (le_get b + 1) `mod` 2 ^ (8 * Z.of_nat (length b)).
Proof. split; [apply length_increment|apply le_get_increment]. Qed.

(** C11: Writes on a fresh encrypted connection put on the wire the salt and then,
    for the messages cut into payloads of 1 to 0x7FFF bytes, two seals per
    payload (its length, itself) under consecutive nonces, and no two of these
    seals share a nonce while fewer than 256^NonceSize are made. *)
Theorem writer_nonces_fresh {R W} `{Reader R} `{LawfulWriter W}
    (c c' : streamConn R W) (conn : W) (salt : list byte) (msgs : list (list byte)) :
  CipherLaws (sc_Cipher c) -> sc_w c = inl conn -> sc_rand c = Ok salt -> msgs <> [] ->
  write_all msgs c = Some c' ->
  exists a ps, Encrypter (sc_Cipher c) salt = Ok a /\
    Forall payload_ok ps /\ concat ps = concat msgs /\
    wire c' = emitted conn ++ salt ++
      concat (imap (fun i p => Seal a (nonce_at (NonceSize a) (2 * i)) (size_bytes p) ++
                               Seal a (nonce_at (NonceSize a) (2 * i + 1)) p) ps) /\
    (2 * Z.of_nat (length ps) <= 2 ^ (8 * Z.of_nat (NonceSize a)) ->
     NoDup (nonce_at (NonceSize a) <$> seq 0 (2 * length ps))).
Proof.
  intros Hlaws Hw Hrand Hne Hall.
  destruct (write_all_wire msgs c c' conn salt) as (a & ps & Ha & Hok & Hcat & ->); try done.
  exists a, ps. split; [done|]. split; [done|]. split; [done|]. split.
  - change (replicate (NonceSize a) x00) with (nonce_at (NonceSize a) 0). by rewrite records_nonces.
  - intros Hbound. apply NoDup_fmap_2_strong; [|apply NoDup_seq].
    intros i j Hi%elem_of_seq Hj%elem_of_seq. apply nonce_at_inj; lia.
Qed.

Lemma writer_nonces_fresh_witness :
  let c := mkStreamConn (R:=stream) toy_cipher (inl (Stream [] None)) (inl (Sink [] None))
             (Ok [x01; x02; x03; x04]) in
  exists c' a ps, write_all [[x61]; [x62; x63]] c = Some c' /\
    Encrypter (sc_Cipher c) [x01; x02; x03; x04] = Ok a /\
    Forall payload_ok ps /\ concat ps = concat [[x61]; [x62; x63]] /\
    wire c' = emitted (Sink [] None) ++ [x01; x02; x03; x04] ++
      concat (imap (fun i p => Seal a (nonce_at (NonceSize a) (2 * i)) (size_bytes p) ++
                               Seal a (nonce_at (NonceSize a) (2 * i + 1)) p) ps) /\
    (2 * Z.of_nat (length ps) <= 2 ^ (8 * Z.of_nat (NonceSize a)) ->
     NoDup (nonce_at (NonceSize a) <$> seq 0 (2 * length ps))).
Proof.
  set (c := mkStreamConn (R:=stream) toy_cipher (inl (Stream [] None)) (inl (Sink [] None))
              (Ok [x01; x02; x03; x04])).
  destruct (run_succeeds (write_all [[x61]; [x62; x63]] c)) as [c' E]; [vm_compute; reflexivity|].
  exists c'.
  destruct (writer_nonces_fresh c c' (Sink [] None) [x01; x02; x03; x04] [[x61]; [x62; x63]])
    as (a & ps & H1 & H2 & H3 & H4 & H5); [apply toy_cipher_laws|reflexivity|reflexivity|discriminate|exact E|].
  exists a, ps. repeat split; assumption.
Defined.

(** C10: The encrypted stream is transparent: what was written on one end,
    whatever the writes and however the network cuts the wire bytes, is read on
    the other end byte for byte, in order, and a read past the end sees the
    connection's own error, or blocks. *)
Theorem encrypted_stream_roundtrip {R W R' W'} `{Reader R} `{LawfulWriter W} `{LawfulReader R'}
    `{Writer W'} (c c' : streamConn R W) (conn : W) (salt : list byte) (msgs : list (list byte))
    (peer : streamConn R' W') (conn' : R') (oe : option error) (n : nat) :
  CipherLaws (sc_Cipher c) -> sc_w c = inl conn -> emitted conn = [] ->
  sc_rand c = Ok salt -> length salt = SaltSize (sc_Cipher c) -> msgs <> [] ->
  write_all msgs c = Some c' ->
  sc_Cipher peer = sc_Cipher c -> sc_r peer = inl conn' -> delivers conn' (wire c') oe ->
  (n <= length (concat msgs))%nat ->
  exists peer', ReadFull n peer = Some (take n (concat msgs), None, peer') /\
    delivers peer' (drop n (concat msgs)) oe.
Proof. intros Hlaws Hw Hem Hrand Hsalt Hne Hall Hc Hr Hd Hn. by eapply (stream_roundtrip c c' conn salt msgs peer conn'). Qed.

Lemma encrypted_stream_roundtrip_witness :
  let c := mkStreamConn (R:=stream) toy_cipher (inl (Stream [] None)) (inl (Sink [] None))
             (Ok [x01; x02; x03; x04]) in
  exists c', write_all [[x61]; [x62; x63]] c = Some c' /\
    exists peer', ReadFull 2 (mkStreamConn (W:=sink) toy_cipher
        (inl (Stream ((fun x => [x]) <$> wire c') (Some EOF))) (inl (Sink [] None)) (Err EOF)) =
      Some (take 2 [x61; x62; x63], None, peer') /\
      delivers peer' (drop 2 [x61; x62; x63]) (Some EOF).
Proof.
  set (c := mkStreamConn (R:=stream) toy_cipher (inl (Stream [] None)) (inl (Sink [] None))
              (Ok [x01; x02; x03; x04])).
  destruct (run_succeeds (write_all [[x61]; [x62; x63]] c)) as [c' E]; [vm_compute; reflexivity|].
  exists c'. split; [exact E|].
  set (conn' := Stream ((fun x => [x]) <$> wire c') (Some EOF)).
  set (peer := mkStreamConn (W:=sink) toy_cipher (inl conn') (inl (Sink [] None)) (Err EOF)).
  apply (encrypted_stream_roundtrip c c' (Sink [] None) [x01; x02; x03; x04] [[x61]; [x62; x63]]
    peer conn' (Some EOF) 2);
    try reflexivity; [apply toy_cipher_laws|discriminate|exact E| |].
  - split; [apply concat_singletons|reflexivity].
  - apply Nat.leb_le. reflexivity.
Defined.
