(* ===== verification/WriteTo.v ===== *)
(** tunnel/tunnel.go: the [WriteTo] and [ReadFrom] methods of the encrypted stream,
    the shortcuts [io.Copy] takes where its source has none of its own: records go
    from the reader's buffer to a writer. *)

From S2P Require Import Prelude GoIO Aead.

Local Open Scope Z_scope.

Section WriteTo.
Context {R W : Type} `{Reader R, Writer W}.
Implicit Types (r : reader R) (w : W).

(** The loop on what is left of the previous record.  [None]: out of fuel. *)
Fixpoint write_leftover (fuel : nat) r w (n : nat) : option (nat * option error * reader R * W) :=
  if decide (0 < r_hi r - r_lo r)%nat then
    match fuel with
    | O => None
    | S fuel =>
        let '(nw, ew, w) := wwrite (leftover r) w in
        let r := set_leftover (r_lo r + nw) (r_hi r) r in
        match ew with
        | Some e => Some ((n + nw)%nat, Some e, r, w)
        | None => write_leftover fuel r w (n + nw)
        end
    end
  else Some (n, None, r, w).

(** The loop on the records.  [None]: it waits for ever, or is out of fuel. *)
Fixpoint write_records (fuel : nat) r w (n : nat) : option (nat * option error * reader R * W) :=
  match fuel with
  | O => None
  | S fuel =>
      match read_record r with
      | None => None
      | Some (nr, er, r) =>
          let '(nw, ew, w) := if decide (0 < nr)%nat then wwrite (slice 0 nr (r_buf r)) w else (0%nat, None, w) in
          match ew, er with
          | Some e, _ => Some ((n + nw)%nat, Some e, r, w)
          | None, Some EOF => Some ((n + nw)%nat, None, r, w)
          | None, Some e => Some ((n + nw)%nat, Some e, r, w)
          | None, None => write_records fuel r w (n + nw)
          end
      end
  end.

(** [r.WriteTo(w)]. *)
Definition reader_WriteTo (fuel : nat) r w : option (nat * option error * reader R * W) :=
  match write_leftover fuel r w 0 with
  | Some (n, None, r, w) => write_records fuel r w n
  | res => res
  end.

(** [c.WriteTo(w)]. *)
Definition streamConn_WriteTo {W' : Type} (fuel : nat) (c : streamConn R W') w
    : option (nat * option error * streamConn R W' * W) :=
  let write r c :=
    match reader_WriteTo fuel r w with
    | Some (n, oe, r, w) => Some (n, oe, set_r (inr r) c, w)
    | None => None
    end in
  match sc_r c with
  | inr r => write r c
  | inl conn =>
      match initReader conn c with
      | None => None
      | Some (Err e, c) => Some (0%nat, Some e, c, w)
      | Some (Ok r, c) => write r c
      end
  end.
End WriteTo.

(** [c.ReadFrom(src)]. *)
Definition streamConn_ReadFrom {R R' W : Type} `{Reader R', Writer W} (fuel : nat) (c : streamConn R W) (src : R')
    : option (nat * option error * streamConn R W * R') :=
  let copy w c :=
    match ReadFrom fuel w src 0 with
    | Some (n, oe, w, src) => Some (n, oe, set_w (inr w) c, src)
    | None => None
    end in
  match sc_w c with
  | inr w => copy w c
  | inl conn =>
      match initWriter conn c with
      | (Err e, c) => Some (0%nat, Some e, c, src)
      | (Ok w, c) => copy w c
      end
  end.

(** * What it writes *)

Section Spec.
Context {R W : Type} `{LawfulReader R, LawfulWriter W}.
Implicit Types (r : reader R) (w : W).

(** Writes never fail. *)
Definition accepting : Prop := forall p w, exists w', wwrite p w = (length p, None, w').

(** A copy of [bs], the source ending with [e]: a prefix is written; all of it
    unless a write fails; [nil] is said only at the end of the source. *)
Record copies (bs : list byte) (e : error) w (m : nat) (oe : option error) w' : Prop := {
  cs_bound : (m <= length bs)%nat;
  cs_emitted : emitted w' = emitted w ++ take m bs;
  cs_ok : oe = None -> m = length bs /\ e = EOF;
  cs_all : accepting -> m = length bs /\ oe = if decide (e = EOF) then None else Some e;
}.

(** A write that succeeds, then the rest. *)
Lemma copies_app p bs e w w1 m oe w' :
  emitted w1 = emitted w ++ p -> copies bs e w1 m oe w' -> copies (p ++ bs) e w (length p + m) oe w'.
Proof.
  intros E [C1 C2 C3 C4]. constructor; rewrite ?length_app.
  - lia.
  - rewrite C2, E, <-app_assoc, take_app_add. done.
  - intros Ho. destruct (C3 Ho) as [-> ->]. done.
  - intros Ha. destruct (C4 Ha) as [-> ->]. done.
Qed.

(** A write that fails ends the copy. *)
Lemma copies_failed p bs e w n err w' :
  wwrite p w = (n, Some err, w') -> copies (p ++ bs) e w n (Some err) w'.
Proof.
  intros E. pose proof (wwrite_spec _ _ _ _ _ E) as (Hn & He & _). constructor; [rewrite length_app; lia| |done|].
  - by rewrite He, take_app_le by lia.
  - intros Ha. destruct (Ha p w) as [w2 E2]. congruence.
Qed.

Lemma write_records_spec fuel r w n ps e :
  reader_inv r -> Forall payload_ok ps -> delivers (r_Reader r) (records (r_AEAD r) (r_nonce r) ps) (Some e) ->
  (length ps < fuel)%nat ->
  exists m oe r' w', write_records fuel r w n = Some ((n + m)%nat, oe, r', w') /\ copies (concat ps) e w m oe w'.
Proof.
  revert r w n fuel. induction ps as [|p ps IH]; intros r w n fuel Hr Hok Hd Hf; (destruct fuel as [|fuel]; [lia|]);
    cbn [write_records].
  - destruct (read_record_end r (Some e) Hr Hd) as (rd & -> & _). rewrite decide_False by lia.
    destruct (decide (e = EOF)) as [->|He].
    + exists 0%nat, None. eexists _, w. split; [done|]. constructor; [done|by rewrite app_nil_r|done|].
      intros _. by rewrite decide_True.
    + exists 0%nat, (Some e). eexists _, w. split; [by destruct e|]. constructor; [done|by rewrite app_nil_r|done|].
      intros _. by rewrite decide_False.
  - apply Forall_cons in Hok as [Hp Hok]. cbn [records] in Hd.
    destruct (read_record_spec r p _ (Some e) Hr Hp Hd) as (rd & buf & -> & Hd' & L & S).
    rewrite decide_True by (unfold payload_ok in Hp; lia). cbn [advance r_buf]. rewrite S.
    destruct (wwrite p w) as [[nw [err|]] w1] eqn:Ew.
    + eexists nw, (Some err), _, w1. split; [done|]. by apply copies_failed.
    + pose proof (wwrite_spec _ _ _ _ _ Ew) as (_ & He & Hn). rewrite (Hn eq_refl) in *. rewrite firstn_all in He.
      destruct (IH (advance rd (increment (increment (r_nonce r))) buf r) w1 (n + length p)%nat fuel) as (m & oe & r' & w' & E & Hc).
      * destruct Hr. constructor; cbn [advance r_AEAD r_nonce r_buf r_lo r_hi];
          [done|by rewrite !length_increment|lia|lia].
      * done.
      * exact Hd'.
      * cbn [length] in Hf. lia.
      * exists (length p + m)%nat, oe, r', w'. split; [by rewrite E, Nat.add_assoc|]. by eapply copies_app.
Qed.

Lemma payloads_count ps : Forall payload_ok ps -> (length ps <= length (concat ps))%nat.
Proof.
  induction 1 as [|p ps Hp _ IH]; [done|]. cbn. rewrite length_app. unfold payload_ok in Hp. lia.
Qed.

Lemma reader_WriteTo_spec fuel r w bs e :
  delivers r bs (Some e) -> (length bs + 1 < fuel)%nat ->
  exists m oe r' w', reader_WriteTo fuel r w = Some (m, oe, r', w') /\ copies bs e w m oe w'.
Proof.
  intros (Hr & ps & Hok & -> & Hd) Hf. rewrite length_app in Hf. pose proof (payloads_count _ Hok) as Hps.
  pose proof (ri_bounds r Hr) as Hb. unfold reader_WriteTo. destruct fuel as [|fuel]; [lia|]. cbn [write_leftover].
  case_decide as Hlo.
  - destruct (wwrite (leftover r) w) as [[nw [err|]] w1] eqn:Ew.
    + eexists nw, (Some err), _, w1. split; [done|]. by apply copies_failed.
    + pose proof (wwrite_spec _ _ _ _ _ Ew) as (_ & He & Hn). rewrite (Hn eq_refl) in *. rewrite firstn_all in He.
      assert (length (leftover r) = r_hi r - r_lo r)%nat as Hl by (unfold leftover; rewrite length_slice; lia).
      assert (forall f n, write_leftover f (set_leftover (r_lo r + length (leftover r)) (r_hi r) r) w1 n =
        Some (n, None, set_leftover (r_lo r + length (leftover r)) (r_hi r) r, w1)) as Hstop.
      { intros f n. destruct f; cbn [write_leftover set_leftover r_hi r_lo]; rewrite decide_False by lia; done. }
      rewrite Hstop.
      destruct (write_records_spec (S fuel) (set_leftover (r_lo r + length (leftover r)) (r_hi r) r) w1
        (0 + length (leftover r)) ps e) as (m & oe & r' & w' & E & Hc); [|done|exact Hd|lia|].
      { destruct Hr. constructor; cbn [set_leftover r_AEAD r_nonce r_buf r_lo r_hi]; [done..|lia]. }
      rewrite E. exists (length (leftover r) + m)%nat, oe, r', w'. split; [done|]. by eapply copies_app.
  - apply (leftover_nil r Hr) in Hlo. rewrite Hlo. cbn [app].
    destruct (write_records_spec (S fuel) r w 0 ps e Hr Hok Hd) as (m & oe & r' & w' & E & Hc); [lia|].
    exists m, oe, r', w'. by split.
Qed.
End Spec.
Arguments accepting W {_}.

(** * Properties *)

(** [WriteTo] copies the plaintext. On an encrypted connection that will
    deliver [bs] and then end with [e], it comes back having written a prefix of
    [bs], in order, and all of it if no write fails; it says [nil] only if all has
    been written and the connection ended with [io.EOF], and with a writer that
    takes everything it says what the connection ended with, [nil] for [io.EOF] -
    except that a connection that ends before its salt is reported as it is. *)
Theorem write_to_copies {R W W' : Type} `{LawfulReader R, LawfulWriter W, Writer W'} (c : streamConn R W') (w : W)
    (bs : list byte) (e : error) (fuel : nat) :
  delivers c bs (Some e) -> (length bs + 1 < fuel)%nat ->
  exists m oe c' w', streamConn_WriteTo fuel c w = Some (m, oe, c', w') /\
    (m <= length bs)%nat /\ emitted w' = emitted w ++ take m bs /\ (oe = None -> m = length bs /\ e = EOF) /\
    (accepting W -> m = length bs /\ (oe = (if decide (e = EOF) then None else Some e) \/ bs = [] /\ oe = Some e)).
Proof.
  intros Hd Hf. unfold streamConn_WriteTo. destruct (sc_r c) as [conn|r] eqn:Hc.
  - destruct (initReader_spec conn c bs (Some e) Hc Hd) as [[-> (conn' & -> & _)]|(r & -> & Hr)].
    + eexists 0%nat, (Some e), _, w. split; [done|]. split; [done|]. split; [by rewrite app_nil_r|]. split; [done|].
      intros _. split; [done|]. by right.
    + destruct (reader_WriteTo_spec fuel r w bs e Hr Hf) as (m & oe & r' & w' & -> & [C1 C2 C3 C4]).
      eexists m, oe, _, w'. split; [done|]. split_and!; try done. intros Ha. destruct (C4 Ha) as [? ?]. auto.
  - cbn in Hd. unfold streamConn_delivers in Hd. rewrite Hc in Hd.
    destruct (reader_WriteTo_spec fuel r w bs e Hd Hf) as (m & oe & r' & w' & -> & [C1 C2 C3 C4]).
    eexists m, oe, _, w'. split; [done|]. split_and!; try done. intros Ha. destruct (C4 Ha) as [? ?]. auto.
Qed.

(** Writing a slice is reading from a buffer that holds it. *)
Theorem write_is_read_from {R W : Type} `{Reader R, LawfulWriter W} (c : streamConn R W) (b : list byte) :
  (forall w, sc_w c = inr w -> writer_inv w) ->
  (forall conn w c', sc_w c = inl conn -> initWriter conn c = (Ok w, c') -> writer_inv w) ->
  exists n oe c' src, streamConn_ReadFrom (S (length b)) c (Buffer b) = Some (n, oe, c', src) /\ wwrite b c = (n, oe, c').
Proof.
  intros Hw Hi. unfold streamConn_ReadFrom.
  assert (forall w c0, writer_inv w -> exists n oe c' src,
    match ReadFrom (S (length b)) w (Buffer b) 0 with
    | Some (n, oe, w, src) => Some (n, oe, set_w (inr w) c0, src) | None => None end = Some (n, oe, c', src) /\
    (let '(n, oe, w) := wwrite b w in (n, oe, set_w (R:=R) (inr w) c0)) = (n, oe, c')) as Hcopy.
  { intros w c0 Hinv. destruct (ReadFrom_spec (S (length b)) w (Buffer b) b 0 Hinv) as (n & oe & w1 & r & E & _ & _); [done|lia|].
    unfold wwrite, writer_writer. rewrite E. eauto 10. }
  unfold wwrite at 1, streamConn_writer. destruct (sc_w c) as [conn|w] eqn:Ec; [|by apply Hcopy; apply Hw].
  destruct (initWriter conn c) as [[w|err] c1] eqn:Ei; [apply Hcopy; by eapply Hi|]. by eexists _, _, _, _.
Qed.

(** Two records, with the rest of one in the buffer after a short read. *)
Definition example_peer (bs : list byte) : streamConn stream sink :=
  mkStreamConn toy_cipher (inl (Stream [bs] (Some EOF))) (inl (Sink [] None)) (Err EOF).

Definition example_wire : list byte :=
  [x01; x02; x03; x04] ++
  records (toy_aead [x01; x02; x03; x04]) (replicate (NonceSize (toy_aead [x01; x02; x03; x04])) x00) [[x61; x62]; [x63]].

Lemma write_to_copies_witness :
  exists m oe c' w', streamConn_WriteTo 10 (example_peer example_wire) (Sink [x2a] None) = Some (m, oe, c', w') /\
    emitted w' = [x2a] ++ take m [x61; x62; x63].
Proof.
  destruct (write_to_copies (example_peer example_wire) (Sink [x2a] None) [x61; x62; x63] EOF 10) as (m & oe & c' & w' & E & _ & He & _).
  - split; [apply Nat.ltb_lt; reflexivity|]. right. exists [x01; x02; x03; x04], (toy_aead [x01; x02; x03; x04]), [[x61; x62]; [x63]].
    split; [reflexivity|]. split; [reflexivity|]. split; [apply toy_aead_laws|].
    split; [repeat first [apply Forall_nil_2|apply Forall_cons_2; [split; apply Nat.leb_le; vm_compute; reflexivity|]]|].
    split; [reflexivity|]. split; [|reflexivity]. vm_compute. reflexivity.
  - apply Nat.ltb_lt. reflexivity.
  - exists m, oe, c', w'. split; [exact E|exact He].
Defined.

(** The shortcut breaks the contract of [io.WriterTo] in one place: a connection
    that ends before its salt gives [io.EOF] where a copy should succeed. *)
Example early_end_is_an_error :
  match streamConn_WriteTo 10 (example_peer []) (Sink [] None) with Some (0%nat, Some EOF, _, _) => True | _ => False end.
Proof. exact I. Qed.
