(* ===== verification/WriterRace.v ===== *)
(** tunnel/tunnel.go: the writer of an encrypted connection used by several
    goroutines at once, as the relay of a tunnel, its keep-alive and its answers to
    pings use it (tunnel_pool/tunnel.go calls [packThenSend] from all three, without
    a lock).  The body of the loop of [ReadFrom] is taken apart into the accesses to
    the shared buffer and nonce. *)

From S2P Require Import Prelude GoIO Aead.

Local Open Scope Z_scope.

(** Where a goroutine is in the body of the loop, with the number of bytes it has
    read, or how its write to the connection ended. *)
Inductive seal_pc : Type :=
  | FillPayload (p : list byte)
  | PutSize (nr : nat)
  | SealSize (nr : nat)
  | NextNonce1 (nr : nat)
  | SealPayload (nr : nat)
  | NextNonce2 (nr : nat)
  | WriteRecord (nr : nat)
  | Finished (n : nat) (ew : option error).

Section Race.
Context {W : Type} `{Writer W}.
Implicit Types (w : writer W).

Definition set_buf (buf : list byte) w : writer W := mkWriter (w_Writer w) (w_AEAD w) (w_nonce w) buf.
Definition next_nonce w : writer W := mkWriter (w_Writer w) (w_AEAD w) (increment (w_nonce w)) (w_buf w).

(** One access.  What is sealed, with the nonce it is sealed under, comes first. *)
Definition seal_step (pc : seal_pc) w : option (list (list byte * list byte) * seal_pc * writer W) :=
  let ov := Overhead (w_AEAD w) in
  let buf := w_buf w in
  match pc with
  | FillPayload p => Some ([], PutSize (length p), set_buf (overwrite (2 + ov) p buf) w)
  | PutSize nr =>
      Some ([], SealSize nr, set_buf (overwrite 0 [byte_of_Z (Z.shiftr (Z.of_nat nr) 8); byte_of_Z (Z.of_nat nr)] buf) w)
  | SealSize nr =>
      Some ([(w_nonce w, slice 0 2 buf)], NextNonce1 nr, set_buf (overwrite 0 (Seal (w_AEAD w) (w_nonce w) (slice 0 2 buf)) buf) w)
  | NextNonce1 nr => Some ([], SealPayload nr, next_nonce w)
  | SealPayload nr =>
      let payload := slice (2 + ov) (2 + ov + nr) buf in
      Some ([(w_nonce w, payload)], NextNonce2 nr, set_buf (overwrite (2 + ov) (Seal (w_AEAD w) (w_nonce w) payload) buf) w)
  | NextNonce2 nr => Some ([], WriteRecord nr, next_nonce w)
  | WriteRecord nr =>
      let '(n, ew, c) := wwrite (slice 0 (2 + ov + nr + ov) buf) (w_Writer w) in
      Some ([], Finished n ew, mkWriter c (w_AEAD w) (w_nonce w) buf)
  | Finished _ _ => None
  end.

(** Several goroutines on one writer; [ra_sealed]: all that was sealed. *)
Record race : Type := mkRace {
  ra_pcs : list seal_pc;
  ra_writer : writer W;
  ra_sealed : list (list byte * list byte);
}.

Definition start_race (ps : list (list byte)) w : race := mkRace (FillPayload <$> ps) w [].

(** The goroutine [i] moves. *)
Definition race_step (s : race) (i : nat) : option race :=
  pc ← ra_pcs s !! i;
  '(sealed, pc, w) ← seal_step pc (ra_writer s);
  Some (mkRace (<[i := pc]> (ra_pcs s)) w (ra_sealed s ++ sealed)).

(** Alone, a goroutine does what [seal_record] does. *)
Lemma seal_steps_alone p w :
  exists sealed,
    run race_step (start_race [p] w) (replicate 7 0%nat) =
    let '(n, ew, w') := seal_record p w in Some (mkRace [Finished n ew] w' sealed).
Proof.
  unfold seal_record, start_race. cbn [replicate run fmap list_fmap].
  cbn [race_step ra_pcs ra_writer ra_sealed lookup list_lookup mbind option_bind seal_step insert list_insert
    set_buf next_nonce w_Writer w_AEAD w_nonce w_buf app].
  destruct (wwrite _ (w_Writer w)) as [[n ew] c]. by eexists.
Qed.

(** A goroutine that has its payload seals the length of it under the nonce of the
    moment, and leaves the nonce for later. *)
Lemma race_seals_size s i p :
  ra_pcs s !! i = Some (FillPayload p) ->
  (2 + Overhead (w_AEAD (ra_writer s)) + length p <= length (w_buf (ra_writer s)))%nat ->
  AEADLaws (w_AEAD (ra_writer s)) ->
  exists buf, length buf = length (w_buf (ra_writer s)) /\
    run race_step s [i; i; i] =
    Some (mkRace (<[i := NextNonce1 (length p)]> (ra_pcs s)) (set_buf buf (ra_writer s))
            (ra_sealed s ++ [(w_nonce (ra_writer s), size_bytes p)])).
Proof.
  destruct s as [pcs [c a nonce buf0] sealed]. cbn [ra_pcs ra_writer ra_sealed w_AEAD w_buf w_nonce]. intros Hi Hl Ha.
  set (buf1 := overwrite (2 + Overhead a) p buf0). set (buf2 := overwrite 0 (size_bytes p) buf1).
  assert (length buf1 = length buf0) as L1 by (apply length_overwrite; lia).
  assert (length buf2 = length buf1) as L2 by (apply length_overwrite; rewrite length_size_bytes; lia).
  assert (slice 0 2 buf2 = size_bytes p) as S2
    by (rewrite <-(length_size_bytes p); apply slice_overwrite_0; rewrite length_size_bytes; lia).
  exists (overwrite 0 (Seal a nonce (size_bytes p)) buf2). split.
  { rewrite length_overwrite; [lia|]. rewrite Seal_length, length_size_bytes. lia. }
  assert (i < length pcs)%nat as Hlt by (by eapply lookup_lt_Some).
  cbn [run]. unfold race_step at 1. cbn [ra_pcs ra_writer ra_sealed]. rewrite Hi. cbn [mbind option_bind seal_step].
  unfold race_step at 1. cbn [ra_pcs ra_writer ra_sealed]. rewrite list_lookup_insert_eq by done.
  cbn [mbind option_bind seal_step]. unfold race_step. cbn [ra_pcs ra_writer ra_sealed].
  rewrite list_lookup_insert_eq by (by rewrite length_insert). cbn [mbind option_bind seal_step].
  rewrite !list_insert_insert_eq, !app_nil_r. unfold set_buf. cbn [w_Writer w_AEAD w_nonce w_buf]. fold buf1. fold (size_bytes p). fold buf2.
  by rewrite S2.
Qed.
End Race.
Arguments race W : clear implicits.

Lemma size_bytes_inj p q : payload_ok p -> payload_ok q -> size_bytes p = size_bytes q -> length p = length q.
Proof.
  intros Hp Hq E. rewrite <-(record_size_spec p []), <-(record_size_spec q []) by done. by rewrite E.
Qed.

(** * Properties *)

(** C40: the writer does not bear two goroutines. With two of them about to write
    payloads of different lengths, there is an interleaving of their accesses in
    which two different plaintexts are sealed under the same key and the same nonce,
    which breaks the AEADs in use. *)
Theorem concurrent_writes_reuse_nonce {W : Type} `{Writer W} (w : writer W) (p q : list byte) :
  writer_inv w -> payload_ok p -> payload_ok q -> length p <> length q ->
  exists sched s nonce x y, run race_step (start_race [p; q] w) sched = Some s /\
    (nonce, x) ∈ ra_sealed s /\ (nonce, y) ∈ ra_sealed s /\ x <> y.
Proof.
  intros [Ha _ Hbuf] Hp Hq Hne. pose proof Hp as [_ Hp']. pose proof Hq as [_ Hq'].
  destruct (race_seals_size (start_race [p; q] w) 0 p eq_refl) as (b1 & L1 & E1); [cbn; lia|done|].
  destruct (race_seals_size (mkRace [NextNonce1 (length p); FillPayload q] (set_buf b1 w) [(w_nonce w, size_bytes p)]) 1 q eq_refl)
    as (b2 & _ & E2); [cbn in *; lia|done|].
  exists ([0; 0; 0] ++ [1; 1; 1])%nat. eexists _, (w_nonce w), (size_bytes p), (size_bytes q).
  split; [rewrite run_app, E1; exact E2|]. cbn [ra_sealed app]. split; [by left|]. split; [by right; left|].
  intros E. by apply Hne, size_bytes_inj.
Qed.

Lemma concurrent_writes_reuse_nonce_witness :
  let w := newWriter (Sink [] None) (toy_aead [x07]) in
  exists sched s nonce x y, run race_step (start_race [[x61]; [x62; x63]] w) sched = Some s /\
    (nonce, x) ∈ ra_sealed s /\ (nonce, y) ∈ ra_sealed s /\ x <> y.
Proof.
  apply (concurrent_writes_reuse_nonce (newWriter (Sink [] None) (toy_aead [x07])) [x61] [x62; x63]).
  - apply newWriter_inv, toy_aead_laws.
  - split; apply Nat.leb_le; vm_compute; reflexivity.
  - split; apply Nat.leb_le; vm_compute; reflexivity.
  - discriminate.
Defined.

#[export] Instance seal_pc_eq_dec : EqDecision seal_pc.
Proof. solve_decision. Defined.

Definition read_fails {R} (o : option (list byte * option error * reader R)) : bool :=
  match o with Some (_, Some (ErrMsg _), _) => true | _ => false end.

(** And the stream is spoilt: both writes report success, and the other end does
    not get past the first record. *)
Theorem concurrent_writes_spoil_stream :
  exists sched s, run race_step (start_race [[x61]; [x62; x63]] (newWriter (Sink [] None) (toy_aead [x07]))) sched = Some s /\
    ra_pcs s = [Finished 5 None; Finished 6 None] /\
    read_fails (ReadFull 1 (newReader (Stream [emitted (w_Writer (ra_writer s))] (Some EOF)) (toy_aead [x07]))) = true.
Proof.
  exists [0; 0; 0; 1; 1; 1; 0; 0; 0; 0; 1; 1; 1; 1]%nat.
  set (s0 := start_race _ _). set (sched := [0; 0; 0; 1; 1; 1; 0; 0; 0; 0; 1; 1; 1; 1]%nat).
  destruct (run_succeeds (match run race_step s0 sched with
    | Some s => if decide (ra_pcs s = [Finished 5 None; Finished 6 None] /\
        read_fails (ReadFull 1 (newReader (Stream [emitted (w_Writer (ra_writer s))] (Some EOF)) (toy_aead [x07]))) = true)
      then Some s else None
    | None => None end)) as [s E]; [vm_compute; reflexivity|].
  destruct (run race_step s0 sched) as [s'|]; [|done]. case_decide as Hd; [|done]. exists s'. by destruct Hd.
Qed.
