(* ===== verification/Cipher.v ===== *)
(** tunnel/cipher.go and tunnel/aead.go: from the configured cipher name and
    password to the [Cipher] of an encrypted connection.  MD5, which derives the
    key, is defined here; HKDF, AES-GCM and ChaCha20-Poly1305 are parameters with
    their documented contracts. *)

From Stdlib Require Import Strings.Ascii.
From stdpp Require Import pretty.
From S2P Require Import Prelude GoIO Aead.

Local Open Scope Z_scope.

(** * crypto/md5 (RFC 1321) *)

Definition md5_K : list Z :=
  [
   0xd76aa478; 0xe8c7b756; 0x242070db; 0xc1bdceee; 0xf57c0faf; 0x4787c62a; 0xa8304613; 0xfd469501;
   0x698098d8; 0x8b44f7af; 0xffff5bb1; 0x895cd7be; 0x6b901122; 0xfd987193; 0xa679438e; 0x49b40821;
   0xf61e2562; 0xc040b340; 0x265e5a51; 0xe9b6c7aa; 0xd62f105d; 0x02441453; 0xd8a1e681; 0xe7d3fbc8;
   0x21e1cde6; 0xc33707d6; 0xf4d50d87; 0x455a14ed; 0xa9e3e905; 0xfcefa3f8; 0x676f02d9; 0x8d2a4c8a;
   0xfffa3942; 0x8771f681; 0x6d9d6122; 0xfde5380c; 0xa4beea44; 0x4bdecfa9; 0xf6bb4b60; 0xbebfbc70;
   0x289b7ec6; 0xeaa127fa; 0xd4ef3085; 0x04881d05; 0xd9d4d039; 0xe6db99e5; 0x1fa27cf8; 0xc4ac5665;
   0xf4292244; 0x432aff97; 0xab9423a7; 0xfc93a039; 0x655b59c3; 0x8f0ccc92; 0xffeff47d; 0x85845dd1;
   0x6fa87e4f; 0xfe2ce6e0; 0xa3014314; 0x4e0811a1; 0xf7537e82; 0xbd3af235; 0x2ad7d2bb; 0xeb86d391].
Definition md5_shifts : list Z :=
  [7; 12; 17; 22; 5; 9; 14; 20; 4; 11; 16; 23; 6; 10; 15; 21].

Definition rotl32 (x k : Z) : Z := Z.lor (u32 (Z.shiftl x k)) (Z.shiftr x (32 - k)).

Definition not32 (x : Z) : Z := Z.lxor x 0xffffffff.

Definition md5_mix (i : Z) (b c d : Z) : Z * Z :=
  if decide (i < 16) then (Z.lor (Z.land b c) (Z.land (not32 b) d), i)
  else if decide (i < 32) then (Z.lor (Z.land d b) (Z.land (not32 d) c), (5 * i + 1) `mod` 16)
  else if decide (i < 48) then (Z.lxor b (Z.lxor c d), (3 * i + 5) `mod` 16)
  else (Z.lxor c (Z.lor b (not32 d)), (7 * i) `mod` 16).

Definition md5_state : Type := Z * Z * Z * Z.

Definition md5_round (words : list Z) (s : md5_state) (i : Z) : md5_state :=
  let '(a, b, c, d) := s in
  let '(f, g) := md5_mix i b c d in
  let k := nth (Z.to_nat i) md5_K 0 in
  let sh := nth (Z.to_nat (4 * (i / 16) + i `mod` 4)) md5_shifts 0 in
  let f := u32 (f + a + k + nth (Z.to_nat g) words 0) in
  (d, u32 (b + rotl32 f sh), b, c).

(** The message in pieces of [n] bytes. *)
Fixpoint pieces {A} (fuel n : nat) (l : list A) : list (list A) :=
  match fuel, l with
  | S fuel, _ :: _ => take n l :: pieces fuel n (drop n l)
  | _, _ => []
  end.

Definition md5_chunk (s : md5_state) (chunk : list byte) : md5_state :=
  let words := le_get <$> pieces 16 4 chunk in
  let '(a, b, c, d) := s in
  let '(a', b', c', d') := fold_left (md5_round words) (Z.of_nat <$> seq 0 64) s in
  (u32 (a + a'), u32 (b + b'), u32 (c + c'), u32 (d + d')).

Definition md5_pad (m : list byte) : list byte :=
  let n := length m in
  m ++ [x80] ++ replicate (Z.to_nat ((55 - Z.of_nat n) `mod` 64)) x00 ++ le_put 8 (u64 (8 * Z.of_nat n)).

Definition md5 (m : list byte) : list byte :=
  let '(a, b, c, d) :=
    fold_left md5_chunk (let p := md5_pad m in pieces (length p) 64 p) (0x67452301, 0xefcdab89, 0x98badcfe, 0x10325476) in
  le_put 4 a ++ le_put 4 b ++ le_put 4 c ++ le_put 4 d.

Example md5_foobar : le_get (rev (md5 (String.list_byte_of_string "foobar"))) = 0x3858f62230ac3c915f300c664312c63f.
Proof. vm_compute. reflexivity. Qed.

Example md5_two_chunks :
  le_get (rev (md5 (String.list_byte_of_string "12345678901234567890123456789012345678901234567890123456789012345678901234567890"))) =
  0x57edf4a22be3c955ac49da2e2107b67a.
Proof. vm_compute. reflexivity. Qed.

(** * The key *)

(** [kdf(password, keyLen)]: the loop, on what has been made so far and the last
    sum. *)
Fixpoint kdf_loop (fuel : nat) (password : list byte) (keyLen : nat) (b prev : list byte) : option (list byte) :=
  if decide (length b < keyLen)%nat then
    match fuel with
    | O => None
    | S fuel =>
        let b := b ++ md5 (prev ++ password) in
        kdf_loop fuel password keyLen b (drop (length b - 16) b)
    end
  else Some b.

Definition kdf (password : list byte) (keyLen : nat) : option (list byte) :=
  take keyLen <$> kdf_loop keyLen password keyLen [] [].

(** * The primitives

    [hkdfSHA1] reads its output from golang.org/x/crypto/hkdf; the two AEADs are
    given their key. *)
Class Primitives : Type := {
  hkdf_sha1 : list byte -> list byte -> list byte -> nat -> list byte;   (** secret, salt, info, length *)
  aes_gcm : list byte -> AEAD;
  chacha20 : list byte -> AEAD;
}.

Class PrimitiveLaws `(Primitives) : Prop := {
  hkdf_length secret salt info n : length (hkdf_sha1 secret salt info n) = n;
  aes_gcm_laws key : AEADLaws (aes_gcm key);
  chacha20_laws key : AEADLaws (chacha20 key);
}.

(** [KeySizeError(n)]. *)
Definition KeySizeError (n : nat) : error := ErrMsg ("key size error: need " +:+ pretty n +:+ " bytes").
Definition ErrCipherNotSupported : error := ErrMsg "cipher not supported".

Section Ciphers.
Context `{Primitives}.

Definition hkdfSHA1 (secret salt info : list byte) (n : nat) : list byte := hkdf_sha1 secret salt info n.

(** [metaCipher]. *)
Definition subkey (psk salt : list byte) : list byte :=
  hkdfSHA1 psk salt (String.list_byte_of_string "ss-subkey") (length psk).

Definition metaCipher (psk : list byte) (makeAEAD : list byte -> result error AEAD) : Cipher := {|
  KeySize := length psk;
  SaltSize := if decide (16 < length psk)%nat then length psk else 16%nat;
  Encrypter salt := makeAEAD (subkey psk salt);
  Decrypter salt := makeAEAD (subkey psk salt);
|}.

(** [makeAESGCM]: [aes.NewCipher] takes keys of 16, 24 and 32 bytes. *)
Definition makeAESGCM (key : list byte) : result error AEAD :=
  if decide (length key ∈ [16; 24; 32]%nat) then Ok (aes_gcm key)
  else Err (ErrMsg ("crypto/aes: invalid key size " +:+ pretty (length key))).

(** [chacha20poly1305.New]. *)
Definition chacha20poly1305_New (key : list byte) : result error AEAD :=
  if decide (length key = 32%nat) then Ok (chacha20 key) else Err (ErrMsg "chacha20poly1305: bad key length").

Definition aesGCM (psk : list byte) : result error Cipher :=
  if decide (length psk ∈ [16; 24; 32]%nat) then Ok (metaCipher psk makeAESGCM)
  else Err (ErrMsg ("crypto/aes: invalid key size " +:+ pretty (length psk))).

Definition chacha20Poly1305 (psk : list byte) : result error Cipher :=
  if decide (length psk = 32%nat) then Ok (metaCipher psk chacha20poly1305_New) else Err (KeySizeError 32).

(** [strings.ToUpper] of an ASCII name. *)
Definition upper (a : ascii) : ascii :=
  let n := N_of_ascii a in if decide (97 <= n <= 122)%N then ascii_of_N (n - 32) else a.
Fixpoint ToUpper (s : string) : string :=
  match s with
  | EmptyString => EmptyString
  | String a s => String (upper a) (ToUpper s)
  end.

Definition aeadList : list (string * (nat * (list byte -> result error Cipher))) :=
  [("AEAD_AES_128_GCM", (16%nat, aesGCM)); ("AEAD_AES_192_GCM", (24%nat, aesGCM));
   ("AEAD_AES_256_GCM", (32%nat, aesGCM)); ("AEAD_CHACHA20_POLY1305", (32%nat, chacha20Poly1305))]%string.

(** The names users write. *)
Definition aead_name (name : string) : string :=
  if decide (name = "CHACHA20-IETF-POLY1305")%string then "AEAD_CHACHA20_POLY1305"
  else if decide (name = "AES-128-GCM")%string then "AEAD_AES_128_GCM"
  else if decide (name = "AES-192-GCM")%string then "AEAD_AES_192_GCM"
  else if decide (name = "AES-256-GCM")%string then "AEAD_AES_256_GCM"
  else name.

Definition lookup_aead (name : string) : option (nat * (list byte -> result error Cipher)) :=
  snd <$> List.find (fun p => bool_decide (p.1 = name)) aeadList.

(** [None] only if [kdf] did not end. *)
Definition NewAEADCipher (name : string) (key password : list byte) : option (result error Cipher) :=
  match lookup_aead (aead_name (ToUpper name)) with
  | Some (size, New) =>
      key ← (if decide (length key = 0%nat) then kdf password size else Some key);
      Some (if decide (length key <> size) then Err (KeySizeError size) else New key)
  | None => Some (Err ErrCipherNotSupported)
  end.

(** [cipher, _ := tunnel.NewAEADCipher(mcfg.AEADCipher, nil, mcfg.Password)] in
    [main]: an error leaves the cipher nil. *)
Definition main_cipher (name : string) (password : list byte) : option (option Cipher) :=
  (fun r => match r with Ok c => Some c | Err _ => None end) <$> NewAEADCipher name [] password.
End Ciphers.

(** * The key derivation

    OpenSSL's EVP_BytesToKey with MD5, one round and no salt: the sums are chained. *)

Fixpoint evp_sums (n : nat) (password prev : list byte) : list (list byte) :=
  match n with
  | O => []
  | S n => let d := md5 (prev ++ password) in d :: evp_sums n password d
  end.

Lemma length_md5 (m : list byte) : length (md5 m) = 16%nat.
Proof. unfold md5. destruct (fold_left _ _ _) as [[[a b] c] d]. by rewrite !length_app, !length_le_put. Qed.

Lemma length_evp_sums n password prev : length (concat (evp_sums n password prev)) = (16 * n)%nat.
Proof.
  revert prev. induction n as [|n IH]; intros prev; [done|]. cbn [evp_sums concat].
  rewrite length_app, length_md5, IH. lia.
Qed.

(** The loop adds sums until there are enough bytes. *)
Lemma kdf_loop_spec n fuel password keyLen b prev :
  (n <= fuel)%nat -> (keyLen <= length b + 16 * n)%nat -> (length b < keyLen -> 16 * n < keyLen - length b + 16)%nat ->
  (keyLen <= length b -> n = 0)%nat ->
  kdf_loop fuel password keyLen b prev = Some (b ++ concat (evp_sums n password prev)).
Proof.
  revert fuel b prev. induction n as [|n IH]; intros fuel b prev Hf Hl Hu Hz.
  - cbn [evp_sums concat]. rewrite app_nil_r. destruct fuel; cbn [kdf_loop]; by rewrite decide_False by lia.
  - destruct fuel as [|fuel]; [lia|]. cbn [kdf_loop]. rewrite decide_True by lia.
    assert (length (b ++ md5 (prev ++ password)) = length b + 16)%nat as El by (by rewrite length_app, length_md5).
    assert (drop (length (b ++ md5 (prev ++ password)) - 16) (b ++ md5 (prev ++ password)) = md5 (prev ++ password)) as ->
      by (rewrite El, Nat.add_sub; by apply drop_app_length').
    rewrite IH by lia. cbn [evp_sums concat]. by rewrite <-app_assoc.
Qed.

Lemma kdf_take password keyLen n : (n = (keyLen + 15) / 16)%nat ->
  kdf password keyLen = Some (take keyLen (concat (evp_sums n password []))).
Proof.
  intros Hn. pose proof (Nat.div_mod (keyLen + 15) 16 ltac:(lia)) as Hd.
  pose proof (Nat.mod_upper_bound (keyLen + 15) 16 ltac:(lia)) as Hm.
  unfold kdf. rewrite (kdf_loop_spec n); [done|lia|cbn [length]; lia|cbn [length]; lia|cbn [length]; lia].
Qed.

Lemma kdf_length password keyLen : exists key, kdf password keyLen = Some key /\ length key = keyLen.
Proof.
  eexists. split; [by apply kdf_take|]. rewrite length_take, length_evp_sums.
  pose proof (Nat.div_mod (keyLen + 15) 16 ltac:(lia)). pose proof (Nat.mod_upper_bound (keyLen + 15) 16 ltac:(lia)). lia.
Qed.

(** * The cipher of a configuration *)

Section Laws.
Context `{PrimitiveLaws}.

Definition supported : list (string * nat) :=
  [("CHACHA20-IETF-POLY1305", 32%nat); ("AES-128-GCM", 16%nat); ("AES-192-GCM", 24%nat); ("AES-256-GCM", 32%nat);
   ("AEAD_AES_128_GCM", 16%nat); ("AEAD_AES_192_GCM", 24%nat); ("AEAD_AES_256_GCM", 32%nat);
   ("AEAD_CHACHA20_POLY1305", 32%nat)]%string.

Lemma lookup_supported name size New :
  lookup_aead (aead_name name) = Some (size, New) -> (name, size) ∈ supported.
Proof.
  intros E%(f_equal (fmap fst)). revert E. unfold aead_name.
  repeat (case_decide; [intros E; vm_compute in E; injection E as <-; subst; by apply (bool_decide_unpack _)|]).
  unfold lookup_aead. cbn [List.find aeadList fst].
  repeat (case_bool_decide; [intros E; vm_compute in E; injection E as <-; subst; by apply (bool_decide_unpack _)|]). done.
Qed.

Lemma supported_lookup name size : (name, size) ∈ supported -> exists New, lookup_aead (aead_name name) = Some (size, New).
Proof.
  unfold supported. rewrite !elem_of_cons. intros Hin.
  destruct_or! Hin; [..|by apply elem_of_nil in Hin]; injection Hin as -> ->; eexists; reflexivity.
Qed.

(** Both constructors take the key [NewAEADCipher] gives them. *)
Lemma lookup_New name size New (key : list byte) :
  lookup_aead name = Some (size, New) -> length key = size ->
  exists make, New key = Ok (metaCipher key make) /\
    (forall k : list byte, length k = size -> exists a, make k = Ok a /\ AEADLaws a).
Proof.
  intros Hl Hk.
  assert (New = aesGCM /\ (size = 16 \/ size = 24 \/ size = 32)%nat \/ New = chacha20Poly1305 /\ size = 32%nat) as Hor.
  { unfold lookup_aead in Hl. cbn [List.find aeadList fst] in Hl.
    repeat (case_bool_decide; [injection Hl as <- <-; tauto|]). done. }
  assert (forall k : list byte, length k = size -> (size = 16 \/ size = 24 \/ size = 32)%nat -> length k ∈ [16; 24; 32]%nat) as Hin
    by (intros k -> Hs; set_solver).
  destruct Hor as [[-> Hs]|[-> ->]].
  - exists makeAESGCM. unfold aesGCM, makeAESGCM. rewrite decide_True by (by apply Hin). split; [done|].
    intros k Hk'. rewrite decide_True by (by apply Hin). eexists. split; [done|]. apply aes_gcm_laws.
  - exists chacha20poly1305_New. unfold chacha20Poly1305, chacha20poly1305_New. rewrite decide_True by done. split; [done|].
    intros k Hk'. rewrite decide_True by done. eexists. split; [done|]. apply chacha20_laws.
Qed.

(** A [metaCipher] whose AEAD takes keys of its key's length obeys the contract of
    [streamConn]. *)
Lemma metaCipher_laws psk make :
  (forall k : list byte, length k = length psk -> exists a, make k = Ok a /\ AEADLaws a) -> CipherLaws (metaCipher psk make).
Proof.
  intros Hm. constructor; cbn [metaCipher SaltSize Encrypter Decrypter].
  - case_decide; lia.
  - done.
  - intros salt a E. destruct (Hm (subkey psk salt)) as (a' & Ea & Hl); [apply hkdf_length|]. by assert (a = a') as -> by congruence.
Qed.

Lemma NewAEADCipher_supported name password size :
  (ToUpper name, size) ∈ supported ->
  exists c, NewAEADCipher name [] password = Some (Ok c) /\ CipherLaws c /\ KeySize c = size.
Proof.
  intros (New & Hl)%supported_lookup. unfold NewAEADCipher. rewrite Hl. cbn [length]. rewrite decide_True by done.
  destruct (kdf_length password size) as (key & -> & Hk). cbn [mbind option_bind].
  rewrite decide_False by (intros Hne; by apply Hne). destruct (lookup_New _ _ _ _ Hl Hk) as (make & -> & Hm).
  eexists. split; [reflexivity|]. split; [apply metaCipher_laws; by rewrite Hk|done].
Qed.

Lemma NewAEADCipher_unsupported name key password :
  (forall size, (ToUpper name, size) ∉ supported) -> NewAEADCipher name key password = Some (Err ErrCipherNotSupported).
Proof.
  intros Hn. unfold NewAEADCipher. destruct (lookup_aead _) as [[size New]|] eqn:E; [|done].
  by apply lookup_supported, Hn in E.
Qed.
End Laws.

(** * Properties *)

(** C33: the key derivation is OpenSSL's EVP_BytesToKey (MD5, one round, no salt),
    as in the original Shadowsocks: the loop ends and yields the first [keyLen]
    bytes of the chained sums, and exactly so many. *)
Theorem kdf_is_evp (password : list byte) (keyLen : nat) :
  exists key, kdf password keyLen = Some key /\ length key = keyLen /\
    key = take keyLen (concat (evp_sums ((keyLen + 15) / 16) password [])).
Proof.
  destruct (kdf_length password keyLen) as (key & E & Hl). exists key. split; [done|]. split; [done|].
  rewrite (kdf_take password keyLen _ eq_refl) in E. congruence.
Qed.

(** C32: two processes configured with the same cipher name, in any case, and the
    same password understand each other. For each of the eight supported names
    [main] gets a cipher with the key size of that name, and what one end writes
    on a connection wrapped with it is read at the other end, wrapped with the
    cipher of the same configuration, byte for byte. *)
Theorem configured_link `{PrimitiveLaws} (name : string) (password : list byte) (size : nat) :
  (ToUpper name, size) ∈ supported ->
  exists c, main_cipher name password = Some (Some c) /\ KeySize c = size /\
    forall (r : stream) (w : sink) (salt : list byte) (msgs : list (list byte)) (sc sc' : streamConn stream sink)
      (r' : stream) (w' : sink) (rand' : result error (list byte)) (peer : streamConn stream sink) (oe : option error) (n : nat),
    NewEncryptedConn r w (Ok salt) (Some c) = CipherConn sc -> emitted w = [] -> length salt = SaltSize c -> msgs <> [] ->
    write_all msgs sc = Some sc' ->
    NewEncryptedConn r' w' rand' (Some c) = CipherConn peer -> delivers r' (wire sc') oe -> (n <= length (concat msgs))%nat ->
    exists peer', ReadFull n peer = Some (take n (concat msgs), None, peer') /\ delivers peer' (drop n (concat msgs)) oe.
Proof.
  intros (c & Ec & Hl & Hk)%(NewAEADCipher_supported _ password). exists c. unfold main_cipher. rewrite Ec.
  split; [done|]. split; [done|]. intros r w salt msgs sc sc' r' w' rand' peer oe n [= <-] Hem Hsalt Hne Hall [= <-] Hd Hn.
  by eapply (stream_roundtrip (mkStreamConn c (inl r) (inl w) (Ok salt)) sc' w salt msgs _ r').
Qed.

(** A mistake in the name of the cipher turns encryption off. With a name that
    is not one of the eight, [NewAEADCipher] fails, [main] drops the error and goes
    on with no cipher, and a tunnel's connection is then the bare one: what is
    written on it goes out as it is. *)
Theorem misnamed_cipher_is_plaintext `{Primitives} (name : string) (password : list byte) (r : stream) (w : sink)
    (rand : result error (list byte)) (b : list byte) (n : nat) (oe : option error) (c' : enc_conn stream sink) :
  (forall size, (ToUpper name, size) ∉ supported) ->
  NewAEADCipher name [] password = Some (Err ErrCipherNotSupported) /\ main_cipher name password = Some None /\
  (wwrite b (NewEncryptedConn r w rand None) = (n, oe, c') ->
   exists w', c' = PlainConn r w' /\ sk_out w' = sk_out w ++ take n b /\ (oe = None -> n = length b)).
Proof.
  intros Hn. unfold main_cipher. rewrite (NewAEADCipher_unsupported _ [] password Hn). split; [done|]. split; [done|].
  cbn [NewEncryptedConn]. unfold wwrite, enc_conn_writer. destruct (wwrite b w) as [[m e] w1] eqn:E. intros [= <- <- <-].
  apply wwrite_spec in E as (_ & Hem & Hfull). exists w1. split; [done|]. split; [exact Hem|done].
Qed.

(** ** Witnesses *)

(** Primitives that obey the contracts. *)
#[local] Instance toy_primitives : Primitives := {|
  hkdf_sha1 secret salt info n := take n (secret ++ salt ++ replicate n x00);
  aes_gcm := toy_aead;
  chacha20 := toy_aead;
|}.

#[local] Instance toy_primitive_laws : PrimitiveLaws toy_primitives.
Proof.
  constructor; cbn [hkdf_sha1 aes_gcm chacha20 toy_primitives]; [|apply toy_aead_laws..].
  intros secret salt info n. rewrite length_take, !length_app, length_replicate. lia.
Qed.

Lemma configured_link_witness :
  ("AES-128-GCM", 16%nat) ∈ supported /\
  exists c, main_cipher "aes-128-gcm" (String.list_byte_of_string "secret") = Some (Some c) /\ KeySize c = 16%nat.
Proof.
  assert ((ToUpper "aes-128-gcm", 16%nat) ∈ supported) as Hin by (apply (bool_decide_unpack _); vm_compute; reflexivity).
  split; [exact Hin|].
  destruct (configured_link "aes-128-gcm" (String.list_byte_of_string "secret") 16 Hin) as (c & Hc & Hk & _).
  exists c. split; [exact Hc|exact Hk].
Defined.

Lemma misnamed_cipher_is_plaintext_witness :
  exists w', wwrite [x01] (NewEncryptedConn (Stream [] None) (Sink [] None) (Ok []) None) = (1%nat, None, PlainConn (Stream [] None) w') /\
  main_cipher "AES-256" (String.list_byte_of_string "secret") = Some None /\ sk_out w' = [x01].
Proof.
  assert (forall size, (ToUpper "AES-256", size) ∉ supported) as Hn.
  { intros size Hin. unfold supported in Hin. rewrite !elem_of_cons in Hin.
    destruct_or! Hin; [discriminate Hin..|]. by apply elem_of_nil in Hin. }
  destruct (misnamed_cipher_is_plaintext "AES-256" (String.list_byte_of_string "secret") (Stream [] None) (Sink [] None) (Ok [])
    [x01] 1 None (PlainConn (Stream [] None) (Sink [x01] None)) Hn) as (_ & H2 & H3).
  exists (Sink [x01] None). split; [reflexivity|]. split; [exact H2|reflexivity].
Defined.
