(* ===== verification/Processor.v ===== *)
(** connection/block_processor.go: the block processor of a connection.  The
    sending half numbers the blocks of a connection; the receiving half,
    [OrderedRelay], is a goroutine that reorders what the tunnels deliver, and
    is modelled as a labelled transition system. *)

From S2P Require Import Prelude GoIO Block.

Local Open Scope Z_scope.

(** The logger and the context are the environment's; [removeFromPool] is the
    label of a killing timeout. *)
Record blockProcessor : Type := mkProcessor {
  cache : gmap Z Block;
  sendBlockID : Z;          (** atomic.Uint32 *)
  recvBlockID : Z;          (** uint32 *)
  lastRecvBlockID : Z;      (** uint32 *)
}.

Definition newBlockProcessor : blockProcessor := mkProcessor ∅ 0 0 0.

Definition set_cache (m : gmap Z Block) (x : blockProcessor) : blockProcessor :=
  mkProcessor m (sendBlockID x) (recvBlockID x) (lastRecvBlockID x).
Definition set_sendBlockID (n : Z) (x : blockProcessor) : blockProcessor :=
  mkProcessor (cache x) n (recvBlockID x) (lastRecvBlockID x).
Definition set_recvBlockID (n : Z) (x : blockProcessor) : blockProcessor :=
  mkProcessor (cache x) (sendBlockID x) n (lastRecvBlockID x).
Definition set_lastRecvBlockID (n : Z) (x : blockProcessor) : blockProcessor :=
  mkProcessor (cache x) (sendBlockID x) (recvBlockID x) n.

(** * The sending half *)

Definition packData (now : nat -> Z) (data : list byte) (connectionID : Z) (x : blockProcessor)
    : list Block * blockProcessor :=
  let '(blocks, n) := NewDataBlocks connectionID (sendBlockID x) now data in
  (blocks, set_sendBlockID n x).

(** [x.sendBlockID.Inc()-1]: the old value; the counter moves on. *)
Definition take_sendBlockID (x : blockProcessor) : Z * blockProcessor :=
  let n := u32 (sendBlockID x + 1) in (u32 (n - 1), set_sendBlockID n x).

Definition packConnect (now : Z) (address : string) (connectionID : Z) (x : blockProcessor)
    : Block * blockProcessor :=
  let '(id, x) := take_sendBlockID x in (NewConnectBlock now connectionID id address, x).

Definition packDisconnect (now : Z) (connectionID shutdownType : Z) (x : blockProcessor)
    : Block * blockProcessor :=
  let '(id, x) := take_sendBlockID x in (NewDisconnectBlock now connectionID id shutdownType, x).

Definition packPing (now : Z) (connectionID latency : Z) : Block :=
  NewPingBlock now connectionID 0 latency.

Definition packPong (now : Z) (connectionID timestamp : Z) : Block :=
  NewPongBlock now connectionID 0 timestamp.

(** * The receiving half: OrderedRelay *)

(** Where the goroutine stands: at the outer [select]; sending the block that
    just arrived; sending a block found in the cache; returned. *)
Inductive relay_pc : Type :=
  | AtSelect
  | SendDirect (blk : Block)
  | SendCached (blk : Block)
  | Stopped.

#[export] Instance relay_pc_eq_dec : EqDecision relay_pc.
Proof. solve_decision. Defined.

Record relay : Type := mkRelay { rl_pc : relay_pc; rl_x : blockProcessor }.

Inductive relay_label : Type :=
  | LRecv (blk : Block)        (** a block from [recvQueue] *)
  | LRecvClosed                (** [recvQueue] closed *)
  | LSent (blk : Block)        (** [orderedRecvQueue <- blk] went through *)
  | LTimeout (killed : bool)   (** [time.After] fired; [removeFromPool()] called or not *)
  | LDone.                     (** [relayCtx.Done()] *)

(** Update [lastRecvBlockID]. *)
Definition note_last (blk : Block) (x : blockProcessor) : blockProcessor :=
  if decide (u32 (BlockID blk + 1) > lastRecvBlockID x)
  then set_lastRecvBlockID (u32 (BlockID blk + 1)) x else x.

(** The branch [blk, ok := <-connection.GetRecvQueue()]. *)
Definition on_block (blk : Block) (x : blockProcessor) : relay :=
  let x := note_last blk x in
  if decide (recvBlockID x = BlockID blk) then mkRelay (SendDirect blk) x
  else if decide (BlockID blk < recvBlockID x) then mkRelay AtSelect x
  else mkRelay AtSelect (set_cache (<[BlockID blk := blk]> (cache x)) x).

(** The head of the inner loop: the next block if it is cached. *)
Definition next_cached (x : blockProcessor) : relay :=
  match cache x !! recvBlockID x with
  | Some blk1 => mkRelay (SendCached blk1) x
  | None => mkRelay AtSelect x
  end.

Definition relay_step (s : relay) (l : relay_label) : option relay :=
  let x := rl_x s in
  match rl_pc s, l with
  | AtSelect, LRecv blk => Some (on_block blk x)
  | AtSelect, LRecvClosed => Some (mkRelay Stopped x)
  | AtSelect, LTimeout killed =>
      if decide (killed = negb (bool_decide (recvBlockID x = lastRecvBlockID x)))
      then Some (mkRelay AtSelect x) else None
  | AtSelect, LDone => Some (mkRelay Stopped x)
  | SendDirect blk, LSent blk' =>
      if decide (blk' = blk)
      then Some (next_cached (set_recvBlockID (u32 (recvBlockID x + 1)) x)) else None
  | SendDirect _, LDone => Some (mkRelay Stopped x)
  | SendCached blk, LSent blk' =>
      if decide (blk' = blk)
      then let x := set_cache (delete (recvBlockID x) (cache x)) x in
           Some (next_cached (set_recvBlockID (u32 (recvBlockID x + 1)) x))
      else None
  | SendCached _, LDone => Some (mkRelay Stopped x)
  | _, _ => None
  end.

Definition relay_init : relay := mkRelay AtSelect newBlockProcessor.

(** What a trace took from [recvQueue] and put on [orderedRecvQueue]. *)
Definition recvd (tr : list relay_label) : list Block :=
  omap (fun l => match l with LRecv b => Some b | _ => None end) tr.
Definition sent (tr : list relay_label) : list Block :=
  omap (fun l => match l with LSent b => Some b | _ => None end) tr.
Definition ids (tr : list relay_label) : list Z := BlockID <$> recvd tr.

Lemma recvd_app tr1 tr2 : recvd (tr1 ++ tr2) = recvd tr1 ++ recvd tr2.
Proof. apply omap_app. Qed.

Lemma sent_app tr1 tr2 : sent (tr1 ++ tr2) = sent tr1 ++ sent tr2.
Proof. apply omap_app. Qed.

Lemma ids_app tr1 tr2 : ids (tr1 ++ tr2) = ids tr1 ++ ids tr2.
Proof. unfold ids. by rewrite recvd_app, fmap_app. Qed.

Lemma note_last_same b x :
  recvBlockID (note_last b x) = recvBlockID x /\ cache (note_last b x) = cache x.
Proof. unfold note_last. by case_decide. Qed.

(** * The inner loop ends *)

(** Every cached block it sends is deleted, so the relay is back at its outer
    [select] after at most one send more than the cache holds. *)
Lemma flush_cached (n : nat) (x : blockProcessor) :
  (size (cache x) <= n)%nat ->
  exists bs s', (length bs <= n)%nat /\
    run relay_step (next_cached x) (LSent <$> bs) = Some s' /\ rl_pc s' = AtSelect.
Proof.
  revert x. induction n as [|n IH]; intros x Hn; unfold next_cached.
  - assert (cache x = ∅) as -> by (apply map_size_empty_inv; lia).
    rewrite lookup_empty. exists [], (mkRelay AtSelect x). done.
  - destruct (cache x !! recvBlockID x) as [b|] eqn:E; [|exists [], (mkRelay AtSelect x); cbn; auto with lia].
    set (y := set_recvBlockID (u32 (recvBlockID x + 1)) (set_cache (delete (recvBlockID x) (cache x)) x)).
    destruct (IH y) as (bs & s' & Hl & Hrun & Hpc).
    { cbn. rewrite map_size_delete, E. lia. }
    exists (b :: bs), s'. split; [cbn; lia|]. split; [|done].
    cbn [fmap list_fmap run]. unfold relay_step. cbn [rl_pc rl_x]. rewrite decide_True by done. exact Hrun.
Qed.

(** * In-order delivery

    [f] is the stream the sender numbered: block [i] is [f i].  The network may
    duplicate, reorder and withhold blocks, but a block with ID [i] is [f i],
    and the stream is shorter than 2^32 - 1 blocks. *)

Definition of_stream (f : Z -> Block) (b : Block) : Prop :=
  b = f (BlockID b) /\ 0 <= BlockID b < 2 ^ 32 - 1.

Record relay_inv (f : Z -> Block) (tr : list relay_label) (s : relay) : Prop := {
  inv_range : 0 <= recvBlockID (rl_x s) < 2 ^ 32;
  inv_sent : sent tr = f <$> seqZ 0 (recvBlockID (rl_x s));
  inv_below i : 0 <= i < recvBlockID (rl_x s) -> i ∈ ids tr;
  inv_cache i b : cache (rl_x s) !! i = Some b ->
    b = f i /\ recvBlockID (rl_x s) <= i /\ i ∈ ids tr;
  inv_pc : match rl_pc s with
           | AtSelect => cache (rl_x s) !! recvBlockID (rl_x s) = None
           | SendDirect b => b = f (recvBlockID (rl_x s)) /\ recvBlockID (rl_x s) ∈ ids tr /\
               cache (rl_x s) !! recvBlockID (rl_x s) = None
           | SendCached b => cache (rl_x s) !! recvBlockID (rl_x s) = Some b
           | Stopped => True
           end;
  inv_kept i : rl_pc s <> Stopped -> i ∈ ids tr ->
    i < recvBlockID (rl_x s) \/ is_Some (cache (rl_x s) !! i) \/
    (i = recvBlockID (rl_x s) /\ exists b, rl_pc s = SendDirect b);
  inv_ids i : i ∈ ids tr -> 0 <= i < 2 ^ 32 - 1;
  inv_last : 0 <= lastRecvBlockID (rl_x s) /\
    (forall i, i ∈ ids tr -> 0 <= i < lastRecvBlockID (rl_x s)) /\
    (lastRecvBlockID (rl_x s) = 0 \/ lastRecvBlockID (rl_x s) - 1 ∈ ids tr);
}.

Section Reassembly.
Context (f : Z -> Block).

Lemma relay_inv_init : relay_inv f [] relay_init.
Proof.
  constructor; cbn [relay_init newBlockProcessor rl_x rl_pc cache recvBlockID lastRecvBlockID];
    try done.
  - intros i Hi. lia.
  - intros i _ []%elem_of_nil.
  - intros i []%elem_of_nil.
  - split; [lia|]. split; [intros i []%elem_of_nil|by left].
Qed.

Lemma ids_recv tr b i : i ∈ ids (tr ++ [LRecv b]) <-> i ∈ ids tr \/ i = BlockID b.
Proof. rewrite ids_app. cbn. rewrite elem_of_app, list_elem_of_singleton. done. Qed.

(** A label that is not a receive leaves the received IDs alone. *)
Lemma ids_other tr l : (forall b, l <> LRecv b) -> ids (tr ++ [l]) = ids tr.
Proof. intros Hl. rewrite ids_app. destruct l; cbn; try by rewrite app_nil_r. by destruct (Hl blk). Qed.

Lemma sent_other tr l : (forall b, l <> LSent b) -> sent (tr ++ [l]) = sent tr.
Proof. intros Hl. rewrite sent_app. destruct l; cbn; try by rewrite app_nil_r. by destruct (Hl blk). Qed.

(** Receiving a block. *)
Lemma relay_inv_recv tr x b :
  relay_inv f tr (mkRelay AtSelect x) -> of_stream f b ->
  relay_inv f (tr ++ [LRecv b]) (on_block b x).
Proof.
  intros [Hr Hs Hb Hc Hp Hk Hids (Hl0 & Hl & Hl1)] [Hf Hid]. cbn [rl_x rl_pc] in *.
  assert (u32 (BlockID b + 1) = BlockID b + 1) as Hu by (apply u32_small; unfold is_u32; lia).
  unfold on_block. set (x' := note_last b x).
  destruct (note_last_same b x) as [Er Ec]. fold x' in Er, Ec.
  assert (0 <= lastRecvBlockID x' /\
    (forall i, i ∈ ids (tr ++ [LRecv b]) -> 0 <= i < lastRecvBlockID x') /\
    (lastRecvBlockID x' = 0 \/ lastRecvBlockID x' - 1 ∈ ids (tr ++ [LRecv b]))) as Hlast.
  { subst x'. unfold note_last. rewrite Hu. case_decide; cbn.
    - split; [lia|]. split; [intros i [Hi| ->]%ids_recv; [specialize (Hl i Hi)|]; lia|].
      right. apply ids_recv. right. lia.
    - split; [lia|]. split; [intros i [Hi| ->]%ids_recv; [specialize (Hl i Hi)|]; lia|].
      destruct Hl1; [by left|]. right. apply ids_recv. by left. }
  rewrite Er. assert (sent (tr ++ [LRecv b]) = sent tr) as Hsent by (by rewrite sent_other).
  case_decide as Heq; [|case_decide as Hlt]; constructor;
    cbn [rl_x rl_pc set_cache cache recvBlockID lastRecvBlockID];
    rewrite ?Er, ?Ec, ?Hsent; try done; try (intros i Hi; apply ids_recv; left; auto; fail);
    try (intros i [Hi| ->]%ids_recv; auto; fail).
  - intros i c Hi. destruct (Hc i c Hi) as (? & ? & ?). rewrite ids_recv. auto.
  - rewrite ids_recv. rewrite Heq at 1. auto.
  - intros i _ [Hi| ->]%ids_recv; [|by eauto].
    destruct (Hk i) as [?|[?|(_ & ? & ?)]]; [done|done|auto..|done].
  - intros i c Hi. destruct (Hc i c Hi) as (? & ? & ?). rewrite ids_recv. auto.
  - intros i _ [Hi| ->]%ids_recv; [|by left].
    destruct (Hk i) as [?|[?|(_ & ? & ?)]]; [done|done|auto..|done].
  - intros i c [[<- <-]|[Hne Hi]]%lookup_insert_Some.
    + split; [done|]. split; [lia|]. apply ids_recv. by right.
    + destruct (Hc i c Hi) as (? & ? & ?). rewrite ids_recv. auto.
  - by rewrite lookup_insert_ne.
  - intros i _ [Hi| ->]%ids_recv.
    + destruct (Hk i) as [?|[?|(_ & ? & ?)]]; [done|done|auto|right; left|done].
      destruct (decide (BlockID b = i)) as [->|]; [by rewrite lookup_insert_eq|by rewrite lookup_insert_ne].
    + right. left. by rewrite lookup_insert_eq.
Qed.
(** A completed send, direct or from the cache: block [k] is out, [m] is what
    the cache holds beyond it. *)
Lemma relay_inv_sent tr b x (m : gmap Z Block) :
  let k := recvBlockID x in
  relay_inv f tr (mkRelay Stopped x) -> b = f k -> k ∈ ids tr ->
  (forall i, m !! i = if decide (i = k) then None else cache x !! i) ->
  (forall i, i ∈ ids tr -> i < k \/ i = k \/ is_Some (cache x !! i)) ->
  relay_inv f (tr ++ [LSent b])
    (next_cached (set_recvBlockID (u32 (recvBlockID x + 1)) (set_cache m x))).
Proof.
  intros k [Hr Hs Hb Hc Hp Hk Hids (Hl0 & Hl & Hl1)] -> Hin Hm Hkept. cbn [rl_x rl_pc] in *.
  pose proof (Hids k Hin) as Hrange. subst k.
  rewrite (u32_small (recvBlockID x + 1)) by (unfold is_u32; lia).
  assert (rl_x (next_cached (set_recvBlockID (recvBlockID x + 1) (set_cache m x))) =
    set_recvBlockID (recvBlockID x + 1) (set_cache m x)) as Ex
    by (unfold next_cached; by case_match).
  constructor; rewrite ?ids_other by done; rewrite ?Ex;
    cbn [set_cache set_recvBlockID cache recvBlockID lastRecvBlockID]; try done.
  - lia.
  - rewrite sent_app, Hs. cbn. rewrite seqZ_app by lia. rewrite fmap_app. done.
  - intros i Hi. destruct (decide (i = recvBlockID x)) as [->|]; [done|]. apply Hb. lia.
  - intros i c. rewrite Hm. case_decide; [done|]. intros Hi.
    destruct (Hc i c Hi) as (? & ? & ?). repeat split; try done. lia.
  - unfold next_cached. cbn [set_cache set_recvBlockID cache recvBlockID].
    by destruct (m !! (recvBlockID x + 1)) eqn:E.
  - intros i _ Hi. rewrite Hm. destruct (Hkept i Hi) as [?|[->|?]]; [left; lia|left; lia|].
    case_decide; [left; lia|by right; left].
Qed.

Lemma relay_inv_stop tr s l :
  relay_inv f tr s -> (forall b, l <> LRecv b) -> (forall b, l <> LSent b) ->
  relay_inv f (tr ++ [l]) (mkRelay Stopped (rl_x s)).
Proof.
  intros [Hr Hs Hb Hc Hp Hk Hids Hl] H1 H2.
  constructor; cbn [rl_x rl_pc]; rewrite ?ids_other, ?sent_other by done; done.
Qed.

Lemma relay_inv_keep tr s l :
  relay_inv f tr s -> (forall b, l <> LRecv b) -> (forall b, l <> LSent b) ->
  relay_inv f (tr ++ [l]) s.
Proof.
  intros [Hr Hs Hb Hc Hp Hk Hids Hl] H1 H2.
  constructor; rewrite ?ids_other, ?sent_other by done; done.
Qed.

Lemma relay_inv_weaken tr s : relay_inv f tr s -> relay_inv f tr (mkRelay Stopped (rl_x s)).
Proof. intros [Hr Hs Hb Hc Hp Hk Hids Hl]. by constructor. Qed.

Lemma relay_inv_step tr s l s' :
  relay_inv f tr s -> (forall b, l = LRecv b -> of_stream f b) ->
  relay_step s l = Some s' -> relay_inv f (tr ++ [l]) s'.
Proof.
  intros Hinv Hl Hstep. destruct s as [pc x]. unfold relay_step in Hstep. cbn [rl_pc rl_x] in Hstep.
  pose proof (relay_inv_weaken _ _ Hinv) as Hw. cbn [rl_x] in Hw.
  destruct pc as [|b|b|], l as [b'| |b'|k|]; split_guards;
    try (eapply (relay_inv_stop tr (mkRelay _ x)); [exact Hinv|done|done]);
    try (by apply relay_inv_keep).
  - apply relay_inv_recv; auto.
  - destruct (inv_pc _ _ _ Hinv) as (Hb & Hin & Hnone). cbn [rl_x] in *.
    change (set_recvBlockID (u32 (recvBlockID x + 1)) x)
      with (set_recvBlockID (u32 (recvBlockID x + 1)) (set_cache (cache x) x)).
    apply relay_inv_sent; try done.
    + intros i. case_decide; [by subst|done].
    + intros i Hi. destruct (inv_kept _ _ _ Hinv i) as [?|[?|[? _]]]; [done|done|auto..].
  - pose proof (inv_pc _ _ _ Hinv) as Hb. cbn [rl_x rl_pc] in Hb.
    destruct (inv_cache _ _ _ Hinv _ _ Hb) as (? & _ & ?). cbn [rl_x] in *.
    apply relay_inv_sent; try done.
    + intros i. case_decide as Hi; [subst; apply lookup_delete_eq|by apply lookup_delete_ne].
    + intros i Hi. destruct (inv_kept _ _ _ Hinv i) as [?|[?|[? _]]]; [done|done|auto..].
Qed.

Lemma relay_inv_run tr s :
  Forall (of_stream f) (recvd tr) -> run relay_step relay_init tr = Some s -> relay_inv f tr s.
Proof.
  intros Hall Hrun. revert Hall.
  apply (run_invariant relay_step (fun tr s => Forall (of_stream f) (recvd tr) -> relay_inv f tr s)
    relay_init); [intros; apply relay_inv_init| |done].
  clear. intros tr s l s' IH Hstep. rewrite recvd_app, Forall_app. intros [Hall Hl].
  apply relay_inv_step with s; [auto| |done]. intros b ->. by apply Forall_cons in Hl as [].
Qed.
(** The sending half of the processor plays no part. *)
Lemma relay_inv_sender tr pc x x' :
  set_sendBlockID 0 x' = set_sendBlockID 0 x -> relay_inv f tr (mkRelay pc x) -> relay_inv f tr (mkRelay pc x').
Proof. destruct x, x'. intros [= -> -> ->] []. by constructor. Qed.
End Reassembly.

(** * Properties *)

(** C5: Whatever the tunnels reorder, duplicate or lose, what [OrderedRelay] puts
    on the ordered queue is at every moment exactly a prefix of the sender's
    stream: blocks 0, 1, 2, ... in order, each once, and only received ones. *)
Theorem relay_delivers_in_order (f : Z -> Block) (tr : list relay_label) (s : relay) :
  Forall (of_stream f) (recvd tr) -> run relay_step relay_init tr = Some s ->
  exists n, 0 <= n /\ sent tr = f <$> seqZ 0 n /\ forall i, 0 <= i < n -> i ∈ ids tr.
Proof.
  intros Hall Hrun. destruct (relay_inv_run f tr s Hall Hrun) as [Hr Hs Hb _ _ _ _ _].
  exists (recvBlockID (rl_x s)). split; [lia|done].
Qed.

(** Streams for the witnesses: block [i] carries the byte [i]. *)
Definition demo_stream (i : Z) : Block := newDataBlock 0 1 i [byte_of_Z i].

Definition demo_trace : list relay_label :=
  [LRecv (demo_stream 1); LRecv (demo_stream 3); LRecv (demo_stream 0); LSent (demo_stream 0);
   LSent (demo_stream 1); LRecv (demo_stream 1); LTimeout true].

Lemma demo_of_stream (l : list Z) :
  Forall (fun i => 0 <= i < 2 ^ 32 - 1) l -> Forall (of_stream demo_stream) (demo_stream <$> l).
Proof. intros H. induction H; cbn [fmap list_fmap]; constructor; [by split|done]. Qed.

Lemma demo_recvd : Forall (of_stream demo_stream) (recvd demo_trace).
Proof.
  change (recvd demo_trace) with (demo_stream <$> [1; 3; 0; 1]).
  apply demo_of_stream. repeat constructor; lia.
Qed.

Lemma relay_delivers_in_order_witness :
  exists s, run relay_step relay_init demo_trace = Some s /\
  exists n, 0 <= n /\ sent demo_trace = demo_stream <$> seqZ 0 n /\
    forall i, 0 <= i < n -> i ∈ ids demo_trace.
Proof.
  destruct (run_succeeds (run relay_step relay_init demo_trace)) as [s E]; [vm_compute; reflexivity|].
  exists s. split; [exact E|].
  exact (relay_delivers_in_order demo_stream demo_trace s demo_recvd E).
Defined.

(** Nothing is held back or lost: when the relay is waiting for input it has
    delivered exactly the blocks below the first ID that has not arrived, and
    every other block that arrived is cached; in particular when blocks 0 to
    [n-1] have all arrived it has delivered at least those. *)
Theorem relay_delivers_all (f : Z -> Block) (tr : list relay_label) (s : relay) :
  Forall (of_stream f) (recvd tr) -> run relay_step relay_init tr = Some s ->
  rl_pc s = AtSelect ->
  exists n, sent tr = f <$> seqZ 0 n /\ 0 <= n /\ (n ∉ ids tr) /\
    (forall i, 0 <= i < n -> i ∈ ids tr) /\
    (forall i, i ∈ ids tr -> n <= i -> cache (rl_x s) !! i = Some (f i)) /\
    (forall m, (forall i, 0 <= i < m -> i ∈ ids tr) -> m <= n).
Proof.
  intros Hall Hrun Hpc. destruct (relay_inv_run f tr s Hall Hrun) as [Hr Hs Hb Hc Hp Hk Hids _].
  rewrite Hpc in Hp. exists (recvBlockID (rl_x s)).
  assert (recvBlockID (rl_x s) ∉ ids tr) as Hnin.
  { intros Hin. destruct (Hk _ ltac:(by rewrite Hpc) Hin) as [?|[[b E]|[_ [b E]]]];
      [lia|by rewrite Hp in E|by rewrite Hpc in E]. }
  split; [done|]. split; [lia|]. split; [done|]. split; [done|]. split.
  - intros i Hi Hge. destruct (Hk i ltac:(by rewrite Hpc) Hi) as [?|[[b E]|[-> _]]]; [lia| |done].
    rewrite E. f_equal. by apply (Hc i b E).
  - intros m Hm. destruct (decide (m <= recvBlockID (rl_x s))) as [|]; [done|].
    destruct Hnin. apply Hm. lia.
Qed.

Lemma relay_delivers_all_witness :
  exists s, run relay_step relay_init demo_trace = Some s /\
  exists n, sent demo_trace = demo_stream <$> seqZ 0 n /\ 0 <= n /\ (n ∉ ids demo_trace) /\
    (forall i, 0 <= i < n -> i ∈ ids demo_trace) /\
    (forall i, i ∈ ids demo_trace -> n <= i -> cache (rl_x s) !! i = Some (demo_stream i)) /\
    (forall m, (forall i, 0 <= i < m -> i ∈ ids demo_trace) -> m <= n).
Proof.
  assert (exists x, run relay_step relay_init demo_trace = Some (mkRelay AtSelect x)) as [x E]
    by (eexists; vm_compute; reflexivity).
  exists (mkRelay AtSelect x). split; [exact E|].
  exact (relay_delivers_all demo_stream demo_trace _ demo_recvd E eq_refl).
Defined.

(** The inner loop terminates: from any state in which the relay is sending,
    whatever its cache, it is back at the outer [select] after at most one send
    more than the cache holds. *)
Theorem relay_flush_terminates (s : relay) (b : Block) :
  rl_pc s = SendDirect b \/ rl_pc s = SendCached b ->
  exists bs s', (length bs <= S (size (cache (rl_x s))))%nat /\
    run relay_step s (LSent <$> bs) = Some s' /\ rl_pc s' = AtSelect.
Proof.
  intros Hpc. destruct s as [pc x]. cbn [rl_pc rl_x] in *.
  set (m := if decide (pc = SendDirect b) then cache x else delete (recvBlockID x) (cache x)).
  destruct (flush_cached (size (cache x)) (set_recvBlockID (u32 (recvBlockID x + 1)) (set_cache m x)))
    as (bs & s' & Hl & Hrun & Hend).
  { cbn. subst m. case_decide; [done|]. rewrite map_size_delete. case_match; cbn; lia. }
  exists (b :: bs), s'. split; [cbn; lia|]. split; [|done]. rewrite <-Hrun.
  cbn [fmap list_fmap run]. unfold relay_step. cbn [rl_pc rl_x]. subst m.
  destruct Hpc as [-> | ->]; rewrite decide_True by done; [|by rewrite decide_False by done].
  by rewrite decide_True by done.
Qed.

Lemma relay_flush_terminates_witness :
  exists bs s', (length bs <= S (size (cache newBlockProcessor)))%nat /\
    run relay_step (mkRelay (SendDirect (demo_stream 0)) newBlockProcessor) (LSent <$> bs) = Some s' /\
    rl_pc s' = AtSelect.
Proof.
  apply (relay_flush_terminates (mkRelay (SendDirect (demo_stream 0)) newBlockProcessor) (demo_stream 0)).
  left. reflexivity.
Defined.

(** The packet-wait timeout kills the connection exactly when there is a
    hole: some block beyond the next expected one has arrived. An idle
    connection, or one that is merely waiting for new data, survives. *)
Theorem relay_timeout_iff_hole (f : Z -> Block) (tr : list relay_label) (s : relay) (killed : bool) :
  Forall (of_stream f) (recvd tr) -> run relay_step relay_init tr = Some s ->
  rl_pc s = AtSelect ->
  is_Some (relay_step s (LTimeout killed)) <->
  killed = bool_decide (Exists (fun i => recvBlockID (rl_x s) < i) (ids tr)).
Proof.
  intros Hall Hrun Hpc.
  destruct (relay_inv_run f tr s Hall Hrun) as [Hr Hs Hb Hc Hp Hk Hids (Hl0 & Hl & Hl1)].
  rewrite Hpc in Hp. unfold relay_step. rewrite Hpc.
  assert (negb (bool_decide (recvBlockID (rl_x s) = lastRecvBlockID (rl_x s))) =
    bool_decide (Exists (fun i => recvBlockID (rl_x s) < i) (ids tr))) as <-.
  { rewrite <-bool_decide_not. apply bool_decide_ext. rewrite list.Exists_exists. split.
    - intros Hne. destruct Hl1 as [Hz|Hin].
      + destruct (decide (recvBlockID (rl_x s) = 0)) as [E|E]; [congruence|].
        assert (0 ∈ ids tr) as H0 by (apply Hb; lia). specialize (Hl 0 H0). lia.
      + exists (lastRecvBlockID (rl_x s) - 1). split; [done|].
        destruct (Hk _ ltac:(by rewrite Hpc) Hin) as [?|[[b E]|[_ [b E]]]]; [|..].
        * destruct (decide (recvBlockID (rl_x s) = 0)); [lia|].
          specialize (Hl (recvBlockID (rl_x s) - 1) ltac:(apply Hb; lia)). lia.
        * destruct (Hc _ _ E) as (_ & Hge & _).
          destruct (decide (lastRecvBlockID (rl_x s) - 1 = recvBlockID (rl_x s))) as [Eq|];
            [by rewrite Eq, Hp in E|lia].
        * by rewrite Hpc in E.
    - intros (i & Hi & Hlt). specialize (Hl i Hi). lia. }
  case_decide; split; try done; by intros [].
Qed.

Lemma relay_timeout_iff_hole_witness :
  exists s, run relay_step relay_init demo_trace = Some s /\
    (is_Some (relay_step s (LTimeout true)) <->
     true = bool_decide (Exists (fun i => recvBlockID (rl_x s) < i) (ids demo_trace))).
Proof.
  assert (exists x, run relay_step relay_init demo_trace = Some (mkRelay AtSelect x)) as [x E]
    by (eexists; vm_compute; reflexivity).
  exists (mkRelay AtSelect x). split; [exact E|].
  exact (relay_timeout_iff_hole demo_stream demo_trace _ true demo_recvd E eq_refl).
Defined.

(** C39: The bound on the stream is needed: the 32-bit numbering is not
    wrap-around safe.  With block 2^32-1 still missing, block 2^32 (whose ID
    wraps to 0) counts as too old and is dropped; once the missing block
    arrives the relay waits for ID 0 again and the dropped block is lost. *)
Theorem relay_wraparound_drops (x : blockProcessor) (b0 b1 : Block) :
  recvBlockID x = 2 ^ 32 - 1 -> cache x = ∅ -> BlockID b0 = 2 ^ 32 - 1 -> BlockID b1 = 0 ->
  exists y, run relay_step (mkRelay AtSelect x) [LRecv b1; LRecv b0; LSent b0] =
    Some (mkRelay AtSelect y) /\ recvBlockID y = 0 /\ cache y = ∅.
Proof.
  intros Hr Hc H0 H1. destruct (note_last_same b1 x) as [Hr1 Hc1].
  set (x1 := note_last b1 x) in *. destruct (note_last_same b0 x1) as [Hr2 Hc2].
  set (x2 := note_last b0 x1) in *.
  assert (on_block b1 x = mkRelay AtSelect x1) as E1
    by (unfold on_block; fold x1; rewrite decide_False, decide_True by lia; done).
  assert (on_block b0 x1 = mkRelay (SendDirect b0) x2) as E2
    by (unfold on_block; fold x2; rewrite decide_True by lia; done).
  rewrite run_cons. change (relay_step _ _) with (Some (on_block b1 x)). rewrite E1.
  rewrite run_cons. change (relay_step _ _) with (Some (on_block b0 x1)). rewrite E2.
  rewrite run_cons. unfold relay_step. cbn [rl_pc rl_x run].
  rewrite decide_True by done. unfold next_cached. cbn [cache set_recvBlockID].
  rewrite Hc2, Hc1, Hc, lookup_empty, Hr2, Hr1, Hr. eexists. split; [reflexivity|]. cbn. by rewrite Hc2, Hc1.
Qed.

Lemma relay_wraparound_drops_witness :
  exists y, run relay_step (mkRelay AtSelect (mkProcessor ∅ 0 (2 ^ 32 - 1) (2 ^ 32 - 1)))
      [LRecv (demo_stream 0); LRecv (demo_stream (2 ^ 32 - 1)); LSent (demo_stream (2 ^ 32 - 1))] =
    Some (mkRelay AtSelect y) /\ recvBlockID y = 0 /\ cache y = ∅.
Proof. apply relay_wraparound_drops; reflexivity. Defined.
