(* ===== verification/RingBuffer.v ===== *)
(** connection/ring_buffer.go: the buffer that keeps the part of a block a
    [Read] had no room for. *)

From S2P Require Import Prelude GoIO.

Record ByteRingBuffer : Type := mkRingBuffer {
  rb_buffer : list byte;
  rb_head : nat;
  rb_tail : nat;
}.

Definition NewByteRingBuffer (size : Z) : ByteRingBuffer :=
  mkRingBuffer (replicate (Z.to_nat size) x00) 0 0.

(** [rb.OverWrite(data)]: grow if needed, copy, reset the bounds. *)
Definition OverWrite (data : list byte) (rb : ByteRingBuffer) : ByteRingBuffer :=
  let buf := if decide (length (rb_buffer rb) < length data)%nat
             then replicate (length data) x00 else rb_buffer rb in
  let n := Nat.min (length buf) (length data) in
  mkRingBuffer (overwrite 0 (take n data) buf) 0 n.

(** [rb.Read(data)] with [len(data) = n]: the bytes copied out. *)
Definition rb_Read (n : nat) (rb : ByteRingBuffer) : list byte * ByteRingBuffer :=
  let n := if decide (rb_tail rb - rb_head rb < n)%nat then (rb_tail rb - rb_head rb)%nat else n in
  (take n (slice (rb_head rb) (rb_tail rb) (rb_buffer rb)),
   mkRingBuffer (rb_buffer rb) (rb_head rb + n) (rb_tail rb)).

Definition rb_Empty (rb : ByteRingBuffer) : bool := bool_decide (rb_tail rb - rb_head rb = 0)%nat.

(** The bytes not read yet, and the well-formedness of the bounds. *)
Definition rb_content (rb : ByteRingBuffer) : list byte := slice (rb_head rb) (rb_tail rb) (rb_buffer rb).

Definition rb_wf (rb : ByteRingBuffer) : Prop :=
  (rb_head rb <= rb_tail rb <= length (rb_buffer rb))%nat.

Lemma NewByteRingBuffer_wf (size : Z) :
  rb_wf (NewByteRingBuffer size) /\ rb_content (NewByteRingBuffer size) = [].
Proof. split; [unfold rb_wf; cbn; lia|apply slice_empty]. Qed.

Lemma OverWrite_spec (data : list byte) (rb : ByteRingBuffer) :
  rb_wf (OverWrite data rb) /\ rb_content (OverWrite data rb) = data.
Proof.
  unfold OverWrite. set (buf := if decide _ then _ else _).
  assert (length data <= length buf)%nat as Hl.
  { subst buf. case_decide; [by rewrite length_replicate|lia]. }
  rewrite Nat.min_r by done. rewrite firstn_all. split.
  - unfold rb_wf. cbn [rb_head rb_tail rb_buffer]. rewrite length_overwrite; lia.
  - by apply slice_overwrite_0.
Qed.

Lemma rb_Read_spec (n : nat) (rb : ByteRingBuffer) :
  rb_wf rb ->
  (rb_Read n rb).1 = take n (rb_content rb) /\
  rb_content (rb_Read n rb).2 = drop n (rb_content rb) /\ rb_wf (rb_Read n rb).2.
Proof.
  intros Hwf. unfold rb_wf in Hwf.
  assert (length (rb_content rb) = rb_tail rb - rb_head rb)%nat as Hl
    by (apply length_slice; lia).
  unfold rb_Read. cbn [fst snd]. fold (rb_content rb). case_decide as Hn.
  - rewrite (take_ge (rb_content rb)), (take_ge (rb_content rb)) by lia.
    rewrite (drop_ge (rb_content rb)) by lia. split; [done|].
    unfold rb_content, rb_wf. cbn [rb_head rb_tail rb_buffer].
    replace (rb_head rb + (rb_tail rb - rb_head rb))%nat with (rb_tail rb) by lia.
    rewrite slice_empty. split; [done|lia].
  - split; [done|]. split; [|unfold rb_wf; cbn; lia].
    unfold rb_content. cbn [rb_head rb_tail rb_buffer]. by rewrite drop_slice.
Qed.

Lemma rb_Empty_spec (rb : ByteRingBuffer) :
  rb_wf rb -> rb_Empty rb = bool_decide (rb_content rb = []).
Proof.
  intros Hwf. unfold rb_wf, rb_Empty in *. apply bool_decide_ext.
  rewrite <-length_zero_iff_nil. unfold rb_content. rewrite length_slice by lia. done.
Qed.

#[export] Hint Resolve OverWrite_spec rb_Read_spec : go_bytes.
