(* ===== verification/Connection.v ===== *)
(** connection/connection.go: what inbound and outbound connections share.  A
    method returns the blocks it puts on the pool's send queue, in order, with
    the connection afterwards; the logger is left out. *)

From S2P Require Import Prelude GoIO Block Processor.

Local Open Scope Z_scope.

(** [stopped]: [removeFromPool()] has been called, so the connection's context
    is cancelled. *)
Record baseConnection : Type := mkBase {
  bc_processor : blockProcessor;
  connectionID : Z;
  closed : bool;
  recvQueue : chan Block;
  orderedRecvQueue : chan Block;
  LastActivity : Z;
  LatencyNano : Z;
  SentBytes : Z;
  RecvBytes : Z;
  stopped : bool;
}.

Definition set_processor (x : blockProcessor) (c : baseConnection) : baseConnection :=
  mkBase x (connectionID c) (closed c) (recvQueue c) (orderedRecvQueue c) (LastActivity c)
    (LatencyNano c) (SentBytes c) (RecvBytes c) (stopped c).
Definition set_closed (b : bool) (c : baseConnection) : baseConnection :=
  mkBase (bc_processor c) (connectionID c) b (recvQueue c) (orderedRecvQueue c) (LastActivity c)
    (LatencyNano c) (SentBytes c) (RecvBytes c) (stopped c).
Definition set_recvQueue (q : chan Block) (c : baseConnection) : baseConnection :=
  mkBase (bc_processor c) (connectionID c) (closed c) q (orderedRecvQueue c) (LastActivity c)
    (LatencyNano c) (SentBytes c) (RecvBytes c) (stopped c).
Definition set_orderedRecvQueue (q : chan Block) (c : baseConnection) : baseConnection :=
  mkBase (bc_processor c) (connectionID c) (closed c) (recvQueue c) q (LastActivity c)
    (LatencyNano c) (SentBytes c) (RecvBytes c) (stopped c).
Definition set_LastActivity (t : Z) (c : baseConnection) : baseConnection :=
  mkBase (bc_processor c) (connectionID c) (closed c) (recvQueue c) (orderedRecvQueue c) t
    (LatencyNano c) (SentBytes c) (RecvBytes c) (stopped c).
Definition set_LatencyNano (t : Z) (c : baseConnection) : baseConnection :=
  mkBase (bc_processor c) (connectionID c) (closed c) (recvQueue c) (orderedRecvQueue c)
    (LastActivity c) t (SentBytes c) (RecvBytes c) (stopped c).
Definition add_SentBytes (n : Z) (c : baseConnection) : baseConnection :=
  mkBase (bc_processor c) (connectionID c) (closed c) (recvQueue c) (orderedRecvQueue c)
    (LastActivity c) (LatencyNano c) (u64 (SentBytes c + n)) (RecvBytes c) (stopped c).
Definition add_RecvBytes (n : Z) (c : baseConnection) : baseConnection :=
  mkBase (bc_processor c) (connectionID c) (closed c) (recvQueue c) (orderedRecvQueue c)
    (LastActivity c) (LatencyNano c) (SentBytes c) (u64 (RecvBytes c + n)) (stopped c).

(** [bc.Stop()]: cancel the connection's context. *)
Definition Stop (c : baseConnection) : baseConnection :=
  mkBase (bc_processor c) (connectionID c) (closed c) (recvQueue c) (orderedRecvQueue c)
    (LastActivity c) (LatencyNano c) (SentBytes c) (RecvBytes c) true.

Definition SetLastActive (now : Z) (c : baseConnection) : baseConnection := set_LastActivity now c.

Definition SetLatencyNanoSince (now timestamp : Z) (c : baseConnection) : baseConnection :=
  set_LatencyNano (i64 (now - timestamp)) c.

(** What other packages look at. *)
Definition GetLastActive (c : baseConnection) : Z := LastActivity c.
Definition GetLatencyNano (c : baseConnection) : Z := LatencyNano c.
Definition GetRecvQueue (c : baseConnection) : chan Block := recvQueue c.
Definition GetOrderedRecvQueue (c : baseConnection) : chan Block := orderedRecvQueue c.
Definition GetSentBytes (c : baseConnection) : Z := SentBytes c.
Definition GetRecvBytes (c : baseConnection) : Z := RecvBytes c.

(** [bc.RecvBlock(blk)]: hand the block to the processor's queue. *)
Definition RecvBlock (blk : Block) (c : baseConnection) : outcome baseConnection :=
  q ← send_call blk (recvQueue c); Ret (set_recvQueue q c).

Definition SendConnect (now : Z) (address : string) (c : baseConnection)
    : list Block * baseConnection :=
  let '(blk, x) := packConnect now address (connectionID c) (bc_processor c) in
  ([blk], set_processor x c).

Definition SendDisconnect (now : Z) (shutdownType : Z) (c : baseConnection)
    : list Block * baseConnection :=
  let '(blk, x) := packDisconnect now (connectionID c) shutdownType (bc_processor c) in
  let c := set_processor x c in
  ([blk], if decide (shutdownType = ShutdownBoth) then Stop c else c).

Definition sendData (now : nat -> Z) (data : list byte) (c : baseConnection)
    : list Block * baseConnection :=
  let '(blocks, x) := packData now data (connectionID c) (bc_processor c) in
  (blocks, set_processor x c).

(** * Numbering

    The blocks a connection emits, in the order it emits them, carry its ID and
    consecutive block IDs. *)

Definition numbered (cid n : Z) (bs : list Block) : Prop :=
  forall i b, bs !! i = Some b -> ConnectionID b = cid /\ BlockID b = u32 (n + Z.of_nat i).

Lemma numbered_nil cid n : numbered cid n [].
Proof. intros i b. by rewrite lookup_nil. Qed.

Lemma numbered_app cid n bs1 bs2 :
  numbered cid n bs1 -> numbered cid (u32 (n + Z.of_nat (length bs1))) bs2 ->
  numbered cid n (bs1 ++ bs2).
Proof.
  intros H1 H2 i b. rewrite lookup_app. destruct (bs1 !! i) as [b'|] eqn:E.
  - intros [= <-]. auto.
  - apply lookup_ge_None in E. intros Hi. destruct (H2 _ _ Hi) as [? ->].
    split; [done|]. rewrite u32_add_l. f_equal. lia.
Qed.

(** The contract of every sending method: from a connection whose counter is a
    uint32, the blocks are numbered from it, it moves past them, and nothing else
    of the numbering changes. *)
Definition sends_numbered (c : baseConnection) (bs : list Block) (c' : baseConnection) : Prop :=
  numbered (connectionID c) (sendBlockID (bc_processor c)) bs /\
  sendBlockID (bc_processor c') = u32 (sendBlockID (bc_processor c) + Z.of_nat (length bs)) /\
  connectionID c' = connectionID c.

Lemma sends_numbered_trans c1 bs1 c2 bs2 c3 :
  sends_numbered c1 bs1 c2 -> sends_numbered c2 bs2 c3 -> sends_numbered c1 (bs1 ++ bs2) c3.
Proof.
  intros (H1 & E1 & D1) (H2 & E2 & D2). rewrite E1 in *. rewrite D1 in *.
  split; [by apply numbered_app|]. split; [|congruence].
  rewrite E2, u32_add_l, length_app. f_equal. lia.
Qed.

Lemma sends_numbered_nil c c' :
  is_u32 (sendBlockID (bc_processor c)) ->
  sendBlockID (bc_processor c') = sendBlockID (bc_processor c) -> connectionID c' = connectionID c ->
  sends_numbered c [] c'.
Proof.
  intros H1 H2 H3. split; [apply numbered_nil|]. cbn. rewrite Z.add_0_r, u32_small; done.
Qed.

Lemma numbered_one cid n b :
  is_u32 n -> ConnectionID b = cid -> BlockID b = n -> numbered cid n [b].
Proof.
  intros Hn Hc Hb [|i] b'; cbn; [|done]. intros [= <-]. by rewrite Z.add_0_r, u32_small.
Qed.

Lemma inc_dec_u32 n : is_u32 n -> u32 (u32 (n + 1) - 1) = n.
Proof.
  intros H. unfold u32. rewrite Zminus_mod_idemp_l.
  rewrite Z.mod_small by (unfold is_u32 in H; lia). lia.
Qed.

Lemma SendConnect_numbered now a c bs c' :
  is_u32 (sendBlockID (bc_processor c)) -> SendConnect now a c = (bs, c') -> sends_numbered c bs c'.
Proof.
  intros Hn [= <- <-]. split; [|done]. cbn. rewrite inc_dec_u32 by done. by apply numbered_one.
Qed.

Lemma SendDisconnect_numbered now st c bs c' :
  is_u32 (sendBlockID (bc_processor c)) -> SendDisconnect now st c = (bs, c') -> sends_numbered c bs c'.
Proof.
  intros Hn [= <- <-]. split; [|by case_decide].
  cbn. rewrite inc_dec_u32 by done. by apply numbered_one.
Qed.

Lemma sendData_numbered now data c bs c' :
  is_u32 (sendBlockID (bc_processor c)) -> sendData now data c = (bs, c') -> sends_numbered c bs c'.
Proof.
  intros Hn. unfold sendData, packData.
  destruct (NewDataBlocks_spec (connectionID c) (sendBlockID (bc_processor c)) now data Hn)
    as (cs & _ & _ & _ & ->). intros [= <- <-].
  split; [|by unfold number_blocks; cbn; rewrite length_imap].
  intros i b. unfold number_blocks. rewrite list_lookup_imap.
  destruct (cs !! i); [|done]. by intros [= <-].
Qed.

Lemma sendData_data now data c bs c' :
  is_u32 (sendBlockID (bc_processor c)) -> sendData now data c = (bs, c') ->
  concat (BlockData <$> bs) = data.
Proof.
  intros Hn. unfold sendData, packData.
  destruct (NewDataBlocks_spec (connectionID c) (sendBlockID (bc_processor c)) now data Hn)
    as (cs & Hcat & _ & _ & ->). intros [= <- <-]. by rewrite number_blocks_data.
Qed.

#[export] Hint Resolve SendConnect_numbered SendDisconnect_numbered sendData_numbered
  sends_numbered_trans : go_bytes.

(** The numbers a connection lays out are in range. *)
Definition in_range (c : baseConnection) : Prop :=
  is_u32 (connectionID c) /\ is_u32 (sendBlockID (bc_processor c)).

Lemma SendConnect_sendable now a c bs c' :
  in_range c -> is_i64 now -> Z.of_nat (length (String.list_byte_of_string a)) < 2 ^ 32 ->
  SendConnect now a c = (bs, c') -> Forall sendable bs.
Proof.
  intros [Hi Hn] Ht Ha [= <- _]. apply Forall_cons_2; [|by constructor]. apply connect_sendable; try done. apply u32_range.
Qed.

Lemma SendDisconnect_sendable now st c bs c' :
  in_range c -> is_i64 now -> SendDisconnect now st c = (bs, c') -> Forall sendable bs.
Proof.
  intros [Hi Hn] Ht [= <- _]. apply Forall_cons_2; [|by constructor]. apply disconnect_sendable; try done. apply u32_range.
Qed.

Lemma sendData_sendable now data c bs c' :
  in_range c -> (forall k, is_i64 (now k)) -> sendData now data c = (bs, c') -> Forall sendable bs.
Proof.
  intros [Hi Hn] Ht. unfold sendData, packData.
  pose proof (data_blocks_sendable (connectionID c) (sendBlockID (bc_processor c)) now data Ht Hi Hn) as Hs.
  destruct (NewDataBlocks _ _ _ _) as [blocks n]. by intros [= <- _].
Qed.

(** The blocks of a connection are laid out as they are, if at all. *)
Lemma sendData_packed now data c bs c' : sendData now data c = (bs, c') -> Forall packed_ok bs.
Proof.
  unfold sendData, packData. pose proof (NewDataBlocks_packed (connectionID c) (sendBlockID (bc_processor c)) now data) as Hp.
  destruct (NewDataBlocks _ _ _ _) as [blocks n]. by intros [= <- _].
Qed.

Lemma SendDisconnect_packed now st c bs c' : SendDisconnect now st c = (bs, c') -> Forall packed_ok bs.
Proof. intros [= <- _]. apply Forall_singleton. by left. Qed.

Lemma SendConnect_packed now a c bs c' : SendConnect now a c = (bs, c') -> Forall packed_ok bs.
Proof. intros [= <- _]. apply Forall_singleton. by left. Qed.

(** * What the blocks say *)

(** The bytes a block carries. *)
Definition data_of (b : Block) : list byte :=
  if decide (Type_ b = TypeData) then BlockData b else [].

Lemma data_of_data b : Type_ b = TypeData -> data_of b = BlockData b.
Proof. intros H. unfold data_of. by rewrite decide_True. Qed.

Lemma data_of_other b : Type_ b <> TypeData -> data_of b = [].
Proof. intros H. unfold data_of. by rewrite decide_False. Qed.

Lemma sendData_data_of now data c bs c' :
  is_u32 (sendBlockID (bc_processor c)) -> sendData now data c = (bs, c') ->
  concat (data_of <$> bs) = data.
Proof.
  intros Hn Hs. rewrite <-(sendData_data _ _ _ _ _ Hn Hs). f_equal.
  unfold sendData, packData in Hs.
  destruct (NewDataBlocks_spec (connectionID c) (sendBlockID (bc_processor c)) now data Hn)
    as (cs & _ & _ & _ & E). rewrite E in Hs. injection Hs as <- _.
  apply list_fmap_ext. intros i b Hb. unfold number_blocks in Hb.
  rewrite list_lookup_imap in Hb. destruct (cs !! i); [|done]. by injection Hb as <-.
Qed.

(** The blocks the connections can handle: they index the payload of a
    disconnect. *)
Definition sane (b : Block) : Prop := Type_ b = TypeDisconnect -> BlockData b <> [].

#[export] Instance sane_dec (b : Block) : Decision (sane b).
Proof. unfold sane. apply _. Defined.

Definition is_shutdown_both (b : Block) : Prop :=
  Type_ b = TypeDisconnect /\ BlockData b = [byte_of_Z ShutdownBoth].

#[export] Instance is_shutdown_both_dec (b : Block) : Decision (is_shutdown_both b).
Proof. unfold is_shutdown_both. apply _. Defined.

Definition shutdowns (bs : list Block) : nat := length (filter is_shutdown_both bs).

Arguments shutdowns : simpl never.

Lemma shutdowns_one b : (shutdowns [b] <= 1)%nat.
Proof. unfold shutdowns. rewrite filter_cons, filter_nil. case_decide; cbn; lia. Qed.

Lemma shutdowns_app bs1 bs2 : shutdowns (bs1 ++ bs2) = (shutdowns bs1 + shutdowns bs2)%nat.
Proof. unfold shutdowns. by rewrite filter_app, length_app. Qed.

Lemma sendData_shutdowns now data base bs base' :
  is_u32 (sendBlockID (bc_processor base)) -> sendData now data base = (bs, base') -> shutdowns bs = 0%nat.
Proof.
  intros Hn. unfold sendData, packData.
  destruct (NewDataBlocks_spec (connectionID base) (sendBlockID (bc_processor base)) now data Hn)
    as (cs & _ & _ & _ & ->). intros [= <- <-].
  unfold shutdowns. rewrite filter_none; [done|].
  unfold number_blocks. apply Forall_lookup. intros i b.
  rewrite list_lookup_imap. destruct (cs !! i); [|done]. intros [= <-] [? _]. done.
Qed.

Lemma SendDisconnect_same now st base bs base' :
  SendDisconnect now st base = (bs, base') ->
  closed base' = closed base /\ recvQueue base' = recvQueue base /\
  orderedRecvQueue base' = orderedRecvQueue base /\
  (exists id, bs = [NewDisconnectBlock now (connectionID base) id st]).
Proof. intros [= <- <-]. case_decide; cbn; eauto 10. Qed.

(** * The receiving half of a connection

    What calls and goroutines other than [RecvBlock] and [OrderedRelay] do to it:
    they take blocks off the ordered queue, and nothing else. *)
Record recv_kept (b b' : baseConnection) : Prop := {
  rk_processor : set_sendBlockID 0 (bc_processor b') = set_sendBlockID 0 (bc_processor b);
  rk_id : connectionID b' = connectionID b;
  rk_recv : ch_buf (recvQueue b') = ch_buf (recvQueue b);
  rk_ordered : ch_buf (orderedRecvQueue b') `suffix_of` ch_buf (orderedRecvQueue b);
  rk_cap : ch_cap (recvQueue b') = ch_cap (recvQueue b);
  rk_stopped : stopped b = true -> stopped b' = true;
  rk_closed : ch_closed (recvQueue b) = true -> ch_closed (recvQueue b') = true;
}.

#[export] Instance recv_kept_preorder : PreOrder recv_kept.
Proof. split; [by constructor|]. intros b1 b2 b3 [] []. constructor; try congruence; auto. by etrans. Qed.

Lemma recv_kept_eq b b' :
  bc_processor b' = bc_processor b -> connectionID b' = connectionID b -> recvQueue b' = recvQueue b ->
  orderedRecvQueue b' = orderedRecvQueue b -> stopped b' = stopped b -> recv_kept b b'.
Proof. intros E1 E2 E3 E4 E5. constructor; by rewrite ?E1, ?E2, ?E3, ?E4, ?E5. Qed.

Lemma SendConnect_kept now a b bs b' : SendConnect now a b = (bs, b') -> recv_kept b b'.
Proof. by intros [= _ <-]. Qed.

Lemma SendDisconnect_kept now st b bs b' : SendDisconnect now st b = (bs, b') -> recv_kept b b'.
Proof. intros [= _ <-]. by case_decide. Qed.

Lemma sendData_kept now d b bs b' : sendData now d b = (bs, b') -> recv_kept b b'.
Proof.
  unfold sendData, packData. destruct (NewDataBlocks _ _ _ _) as [blocks n]. by intros [= _ <-].
Qed.

#[export] Hint Resolve SendConnect_kept SendDisconnect_kept sendData_kept recv_kept_eq : go_bytes.
