(* ===== verification/Inbound.v ===== *)
(** connection/inbound_connection.go: the side of a connection the SOCKS5 client
    talks to.  A call runs against the blocks that are in [orderedRecvQueue]
    when it starts; a block that arrives during a [Read] is either seen by one of
    its receives, as if it had been there, or left for the next call. *)

From S2P Require Import Prelude GoIO Block Processor RingBuffer Connection.

Local Open Scope Z_scope.

(** The context a [Read] or [Write] waits on: the connection's own, or one with
    a deadline set by [SetReadDeadline]/[SetWriteDeadline]. *)
Inductive context : Type :=
  | ConnCtx
  | DeadlineCtx (t : Z).

Record InboundConnection : Type := mkInbound {
  ic_base : baseConnection;
  dataBuffer : ByteRingBuffer;
  writeCtx : context;
  readCtx : context;
  readClosed : bool;
  writeClosed : bool;
  ic_LastActivity : Z;
}.

Definition set_base (b : baseConnection) (c : InboundConnection) : InboundConnection :=
  mkInbound b (dataBuffer c) (writeCtx c) (readCtx c) (readClosed c) (writeClosed c) (ic_LastActivity c).
Definition set_dataBuffer (rb : ByteRingBuffer) (c : InboundConnection) : InboundConnection :=
  mkInbound (ic_base c) rb (writeCtx c) (readCtx c) (readClosed c) (writeClosed c) (ic_LastActivity c).
Definition set_readClosed (b : bool) (c : InboundConnection) : InboundConnection :=
  mkInbound (ic_base c) (dataBuffer c) (writeCtx c) (readCtx c) b (writeClosed c) (ic_LastActivity c).
Definition set_writeClosed (b : bool) (c : InboundConnection) : InboundConnection :=
  mkInbound (ic_base c) (dataBuffer c) (writeCtx c) (readCtx c) (readClosed c) b (ic_LastActivity c).

(** [c.SetLastActive()] stores to the field of [InboundConnection], which hides
    the one of [baseConnection]. *)
Definition SetLastActive (now : Z) (c : InboundConnection) : InboundConnection :=
  mkInbound (ic_base c) (dataBuffer c) (writeCtx c) (readCtx c) (readClosed c) (writeClosed c) now.

Definition SetReadDeadline (t : Z) (c : InboundConnection) : InboundConnection :=
  mkInbound (ic_base c) (dataBuffer c) (writeCtx c) (DeadlineCtx t) (readClosed c) (writeClosed c)
    (ic_LastActivity c).
Definition SetWriteDeadline (t : Z) (c : InboundConnection) : InboundConnection :=
  mkInbound (ic_base c) (dataBuffer c) (DeadlineCtx t) (readCtx c) (readClosed c) (writeClosed c)
    (ic_LastActivity c).
Definition SetDeadline (t : Z) (c : InboundConnection) : InboundConnection :=
  SetWriteDeadline t (SetReadDeadline t c).

(** [NewInboundConnection]: [connectionID] is the random number drawn, [rsize]
    and [osize] the configured queue capacities. *)
Definition NewInboundConnection (connectionID : Z) (rsize osize : nat) (now : Z) : InboundConnection :=
  SetLastActive now
    (mkInbound
      (mkBase newBlockProcessor connectionID false (make_chan rsize) (make_chan osize) 0 0 0 0 false)
      (NewByteRingBuffer MaxSize) ConnCtx ConnCtx false false 0).

(** [<-ctx.Done()] is ready at time [now]. *)
Definition ctx_done (now : Z) (ctx : context) (c : InboundConnection) : bool :=
  match ctx with
  | ConnCtx => stopped (ic_base c)
  | DeadlineCtx t => bool_decide (t <= now)
  end.

(** [c.readBlock(&blk, &readN, b)] with [len(b) = n] and [got] the [readN]
    bytes already stored in [b]. *)
Definition readBlock (now : Z) (blk : Block) (n : nat) (got : list byte) (c : InboundConnection)
    : outcome (list byte * option error * InboundConnection) :=
  let c := SetLastActive now c in
  if decide (Type_ blk = TypeDisconnect) then
    match BlockData blk with
    | [] => Panic
    | t :: _ =>
        if decide (Z_of_byte t = ShutdownBoth) then
          Ret (got, Some EOF, set_base (set_closed true (ic_base c)) c)
        else if decide (Z_of_byte t = ShutdownWrite) then Ret (got, Some EOF, set_readClosed true c)
        else if decide (Z_of_byte t = ShutdownRead) then Ret (got, None, set_writeClosed true c)
        else Ret (got, None, c)
    end
  else if decide (Type_ blk = TypeData) then
    let dst := (n - length got)%nat in
    if decide (dst < length (BlockData blk))%nat then
      let '(bs, rb) := rb_Read dst (OverWrite (BlockData blk) (dataBuffer c)) in
      let c := set_dataBuffer rb c in
      Ret (got ++ bs, None, set_base (add_RecvBytes (Z.of_nat (length bs)) (ic_base c)) c)
    else
      Ret (got ++ BlockData blk, None,
           set_base (add_RecvBytes (Z.of_nat (length (BlockData blk))) (ic_base c)) c)
  else Ret (got, None, c).

(** A receive from [orderedRecvQueue]: the zero block once it is closed. *)
Definition recv_ordered (c : InboundConnection) : option (Block * InboundConnection) :=
  match recv_or_zero zero_block (orderedRecvQueue (ic_base c)) with
  | Some (blk, q) => Some (blk, set_base (set_orderedRecvQueue q (ic_base c)) c)
  | None => None
  end.

Definition read_result : Type := outcome (list byte * option error * InboundConnection).

(** The loop of a [Read] on a closed connection. *)
Fixpoint read_closed (fuel : nat) (now : nat -> Z) (k n : nat) (got : list byte)
    (c : InboundConnection) : option read_result :=
  match fuel with
  | O => None
  | S fuel =>
      match recv_ordered c with
      | Some (blk, c) =>
          match readBlock (now k) blk n got c with
          | Ret (got, _, c) =>
              if decide (length got = n) then Some (Ret (got, None, c))
              else read_closed fuel now (S k) n got c
          | o => Some o
          end
      | None => Some (Ret (got, if decide (got = []) then Some EOF else None, c))
      end
  end.

(** The last loop of [Read].  [pick k]: the [k]-th [select] takes
    [c.readCtx.Done()] when a block is ready as well. *)
Fixpoint read_more (fuel : nat) (now : nat -> Z) (pick : nat -> bool) (k n : nat)
    (got : list byte) (c : InboundConnection) : option read_result :=
  match fuel with
  | O => None
  | S fuel =>
      match recv_ordered c with
      | Some (blk, c') =>
          if ctx_done (now k) (readCtx c) c && pick k then Some (Ret (got, None, c))
          else
            match readBlock (now k) blk n got c' with
            | Ret (got, err, c) =>
                if decide (err = Some EOF \/ length got = n) then Some (Ret (got, None, c))
                else read_more fuel now pick (S k) n got c
            | o => Some o
            end
      | None => Some (Ret (got, None, c))
      end
  end.

(** The part of [Read] after the check for a closed connection. *)
Definition read_open (fuel : nat) (now : nat -> Z) (pick : nat -> bool) (n : nat)
    (got : list byte) (c : InboundConnection) : option read_result :=
  if decide (got = []) then
    match recv_ordered c with
    | None =>
        if ctx_done (now 0%nat) (readCtx c) c then Some (Ret ([], Some EOF, c)) else Some Blocks
    | Some (blk, c') =>
        if ctx_done (now 0%nat) (readCtx c) c && pick 0%nat then Some (Ret ([], Some EOF, c))
        else
          match readBlock (now 0%nat) blk n got c' with
          | Ret (got, err, c) =>
              if decide (err = Some EOF \/ length got = n) then
                Some (Ret (got, if decide (got = []) then err else None, c))
              else read_more fuel now pick 1 n got c
          | o => Some o
          end
    end
  else read_more fuel now pick 1 n got c.

(** [c.Read(b)] with [len(b) = n]: the bytes stored in [b], the error, and the
    connection afterwards.  [None]: out of [fuel], a bound on the iterations of
    the loops. *)
Definition Read (fuel : nat) (now : nat -> Z) (pick : nat -> bool) (n : nat) (c : InboundConnection)
    : option read_result :=
  let '(got, rb) := if rb_Empty (dataBuffer c) then ([], dataBuffer c) else rb_Read n (dataBuffer c) in
  let full := negb (rb_Empty (dataBuffer c)) && bool_decide (length got = n) in
  let c := set_dataBuffer rb c in
  if full then Some (Ret (got, None, c))
  else if closed (ic_base c) || readClosed c then read_closed fuel now 0 n got c
  else read_open fuel now pick n got c.

(** [c.Write(b)]: the blocks put on the send queue come first. *)
Definition Write (now : nat -> Z) (b : list byte) (c : InboundConnection)
    : list Block * nat * option error * InboundConnection :=
  if writeClosed c || closed (ic_base c) then ([], 0%nat, Some EINVAL, c)
  else
    let '(blocks, base) := sendData now b (ic_base c) in
    (blocks, length b, None, set_base (add_SentBytes (Z.of_nat (length b)) base) c).

(** The same call bit by bit, for what other goroutines do in between: there is no lock
    from the check on, and the counter that numbers the blocks is one all goroutines take
    from. *)
Definition may_write (c : InboundConnection) : bool := negb (writeClosed c || closed (ic_base c)).

(** One block of [c.sendData(b)] gets its number; [chunk] is at most [DataSize] bytes. A
    write numbers all its blocks before it queues the first, so that the blocks of a run
    are listed in the order of their numbers, which the other end restores, and a block of
    another goroutine may be on the send queue before one with a smaller number. *)
Definition Write_block (now : Z) (chunk : list byte) (c : InboundConnection) : list Block * InboundConnection :=
  let '(blocks, base) := sendData (fun _ => now) chunk (ic_base c) in (blocks, set_base base c).

(** [c.SentBytes.Add(uint64(len(b)))]. *)
Definition Write_count (n : nat) (c : InboundConnection) : InboundConnection :=
  set_base (add_SentBytes (Z.of_nat n) (ic_base c)) c.

(** [c.sendData(b)] of what is left of [b]. *)
Fixpoint Write_blocks (fuel : nat) (now : nat -> Z) (rest : list byte) (c : InboundConnection)
    : list Block * InboundConnection :=
  match fuel with
  | O => ([], c)
  | S fuel =>
      if decide (rest = []) then ([], c)
      else
        let '(bs1, c1) := Write_block (now 0%nat) (take (Z.to_nat DataSize) rest) c in
        let '(bs2, c2) := Write_blocks fuel (fun k => now (S k)) (drop (Z.to_nat DataSize) rest) c1 in
        (bs1 ++ bs2, c2)
  end.

(** [c.Close()]. *)
Definition Close (now : Z) (c : InboundConnection) : outcome (list Block * InboundConnection) :=
  if closed (ic_base c) then Ret ([], set_base (Stop (ic_base c)) c)
  else
    let '(blocks, base) := SendDisconnect now ShutdownBoth (set_closed true (ic_base c)) in
    q ← close_call (recvQueue base);
    oq ← close_call (orderedRecvQueue base);
    Ret (blocks, set_base (Stop (set_orderedRecvQueue oq (set_recvQueue q base))) c).

Definition CloseRead (now : Z) (c : InboundConnection) : list Block * InboundConnection :=
  let '(blocks, base) := SendDisconnect now ShutdownRead (ic_base c) in (blocks, set_base base c).

Definition CloseWrite (now : Z) (c : InboundConnection) : list Block * InboundConnection :=
  let '(blocks, base) := SendDisconnect now ShutdownWrite (ic_base c) in (blocks, set_base base c).

(** With nothing in between, the bits make the whole call. *)
Lemma Write_blocks_sendData (fuel : nat) (now : nat -> Z) (b : list byte) (c : InboundConnection) :
  (length b <= fuel)%nat ->
  Write_blocks fuel now b c =
    let '(blocks, base) := sendData now b (ic_base c) in (blocks, set_base base c).
Proof.
  pose proof DataSize_pos as HD. revert now b c. induction fuel as [|fuel IH]; intros now b c Hf; cbn [Write_blocks].
  - destruct b; [|cbn in Hf; lia]. unfold sendData, packData, NewDataBlocks. cbn.
    destruct c as [[[]]]; done.
  - case_decide as Hb.
    + subst b. unfold sendData, packData, NewDataBlocks. cbn. destruct c as [[[]]]; done.
    + assert (0 < length b)%nat by (destruct b; [done|cbn; lia]).
      unfold Write_block at 1. unfold sendData, packData. rewrite (NewDataBlocks_cons _ _ now b Hb).
      destruct (NewDataBlocks _ _ _ (take _ _)) as [bs1 n1]. rewrite IH by (rewrite length_drop; lia).
      unfold sendData, packData. cbn. by destruct (NewDataBlocks _ _ _ (drop _ _)) as [bs2 n2].
Qed.

Theorem Write_in_steps (now : nat -> Z) (b : list byte) (c : InboundConnection) :
  Write now b c =
    if may_write c then
      let '(blocks, c1) := Write_blocks (length b) now b c in (blocks, length b, None, Write_count (length b) c1)
    else ([], 0%nat, Some EINVAL, c).
Proof.
  unfold Write, may_write. destruct (_ || _); [done|]. cbn [negb]. rewrite Write_blocks_sendData by done.
  by destruct (sendData now b (ic_base c)).
Qed.

(** * What a Read returns *)

(** All the bytes a reader of the connection has not been given yet. *)
Definition queued (c : InboundConnection) : list Block := ch_buf (orderedRecvQueue (ic_base c)).

Definition unread (c : InboundConnection) : list byte :=
  rb_content (dataBuffer c) ++ concat (data_of <$> queued c).

(** What the next [Read] owes to the data buffer: such bytes were counted in
    [RecvBytes] by no call. *)
Definition received_bytes (c : InboundConnection) : Z := RecvBytes (ic_base c).

Definition in_wf (c : InboundConnection) : Prop := rb_wf (dataBuffer c).

(** [read_step n c got c' got' fresh]: going from [c] with [got] in the caller's
    buffer to [c'] with [got'] loses and repeats nothing; [fresh] bytes came
    from blocks and were counted. *)
Record read_step (n : nat) (c : InboundConnection) (got : list byte)
    (c' : InboundConnection) (got' : list byte) : Prop := {
  rs_wf : in_wf c';
  rs_unread : got ++ unread c = got' ++ unread c';
  rs_len : (length got <= length got' <= n)%nat;
  rs_count : received_bytes c' =
    u64 (received_bytes c + Z.of_nat (length got') - Z.of_nat (length got));
  rs_buffer : (length got' < n)%nat -> rb_content (dataBuffer c') = [];
}.

Definition is_u64 (z : Z) : Prop := 0 <= z < 2 ^ 64.

Lemma u64_small z : is_u64 z -> u64 z = z.
Proof. intros H. unfold u64. by apply Z.mod_small. Qed.

Lemma u64_add_l a b : u64 (u64 a + b) = u64 (a + b).
Proof. unfold u64. by rewrite Z.add_mod_idemp_l. Qed.

Lemma read_step_trans n c1 g1 c2 g2 c3 g3 :
  read_step n c1 g1 c2 g2 -> read_step n c2 g2 c3 g3 -> read_step n c1 g1 c3 g3.
Proof.
  intros [] []. constructor; [done|congruence|lia| |done].
  rewrite rs_count1, rs_count0. unfold Z.sub. rewrite <-!Z.add_assoc, u64_add_l. f_equal. lia.
Qed.

(** A receive and the [readBlock] after it. *)
Lemma recv_ordered_Some c blk c' :
  recv_ordered c = Some (blk, c') ->
  dataBuffer c' = dataBuffer c /\ received_bytes c' = received_bytes c /\ readCtx c' = readCtx c /\
  concat (data_of <$> queued c) = data_of blk ++ concat (data_of <$> queued c') /\
  ch_closed (orderedRecvQueue (ic_base c')) = ch_closed (orderedRecvQueue (ic_base c)) /\
  (ch_closed (orderedRecvQueue (ic_base c)) = false -> queued c = blk :: queued c').
Proof.
  unfold recv_ordered, recv_or_zero, chan_recv, queued.
  destruct (orderedRecvQueue (ic_base c)) as [[|b l] cap cl]; cbn.
  - destruct cl; intros; simplify_eq/=. done.
  - intros; simplify_eq/=. done.
Qed.

Lemma readBlock_queue now blk n got c got' err c' :
  readBlock now blk n got c = Ret (got', err, c') ->
  orderedRecvQueue (ic_base c') = orderedRecvQueue (ic_base c) /\ readCtx c' = readCtx c /\
  stopped (ic_base c') = stopped (ic_base c) /\
  (closed (ic_base c) = true -> closed (ic_base c') = true).
Proof.
  unfold readBlock. cbn [SetLastActive ic_base]. intros. split_guards; done.
Qed.

Lemma readBlock_step now blk n got c1 c c2 got' err :
  in_wf c1 -> rb_content (dataBuffer c1) = [] -> (length got <= n)%nat -> is_u64 (received_bytes c1) ->
  recv_ordered c1 = Some (blk, c) -> readBlock now blk n got c = Ret (got', err, c2) ->
  read_step n c1 got c2 got'.
Proof.
  intros Hwf Hemp Hlen Hu Hr H. unfold in_wf in Hwf.
  apply recv_ordered_Some in Hr as (Hdb & Hrb & _ & Hq & _).
  assert (got ++ unread c1 = got ++ data_of blk ++ concat (data_of <$> queued c)) as Hun
    by (unfold unread; by rewrite Hemp, Hq).
  assert (forall z, z = 0 -> u64 (received_bytes c1 + z) = received_bytes c1) as Hz
    by (intros ? ->; rewrite Z.add_0_r; by apply u64_small).
  unfold readBlock in H. cbn [SetLastActive ic_base dataBuffer] in H.
  unfold data_of at 1 in Hun.
  destruct (decide (Type_ blk = TypeData)) as [Ht|Ht].
  - rewrite Ht in H. rewrite decide_False in H by done.
    destruct (decide (n - length got < length (BlockData blk))%nat) as [Hd|Hd].
    + destruct (OverWrite_spec (BlockData blk) (dataBuffer c)) as [Ow Oc].
      destruct (rb_Read_spec (n - length got) _ Ow) as (R1 & R2 & R3). rewrite Oc in *.
      destruct (rb_Read _ _) as [bs rb] eqn:E. cbn [fst snd] in *. simplify_eq/=.
      constructor; cbn; [done| | | |]; rewrite ?length_app, ?length_take.
      * rewrite Hun. unfold unread. cbn. rewrite R2. fold (queued c).
        rewrite <-(take_drop (n - length got) (BlockData blk)) at 1. by rewrite <-!app_assoc.
      * lia.
      * fold (received_bytes c). rewrite Hrb. f_equal. lia.
      * lia.
    + simplify_eq/=. constructor; cbn; rewrite ?length_app.
      * unfold in_wf. cbn. by rewrite Hdb.
      * rewrite Hun. unfold unread. cbn. rewrite Hdb, Hemp. by rewrite <-!app_assoc.
      * lia.
      * fold (received_bytes c). rewrite Hrb. f_equal. lia.
      * intros _. by rewrite Hdb.
  - assert (got' = got /\ dataBuffer c2 = dataBuffer c1 /\ received_bytes c2 = received_bytes c1 /\
      queued c2 = queued c) as (-> & E1 & E2 & E3)
      by (revert H; rewrite <-Hdb, <-Hrb; intros; split_guards; done).
    constructor; unfold in_wf; rewrite ?E1; try done.
    + replace (unread c2) with (concat (data_of <$> queued c)); [exact Hun|].
      unfold unread. by rewrite E1, E3, Hemp.
    + rewrite E2. unfold Z.sub. rewrite <-Z.add_assoc. symmetry. apply Hz. lia.
Qed.

Lemma read_step_refl n c got :
  in_wf c -> (length got <= n)%nat -> is_u64 (received_bytes c) ->
  ((length got < n)%nat -> rb_content (dataBuffer c) = []) -> read_step n c got c got.
Proof.
  intros. constructor; try done. unfold Z.sub. rewrite <-Z.add_assoc, Z.add_opp_diag_r, Z.add_0_r.
  symmetry. by apply u64_small.
Qed.

Lemma read_step_u64 n c got c' got' : read_step n c got c' got' -> is_u64 (received_bytes c').
Proof. intros []. rewrite rs_count0. apply u64_range. Qed.

#[local] Hint Resolve read_step_trans readBlock_step read_step_refl read_step_u64 rs_wf : core.

Lemma read_closed_step fuel now k n got c got' err c' :
  in_wf c -> rb_content (dataBuffer c) = [] -> (length got <= n)%nat -> is_u64 (received_bytes c) ->
  read_closed fuel now k n got c = Some (Ret (got', err, c')) -> read_step n c got c' got'.
Proof.
  revert k got c. induction fuel as [|fuel IH]; intros k got c Hwf Hemp Hl Hu; cbn [read_closed]; [done|].
  destruct (recv_ordered c) as [[blk c1]|] eqn:Er; [|intros; simplify_eq; auto].
  destruct (readBlock (now k) blk n got c1) as [[[got1 e] c2]| |] eqn:Eb; [|done..].
  pose proof (readBlock_step _ _ _ _ _ _ _ _ _ Hwf Hemp Hl Hu Er Eb) as Hs.
  case_decide as Hfull; [intros; simplify_eq; eauto|].
  intros H. eapply read_step_trans; [exact Hs|].
  destruct Hs. eapply IH in H; eauto; try lia. apply rs_buffer0. lia.
Qed.

Lemma read_more_step fuel now pick k n got c got' err c' :
  in_wf c -> rb_content (dataBuffer c) = [] -> (length got <= n)%nat -> is_u64 (received_bytes c) ->
  read_more fuel now pick k n got c = Some (Ret (got', err, c')) -> read_step n c got c' got'.
Proof.
  revert k got c. induction fuel as [|fuel IH]; intros k got c Hwf Hemp Hl Hu; cbn [read_more]; [done|].
  destruct (recv_ordered c) as [[blk c1]|] eqn:Er; [|intros; simplify_eq; auto].
  destruct (_ && _); [intros; simplify_eq; auto|].
  destruct (readBlock (now k) blk n got c1) as [[[got1 e] c2]| |] eqn:Eb; [|done..].
  pose proof (readBlock_step _ _ _ _ _ _ _ _ _ Hwf Hemp Hl Hu Er Eb) as Hs.
  case_decide as Hfull; [intros; simplify_eq; eauto|].
  intros H. eapply read_step_trans; [exact Hs|].
  destruct Hs. eapply IH in H; eauto; try lia. apply rs_buffer0. intuition lia.
Qed.

Lemma read_open_step fuel now pick n got c got' err c' :
  in_wf c -> rb_content (dataBuffer c) = [] -> (length got <= n)%nat -> is_u64 (received_bytes c) ->
  read_open fuel now pick n got c = Some (Ret (got', err, c')) -> read_step n c got c' got'.
Proof.
  intros Hwf Hemp Hl Hu. unfold read_open. case_decide as Hg; [subst got|by apply read_more_step].
  destruct (recv_ordered c) as [[blk c1]|] eqn:Er; [|intros; split_guards; auto].
  destruct (_ && _); [intros; simplify_eq; auto|].
  destruct (readBlock (now 0%nat) blk n [] c1) as [[[got1 e] c2]| |] eqn:Eb; [|done..].
  pose proof (readBlock_step _ _ _ _ _ _ _ _ _ Hwf Hemp Hl Hu Er Eb) as Hs.
  case_decide as Hfull; [intros; simplify_eq; eauto|].
  intros H. eapply read_step_trans; [exact Hs|].
  destruct Hs. eapply read_more_step in H; eauto; try lia. apply rs_buffer0. intuition lia.
Qed.

(** The first part of [Read]: what was left of the last block. *)
Definition leftover (n : nat) (c : InboundConnection) : list byte * InboundConnection :=
  (take n (rb_content (dataBuffer c)),
   set_dataBuffer (if rb_Empty (dataBuffer c) then dataBuffer c else (rb_Read n (dataBuffer c)).2) c).

Lemma Read_leftover fuel now pick n c :
  in_wf c ->
  let '(got, c1) := leftover n c in
  in_wf c1 /\ rb_content (dataBuffer c1) = drop n (rb_content (dataBuffer c)) /\
  Read fuel now pick n c =
    if negb (bool_decide (rb_content (dataBuffer c) = [])) && bool_decide (length got = n)
    then Some (Ret (got, None, c1))
    else if closed (ic_base c) || readClosed c then read_closed fuel now 0 n got c1
    else read_open fuel now pick n got c1.
Proof.
  intros Hwf. unfold in_wf in Hwf. unfold Read, leftover.
  destruct (rb_Read_spec n _ Hwf) as (R1 & R2 & R3).
  rewrite rb_Empty_spec by done. case_bool_decide as E.
  - rewrite E, take_nil. cbn. split; [done|]. split; [by rewrite E, drop_nil|done].
  - destruct (rb_Read n (dataBuffer c)) as [bs rb] eqn:Er. cbn [fst snd] in *. subst bs.
    cbn. done.
Qed.

Lemma Read_step fuel now pick n c out err c' :
  in_wf c -> is_u64 (received_bytes c) -> Read fuel now pick n c = Some (Ret (out, err, c')) ->
  let '(got, c1) := leftover n c in
  read_step n c1 got c' out /\ unread c = got ++ unread c1.
Proof.
  intros Hwf Hu H. pose proof (Read_leftover fuel now pick n c Hwf) as Hl.
  assert (unread c = (leftover n c).1 ++ unread (leftover n c).2) as Hun.
  { unfold leftover in *. destruct Hl as (_ & Hd & _). cbn [fst snd] in *.
    unfold unread. rewrite Hd. cbn. by rewrite app_assoc, take_drop. }
  assert (received_bytes (leftover n c).2 = received_bytes c) as Hc by done.
  assert (length (leftover n c).1 <= n)%nat as Hle by (cbn; rewrite length_take; lia).
  assert ((length (leftover n c).1 < n)%nat -> rb_content (dataBuffer (leftover n c).2) = []) as Hsh.
  { destruct (leftover n c) as [g c1] eqn:Elo. destruct Hl as (_ & Hd & _).
    apply (f_equal fst) in Elo. cbn [fst snd leftover] in *. subst g. rewrite Hd. rewrite length_take. intros. apply drop_ge. lia. }
  destruct (leftover n c) as [got c1] eqn:Elo. cbn [fst snd] in *.
  destruct Hl as (Hwf1 & Hd & HR). rewrite HR in H. clear HR. split; [|done].
  assert (is_u64 (received_bytes c1)) as Hu1 by (by rewrite Hc).
  destruct (negb _ && _) eqn:E; [simplify_eq; eauto|].
  assert (rb_content (dataBuffer c1) = []) as Hemp.
  { destruct (decide (length got = n)) as [Hn|Hn]; [|apply Hsh; lia].
    rewrite (bool_decide_true _ Hn), andb_true_r in E. apply negb_false_iff, bool_decide_eq_true in E.
    by rewrite Hd, E, drop_nil. }
  destruct (_ || _); [by eapply read_closed_step|by eapply read_open_step].
Qed.

(** * When a Read returns, and with which error *)

Definition is_open (c : InboundConnection) : Prop :=
  ch_closed (orderedRecvQueue (ic_base c)) = false.

Definition ends_stream (b : Block) : Prop :=
  Type_ b = TypeDisconnect /\
  exists t rest, BlockData b = t :: rest /\ (Z_of_byte t = ShutdownBoth \/ Z_of_byte t = ShutdownWrite).

Lemma recv_ordered_open c blk c' :
  is_open c -> recv_ordered c = Some (blk, c') -> queued c = blk :: queued c' /\ is_open c'.
Proof.
  intros Ho Hr. apply recv_ordered_Some in Hr as (_ & _ & _ & _ & Hcl & Hq).
  unfold is_open in *. rewrite Hcl. auto.
Qed.

Lemma recv_ordered_None c : recv_ordered c = None -> queued c = [].
Proof.
  unfold recv_ordered, recv_or_zero, chan_recv, queued.
  destruct (orderedRecvQueue (ic_base c)) as [[|b l] cap []]; done.
Qed.

Lemma readBlock_sane now blk n got c :
  sane blk -> exists got' err c', readBlock now blk n got c = Ret (got', err, c') /\
    orderedRecvQueue (ic_base c') = orderedRecvQueue (ic_base c) /\
    (err = None \/ err = Some EOF /\ ends_stream blk).
Proof.
  intros Hs. destruct (readBlock now blk n got c) as [[[got' err] c']| |] eqn:E.
  - exists got', err, c'. split; [done|]. split; [by eapply readBlock_queue|].
    unfold readBlock in E. split_guards; auto; right; split; try done;
      split; try done; eauto.
  - unfold readBlock in E. split_guards. by destruct Hs.
  - unfold readBlock in E. split_guards.
Qed.

(** What the loops of [Read] come to on an open queue of sane blocks. *)
Definition returns (o : option read_result) : Prop :=
  exists out err c', o = Some (Ret (out, err, c')).

Lemma read_closed_returns fuel now k n got c :
  is_open c -> Forall sane (queued c) -> (length (queued c) < fuel)%nat ->
  returns (read_closed fuel now k n got c).
Proof.
  revert k got c. induction fuel as [|fuel IH]; intros k got c Ho Hs Hf; [lia|]. cbn [read_closed].
  destruct (recv_ordered c) as [[blk c1]|] eqn:Er; [|by repeat eexists].
  apply recv_ordered_open in Er as [Hq Ho1]; [|done].
  rewrite Hq in Hs, Hf. apply Forall_cons in Hs as [Hb Hs].
  destruct (readBlock_sane (now k) blk n got c1 Hb) as (g & e & c2 & -> & Hq2 & _).
  case_decide; [by repeat eexists|].
  assert (queued c2 = queued c1) as E by (unfold queued; by rewrite Hq2).
  apply IH; rewrite ?E; [unfold is_open; by rewrite Hq2|done|cbn in Hf; lia].
Qed.

Lemma read_more_returns fuel now pick k n got c :
  is_open c -> Forall sane (queued c) -> (length (queued c) < fuel)%nat ->
  returns (read_more fuel now pick k n got c).
Proof.
  revert k got c. induction fuel as [|fuel IH]; intros k got c Ho Hs Hf; [lia|]. cbn [read_more].
  destruct (recv_ordered c) as [[blk c1]|] eqn:Er; [|by repeat eexists].
  destruct (_ && _); [by repeat eexists|].
  apply recv_ordered_open in Er as [Hq Ho1]; [|done].
  rewrite Hq in Hs, Hf. apply Forall_cons in Hs as [Hb Hs].
  destruct (readBlock_sane (now k) blk n got c1 Hb) as (g & e & c2 & -> & Hq2 & _).
  case_decide; [by repeat eexists|].
  assert (queued c2 = queued c1) as E by (unfold queued; by rewrite Hq2).
  apply IH; rewrite ?E; [unfold is_open; by rewrite Hq2|done|cbn in Hf; lia].
Qed.

Lemma read_open_returns fuel now pick n got c :
  is_open c -> Forall sane (queued c) -> (length (queued c) < fuel)%nat ->
  returns (read_open fuel now pick n got c) \/
  (read_open fuel now pick n got c = Some Blocks /\ got = [] /\ queued c = [] /\
   ctx_done (now 0%nat) (readCtx c) c = false).
Proof.
  intros Ho Hs Hf. unfold read_open. case_decide as Hg; [|left; by apply read_more_returns].
  destruct (recv_ordered c) as [[blk c1]|] eqn:Er.
  - left. destruct (_ && _); [by repeat eexists|].
    apply recv_ordered_open in Er as [Hq Ho1]; [|done].
    rewrite Hq in Hs, Hf. apply Forall_cons in Hs as [Hb Hs].
    destruct (readBlock_sane (now 0%nat) blk n got c1 Hb) as (g & e & c2 & -> & Hq2 & _).
    case_decide; [by repeat eexists|].
    assert (queued c2 = queued c1) as E by (unfold queued; by rewrite Hq2).
    apply read_more_returns; rewrite ?E; [unfold is_open; by rewrite Hq2|done|cbn in Hf; lia].
  - apply recv_ordered_None in Er. destruct (ctx_done _ _ _); [left; by repeat eexists|right; done].
Qed.

(** EOF from the loops. *)
Lemma read_closed_err fuel now k n got c out err c' :
  read_closed fuel now k n got c = Some (Ret (out, err, c')) ->
  err = None \/ (err = Some EOF /\ out = [] /\ queued c' = []).
Proof.
  revert k got c. induction fuel as [|fuel IH]; intros k got c; cbn [read_closed]; [done|].
  destruct (recv_ordered c) as [[blk c1]|] eqn:Er.
  - destruct (readBlock _ _ _ _ _) as [[[g e] c2]| |]; [|done..].
    case_decide; [intros; simplify_eq; auto|apply IH].
  - intros H. apply recv_ordered_None in Er. case_decide; simplify_eq; auto.
Qed.

Lemma read_more_err fuel now pick k n got c out err c' :
  read_more fuel now pick k n got c = Some (Ret (out, err, c')) -> err = None.
Proof.
  revert k got c. induction fuel as [|fuel IH]; intros k got c; cbn [read_more]; [done|].
  destruct (recv_ordered c) as [[blk c1]|]; [|by intros; simplify_eq].
  destruct (_ && _); [by intros; simplify_eq|].
  destruct (readBlock _ _ _ _ _) as [[[g e] c2]| |]; [|done..].
  case_decide; [by intros; simplify_eq|apply IH].
Qed.

Lemma readBlock_err now blk n got c got' err c' :
  readBlock now blk n got c = Ret (got', err, c') -> err = None \/ (err = Some EOF /\ ends_stream blk).
Proof.
  unfold readBlock. intros. split_guards; auto; right; (split; [done|]); split; eauto.
Qed.

Lemma read_open_err fuel now pick n got c out err c' :
  is_open c -> read_open fuel now pick n got c = Some (Ret (out, err, c')) ->
  err = None \/
  (err = Some EOF /\ out = [] /\ got = [] /\
   (ctx_done (now 0%nat) (readCtx c) c = true \/
    exists blk rest, queued c = blk :: rest /\ ends_stream blk)).
Proof.
  intros Ho. unfold read_open. case_decide as Hg; [|intros H; apply read_more_err in H; auto].
  destruct (recv_ordered c) as [[blk c1]|] eqn:Er.
  - destruct (_ && _) eqn:Ed.
    { apply andb_prop in Ed as [? _]. intros; simplify_eq. right. auto. }
    apply recv_ordered_open in Er as [Hq Ho1]; [|done].
    destruct (readBlock _ _ _ _ _) as [[[g e] c2]| |] eqn:Eb; [|done..].
    apply readBlock_err in Eb.
    case_decide; [|intros H'; apply read_more_err in H'; auto].
    intros; simplify_eq. case_decide; [|auto].
    destruct Eb as [->|[-> ?]]; [auto|right]. eauto 10.
  - destruct (ctx_done _ _ _) eqn:Ed; intros; simplify_eq. right. auto 6.
Qed.

(** * After Close

    [Close] closes the queue that a [Read] of a closed connection drains, and a
    closed channel is always ready. *)

Lemma readBlock_fits now blk n got c got' err c' :
  (length got + length (data_of blk) < n)%nat -> readBlock now blk n got c = Ret (got', err, c') ->
  got' = got ++ data_of blk.
Proof.
  unfold readBlock, data_of. intros Hl H.
  destruct (decide (Type_ blk = TypeData)) as [Ht|Ht].
  - rewrite Ht in H. rewrite decide_False in H by done.
    rewrite decide_False in H by lia. by simplify_eq.
  - rewrite app_nil_r. split_guards; done.
Qed.

Lemma read_closed_spins fuel now k n got c :
  ch_closed (orderedRecvQueue (ic_base c)) = true -> Forall sane (queued c) ->
  (length got + length (concat (data_of <$> queued c)) < n)%nat ->
  read_closed fuel now k n got c = None.
Proof.
  revert k got c. induction fuel as [|fuel IH]; intros k got c Hcl Hs Hl; [done|]. cbn [read_closed].
  destruct (recv_ordered c) as [[blk c1]|] eqn:Er.
  - assert (sane blk /\ Forall sane (queued c1)) as [Hb Hs1].
    { unfold queued, recv_ordered, recv_or_zero, chan_recv in *.
      destruct (orderedRecvQueue (ic_base c)) as [[|b l] cap []]; simplify_eq/=; [done|].
      by apply Forall_cons in Hs. }
    apply recv_ordered_Some in Er as (_ & _ & _ & Hq & Hc1 & _).
    rewrite Hq, length_app in Hl.
    destruct (readBlock_sane (now k) blk n got c1 Hb) as (g & e & c2 & E & Hq2 & _).
    rewrite E. apply readBlock_fits in E as ->; [|lia].
    rewrite decide_False by (rewrite length_app; lia).
    assert (queued c2 = queued c1) as Eq by (unfold queued; by rewrite Hq2).
    apply IH; rewrite ?Eq; [congruence|done|rewrite length_app; lia].
  - unfold recv_ordered, recv_or_zero, chan_recv in Er.
    destruct (orderedRecvQueue (ic_base c)) as [[|b l] cap []]; simplify_eq/=.
Qed.

(** * Calls on a connection *)

Inductive ic_op : Type :=
  | OpRead (now : nat -> Z) (pick : nat -> bool) (n : nat)
  | OpWrite (now : nat -> Z) (data : list byte)
  | OpClose (now : Z)
  | OpCloseRead (now : Z)
  | OpCloseWrite (now : Z)
  | OpSetDeadline (t : Z)
  | OpRecvBlock (blk : Block)      (** the pool's relay hands a block over *)
  | OpDeliver (blk : Block)        (** OrderedRelay puts a block on [orderedRecvQueue] *)
  | OpWriteBlock (now : Z) (chunk : list byte)   (** a [Write] that is past its check sends a block *)
  | OpWriteCount (n : nat).                      (** ... and counts its bytes at the end *)

(** One call that returns: the blocks sent so far and the connection. *)
Definition ic_step (s : list Block * InboundConnection) (op : ic_op)
    : option (list Block * InboundConnection) :=
  let '(log, c) := s in
  match op with
  | OpRead now pick n =>
      match Read (S (length (queued c))) now pick n c with
      | Some (Ret (_, _, c)) => Some (log, c)
      | _ => None
      end
  | OpWrite now data => let '(bs, _, _, c) := Write now data c in Some (log ++ bs, c)
  | OpClose now =>
      match Close now c with Ret (bs, c) => Some (log ++ bs, c) | _ => None end
  | OpCloseRead now => let '(bs, c) := CloseRead now c in Some (log ++ bs, c)
  | OpCloseWrite now => let '(bs, c) := CloseWrite now c in Some (log ++ bs, c)
  | OpSetDeadline t => Some (log, SetDeadline t c)
  | OpRecvBlock blk =>
      match RecvBlock blk (ic_base c) with Ret b => Some (log, set_base b c) | _ => None end
  | OpDeliver blk =>
      match send_call blk (orderedRecvQueue (ic_base c)) with
      | Ret q => Some (log, set_base (set_orderedRecvQueue q (ic_base c)) c)
      | _ => None
      end
  | OpWriteBlock now chunk => let '(bs, c) := Write_block now chunk c in Some (log ++ bs, c)
  | OpWriteCount n => Some (log, Write_count n c)
  end.

(** Clock readings are int64s. *)
Definition op_ok (op : ic_op) : Prop :=
  match op with
  | OpWrite now _ => forall k, is_i64 (now k)
  | OpClose now | OpCloseRead now | OpCloseWrite now | OpWriteBlock now _ => is_i64 now
  | _ => True
  end.

Lemma ic_step_sendable c op bs c' :
  in_range (ic_base c) -> op_ok op -> ic_step ([], c) op = Some (bs, c') -> Forall sendable bs.
Proof.
  intros Hr Ho. destruct op as [now pick n|now data|now|now|now|t|blk|blk|now chunk|n]; cbn [ic_step app op_ok] in *.
  - destruct (Read _ now pick n c) as [[[[? ?] ?]| |]|]; try done. intros [= <- _]. by constructor.
  - unfold Write. destruct (_ || _); [intros [= <- _]; by constructor|].
    destruct (sendData _ _ _) as [blocks b] eqn:E. intros [= <- _]. by eapply sendData_sendable.
  - unfold Close. destruct (closed (ic_base c)); [intros [= <- _]; by constructor|].
    destruct (SendDisconnect _ _ _) as [blocks b] eqn:E. destruct (close_call (recvQueue b)) as [q| |]; [|done..].
    cbn [mbind outcome_bind]. destruct (close_call (orderedRecvQueue b)) as [oq| |]; [|done..].
    intros [= <- _]. by eapply SendDisconnect_sendable in E.
  - unfold CloseRead. destruct (SendDisconnect _ _ _) as [blocks b] eqn:E. intros [= <- _]. by eapply SendDisconnect_sendable in E.
  - unfold CloseWrite. destruct (SendDisconnect _ _ _) as [blocks b] eqn:E. intros [= <- _]. by eapply SendDisconnect_sendable in E.
  - intros [= <- _]. by constructor.
  - destruct (RecvBlock _ _); [|done..]. intros [= <- _]. by constructor.
  - destruct (send_call _ _); [|done..]. intros [= <- _]. by constructor.
  - unfold Write_block. destruct (sendData _ _ _) as [blocks b] eqn:E. intros [= <- _].
    eapply (sendData_sendable (fun _ => now)); [exact Hr|by intros|exact E].
  - intros [= <- _]. by constructor.
Qed.

(** What the calls of a connection send are the blocks of data and of disconnects. *)
Lemma ic_step_sends (P : Block -> Prop) c op bs c' :
  (forall now data b bs b', sendData now data b = (bs, b') -> Forall P bs) ->
  (forall now st b bs b', SendDisconnect now st b = (bs, b') -> Forall P bs) ->
  ic_step ([], c) op = Some (bs, c') -> Forall P bs.
Proof.
  intros Hd Hc. destruct op as [now pick n|now data|now|now|now|t|blk|blk|now chunk|n]; cbn [ic_step app].
  - destruct (Read _ now pick n c) as [[[[? ?] ?]| |]|]; try done. intros [= <- _]. by constructor.
  - unfold Write. destruct (_ || _); [intros [= <- _]; by constructor|].
    destruct (sendData _ _ _) as [blocks b] eqn:E. intros [= <- _]. by eapply Hd.
  - unfold Close. destruct (closed (ic_base c)); [intros [= <- _]; by constructor|].
    destruct (SendDisconnect _ _ _) as [blocks b] eqn:E. destruct (close_call (recvQueue b)) as [q| |]; [|done..].
    cbn [mbind outcome_bind]. destruct (close_call (orderedRecvQueue b)) as [oq| |]; [|done..].
    intros [= <- _]. by eapply Hc.
  - unfold CloseRead. destruct (SendDisconnect _ _ _) as [blocks b] eqn:E. intros [= <- _]. by eapply Hc.
  - unfold CloseWrite. destruct (SendDisconnect _ _ _) as [blocks b] eqn:E. intros [= <- _]. by eapply Hc.
  - intros [= <- _]. by constructor.
  - destruct (RecvBlock _ _); [|done..]. intros [= <- _]. by constructor.
  - destruct (send_call _ _); [|done..]. intros [= <- _]. by constructor.
  - unfold Write_block. destruct (sendData _ _ _) as [blocks b] eqn:E. intros [= <- _]. by eapply Hd.
  - intros [= <- _]. by constructor.
Qed.

(** What no [Read] changes. *)
Record same_sender (b b' : baseConnection) : Prop := {
  ss_send : sendBlockID (bc_processor b') = sendBlockID (bc_processor b);
  ss_id : Connection.connectionID b' = Connection.connectionID b;
  ss_recv : recvQueue b' = recvQueue b;
  ss_ordered : ch_closed (orderedRecvQueue b') = ch_closed (orderedRecvQueue b);
  ss_closed : closed b = true -> closed b' = true;
  ss_processor : bc_processor b' = bc_processor b;
  ss_stopped : stopped b = true -> stopped b' = true;
  ss_suffix : ch_buf (orderedRecvQueue b') `suffix_of` ch_buf (orderedRecvQueue b);
}.

#[export] Instance same_sender_preorder : PreOrder same_sender.
Proof.
  split; [by constructor|]. intros b1 b2 b3 [] []. constructor; try congruence; [auto..|by etrans].
Qed.

Lemma recv_readBlock_sender now blk n got c c1 got' err c' :
  recv_ordered c = Some (blk, c1) -> readBlock now blk n got c1 = Ret (got', err, c') ->
  same_sender (ic_base c) (ic_base c').
Proof.
  intros Hr H. trans (ic_base c1).
  - unfold recv_ordered, recv_or_zero, chan_recv in Hr.
    destruct (orderedRecvQueue (ic_base c)) as [[|b l] cap cl] eqn:E; [destruct cl|];
      simplify_eq/=; constructor; cbn; rewrite ?E; cbn; try done.
    by apply suffix_cons_r.
  - unfold readBlock in H. split_guards; constructor; done.
Qed.

Lemma read_closed_sender fuel now k n got c out err c' :
  read_closed fuel now k n got c = Some (Ret (out, err, c')) -> same_sender (ic_base c) (ic_base c').
Proof.
  revert k got c. induction fuel as [|fuel IH]; intros k got c; cbn [read_closed]; [done|].
  destruct (recv_ordered c) as [[blk c1]|] eqn:Er; [|by intros; simplify_eq].
  destruct (readBlock _ _ _ _ _) as [[[g e] c2]| |] eqn:Eb; [|done..].
  pose proof (recv_readBlock_sender _ _ _ _ _ _ _ _ _ Er Eb) as Hs.
  case_decide as Hd0; [by intros; simplify_eq|]. intros H%IH. by trans (ic_base c2).
Qed.

Lemma read_more_sender fuel now pick k n got c out err c' :
  read_more fuel now pick k n got c = Some (Ret (out, err, c')) -> same_sender (ic_base c) (ic_base c').
Proof.
  revert k got c. induction fuel as [|fuel IH]; intros k got c; cbn [read_more]; [done|].
  destruct (recv_ordered c) as [[blk c1]|] eqn:Er; [|by intros; simplify_eq].
  destruct (_ && _); [by intros; simplify_eq|].
  destruct (readBlock _ _ _ _ _) as [[[g e] c2]| |] eqn:Eb; [|done..].
  pose proof (recv_readBlock_sender _ _ _ _ _ _ _ _ _ Er Eb) as Hs.
  case_decide as Hd0; [by intros; simplify_eq|]. intros H%IH. by trans (ic_base c2).
Qed.

Lemma Read_sender fuel now pick n c out err c' :
  Read fuel now pick n c = Some (Ret (out, err, c')) -> same_sender (ic_base c) (ic_base c').
Proof.
  unfold Read. destruct (if rb_Empty _ then _ else _) as [got rb].
  change (ic_base c) with (ic_base (set_dataBuffer rb c)). generalize (set_dataBuffer rb c).
  intros c1. destruct (negb _ && _); [by intros; simplify_eq|].
  destruct (_ || _); [apply read_closed_sender|]. unfold read_open.
  case_decide as Hg; [|apply read_more_sender].
  destruct (recv_ordered c1) as [[blk c2]|] eqn:Er; [|by intros; split_guards].
  destruct (_ && _); [by intros; simplify_eq|].
  destruct (readBlock _ _ _ _ _) as [[[g e] c3]| |] eqn:Eb; [|done..].
  pose proof (recv_readBlock_sender _ _ _ _ _ _ _ _ _ Er Eb) as Hs.
  case_decide as Hd0; [by intros; simplify_eq|]. intros H'%read_more_sender. by trans (ic_base c3).
Qed.

(** The invariant of the calls. *)
Record calls_inv (c0 : InboundConnection) (s : list Block * InboundConnection) : Prop := {
  ci_numbered : sends_numbered (ic_base c0) s.1 (ic_base s.2);
  ci_u32 : is_u32 (sendBlockID (bc_processor (ic_base s.2)));
  ci_open : closed (ic_base s.2) = false ->
    ch_closed (recvQueue (ic_base s.2)) = false /\ ch_closed (orderedRecvQueue (ic_base s.2)) = false;
  ci_shutdowns : (shutdowns s.1 <= if closed (ic_base s.2) then 1 else 0)%nat;
}.

Definition fresh (c : InboundConnection) : Prop :=
  is_u32 (sendBlockID (bc_processor (ic_base c))) /\ closed (ic_base c) = false /\
  ch_closed (recvQueue (ic_base c)) = false /\ ch_closed (orderedRecvQueue (ic_base c)) = false.

#[export] Instance fresh_dec c : Decision (fresh c).
Proof. unfold fresh, is_u32. apply _. Defined.

Lemma fresh_calls_inv c0 : fresh c0 -> calls_inv c0 ([], c0).
Proof.
  intros (Hu & Hc & H1 & H2). constructor; cbn; auto; [by apply sends_numbered_nil|].
  unfold shutdowns. cbn. lia.
Qed.

(** A call that sends nothing and keeps the sending side. *)
Lemma calls_inv_keep c0 log c c' :
  calls_inv c0 (log, c) -> same_sender (ic_base c) (ic_base c') -> calls_inv c0 (log, c').
Proof.
  intros [(N & S1 & I1) U O Sh] [E1 E2 E3 E4 E5 _ _ _]. cbn [fst snd] in *. constructor; cbn [fst snd].
  - split; [done|]. split; congruence.
  - congruence.
  - intros Hc. rewrite E3, E4. apply O. destruct (closed (ic_base c)); [|done]. by rewrite E5 in Hc.
  - destruct (closed (ic_base c)); [by rewrite E5|]. by destruct (closed (ic_base c')); lia.
Qed.

(** A call that sends. *)
Lemma calls_inv_send c0 log c bs c' :
  calls_inv c0 (log, c) -> sends_numbered (ic_base c) bs (ic_base c') ->
  (closed (ic_base c') = false -> closed (ic_base c) = false /\
     ch_closed (recvQueue (ic_base c')) = ch_closed (recvQueue (ic_base c)) /\
     ch_closed (orderedRecvQueue (ic_base c')) = ch_closed (orderedRecvQueue (ic_base c))) ->
  ((if closed (ic_base c) then 1 else 0) + shutdowns bs <= if closed (ic_base c') then 1 else 0)%nat ->
  calls_inv c0 (log ++ bs, c').
Proof.
  intros [N U O Sh] Hn Ho Hs. cbn [fst snd] in *. constructor; cbn [fst snd].
  - by eapply sends_numbered_trans.
  - destruct Hn as (_ & -> & _). apply u32_range.
  - intros Hc. destruct (Ho Hc) as (Hc' & -> & ->). auto.
  - rewrite shutdowns_app. lia.
Qed.

(** [CloseRead] and [CloseWrite]. *)
Lemma calls_inv_half_close c0 log c now st bs base :
  calls_inv c0 (log, c) -> st = ShutdownRead \/ st = ShutdownWrite ->
  SendDisconnect now st (ic_base c) = (bs, base) -> calls_inv c0 (log ++ bs, set_base base c).
Proof.
  intros Hi Hst Es. pose proof Hi as [_ U _ _]. cbn [fst snd] in U.
  pose proof (SendDisconnect_numbered _ _ _ _ _ U Es) as Hn.
  apply SendDisconnect_same in Es as (C1 & C2 & C3 & id & ->).
  eapply calls_inv_send; [exact Hi|exact Hn|..]; cbn; rewrite C1, ?C2, ?C3; [done|].
  unfold shutdowns. rewrite filter_none; [cbn; lia|].
  repeat constructor. intros [_ E]. by destruct Hst; subst st.
Qed.

Lemma calls_inv_step c0 s op s' : calls_inv c0 s -> ic_step s op = Some s' -> calls_inv c0 s'.
Proof.
  destruct s as [log c]. intros Hi. pose proof Hi as [N U O Sh]. cbn [fst snd] in *.
  destruct op as [now pick n|now data|now|now|now|t|blk|blk|now chunk|n]; cbn [ic_step].
  - destruct (Read _ _ _ _ _) as [[[[out err] c2]| |]|] eqn:E; [|done..]. intros [= <-].
    apply Read_sender in E. by eapply calls_inv_keep.
  - unfold Write. destruct (_ || _) eqn:E; [intros [= <-]; by rewrite app_nil_r|].
    destruct (sendData now data (ic_base c)) as [bs base] eqn:Es. intros [= <-].
    pose proof (sendData_shutdowns _ _ _ _ _ U Es) as H0.
    pose proof (sendData_numbered _ _ _ _ _ U Es) as Hn.
    unfold sendData in Es. destruct (packData _ _ _ _). simplify_eq/=.
    eapply calls_inv_send; [exact Hi|exact Hn|done|cbn; rewrite H0; lia].
  - unfold Close. destruct (closed (ic_base c)) eqn:Ec.
    { intros [= <-]. rewrite app_nil_r. by eapply calls_inv_keep. }
    destruct (SendDisconnect _ _ _) as [bs base] eqn:Es.
    pose proof (SendDisconnect_numbered _ _ (set_closed true (ic_base c)) _ _ U Es) as Hn.
    apply SendDisconnect_same in Es as (C1 & C2 & C3 & id & ->).
    destruct O as [O1 O2]; [done|]. rewrite C2, C3. unfold close_call, chan_close. cbn. rewrite O1, O2.
    intros [= <-]. eapply calls_inv_send; [exact Hi|exact Hn|..]; cbn; rewrite C1; cbn; [done|].
    rewrite Ec. apply shutdowns_one.
  - unfold CloseRead. destruct (SendDisconnect _ _ _) as [bs base] eqn:Es. intros [= <-].
    eapply calls_inv_half_close; [exact Hi| |exact Es]. by left.
  - unfold CloseWrite. destruct (SendDisconnect _ _ _) as [bs base] eqn:Es. intros [= <-].
    eapply calls_inv_half_close; [exact Hi| |exact Es]. by right.
  - intros [= <-]. by eapply calls_inv_keep.
  - unfold RecvBlock, send_call. destruct (chan_send _ _) as [q| |] eqn:Eq; [|done..].
    intros [= <-]. apply chan_send_closed in Eq as [E1 E2].
    constructor; cbn; auto. intros Hc. rewrite E2. by destruct (O Hc).
  - unfold send_call. destruct (chan_send _ _) as [q| |] eqn:Eq; [|done..].
    intros [= <-]. apply chan_send_closed in Eq as [E1 E2].
    constructor; cbn; auto. intros Hc. rewrite E2. by destruct (O Hc).
  - unfold Write_block. destruct (sendData _ chunk (ic_base c)) as [bs base] eqn:Es. intros [= <-].
    pose proof (sendData_shutdowns _ _ _ _ _ U Es) as H0.
    pose proof (sendData_numbered _ _ _ _ _ U Es) as Hn.
    unfold sendData in Es. destruct (packData _ _ _ _). simplify_eq/=.
    eapply calls_inv_send; [exact Hi|exact Hn|done|cbn; rewrite H0; lia].
  - intros [= <-]. eapply calls_inv_keep; [exact Hi|by constructor].
Qed.

(** The log only grows. *)
Lemma ic_step_log log c op :
  ic_step (log, c) op = (fun s => (log ++ s.1, s.2)) <$> ic_step ([], c) op.
Proof.
  destruct op; cbn [ic_step]; repeat case_match; simplify_eq; cbn; by rewrite ?app_nil_r.
Qed.

(** ** What a call moves

    The bytes a call accepts from the user, those it hands to the user and those
    a delivered block adds. *)
Definition written_by (c : InboundConnection) (op : ic_op) : list byte :=
  match op with
  | OpWrite _ data => if writeClosed c || closed (ic_base c) then [] else data
  | OpWriteBlock _ chunk => chunk
  | _ => []
  end.

Definition read_by (c : InboundConnection) (op : ic_op) : list byte :=
  match op with
  | OpRead now pick n =>
      match Read (S (length (queued c))) now pick n c with Some (Ret (out, _, _)) => out | _ => [] end
  | _ => []
  end.

Definition delivered_by (op : ic_op) : list byte :=
  match op with OpDeliver blk => data_of blk | _ => [] end.

(** A call that only changes the sending side. *)
Lemma io_keep c c' :
  dataBuffer c' = dataBuffer c -> ch_buf (orderedRecvQueue (ic_base c')) = ch_buf (orderedRecvQueue (ic_base c)) ->
  RecvBytes (ic_base c') = RecvBytes (ic_base c) ->
  (in_wf c -> in_wf c') /\ (is_u64 (received_bytes c) -> is_u64 (received_bytes c')) /\ unread c' = unread c.
Proof. intros E1 E2 E3. unfold in_wf, received_bytes, unread, queued. by rewrite E1, E2, E3. Qed.

Lemma SendDisconnect_io now st base bs base' :
  SendDisconnect now st base = (bs, base') ->
  concat (data_of <$> bs) = [] /\ orderedRecvQueue base' = orderedRecvQueue base /\ RecvBytes base' = RecvBytes base.
Proof.
  intros E. pose proof (SendDisconnect_same _ _ _ _ _ E) as (_ & _ & E2 & id & ->).
  split; [done|]. split; [done|]. unfold SendDisconnect in E.
  destruct (packDisconnect _ _ _ _) as [blk x]. injection E as _ <-. by case_decide.
Qed.

Lemma ic_step_io log c op log' c' :
  in_wf c -> is_u64 (received_bytes c) -> is_u32 (sendBlockID (bc_processor (ic_base c))) ->
  ic_step (log, c) op = Some (log', c') ->
  exists bs, log' = log ++ bs /\ concat (data_of <$> bs) = written_by c op /\
    read_by c op ++ unread c' = unread c ++ delivered_by op /\ in_wf c' /\ is_u64 (received_bytes c').
Proof.
  intros Hw Hu Hn.
  assert (forall bs c1, dataBuffer c1 = dataBuffer c ->
    ch_buf (orderedRecvQueue (ic_base c1)) = ch_buf (orderedRecvQueue (ic_base c)) ->
    RecvBytes (ic_base c1) = RecvBytes (ic_base c) -> concat (data_of <$> bs) = written_by c op ->
    read_by c op = [] -> delivered_by op = [] -> log' = log ++ bs -> c' = c1 ->
    exists bs, log' = log ++ bs /\ concat (data_of <$> bs) = written_by c op /\
    read_by c op ++ unread c' = unread c ++ delivered_by op /\ in_wf c' /\ is_u64 (received_bytes c')) as Hk.
  { intros bs c1 E1 E2 E3 Hb -> -> -> ->. destruct (io_keep c c1 E1 E2 E3) as (K1 & K2 & K3).
    exists bs. rewrite K3, app_nil_r. split_and!; auto. }
  destruct op as [now pick n|now data|now|now|now|t|blk|blk|now chunk|n]; cbn [ic_step].
  - destruct (Read _ _ _ _ _) as [[[[out err] c2]| |]|] eqn:E; [|done..]. intros [= <- <-].
    pose proof (Read_step _ _ _ _ _ _ _ _ Hw Hu E) as Hs. destruct (leftover n c) as [got c1].
    destruct Hs as [[] ->]. exists []. rewrite app_nil_r. cbn [read_by written_by delivered_by]. rewrite E, app_nil_r.
    split; [done|]. split; [done|]. split; [done|]. split; [done|]. rewrite rs_count0. apply Z.mod_pos_bound. lia.
  - unfold Write. destruct (_ || _) eqn:E; [intros [= <- <-]; apply (Hk [] c); rewrite ?app_nil_r; try done; cbn; by rewrite E|].
    destruct (sendData now data (ic_base c)) as [bs base] eqn:Es. intros [= <- <-].
    pose proof (sendData_data_of _ _ _ _ _ Hn Es) as Hd. unfold sendData in Es. destruct (packData _ _ _ _). simplify_eq/=.
    eapply Hk; [..|done|done]; try done. cbn [written_by]. by rewrite E.
  - unfold Close. destruct (closed (ic_base c)) eqn:Ec; [intros [= <- <-]; eapply (Hk []); [..|done]; try done; by rewrite app_nil_r|].
    destruct (SendDisconnect _ _ _) as [bs base] eqn:Es. apply SendDisconnect_io in Es as (D & Q & R).
    unfold close_call, chan_close. destruct (ch_closed (recvQueue base)); [done|].
    destruct (ch_closed (orderedRecvQueue base)); [done|]. cbn [mbind outcome_bind]. intros [= <- <-].
    eapply (Hk bs); [..|done|done]; try done. cbn. by rewrite Q.
  - unfold CloseRead. destruct (SendDisconnect _ _ _) as [bs base] eqn:Es. apply SendDisconnect_io in Es as (D & Q & R).
    intros [= <- <-]. eapply (Hk bs); [..|done|done]; try done. cbn. by rewrite Q.
  - unfold CloseWrite. destruct (SendDisconnect _ _ _) as [bs base] eqn:Es. apply SendDisconnect_io in Es as (D & Q & R).
    intros [= <- <-]. eapply (Hk bs); [..|done|done]; try done. cbn. by rewrite Q.
  - intros [= <- <-]. eapply (Hk []); [..|done]; try done. by rewrite app_nil_r.
  - destruct (RecvBlock _ _) as [b| |] eqn:E; [|done..]. unfold RecvBlock, send_call in E.
    destruct (chan_send _ _); [|done..]. injection E as <-. intros [= <- <-].
    eapply (Hk []); [..|done]; try done. by rewrite app_nil_r.
  - unfold send_call. destruct (chan_send _ _) as [q| |] eqn:Eq; [|done..]. cbn. intros [= <- <-].
    apply chan_send_buf in Eq. exists []. rewrite app_nil_r. split; [done|]. split; [done|]. split; [|done].
    unfold unread, queued. cbn. rewrite Eq, fmap_app, concat_app, app_assoc. cbn. by rewrite app_nil_r.
  - unfold Write_block. destruct (sendData _ chunk (ic_base c)) as [bs base] eqn:Es. intros [= <- <-].
    pose proof (sendData_data_of _ _ _ _ _ Hn Es) as Hd.
    unfold sendData in Es. destruct (packData _ _ _ _). simplify_eq/=. eapply Hk; [..|done|done]; try done.
  - intros [= <- <-]. eapply (Hk []); [..|done]; try done. by rewrite app_nil_r.
Qed.

Lemma Close_open now c :
  closed (ic_base c) = false ->
  ch_closed (recvQueue (ic_base c)) = false -> ch_closed (orderedRecvQueue (ic_base c)) = false ->
  exists bs c', Close now c = Ret (bs, c') /\ closed (ic_base c') = true /\
    readClosed c' = readClosed c /\ dataBuffer c' = dataBuffer c /\ queued c' = queued c /\
    ch_closed (recvQueue (ic_base c')) = true /\ ch_closed (orderedRecvQueue (ic_base c')) = true.
Proof.
  intros Hc H1 H2. unfold Close. rewrite Hc.
  destruct (SendDisconnect _ _ _) as [bs base] eqn:Es.
  apply SendDisconnect_same in Es as (C1 & C2 & C3 & id & ->).
  rewrite C2, C3. unfold close_call, chan_close. cbn. rewrite H1, H2.
  eexists _, _. split; [done|]. cbn. rewrite C1. done.
Qed.

(** The calls of a user leave the receiving half alone, but for what is read. *)
Lemma same_sender_kept b b' : same_sender b b' -> recv_kept b b'.
Proof. intros []. constructor; congruence || done. Qed.

Lemma ic_step_kept log c op log' c' :
  (forall blk, op <> OpRecvBlock blk /\ op <> OpDeliver blk) ->
  ic_step (log, c) op = Some (log', c') -> recv_kept (ic_base c) (ic_base c').
Proof.
  intros Hop. destruct op as [now pick n|now data|now|now|now|t|blk|blk|now chunk|n]; cbn [ic_step].
  - destruct (Read _ _ _ _ _) as [[[[out err] c2]| |]|] eqn:E; [|done..]. intros [= _ <-].
    by apply Read_sender, same_sender_kept in E.
  - unfold Write. destruct (_ || _); [by intros [= _ <-]|].
    destruct (sendData _ _ _) as [bs base] eqn:Es. intros [= _ <-]. apply sendData_kept in Es as []. constructor; auto.
  - unfold Close. destruct (closed (ic_base c)); [by intros [= _ <-]|].
    destruct (SendDisconnect _ _ _) as [bs base] eqn:Es. apply SendDisconnect_kept in Es as [E1 E2 E3 E4].
    unfold close_call, chan_close. destruct (ch_closed (recvQueue base)); [done|]. cbn [mbind outcome_bind].
    destruct (ch_closed (orderedRecvQueue base)); [done|]. cbn [mbind outcome_bind].
    intros [= _ <-]. constructor; auto.
  - unfold CloseRead. destruct (SendDisconnect _ _ _) as [bs base] eqn:Es. intros [= _ <-].
    by apply SendDisconnect_kept in Es.
  - unfold CloseWrite. destruct (SendDisconnect _ _ _) as [bs base] eqn:Es. intros [= _ <-].
    by apply SendDisconnect_kept in Es.
  - by intros [= _ <-].
  - by destruct (Hop blk).
  - by destruct (Hop blk).
  - unfold Write_block. destruct (sendData _ _ _) as [bs base] eqn:Es. intros [= _ <-].
    apply sendData_kept in Es as []. constructor; auto.
  - by intros [= _ <-].
Qed.

(** * Properties *)

(** C22: a [Read] neither loses, repeats nor reorders bytes: what it stores in
    the caller's buffer followed by what is still unread is what was unread
    before, and it adds to [RecvBytes] exactly the bytes that came straight from
    a block (the bytes left over from an earlier block are never counted). *)
Theorem read_stream (fuel : nat) (now : nat -> Z) (pick : nat -> bool) (n : nat)
    (c c' : InboundConnection) (out : list byte) (err : option error) :
  in_wf c -> is_u64 (received_bytes c) -> Read fuel now pick n c = Some (Ret (out, err, c')) ->
  in_wf c' /\ unread c = out ++ unread c' /\ (length out <= n)%nat /\
  received_bytes c' =
    u64 (received_bytes c + Z.of_nat (length out) - Z.of_nat (length (take n (rb_content (dataBuffer c))))).
Proof.
  intros Hwf Hu H. apply Read_step in H; [|done..].
  destruct (leftover n c) as [got c1] eqn:E. destruct H as [[] ->].
  unfold leftover in E. injection E as <- <-.
  split; [done|]. split; [done|]. split; [lia|]. rewrite rs_count0. done.
Qed.

(** A connection whose queue holds the blocks [bs]. *)
Definition example_conn (bs : list Block) : InboundConnection :=
  let c := NewInboundConnection 7 32 32 0 in
  set_base (set_orderedRecvQueue (Chan bs 32 false) (ic_base c)) c.

Definition example_blocks : list Block :=
  [newDataBlock 0 7 0 [x01; x02; x03]; newDataBlock 0 7 1 [x04; x05];
   NewDisconnectBlock 0 7 2 ShutdownBoth].

Lemma read_stream_witness :
  exists c c' : InboundConnection,
    unread c = [x01; x02; x03; x04; x05] /\
    in_wf c' /\ unread c = [x01; x02; x03; x04] ++ unread c' /\ (4 <= 4)%nat /\
    received_bytes c' = 4.
Proof.
  set (c := example_conn example_blocks).
  destruct (run_succeeds (match Read 3 (fun _ => 0) (fun _ => false) 4 c with
    | Some (Ret (out, _, c')) => if decide (out = [x01; x02; x03; x04]) then Some c' else None
    | _ => None end)) as [c' E]; [vm_compute; reflexivity|].
  destruct (Read 3 (fun _ => 0) (fun _ => false) 4 c) as [[[[out err] c2]| |]|] eqn:ER; [|done..].
  case_decide as Ho; [|done]. simplify_eq. exists c, c'. split; [by vm_compute|].
  refine (read_stream _ _ _ _ _ _ _ _ _ _ ER); [|by vm_compute].
  unfold in_wf, rb_wf. apply NewByteRingBuffer_wf.
Defined.

(** C23: while the queue of ordered blocks is open, a [Read] comes back within
    one pass over it, without a panic, and waits only when there is nothing to
    return: no byte and no block, the connection not closed and its deadline not
    reached. *)
Theorem read_returns (now : nat -> Z) (pick : nat -> bool) (n : nat) (c : InboundConnection) :
  in_wf c -> is_open c -> Forall sane (queued c) ->
  let o := Read (S (length (queued c))) now pick n c in
  (exists out err c', o = Some (Ret (out, err, c'))) \/
  (o = Some Blocks /\ unread c = [] /\ queued c = [] /\ closed (ic_base c) = false /\
   readClosed c = false /\ ctx_done (now 0%nat) (readCtx c) c = false).
Proof.
  intros Hwf Ho Hs. cbv zeta. pose proof (Read_leftover (S (length (queued c))) now pick n c Hwf) as Hl.
  destruct (leftover n c) as [got c1] eqn:E. destruct Hl as (_ & Hd & ->).
  unfold leftover in E. injection E as Eg E1.
  assert (queued c1 = queued c /\ is_open c1) as [Eq Ho1] by (by subst c1).
  destruct (negb _ && _) eqn:Ef; [left; by repeat eexists|].
  destruct (closed (ic_base c) || readClosed c) eqn:Ec.
  - left. apply read_closed_returns; rewrite ?Eq; [done..|lia].
  - apply orb_false_elim in Ec as [Ec1 Ec2].
    destruct (read_open_returns (S (length (queued c))) now pick n got c1)
      as [H|(-> & -> & Hq & Hctx)]; rewrite ?Eq; [done..|lia|by left|right].
    rewrite Eq in Hq. repeat split; try done; [|by subst c1].
    unfold unread. rewrite Hq. cbn. rewrite app_nil_r.
    case_bool_decide as Hc; [done|]. destruct n; [|by destruct (rb_content (dataBuffer c))].
    done.
Qed.

Lemma read_returns_witness :
  let c := example_conn example_blocks in
  let o := Read (S (length (queued c))) (fun _ => 0) (fun _ => false) 100 c in
  (exists out err c', o = Some (Ret (out, err, c'))) \/
  (o = Some Blocks /\ unread c = [] /\ queued c = [] /\ closed (ic_base c) = false /\
   readClosed c = false /\ ctx_done 0 (readCtx c) c = false).
Proof.
  apply (read_returns (fun _ => 0) (fun _ => false) 100 (example_conn example_blocks)).
  - apply NewByteRingBuffer_wf.
  - reflexivity.
  - apply (bool_decide_eq_true_1 _). vm_compute. reflexivity.
Defined.

(** C24: the only error of a [Read] into a non-empty buffer is EOF, it comes
    with no bytes, none is dropped by it, and it means one of three things: the connection was closed
    for reading and everything queued has been read; the first queued block is
    the peer's disconnect; or the read deadline has passed or the connection been
    stopped. *)
Theorem read_eof (fuel : nat) (now : nat -> Z) (pick : nat -> bool) (n : nat)
    (c c' : InboundConnection) (out : list byte) (e : error) :
  (0 < n)%nat -> in_wf c -> is_u64 (received_bytes c) -> is_open c ->
  Read fuel now pick n c = Some (Ret (out, Some e, c')) ->
  e = EOF /\ out = [] /\ unread c' = unread c /\ rb_content (dataBuffer c) = [] /\
  (if closed (ic_base c) || readClosed c then unread c = [] /\ queued c' = []
   else ctx_done (now 0%nat) (readCtx c) c = true \/
        exists blk rest, queued c = blk :: rest /\ ends_stream blk).
Proof.
  intros Hn Hwf Hu Ho H.
  pose proof (Read_step _ _ _ _ _ _ _ _ Hwf Hu H) as Hst.
  pose proof (Read_leftover fuel now pick n c Hwf) as Hl.
  destruct (leftover n c) as [got c1] eqn:E. destruct Hl as (_ & Hd & HR). rewrite HR in H. clear HR.
  destruct Hst as [Hrs Hun]. unfold leftover in E. injection E as Eg E1.
  assert (got = [] -> rb_content (dataBuffer c) = []) as Hgot.
  { intros Hg. rewrite <-Eg in Hg. destruct n; [lia|]. by destruct (rb_content (dataBuffer c)). }
  destruct (negb _ && _); [done|].
  destruct (closed (ic_base c) || readClosed c).
  - apply read_closed_err in H as [|([= ->] & -> & Hq)]; [done|].
    destruct Hrs as [_ Hu' Hle _ Hb]. cbn in Hle, Hb, Hu'.
    assert (got = []) as Hg by (destruct got; [done|cbn in Hle; lia]).
    assert (unread c' = []) as Hn' by (unfold unread; by rewrite Hb, Hq by lia).
    rewrite Hun, Hu', Hn'. split_and!; auto.
  - assert (is_open c1) as Ho1 by (by subst c1).
    apply read_open_err in H as [|([= ->] & -> & -> & Hw)]; [done| |done].
    destruct Hrs as [_ Hu' _ _ _]. cbn in Hu'. rewrite Hun, <-Hu'.
    subst c1. split_and!; auto.
Qed.

Definition example_closing : InboundConnection := example_conn (drop 2 example_blocks).

Lemma read_eof_witness :
  exists c', EOF = EOF /\ [] = @nil byte /\ unread c' = unread example_closing /\
  rb_content (dataBuffer example_closing) = [] /\
  (if closed (ic_base example_closing) || readClosed example_closing
   then unread example_closing = [] /\ queued c' = []
   else ctx_done 0 (readCtx example_closing) example_closing = true \/
        exists blk rest, queued example_closing = blk :: rest /\ ends_stream blk).
Proof.
  destruct (run_succeeds (match Read 3 (fun _ => 0) (fun _ => false) 4 example_closing with
    | Some (Ret ([], Some EOF, c')) => Some c'
    | _ => None end)) as [c' E]; [vm_compute; reflexivity|].
  destruct (Read 3 (fun _ => 0) (fun _ => false) 4 example_closing)
    as [[[[[|x out] [[]|]] c2]| |]|] eqn:ER; try discriminate.
  exists c2. apply (read_eof 3 (fun _ => 0) (fun _ => false) 4 example_closing c2 [] EOF).
  - lia.
  - apply NewByteRingBuffer_wf.
  - unfold is_u64. by vm_compute.
  - reflexivity.
  - exact ER.
Defined.

(** C25: whatever sequence of reads, writes, half-closes, deadlines, deliveries
    and closes a connection goes through, the blocks it sends carry consecutive
    IDs from its first one, at most one of them shuts both directions down, and
    a [Close] after it never panics by closing a queue twice. *)
Theorem close_once (c0 c : InboundConnection) (ops : list ic_op) (log : list Block) :
  fresh c0 -> run ic_step ([], c0) ops = Some (log, c) ->
  sends_numbered (ic_base c0) log (ic_base c) /\ (shutdowns log <= 1)%nat /\
  forall now, exists bs c', Close now c = Ret (bs, c') /\ closed (ic_base c') = true.
Proof.
  intros Hf Hrun.
  assert (calls_inv c0 (log, c)) as [N U O Sh].
  { eapply (run_invariant ic_step (fun _ s => calls_inv c0 s)); [by apply fresh_calls_inv| |exact Hrun].
    intros _ s l s' Hi Hs. by eapply calls_inv_step. }
  cbn [fst snd] in *. split; [done|]. split; [destruct (closed _); lia|]. intros now.
  destruct (closed (ic_base c)) eqn:Hc.
  - unfold Close. rewrite Hc. by repeat eexists.
  - destruct (O eq_refl) as [H1 H2].
    destruct (Close_open now c Hc H1 H2) as (bs & c' & E & E' & _). eauto.
Qed.

Definition example_ops : list ic_op :=
  [OpWrite (fun _ => 1) [x01; x02]; OpDeliver (newDataBlock 0 7 0 [x03]); OpRead (fun _ => 2) (fun _ => false) 10;
   OpCloseWrite 3; OpClose 4; OpClose 5; OpWrite (fun _ => 6) [x01]].

Lemma close_once_witness :
  exists log c, length log = 3%nat /\
    sends_numbered (ic_base (NewInboundConnection 7 32 32 0)) log (ic_base c) /\ (shutdowns log <= 1)%nat /\
    forall now, exists bs c', Close now c = Ret (bs, c') /\ closed (ic_base c') = true.
Proof.
  destruct (run_succeeds (match run ic_step ([], NewInboundConnection 7 32 32 0) example_ops with
    | Some (log, c) => if decide (length log = 3%nat) then Some (log, c) else None
    | None => None end)) as [[log c] E']; [vm_compute; reflexivity|].
  destruct (run ic_step ([], NewInboundConnection 7 32 32 0) example_ops) as [[log' c']|] eqn:E; [|done].
  case_decide as Hl; [|done]. simplify_eq. exists log, c. split; [done|].
  refine (close_once _ _ _ _ _ E). apply (bool_decide_eq_true_1 _). vm_compute. reflexivity.
Defined.

(** After [Close], a [Read] that asks for more than the bytes still unread
    never comes back: the closed queue hands out zero blocks for ever; and the
    next block the pool's relay hands to the connection panics. *)
Theorem closed_connection_hazards (now : Z) (c c' : InboundConnection) (bs : list Block) :
  closed (ic_base c) = false -> in_wf c -> Forall sane (queued c) ->
  Close now c = Ret (bs, c') ->
  (forall fuel clock pick n, (length (unread c) < n)%nat -> Read fuel clock pick n c' = None) /\
  (forall blk, RecvBlock blk (ic_base c') = Panic).
Proof.
  intros Hc Hwf Hs H.
  assert (ch_closed (recvQueue (ic_base c)) = false /\ ch_closed (orderedRecvQueue (ic_base c)) = false)
    as [H1 H2].
  { unfold Close in H. rewrite Hc in H. destruct (SendDisconnect _ _ _) as [b base] eqn:Es.
    apply SendDisconnect_same in Es as (_ & C2 & C3 & _). rewrite C2, C3 in H.
    unfold close_call, chan_close in H. cbn in H.
    destruct (ch_closed (recvQueue (ic_base c))); [done|]. cbn in H.
    by destruct (ch_closed (orderedRecvQueue (ic_base c))). }
  destruct (Close_open now c Hc H1 H2) as (bs1 & c1 & E & Ec & _ & Ed & Eq & Er & Eo).
  rewrite E in H. simplify_eq. split.
  - intros fuel clock pick n Hn.
    assert (in_wf c') as Hwf' by (unfold in_wf; by rewrite Ed).
    pose proof (Read_leftover fuel clock pick n c' Hwf') as Hl.
    unfold leftover in Hl. destruct Hl as (_ & _ & ->). rewrite Ed, Ec. cbn [orb].
    unfold unread in Hn. rewrite length_app in Hn. rewrite take_ge by lia.
    rewrite (bool_decide_false (length _ = n)) by lia. rewrite andb_false_r.
    apply read_closed_spins; [done|by rewrite <-Eq in Hs|].
    change (queued (set_dataBuffer _ c')) with (queued c'). rewrite Eq. lia.
  - intros blk. unfold RecvBlock, send_call, chan_send. by rewrite Er.
Qed.

Lemma closed_connection_hazards_witness :
  exists (bs : list Block) c',
  (forall fuel clock pick n, (length (unread (example_conn [])) < n)%nat ->
     Read fuel clock pick n c' = None) /\
  (forall blk, RecvBlock blk (ic_base c') = Panic).
Proof.
  destruct (run_succeeds (match Close 5 (example_conn []) with Ret r => Some r | _ => None end))
    as [[bs c'] E']; [vm_compute; reflexivity|].
  destruct (Close 5 (example_conn [])) as [[bs0 c0]| |] eqn:E; [simplify_eq|done..].
  exists bs, c'. refine (closed_connection_hazards _ _ _ _ _ _ _ E).
  - reflexivity.
  - apply NewByteRingBuffer_wf.
  - constructor.
Defined.
