(* ===== verification/Outbound.v ===== *)
(** connection/outbound_connection.go: the side of a connection that dials the
    target.  A TCP connection is its state here plus the results the network
    gives its reads and writes; the goroutines (dials, [RecvRelay], [SendRelay])
    are a transition system whose steps are the operations between two waits. *)

From S2P Require Import Prelude GoIO Block Processor Connection.

Local Open Scope Z_scope.

(** A [net.TCPConn]: the bytes handed to the kernel, and what was closed. *)
Record tcp : Type := mkTcp {
  tcp_out : list byte;
  tcp_rclosed : bool;
  tcp_wclosed : bool;
  tcp_closed : bool;
}.

Definition new_tcp : tcp := mkTcp [] false false false.
Definition tcp_Close (t : tcp) : tcp := mkTcp (tcp_out t) (tcp_rclosed t) (tcp_wclosed t) true.
Definition tcp_CloseRead (t : tcp) : tcp := mkTcp (tcp_out t) true (tcp_wclosed t) (tcp_closed t).
Definition tcp_CloseWrite (t : tcp) : tcp := mkTcp (tcp_out t) (tcp_rclosed t) true (tcp_closed t).

(** [Write(p)]; the network takes [p] whole ([None]) or fails after some bytes. *)
Definition tcp_Write (p : list byte) (net : option nat) (t : tcp) : nat * option error * tcp :=
  if tcp_closed t || tcp_wclosed t then (0%nat, Some ErrClosed, t)
  else
    match net with
    | None => (length p, None, mkTcp (tcp_out t ++ p) (tcp_rclosed t) (tcp_wclosed t) false)
    | Some k =>
        (Nat.min k (length p), Some ErrTimeout,
         mkTcp (tcp_out t ++ take k p) (tcp_rclosed t) (tcp_wclosed t) false)
    end.

(** [Read(p)]; the network has bytes or an error. *)
Definition tcp_Read (net : result error (list byte)) (t : tcp) : result error (list byte) :=
  if tcp_closed t then Err ErrClosed else net.

Record OutboundConnection : Type := mkOutbound {
  oc_base : baseConnection;
  HalfOpenConn : option tcp;
}.

Definition set_oc_base (b : baseConnection) (oc : OutboundConnection) : OutboundConnection :=
  mkOutbound b (HalfOpenConn oc).
Definition set_HalfOpenConn (t : tcp) (oc : OutboundConnection) : OutboundConnection :=
  mkOutbound (oc_base oc) (Some t).

Definition NewOutboundConnection (connectionID : Z) (rsize osize : nat) : OutboundConnection :=
  mkOutbound
    (mkBase newBlockProcessor connectionID true (make_chan rsize) (make_chan osize) 0 0 0 0 false) None.

(** [oc.HalfOpenConn.Close()]: a nil interface panics. *)
Definition close_conn (oc : OutboundConnection) : outcome OutboundConnection :=
  match HalfOpenConn oc with
  | None => Panic
  | Some t => Ret (set_HalfOpenConn (tcp_Close t) oc)
  end.

(** [oc.closeThenCancel()]; [oc.cancel] is the [removeFromPool] of the pool. *)
Definition closeThenCancel (oc : OutboundConnection) : outcome OutboundConnection :=
  oc ← close_conn oc; Ret (set_oc_base (Stop (oc_base oc)) oc).

Definition closeThenCancelWithOnceSend (now : Z) (oc : OutboundConnection)
    : outcome (list Block * OutboundConnection) :=
  oc ← close_conn oc;
  let base := Stop (oc_base oc) in
  if closed base then Ret ([], set_oc_base base oc)
  else
    let '(bs, base) := SendDisconnect now ShutdownBoth (set_closed true base) in
    Ret (bs, set_oc_base base oc).

(** [oc.RecvBlock(blk)]: the address to dial in a new goroutine comes first. *)
Definition RecvBlock (blk : Block) (oc : OutboundConnection)
    : outcome (option (list byte) * OutboundConnection) :=
  b ← Connection.RecvBlock blk (oc_base oc);
  Ret (if decide (Type_ blk = TypeConnect) then Some (BlockData blk) else None, set_oc_base b oc).

(** [oc.connect(address)] up to the dial: [true] when it goes on to dial. *)
Definition connect_check (oc : OutboundConnection) : bool :=
  negb (negb (closed (oc_base oc)) || bool_decide (HalfOpenConn oc <> None)).

(** [oc.connect(address)] from the result of the dial on: [true] when the two
    relays are started. *)
Definition connect_dialed (now : Z) (ok : bool) (oc : OutboundConnection)
    : list Block * bool * OutboundConnection :=
  if ok then
    ([], true, set_oc_base (set_closed (negb (closed (oc_base oc))) (oc_base oc)) (set_HalfOpenConn new_tcp oc))
  else
    let '(bs, base) := SendDisconnect now ShutdownBoth (oc_base oc) in (bs, false, set_oc_base base oc).

(** * RecvRelay *)

Inductive recv_pc : Type :=
  | RTop              (** the context check at the head of the loop *)
  | RRead             (** about to read *)
  | RCheck            (** the context check after the read *)
  | RDrain (i : nat)  (** reading what is left, [i] reads done *)
  | RDone.

(** Sending what was read and counting it. *)
Definition forward (now : nat -> Z) (bs : list byte) (oc : OutboundConnection)
    : list Block * OutboundConnection :=
  let '(blocks, base) := sendData now bs (oc_base oc) in
  (blocks, set_oc_base (add_RecvBytes (Z.of_nat (length bs)) base) oc).

(** The read of the loop and the switch on its result. *)
Definition RecvRelay_read (now : nat -> Z) (res : result error (list byte)) (oc : OutboundConnection)
    : outcome (list Block * recv_pc * OutboundConnection) :=
  match res with
  | Ok bs => let '(blocks, oc) := forward now bs oc in Ret (blocks, RCheck, oc)
  | Err ErrTimeout => Ret ([], RCheck, oc)
  | Err _ =>
      '(blocks, oc) ← closeThenCancelWithOnceSend (now 0%nat) oc; Ret (blocks, RDone, oc)
  end.

(** A read of the loop that drains the connection once the context is
    cancelled: five reads at most. *)
Definition RecvRelay_drain (now : nat -> Z) (i : nat) (res : result error (list byte))
    (oc : OutboundConnection) : list Block * recv_pc * OutboundConnection :=
  match res with
  | Ok (b :: bs) =>
      let '(blocks, oc) := forward now (b :: bs) oc in
      (blocks, if decide (S i < 5)%nat then RDrain (S i) else RDone, oc)
  | _ => ([], RDone, oc)
  end.

(** * SendRelay *)

(** The body of the loop on a block from [orderedRecvQueue]. *)
Definition SendRelay_block (now : Z) (blk : Block) (net : option nat) (oc : OutboundConnection)
    : outcome (list Block * OutboundConnection) :=
  if decide (Type_ blk = TypeConnect \/ Type_ blk = TypePing \/ Type_ blk = TypePong) then Ret ([], oc)
  else if decide (Type_ blk = TypeData) then
    match HalfOpenConn oc with
    | None => closeThenCancelWithOnceSend now oc
    | Some t =>
        match tcp_Write (BlockData blk) net t with
        | (n, None, t) =>
            let oc := set_HalfOpenConn t oc in
            Ret ([], set_oc_base (add_SentBytes (Z.of_nat n) (oc_base oc)) oc)
        | (_, Some _, t) => closeThenCancelWithOnceSend now (set_HalfOpenConn t oc)
        end
    end
  else if decide (Type_ blk = TypeDisconnect) then
    match BlockData blk, HalfOpenConn oc with
    | [], _ | _, None => Panic
    | s :: _, Some t =>
        if decide (Z_of_byte s = ShutdownRead) then Ret ([], set_HalfOpenConn (tcp_CloseRead t) oc)
        else if decide (Z_of_byte s = ShutdownWrite) then Ret ([], set_HalfOpenConn (tcp_CloseWrite t) oc)
        else oc ← closeThenCancel oc; Ret ([], oc)
    end
  else Ret ([], oc).

(** * The goroutines of a connection *)

(** [spawned]: addresses handed to [connect]; [dialing]: dials under way. *)
Record oc_state : Type := mkOcState {
  os_conn : OutboundConnection;
  os_spawned : list (list byte);
  os_dialing : list (list byte);
  os_recv : list recv_pc;
  os_send : list bool;          (** [SendRelay] still running *)
}.

Inductive oc_label : Type :=
  | ORecvBlock (blk : Block)
  | ODeliver (blk : Block)                     (** OrderedRelay: [orderedRecvQueue <- blk] *)
  | OStop                                      (** the context is cancelled from outside *)
  | OConnect (i : nat)                         (** the [i]-th spawned [connect] checks *)
  | ODialed (i : nat) (now : Z) (ok : bool)    (** the [i]-th dial ends *)
  | ORecvCheck (i : nat)                       (** [RecvRelay] [i] checks the context *)
  | ORecvRead (i : nat) (now : nat -> Z) (net : result error (list byte))
  | OSend (i : nat) (now : Z) (net : option nat)   (** [SendRelay] [i] takes a block *)
  | OSendDone (i : nat) (now : Z) (second : bool). (** ... sees [ctx.Done()], in which of its two cases *)

Definition with_conn (oc : OutboundConnection) (s : oc_state) : oc_state :=
  mkOcState oc (os_spawned s) (os_dialing s) (os_recv s) (os_send s).
Definition with_recv (i : nat) (pc : recv_pc) (s : oc_state) : oc_state :=
  mkOcState (os_conn s) (os_spawned s) (os_dialing s) (<[i:=pc]> (os_recv s)) (os_send s).
Definition with_send (i : nat) (b : bool) (s : oc_state) : oc_state :=
  mkOcState (os_conn s) (os_spawned s) (os_dialing s) (os_recv s) (<[i:=b]> (os_send s)).

Definition tcp_read_of (net : result error (list byte)) (oc : OutboundConnection)
    : outcome (result error (list byte)) :=
  match HalfOpenConn oc with Some t => Ret (tcp_Read net t) | None => Panic end.

(** One step: the blocks it sends and the state after it.  [Blocks]: the label
    is not enabled. *)
Definition oc_step (s : oc_state) (l : oc_label) : outcome (list Block * oc_state) :=
  let oc := os_conn s in
  match l with
  | ORecvBlock blk =>
      '(addr, oc) ← RecvBlock blk oc;
      Ret ([], mkOcState oc (match addr with Some a => os_spawned s ++ [a] | None => os_spawned s end)
                 (os_dialing s) (os_recv s) (os_send s))
  | ODeliver blk =>
      q ← send_call blk (orderedRecvQueue (oc_base oc));
      Ret ([], with_conn (set_oc_base (set_orderedRecvQueue q (oc_base oc)) oc) s)
  | OStop => Ret ([], with_conn (set_oc_base (Stop (oc_base oc)) oc) s)
  | OConnect i =>
      match os_spawned s !! i with
      | None => Blocks
      | Some a =>
          Ret ([], mkOcState oc (delete i (os_spawned s))
                     (if connect_check oc then os_dialing s ++ [a] else os_dialing s)
                     (os_recv s) (os_send s))
      end
  | ODialed i now ok =>
      match os_dialing s !! i with
      | None => Blocks
      | Some _ =>
          let '(bs, started, oc) := connect_dialed now ok oc in
          Ret (bs, mkOcState oc (os_spawned s) (delete i (os_dialing s))
                     (if started then os_recv s ++ [RTop] else os_recv s)
                     (if started then os_send s ++ [true] else os_send s))
      end
  | ORecvCheck i =>
      match os_recv s !! i with
      | Some RTop => Ret ([], with_recv i (if stopped (oc_base oc) then RDone else RRead) s)
      | Some RCheck => Ret ([], with_recv i (if stopped (oc_base oc) then RDrain 0 else RTop) s)
      | _ => Blocks
      end
  | ORecvRead i now net =>
      match os_recv s !! i with
      | Some RRead =>
          res ← tcp_read_of net oc;
          '(bs, pc, oc) ← RecvRelay_read now res oc;
          Ret (bs, with_recv i pc (with_conn oc s))
      | Some (RDrain k) =>
          res ← tcp_read_of net oc;
          let '(bs, pc, oc) := RecvRelay_drain now k res oc in
          Ret (bs, with_recv i pc (with_conn oc s))
      | _ => Blocks
      end
  | OSend i now net =>
      match os_send s !! i with
      | Some true =>
          match chan_recv (orderedRecvQueue (oc_base oc)) with
          | RecvBlocks => Blocks
          | RecvClosed => Ret ([], with_send i false s)
          | Received blk q =>
              '(bs, oc) ← SendRelay_block now blk net
                            (set_oc_base (set_orderedRecvQueue q (oc_base oc)) oc);
              Ret (bs, with_conn oc s)
          end
      | _ => Blocks
      end
  | OSendDone i now second =>
      match os_send s !! i with
      | Some true =>
          if stopped (oc_base oc) then
            if second then
              '(bs, oc) ← closeThenCancelWithOnceSend now oc;
              Ret (bs, with_send i false (with_conn oc s))
            else Ret ([], with_send i false s)
          else Blocks
      | _ => Blocks
      end
  end.

(** Clock readings are int64s. *)
Definition clock_ok (l : oc_label) : Prop :=
  match l with
  | ORecvRead _ now _ => forall k, is_i64 (now k)
  | ODialed _ now _ | OSend _ now _ | OSendDone _ now _ => is_i64 now
  | _ => True
  end.

Lemma once_send_sendable now oc bs oc' :
  in_range (oc_base oc) -> is_i64 now -> closeThenCancelWithOnceSend now oc = Ret (bs, oc') -> Forall sendable bs.
Proof.
  unfold closeThenCancelWithOnceSend, close_conn. intros Hr Hn H.
  destruct (HalfOpenConn oc) as [t|]; [|done]. cbn [mbind outcome_bind] in H.
  destruct (closed _); [injection H as <- _; by constructor|].
  destruct (SendDisconnect _ _ _) as [bs' base'] eqn:Es. injection H as <- _. by eapply SendDisconnect_sendable in Es.
Qed.

Lemma forward_sendable now d oc bs oc' :
  in_range (oc_base oc) -> (forall k, is_i64 (now k)) -> forward now d oc = (bs, oc') -> Forall sendable bs.
Proof.
  unfold forward. intros Hr Hn. destruct (sendData _ _ _) as [blocks b] eqn:E. intros [= <- _]. by eapply sendData_sendable.
Qed.

Lemma SendRelay_sendable now blk net oc bs oc' :
  in_range (oc_base oc) -> is_i64 now -> SendRelay_block now blk net oc = Ret (bs, oc') -> Forall sendable bs.
Proof.
  intros Hr Hn. unfold SendRelay_block, closeThenCancel, close_conn. intros H.
  repeat (case_match; cbn [mbind outcome_bind] in H; try discriminate H); try (injection H as <- _; apply Forall_nil_2);
    eapply (once_send_sendable now); try exact H; exact Hr || exact Hn.
Qed.

Lemma RecvRelay_read_sendable now res oc bs pc oc' :
  in_range (oc_base oc) -> (forall k, is_i64 (now k)) -> RecvRelay_read now res oc = Ret (bs, pc, oc') -> Forall sendable bs.
Proof.
  intros Hr Hn. unfold RecvRelay_read. intros H. destruct res as [d|err].
  - destruct (forward _ _ _) as [blocks oc1] eqn:E. injection H as <- _ _. by eapply forward_sendable.
  - destruct (closeThenCancelWithOnceSend _ _) as [[blocks oc1]| |] eqn:E; cbn [mbind outcome_bind] in H; destruct err; try done;
      injection H as <- _ _; first [apply Forall_nil_2|by eapply once_send_sendable].
Qed.

Lemma RecvRelay_drain_sendable now k res oc bs pc oc' :
  in_range (oc_base oc) -> (forall k, is_i64 (now k)) -> RecvRelay_drain now k res oc = (bs, pc, oc') -> Forall sendable bs.
Proof.
  intros Hr Hn. unfold RecvRelay_drain.
  destruct res as [[|b d]|err]; [intros [= <- _ _]; apply Forall_nil_2| |intros [= <- _ _]; apply Forall_nil_2].
  destruct (forward _ _ _) as [blocks oc1] eqn:E. intros [= <- _ _]. by eapply forward_sendable.
Qed.

Lemma oc_step_sendable s l bs s' :
  in_range (oc_base (os_conn s)) -> clock_ok l -> oc_step s l = Ret (bs, s') -> Forall sendable bs.
Proof.
  intros Hr Hl. destruct l as [blk|blk| |i|i now ok|i|i now net|i now net|i now second]; cbn [oc_step clock_ok] in *; intros H.
  - destruct (RecvBlock _ _) as [[a oc]| |]; [|done..]. injection H as <- _. by constructor.
  - destruct (send_call _ _); [|done..]. injection H as <- _. by constructor.
  - injection H as <- _. by constructor.
  - destruct (os_spawned s !! i); [|done]. injection H as <- _. by constructor.
  - destruct (os_dialing s !! i); [|done]. unfold connect_dialed in H. destruct ok; [injection H as <- _; by constructor|].
    destruct (SendDisconnect _ _ _) as [bs' b] eqn:E. injection H as <- _. by eapply SendDisconnect_sendable.
  - destruct (os_recv s !! i) as [[]|]; try done; injection H as <- _; by constructor.
  - destruct (os_recv s !! i) as [[| | |k|]|]; try done; destruct (tcp_read_of _ _) as [res| |]; try done;
      cbn [mbind outcome_bind] in H.
    + destruct (RecvRelay_read _ _ _) as [[[bs' pc] oc]| |] eqn:E; [|done..]. injection H as <- _.
      by eapply RecvRelay_read_sendable.
    + destruct (RecvRelay_drain _ _ _ _) as [[bs' pc] oc] eqn:E. injection H as <- _.
      by eapply RecvRelay_drain_sendable.
  - destruct (os_send s !! i) as [[]|]; try done. destruct (chan_recv _) as [blk q| |]; [|injection H as <- _; by constructor|done].
    destruct (SendRelay_block _ _ _ _) as [[bs' oc]| |] eqn:E; [|done..]. injection H as <- _.
    by eapply SendRelay_sendable in E.
  - destruct (os_send s !! i) as [[]|]; try done. destruct (stopped _); [|done]. destruct second; [|injection H as <- _; by constructor].
    destruct (closeThenCancelWithOnceSend _ _) as [[bs' oc]| |] eqn:E; [|done..]. injection H as <- _.
    by eapply once_send_sendable.
Qed.

(** What the goroutines of a connection send are the blocks of data and of disconnects. *)
Section Sends.
Context (P : Block -> Prop)
  (Hdata : forall now data b bs b', sendData now data b = (bs, b') -> Forall P bs)
  (Hdisc : forall now st b bs b', SendDisconnect now st b = (bs, b') -> Forall P bs).

Lemma once_send_sends now oc bs oc' : closeThenCancelWithOnceSend now oc = Ret (bs, oc') -> Forall P bs.
Proof using Hdisc.
  unfold closeThenCancelWithOnceSend, close_conn. intros H. destruct (HalfOpenConn oc) as [t|]; [|done].
  cbn [mbind outcome_bind] in H. destruct (closed _); [injection H as <- _; by constructor|].
  destruct (SendDisconnect _ _ _) as [bs' base'] eqn:Es. injection H as <- _. by eapply Hdisc.
Qed.

Lemma forward_sends now d oc bs oc' : forward now d oc = (bs, oc') -> Forall P bs.
Proof using Hdata. unfold forward. destruct (sendData _ _ _) as [blocks b] eqn:E. intros [= <- _]. by eapply Hdata. Qed.

Lemma oc_step_sends s l bs s' : oc_step s l = Ret (bs, s') -> Forall P bs.
Proof using Hdata Hdisc.
  destruct l as [blk|blk| |i|i now ok|i|i now net|i now net|i now second]; cbn [oc_step]; intros H.
  - destruct (RecvBlock _ _) as [[a oc]| |]; [|done..]. injection H as <- _. by constructor.
  - destruct (send_call _ _); [|done..]. injection H as <- _. by constructor.
  - injection H as <- _. by constructor.
  - destruct (os_spawned s !! i); [|done]. injection H as <- _. by constructor.
  - destruct (os_dialing s !! i); [|done]. unfold connect_dialed in H. destruct ok; [injection H as <- _; by constructor|].
    destruct (SendDisconnect _ _ _) as [bs' b] eqn:E. injection H as <- _. by eapply Hdisc.
  - destruct (os_recv s !! i) as [[]|]; try done; injection H as <- _; by constructor.
  - destruct (os_recv s !! i) as [[| | |k|]|]; try done; destruct (tcp_read_of _ _) as [res| |]; try done;
      cbn [mbind outcome_bind] in H.
    + unfold RecvRelay_read in H. destruct res as [d|err].
      * destruct (forward _ _ _) as [bs0 oc] eqn:E. injection H as <- _. by eapply forward_sends.
      * destruct (closeThenCancelWithOnceSend _ _) as [[bs0 oc1]| |] eqn:E; cbn [mbind outcome_bind] in H; destruct err; try done;
          injection H as <- _; first [apply Forall_nil_2|by eapply once_send_sends].
    + unfold RecvRelay_drain in H. destruct res as [[|b d]|err]; [injection H as <- _; apply Forall_nil_2| |injection H as <- _; apply Forall_nil_2].
      destruct (forward _ _ _) as [bs0 oc] eqn:E. injection H as <- _. by eapply forward_sends.
  - destruct (os_send s !! i) as [[]|]; try done. destruct (chan_recv _) as [blk q| |]; [|injection H as <- _; by constructor|done].
    destruct (SendRelay_block _ _ _ _) as [[bs' oc]| |] eqn:E; [|done..]. injection H as <- _.
    unfold SendRelay_block, closeThenCancel, close_conn in E.
    repeat (case_match; cbn [mbind outcome_bind] in E; try discriminate E); try (injection E as <- _; apply Forall_nil_2);
      by eapply once_send_sends.
  - destruct (os_send s !! i) as [[]|]; try done. destruct (stopped _); [|done]. destruct second; [|injection H as <- _; by constructor].
    destruct (closeThenCancelWithOnceSend _ _) as [[bs' oc]| |] eqn:E; [|done..]. injection H as <- _. by eapply once_send_sends.
Qed.
End Sends.

(** * What a step does to the sending side

    [effect d k oc bs oc']: the blocks [bs] are numbered on from [oc], they carry
    the bytes [d], at most [k] disconnects of both directions go out beyond those
    the [closed] flag allows, and the two queues stay as open as they were. *)

Definition opened (oc : OutboundConnection) : nat := if closed (oc_base oc) then 0 else 1.

Record effect (d : list byte) (k : nat) (oc : OutboundConnection) (bs : list Block)
    (oc' : OutboundConnection) : Prop := {
  ef_num : sends_numbered (oc_base oc) bs (oc_base oc');
  ef_data : concat (data_of <$> bs) = d;
  ef_shut : (shutdowns bs + opened oc' <= opened oc + k)%nat;
  ef_recv : ch_closed (recvQueue (oc_base oc')) = ch_closed (recvQueue (oc_base oc));
  ef_ordered : ch_closed (orderedRecvQueue (oc_base oc')) = ch_closed (orderedRecvQueue (oc_base oc));
}.

Definition counter_ok (oc : OutboundConnection) : Prop :=
  is_u32 (sendBlockID (bc_processor (oc_base oc))).

Lemma effect_counter d k oc bs oc' : effect d k oc bs oc' -> counter_ok oc'.
Proof. intros [(_ & E & _) _ _ _ _]. unfold counter_ok. rewrite E. apply u32_range. Qed.

(** No block. *)
Lemma effect_quiet k oc oc' :
  counter_ok oc ->
  sendBlockID (bc_processor (oc_base oc')) = sendBlockID (bc_processor (oc_base oc)) ->
  Connection.connectionID (oc_base oc') = Connection.connectionID (oc_base oc) ->
  (opened oc' <= opened oc + k)%nat ->
  ch_closed (recvQueue (oc_base oc')) = ch_closed (recvQueue (oc_base oc)) ->
  ch_closed (orderedRecvQueue (oc_base oc')) = ch_closed (orderedRecvQueue (oc_base oc)) ->
  effect [] k oc [] oc'.
Proof. intros. constructor; try done. by apply sends_numbered_nil. Qed.

(** A step that leaves the sending side alone. *)
Ltac quiet := apply effect_quiet; auto; unfold opened; cbn; lia.

Lemma disconnect_data now base bs base' :
  SendDisconnect now ShutdownBoth base = (bs, base') ->
  concat (data_of <$> bs) = [] /\ (shutdowns bs <= 1)%nat.
Proof.
  intros Es. apply SendDisconnect_same in Es as (_ & _ & _ & id & ->).
  split; [done|apply shutdowns_one].
Qed.

Lemma once_send_effect now oc bs oc' :
  counter_ok oc -> closeThenCancelWithOnceSend now oc = Ret (bs, oc') -> effect [] 0 oc bs oc'.
Proof.
  unfold closeThenCancelWithOnceSend, close_conn. intros Hu H.
  destruct (HalfOpenConn oc) as [t|]; [|done]. cbn [mbind outcome_bind] in H.
  change (oc_base (set_HalfOpenConn (tcp_Close t) oc)) with (oc_base oc) in H.
  change (closed (Stop (oc_base oc))) with (closed (oc_base oc)) in H.
  destruct (closed (oc_base oc)) eqn:Ec.
  - simplify_eq. quiet.
  - destruct (SendDisconnect _ _ _) as [bs' base'] eqn:Es. simplify_eq.
    pose proof (SendDisconnect_numbered _ _ (set_closed true (Stop (oc_base oc))) _ _ Hu Es) as Hn.
    pose proof (disconnect_data _ _ _ _ Es) as [Hd Hs].
    apply SendDisconnect_same in Es as (C1 & C2 & C3 & _). cbn in C1, C2, C3.
    constructor; cbn [set_oc_base oc_base]; [exact Hn|done| |by rewrite C2|by rewrite C3].
    unfold opened. cbn [oc_base set_oc_base]. rewrite C1, Ec. lia.
Qed.

Lemma forward_effect now d oc bs oc' :
  counter_ok oc -> forward now d oc = (bs, oc') -> effect d 0 oc bs oc'.
Proof.
  unfold forward. intros Hu H. destruct (sendData now d (oc_base oc)) as [blocks base] eqn:Es.
  pose proof (sendData_numbered _ _ _ _ _ Hu Es) as Hn.
  pose proof (sendData_data_of _ _ _ _ _ Hu Es) as Hd.
  pose proof (sendData_shutdowns _ _ _ _ _ Hu Es) as Hs.
  unfold sendData in Es. destruct (packData _ _ _ _). simplify_eq/=.
  constructor; try done. rewrite Hs. unfold opened. cbn. lia.
Qed.

Lemma connect_dialed_effect now ok oc bs started oc' :
  counter_ok oc -> connect_dialed now ok oc = (bs, started, oc') ->
  effect [] 1 oc bs oc' /\ started = ok /\
  HalfOpenConn oc' = if ok then Some new_tcp else HalfOpenConn oc.
Proof.
  unfold connect_dialed. intros Hu H. destruct ok.
  - simplify_eq. split; [|done]. apply effect_quiet; auto. unfold opened. cbn.
    destruct (closed (oc_base oc)); cbn; lia.
  - destruct (SendDisconnect _ _ _) as [bs' base'] eqn:Es. simplify_eq. split; [|done].
    pose proof (SendDisconnect_numbered _ _ _ _ _ Hu Es) as Hn.
    pose proof (disconnect_data _ _ _ _ Es) as [Hd Hs].
    apply SendDisconnect_same in Es as (C1 & C2 & C3 & _).
    constructor; cbn [set_oc_base oc_base]; [exact Hn|done| |by rewrite C2|by rewrite C3].
    unfold opened. cbn [oc_base set_oc_base]. rewrite C1. lia.
Qed.

Definition bytes_read (res : result error (list byte)) : list byte :=
  match res with Ok bs => bs | Err _ => [] end.

Lemma RecvRelay_read_effect now res oc bs pc oc' :
  counter_ok oc -> RecvRelay_read now res oc = Ret (bs, pc, oc') ->
  effect (bytes_read res) 0 oc bs oc'.
Proof.
  unfold RecvRelay_read. intros Hu H. destruct res as [d|e].
  - destruct (forward now d oc) as [bs' oc1] eqn:E. simplify_eq. by apply forward_effect in E.
  - assert (effect [] 0 oc bs oc' \/ e = ErrTimeout /\ bs = [] /\ oc' = oc) as [|(-> & -> & ->)]; [|done|].
    { destruct (decide (e = ErrTimeout)) as [->|He]; [right; by simplify_eq|left].
      assert (exists r, closeThenCancelWithOnceSend (now 0%nat) oc = Ret r /\ r = (bs, oc')) as (r & E & ->)
        by (destruct e, (closeThenCancelWithOnceSend (now 0%nat) oc) as [[]| |]; simplify_eq/=; eauto).
      by apply once_send_effect in E. }
    quiet.
Qed.

Lemma RecvRelay_drain_effect now i res oc bs pc oc' :
  counter_ok oc -> RecvRelay_drain now i res oc = (bs, pc, oc') ->
  effect (bytes_read res) 0 oc bs oc'.
Proof.
  unfold RecvRelay_drain. intros Hu H. destruct res as [[|b d]|e]; simplify_eq/=;
    [quiet| |quiet].
  destruct (forward now (b :: d) oc) as [bs' oc1] eqn:E. simplify_eq. by apply forward_effect in E.
Qed.

Lemma SendRelay_block_effect now blk net oc bs oc' :
  counter_ok oc -> SendRelay_block now blk net oc = Ret (bs, oc') -> effect [] 0 oc bs oc'.
Proof.
  intros Hu. unfold SendRelay_block.
  case_decide; [intros; simplify_eq; quiet|].
  case_decide.
  - destruct (HalfOpenConn oc) as [t|]; [|by apply once_send_effect].
    destruct (tcp_Write _ _ _) as [[n [e|]] t'].
    + intros H'. apply once_send_effect in H'; [destruct H'; by constructor|done].
    + intros; simplify_eq. quiet.
  - case_decide; [|intros; simplify_eq; quiet].
    destruct (BlockData blk); [done|]. destruct (HalfOpenConn oc) as [t|] eqn:Et; [|done].
    repeat case_decide; [intros; simplify_eq; quiet..|].
    unfold closeThenCancel, close_conn. rewrite Et. cbn. intros; simplify_eq.
    quiet.
Qed.

(** ** A run with its history *)

Record history : Type := mkHistory {
  h_sent : list Block;       (** put on the pool's send queue *)
  h_read : list byte;        (** read from the target *)
  h_taken : list Block;      (** taken from [orderedRecvQueue] by [SendRelay] *)
  h_state : oc_state;
}.

Definition reads_of (s : oc_state) (l : oc_label) : list byte :=
  match l with
  | ORecvRead i _ net =>
      match os_recv s !! i, HalfOpenConn (os_conn s) with
      | Some (RRead | RDrain _), Some t => bytes_read (tcp_Read net t)
      | _, _ => []
      end
  | _ => []
  end.

Definition takes_of (s : oc_state) (l : oc_label) : list Block :=
  match l with
  | OSend i _ _ =>
      match os_send s !! i, chan_recv (orderedRecvQueue (oc_base (os_conn s))) with
      | Some true, Received blk _ => [blk]
      | _, _ => []
      end
  | _ => []
  end.

Definition oc_hstep (h : history) (l : oc_label) : option history :=
  match oc_step (h_state h) l with
  | Ret (bs, s) =>
      Some (mkHistory (h_sent h ++ bs) (h_read h ++ reads_of (h_state h) l)
              (h_taken h ++ takes_of (h_state h) l) s)
  | _ => None
  end.

Definition oc_init (connectionID : Z) (rsize osize : nat) : history :=
  mkHistory [] [] [] (mkOcState (NewOutboundConnection connectionID rsize osize) [] [] [] []).

(** Dials that ended in a trace, and those that succeeded. *)
Definition is_dialed (l : oc_label) : bool := match l with ODialed _ _ _ => true | _ => false end.
Definition is_established (l : oc_label) : bool := match l with ODialed _ _ ok => ok | _ => false end.
Definition dials (tr : list oc_label) : nat := length (filter is_dialed tr).
Definition established (tr : list oc_label) : nat := length (filter is_established tr).

Lemma dials_snoc tr l : dials (tr ++ [l]) = (dials tr + if is_dialed l then 1 else 0)%nat.
Proof.
  unfold dials. rewrite filter_app, length_app. f_equal.
  rewrite filter_cons, filter_nil. by destruct (is_dialed l).
Qed.

Lemma established_snoc tr l : established (tr ++ [l]) = (established tr + if is_established l then 1 else 0)%nat.
Proof.
  unfold established. rewrite filter_app, length_app. f_equal.
  rewrite filter_cons, filter_nil. by destruct (is_established l).
Qed.

Lemma oc_step_effect s l bs s' :
  counter_ok (os_conn s) -> oc_step s l = Ret (bs, s') ->
  effect (reads_of s l) (if is_dialed l then 1 else 0) (os_conn s) bs (os_conn s').
Proof.
  intros Hu. destruct l as [blk|blk| |i|i now ok|i|i now net|i now net|i now sec]; cbn [oc_step reads_of is_dialed].
  - unfold RecvBlock, Connection.RecvBlock, send_call.
    destruct (chan_send _ _) as [q| |] eqn:E; [|done..]. cbn. intros; simplify_eq/=.
    apply chan_send_closed in E as [E1 E2]. apply effect_quiet; cbn; auto; [unfold opened; cbn; lia|congruence].
  - unfold send_call. destruct (chan_send _ _) as [q| |] eqn:E; [|done..]. cbn. intros; simplify_eq/=.
    apply chan_send_closed in E as [E1 E2]. apply effect_quiet; cbn; auto; [unfold opened; cbn; lia|congruence].
  - intros; simplify_eq/=. quiet.
  - destruct (os_spawned s !! i); [|done]. intros; simplify_eq/=. quiet.
  - destruct (os_dialing s !! i); [|done].
    destruct (connect_dialed now ok (os_conn s)) as [[bs' st] oc1] eqn:E. intros; simplify_eq/=.
    by apply connect_dialed_effect in E as [? _].
  - destruct (os_recv s !! i) as [[]|]; try done; intros; simplify_eq/=; quiet.
  - unfold tcp_read_of. destruct (os_recv s !! i) as [[]|]; try done;
      (destruct (HalfOpenConn (os_conn s)) as [t|]; [|done]); cbn [mbind outcome_bind].
    + destruct (RecvRelay_read _ _ _) as [[[bs' pc] oc1]| |] eqn:E; [|done..]. cbn. intros; simplify_eq/=.
      by apply RecvRelay_read_effect in E.
    + destruct (RecvRelay_drain _ _ _ _) as [[bs' pc] oc1] eqn:E. cbn. intros; simplify_eq/=.
      by apply RecvRelay_drain_effect in E.
  - destruct (os_send s !! i) as [[]|]; try done.
    destruct (chan_recv _) as [blk q| |] eqn:Eq; [|intros; simplify_eq/=; quiet|done].
    apply chan_recv_closed in Eq.
    destruct (SendRelay_block _ _ _ _) as [[bs' oc1]| |] eqn:E; [|done..]. cbn. intros; simplify_eq/=.
    apply SendRelay_block_effect in E as [N D Sh R O]; [|done].
    constructor; cbn in *; try done. by rewrite O.
  - destruct (os_send s !! i) as [[]|]; try done. destruct (stopped _); [|done].
    destruct sec; [|intros; simplify_eq/=; quiet].
    destruct (closeThenCancelWithOnceSend _ _) as [[bs' oc1]| |] eqn:E; [|done..]. cbn. intros; simplify_eq/=.
    by apply once_send_effect in E.
Qed.

(** * What reaches the target *)

(** The target got a prefix of the data handed to [SendRelay], and all of it
    while the connection can still be written to. *)
Definition out_ok (conn : option tcp) (taken : list Block) : Prop :=
  match conn with
  | None => taken = []
  | Some t =>
      tcp_out t `prefix_of` concat (data_of <$> taken) /\
      (tcp_closed t = false -> tcp_wclosed t = false -> tcp_out t = concat (data_of <$> taken))
  end.

Lemma out_ok_close t taken : out_ok (Some t) taken -> out_ok (Some (tcp_Close t)) taken.
Proof. intros [? ?]. split; [done|]. cbn. discriminate. Qed.

Lemma taken_snoc taken blk :
  concat (data_of <$> (taken ++ [blk])) = concat (data_of <$> taken) ++ data_of blk.
Proof. rewrite fmap_app, concat_app. cbn. by rewrite app_nil_r. Qed.

Lemma close_conn_half now oc bs oc' :
  closeThenCancelWithOnceSend now oc = Ret (bs, oc') ->
  exists t, HalfOpenConn oc = Some t /\ HalfOpenConn oc' = Some (tcp_Close t).
Proof.
  unfold closeThenCancelWithOnceSend, close_conn. destruct (HalfOpenConn oc) as [t|]; [|done].
  cbn [mbind outcome_bind]. case_match; [intros; simplify_eq; eauto|].
  destruct (SendDisconnect _ _ _). intros; simplify_eq. eauto.
Qed.

Lemma forward_half now d oc bs oc' : forward now d oc = (bs, oc') -> HalfOpenConn oc' = HalfOpenConn oc.
Proof. unfold forward. destruct (sendData _ _ _). by intros [= _ <-]. Qed.

Lemma RecvRelay_read_half now res oc bs pc oc' :
  RecvRelay_read now res oc = Ret (bs, pc, oc') ->
  HalfOpenConn oc' = HalfOpenConn oc \/
  exists t, HalfOpenConn oc = Some t /\ HalfOpenConn oc' = Some (tcp_Close t).
Proof.
  unfold RecvRelay_read. destruct res as [d|e].
  - destruct (forward _ _ _) eqn:E. intros; simplify_eq. left. by eapply forward_half.
  - destruct (closeThenCancelWithOnceSend (now 0%nat) oc) as [[b oc1]| |] eqn:E;
      [apply close_conn_half in E|..]; destruct e; intros; simplify_eq/=; auto.
Qed.

Lemma RecvRelay_drain_half now i res oc bs pc oc' :
  RecvRelay_drain now i res oc = (bs, pc, oc') -> HalfOpenConn oc' = HalfOpenConn oc.
Proof.
  unfold RecvRelay_drain. destruct res as [[|b d]|e]; intros; simplify_eq; try done.
  destruct (forward _ _ _) eqn:E. simplify_eq. by eapply forward_half.
Qed.

Lemma tcp_Write_out p net t n oe t' taken :
  out_ok (Some t) taken -> tcp_Write p net t = (n, oe, t') ->
  tcp_out t' `prefix_of` concat (data_of <$> taken) ++ p /\
  (oe = None -> tcp_out t' = concat (data_of <$> taken) ++ p).
Proof.
  unfold tcp_Write. intros [Hp He]. destruct (tcp_closed t || tcp_wclosed t) eqn:Ec.
  - intros; simplify_eq. split; [by apply prefix_app_r|done].
  - apply orb_false_elim in Ec as [Ec1 Ec2]. rewrite He by done.
    destruct net as [k|]; intros; simplify_eq/=; [|done]. split; [|done].
    apply prefix_app. exists (drop k p). by rewrite take_drop.
Qed.

Lemma SendRelay_block_out oc t taken now blk net bs oc' :
  HalfOpenConn oc = Some t -> out_ok (Some t) taken ->
  SendRelay_block now blk net oc = Ret (bs, oc') ->
  exists t', HalfOpenConn oc' = Some t' /\ out_ok (Some t') (taken ++ [blk]).
Proof.
  intros Ht Ho. unfold SendRelay_block.
  assert (Type_ blk <> TypeData -> forall t', tcp_out t' = tcp_out t ->
    (tcp_closed t' = false -> tcp_wclosed t' = false -> tcp_closed t = false /\ tcp_wclosed t = false) ->
    out_ok (Some t') (taken ++ [blk])) as Hkeep.
  { intros Hty t' E1 E2. destruct Ho as [Hp He]. unfold out_ok.
    rewrite taken_snoc, (data_of_other _ Hty), app_nil_r, E1.
    split; [done|]. intros Hc Hw. destruct (E2 Hc Hw). auto. }
  case_decide as H1; [intros; simplify_eq; exists t; split; [done|]; apply Hkeep; try done;
    intros E; rewrite E in H1; by destruct H1 as [|[|]]|].
  case_decide as H2.
  - rewrite Ht. destruct (tcp_Write _ _ _) as [[n oe] t'] eqn:Ew.
    eapply tcp_Write_out in Ew as [Hp He]; [|exact Ho].
    rewrite <-(data_of_data _ H2), <-taken_snoc in Hp, He. destruct oe as [e|].
    + intros H. apply close_conn_half in H as (t1 & [= <-] & ->). eexists. split; [done|]. by split.
    + intros; simplify_eq. exists t'. split; [done|]. by split; [|rewrite He].
  - case_decide as H3; [|intros; simplify_eq; exists t; split; [done|by apply Hkeep]].
    destruct (BlockData blk) as [|sh d]; [done|]. rewrite Ht.
    repeat case_decide; [intros; simplify_eq; eexists; split; [done|]; by apply Hkeep..|].
    unfold closeThenCancel, close_conn. rewrite Ht. cbn. intros; simplify_eq.
    eexists. split; [done|]. by apply Hkeep.
Qed.

Lemma SendRelay_block_some now blk net oc bs oc' :
  SendRelay_block now blk net oc = Ret (bs, oc') -> HalfOpenConn oc <> None -> HalfOpenConn oc' <> None.
Proof.
  destruct (HalfOpenConn oc) as [t|] eqn:Et; [|done]. intros H _.
  assert (forall o b o', HalfOpenConn o <> None -> closeThenCancelWithOnceSend now o = Ret (b, o') ->
    HalfOpenConn o' <> None) as Hc.
  { intros o b o' _ E. apply close_conn_half in E as (t1 & _ & ->). done. }
  unfold SendRelay_block in H. rewrite Et in H.
  case_decide; [congruence|]. case_decide.
  - destruct (tcp_Write _ _ _) as [[n [e|]] t'] eqn:Ew; [by eapply Hc in H|by simplify_eq].
  - case_decide; [|congruence]. destruct (BlockData blk); [done|]. repeat case_decide; [by simplify_eq..|].
    unfold closeThenCancel, close_conn in H. rewrite Et in H. cbn in H. by simplify_eq.
Qed.

(** * The invariant of the goroutines *)

Record oc_inv (h0 : history) (tr : list oc_label) (h : history) : Prop := {
  oi_counter : counter_ok (os_conn (h_state h));
  oi_num : sends_numbered (oc_base (os_conn (h_state h0))) (h_sent h) (oc_base (os_conn (h_state h)));
  oi_read : concat (data_of <$> h_sent h) = h_read h;
  oi_shut : (shutdowns (h_sent h) + opened (os_conn (h_state h)) <= dials tr)%nat;
  oi_chans : ch_closed (recvQueue (oc_base (os_conn (h_state h)))) = false /\
    ch_closed (orderedRecvQueue (oc_base (os_conn (h_state h)))) = false;
  oi_none : HalfOpenConn (os_conn (h_state h)) = None ->
    established tr = 0%nat /\ os_recv (h_state h) = [] /\ os_send (h_state h) = [] /\ h_taken h = [];
  oi_some : HalfOpenConn (os_conn (h_state h)) <> None -> (0 < established tr)%nat;
  oi_out : (established tr <= 1)%nat -> out_ok (HalfOpenConn (os_conn (h_state h))) (h_taken h);
}.

Lemma oc_inv_init cid rs os : oc_inv (oc_init cid rs os) [] (oc_init cid rs os).
Proof.
  constructor; cbn; try done; try (unfold counter_ok, is_u32; cbn; lia).
Qed.

(** How a step that establishes no connection moves the TCP connection and what
    [SendRelay] has taken. *)
Definition moves (s s' : oc_state) (extra : list Block) : Prop :=
  match HalfOpenConn (os_conn s) with
  | None =>
      HalfOpenConn (os_conn s') = None /\ os_recv s' = os_recv s /\ os_send s' = os_send s /\ extra = []
  | Some t =>
      exists t', HalfOpenConn (os_conn s') = Some t' /\
        forall taken, out_ok (Some t) taken -> out_ok (Some t') (taken ++ extra)
  end.

Lemma moves_same s s' :
  HalfOpenConn (os_conn s') = HalfOpenConn (os_conn s) ->
  os_recv s' = os_recv s -> os_send s' = os_send s -> moves s s' [].
Proof.
  intros E1 E2 E3. unfold moves. rewrite E1, E2, E3. destruct (HalfOpenConn (os_conn s)) as [t|]; [|done].
  exists t. split; [done|]. intros. by rewrite app_nil_r.
Qed.

Lemma moves_relay s s' t extra :
  HalfOpenConn (os_conn s) = Some t ->
  (exists t', HalfOpenConn (os_conn s') = Some t' /\
     forall taken, out_ok (Some t) taken -> out_ok (Some t') (taken ++ extra)) ->
  moves s s' extra.
Proof. intros E H. unfold moves. by rewrite E. Qed.

Lemma moves_half s s' t :
  HalfOpenConn (os_conn s) = Some t ->
  HalfOpenConn (os_conn s') = Some t \/ HalfOpenConn (os_conn s') = Some (tcp_Close t) ->
  moves s s' [].
Proof.
  intros E H. eapply moves_relay; [exact E|].
  destruct H as [H|H]; eexists; (split; [exact H|]); intros; rewrite app_nil_r; [done|by apply out_ok_close].
Qed.

(** The steps of the two relays. *)
Lemma relay_moves s l bs s' t :
  oc_step s l = Ret (bs, s') -> HalfOpenConn (os_conn s) = Some t -> is_established l = false ->
  moves s s' (takes_of s l).
Proof.
  intros H Ht Hl. destruct l as [blk|blk| |i|i now ok|i|i now net|i now net|i now sec]; cbn [oc_step takes_of] in *.
  - unfold RecvBlock in H. destruct (Connection.RecvBlock _ _); [|done..]. cbn in H. simplify_eq.
    by eapply moves_half; [exact Ht|left].
  - destruct (send_call _ _); [|done..]. cbn in H. simplify_eq. by eapply moves_half; [exact Ht|left].
  - simplify_eq. by eapply moves_half; [exact Ht|left].
  - destruct (os_spawned s !! i); [|done]. simplify_eq. by eapply moves_half; [exact Ht|left].
  - cbn in Hl. subst ok. destruct (os_dialing s !! i); [|done]. cbn in H.
    simplify_eq. by eapply moves_half; [exact Ht|left].
  - destruct (os_recv s !! i) as [[]|]; simplify_eq; by eapply moves_half; [exact Ht|left].
  - unfold tcp_read_of in H. rewrite Ht in H.
    destruct (os_recv s !! i) as [[]|]; try done; cbn [mbind outcome_bind] in H.
    + destruct (RecvRelay_read _ _ _) as [[[b pc] oc1]| |] eqn:E; [|done..]. cbn in H. simplify_eq.
      apply RecvRelay_read_half in E as [E|(t1 & E1 & E2)]; (eapply moves_half; [exact Ht|]); [left|right].
      * cbn. congruence.
      * cbn. simplify_eq. done.
    + destruct (RecvRelay_drain _ _ _ _) as [[b pc] oc1] eqn:E. cbn in H. simplify_eq.
      apply RecvRelay_drain_half in E. eapply moves_half; [exact Ht|left]. cbn. congruence.
  - destruct (os_send s !! i) as [[]|]; try done.
    destruct (chan_recv _) as [blk q| |] eqn:Eq; [|simplify_eq; by eapply moves_half; [exact Ht|left]|done].
    destruct (SendRelay_block _ _ _ _) as [[b oc1]| |] eqn:E; [|done..]. cbn in H. simplify_eq.
    eapply moves_relay; [exact Ht|]. cbn.
    destruct (HalfOpenConn oc1) as [t'|] eqn:Et'.
    + exists t'. split; [done|]. intros taken Ho. eapply SendRelay_block_out in E as (t2 & E2 & ?); [|exact Ht|exact Ho].
      by simplify_eq.
    + exfalso. eapply SendRelay_block_some; [exact E| |exact Et']. cbn. congruence.
  - destruct (os_send s !! i) as [[]|]; try done. destruct (stopped _); [|done].
    destruct sec; [|simplify_eq; by eapply moves_half; [exact Ht|left]].
    destruct (closeThenCancelWithOnceSend _ _) as [[b oc1]| |] eqn:E; [|done..]. cbn in H. simplify_eq.
    apply close_conn_half in E as (t1 & E1 & E2). eapply moves_half; [exact Ht|right]. cbn. congruence.
Qed.

(** Before a connection is established there are no relays. *)
Lemma idle_moves s l bs s' :
  oc_step s l = Ret (bs, s') -> HalfOpenConn (os_conn s) = None -> is_established l = false ->
  os_recv s = [] -> os_send s = [] -> moves s s' (takes_of s l).
Proof.
  intros H Hn Hl Hr Hs.
  destruct l as [blk|blk| |i|i now ok|i|i now net|i now net|i now sec]; cbn [oc_step takes_of] in *;
    rewrite ?Hr, ?Hs, ?lookup_nil in H; try done; try rewrite Hs, lookup_nil.
  - unfold RecvBlock in H. destruct (Connection.RecvBlock _ _); [|done..]. cbn in H. simplify_eq.
    by apply moves_same.
  - destruct (send_call _ _); [|done..]. cbn in H. simplify_eq. by apply moves_same.
  - simplify_eq. by apply moves_same.
  - destruct (os_spawned s !! i); [|done]. simplify_eq. by apply moves_same.
  - cbn in Hl. subst ok. destruct (os_dialing s !! i); [|done]. cbn in H.
    simplify_eq. by apply moves_same.
Qed.

Lemma dialing_moves s i now bs s' :
  oc_step s (ODialed i now true) = Ret (bs, s') ->
  HalfOpenConn (os_conn s') = Some new_tcp /\ takes_of s (ODialed i now true) = [].
Proof.
  cbn [oc_step]. destruct (os_dialing s !! i); [|done]. cbn. intros; by simplify_eq.
Qed.

(** The history of a run grows by what the step says. *)
Lemma oc_inv_step h0 tr h l h' : oc_inv h0 tr h -> oc_hstep h l = Some h' -> oc_inv h0 (tr ++ [l]) h'.
Proof.
  unfold oc_hstep. intros [Cu N R Sh [C1 C2] No So Ou] H.
  destruct (oc_step (h_state h) l) as [[bs s']| |] eqn:E; [|done..]. simplify_eq.
  pose proof (oc_step_effect _ _ _ _ Cu E) as Ef.
  assert (established (tr ++ [l]) = if is_established l then S (established tr) else established tr) as Ees
    by (rewrite established_snoc; destruct (is_established l); lia).
  assert (if is_established l
    then HalfOpenConn (os_conn s') = Some new_tcp /\ takes_of (h_state h) l = []
    else moves (h_state h) s' (takes_of (h_state h) l)) as Hm.
  { destruct (is_established l) eqn:El.
    - destruct l; try discriminate El. cbn in El. subst ok. by eapply dialing_moves.
    - destruct (HalfOpenConn (os_conn (h_state h))) as [t|] eqn:Ht; [by eapply relay_moves|].
      destruct (No eq_refl) as (_ & Hr & Hs & _). by eapply idle_moves. }
  constructor; cbn [h_state h_sent h_read h_taken].
  - by eapply effect_counter.
  - destruct Ef. by eapply sends_numbered_trans.
  - destruct Ef. by rewrite fmap_app, concat_app, R, ef_data0.
  - destruct Ef. rewrite shutdowns_app, dials_snoc. lia.
  - destruct Ef. split; congruence.
  - intros Hn. destruct (is_established l); [destruct Hm; congruence|].
    unfold moves in Hm. destruct (HalfOpenConn (os_conn (h_state h))) as [t|] eqn:Ht.
    + destruct Hm as (t' & ? & _). congruence.
    + destruct Hm as (_ & -> & -> & ->). destruct (No eq_refl) as (? & ? & ? & ?).
      rewrite app_nil_r, Ees. done.
  - intros Hn. rewrite Ees. destruct (is_established l); [lia|]. apply So.
    unfold moves in Hm. destruct (HalfOpenConn (os_conn (h_state h))); [done|]. by destruct Hm.
  - intros Hle. rewrite Ees in Hle. destruct (is_established l).
    + destruct Hm as [-> ->]. rewrite app_nil_r.
      assert (HalfOpenConn (os_conn (h_state h)) = None) as Hn
        by (destruct (HalfOpenConn (os_conn (h_state h))); [specialize (So ltac:(done)); lia|done]).
      destruct (No Hn) as (_ & _ & _ & ->). split; [apply prefix_nil|done].
    + specialize (Ou Hle). unfold moves in Hm.
      destruct (HalfOpenConn (os_conn (h_state h))) as [t|].
      * destruct Hm as (t' & -> & Hm). auto.
      * destruct Hm as (-> & _ & _ & ->). by rewrite app_nil_r.
Qed.

Lemma once_send_safe now oc : HalfOpenConn oc <> None -> closeThenCancelWithOnceSend now oc <> Panic.
Proof.
  intros Hn. unfold closeThenCancelWithOnceSend, close_conn.
  destruct (HalfOpenConn oc); [|done]. cbn [mbind outcome_bind]. case_match; [done|].
  by destruct (SendDisconnect _ _ _).
Qed.

Lemma send_call_safe {A} (a : A) c : ch_closed c = false -> send_call a c <> Panic.
Proof. intros E. unfold send_call, chan_send. rewrite E. by case_decide. Qed.

Lemma SendRelay_block_safe now blk net oc :
  sane blk -> HalfOpenConn oc <> None -> SendRelay_block now blk net oc <> Panic.
Proof.
  intros Hs Hn. unfold SendRelay_block. destruct (HalfOpenConn oc) as [t|] eqn:Ht; [|done].
  case_decide; [done|]. case_decide.
  - destruct (tcp_Write _ _ _) as [[n [e|]] t']; [by apply once_send_safe|done].
  - case_decide as Hd; [|done]. destruct (BlockData blk) eqn:Eb; [by destruct (Hs Hd)|].
    repeat case_decide; try done. unfold closeThenCancel, close_conn. by rewrite Ht.
Qed.

(** Steps that touch no TCP connection. *)
Definition on_socket (l : oc_label) : bool :=
  match l with ORecvRead _ _ _ | OSend _ _ _ | OSendDone _ _ _ => true | _ => false end.

Lemma off_socket_safe s l :
  ch_closed (recvQueue (oc_base (os_conn s))) = false ->
  ch_closed (orderedRecvQueue (oc_base (os_conn s))) = false ->
  on_socket l = false -> oc_step s l <> Panic.
Proof.
  intros C1 C2 Hl. destruct l; try discriminate Hl; cbn [oc_step]; try done.
  - unfold RecvBlock, Connection.RecvBlock. pose proof (send_call_safe blk _ C1). by destruct (send_call _ _).
  - pose proof (send_call_safe blk _ C2). by destruct (send_call _ _).
  - by destruct (os_spawned s !! i).
  - destruct (os_dialing s !! i); [|done]. by destruct (connect_dialed _ _ _) as [[]].
  - by destruct (os_recv s !! i) as [[]|].
Qed.

(** [SendRelay] takes a disconnect that says nothing: it looks at a byte that is not there. *)
Definition takes_empty (s : oc_state) (l : oc_label) : Prop :=
  exists i now net blk rest, l = OSend i now net /\ os_send s !! i = Some true /\
    ch_buf (orderedRecvQueue (oc_base (os_conn s))) = blk :: rest /\ Type_ blk = TypeDisconnect /\ BlockData blk = [].

Lemma takes_empty_panics s l : takes_empty s l -> oc_step s l = Panic.
Proof.
  intros (i & now & net & blk & rest & -> & Hi & Hq & Ht & Hb). cbn [oc_step]. rewrite Hi. unfold chan_recv. rewrite Hq.
  unfold SendRelay_block. rewrite Ht, Hb, !decide_False by (by try intros [|[|]]). by rewrite decide_True.
Qed.

(** Steps of a connection whose goroutines run on an open socket and queues. *)
Lemma oc_step_panics h0 tr h l : oc_inv h0 tr h -> oc_step (h_state h) l = Panic -> takes_empty (h_state h) l.
Proof.
  intros [_ _ _ _ [C1 C2] No _ _] Hp. set (s := h_state h) in *.
  assert (oc_step s l <> Panic \/ takes_empty s l) as [?|?]; [|done..]. clear Hp.
  destruct (on_socket l) eqn:El; [|left; by apply off_socket_safe].
  destruct (HalfOpenConn (os_conn s)) as [t|] eqn:Ht.
  2:{ destruct (No eq_refl) as (_ & Hr & Hsd & _).
      left. destruct l; try discriminate El; cbn [oc_step]; by rewrite ?Hr, ?Hsd, ?lookup_nil. }
  destruct l; try discriminate El; cbn [oc_step].
  - left. unfold tcp_read_of. rewrite Ht. destruct (os_recv s !! i) as [[]|]; try done; cbn [mbind outcome_bind].
    + unfold RecvRelay_read. pose proof (once_send_safe (now 0%nat) (os_conn s) ltac:(congruence)).
      destruct (tcp_Read net t) as [d|[]]; try done; try (by destruct (closeThenCancelWithOnceSend _ _) as [[]| |]).
      by destruct (forward _ _ _).
    + by destruct (RecvRelay_drain _ _ _ _) as [[]].
  - destruct (os_send s !! i) as [[]|] eqn:Ei; try (by left). destruct (chan_recv _) as [blk q| |] eqn:Eq; try (by left).
    apply chan_recv_buf in Eq. destruct (decide (sane blk)) as [Hb|Hb].
    + left. assert (SendRelay_block now blk net
        (set_oc_base (set_orderedRecvQueue q (oc_base (os_conn s))) (os_conn s)) <> Panic) as Hsb
        by (apply SendRelay_block_safe; [done|cbn; congruence]).
      by destruct (SendRelay_block _ _ _ _) as [[]| |].
    + right. exists i, now, net, blk, (ch_buf q). split; [done|]. split; [done|]. split; [done|]. unfold sane in Hb.
      destruct (decide (Type_ blk = TypeDisconnect)) as [Hd|Hd]; [|by destruct Hb]. split; [done|].
      destruct (BlockData blk); [done|by destruct Hb].
  - left. destruct (os_send s !! i) as [[]|]; try done. destruct (stopped _); [|done]. destruct second; [|done].
    pose proof (once_send_safe now (os_conn s) ltac:(congruence)). by destruct (closeThenCancelWithOnceSend _ _) as [[]| |].
Qed.

(** * The receiving half *)

Lemma forward_kept now d oc bs oc' : forward now d oc = (bs, oc') -> recv_kept (oc_base oc) (oc_base oc').
Proof.
  unfold forward. destruct (sendData _ _ _) as [blocks base] eqn:Es. intros [= _ <-].
  apply sendData_kept in Es as []. constructor; auto.
Qed.

Lemma once_send_kept now oc bs oc' :
  closeThenCancelWithOnceSend now oc = Ret (bs, oc') -> recv_kept (oc_base oc) (oc_base oc').
Proof.
  unfold closeThenCancelWithOnceSend, close_conn. destruct (HalfOpenConn oc); [|done].
  cbn [mbind outcome_bind]. case_match; [by intros; simplify_eq|].
  destruct (SendDisconnect _ _ _) as [bs' base] eqn:Es. intros; simplify_eq.
  apply SendDisconnect_kept in Es as []. constructor; auto.
Qed.

Lemma SendRelay_block_kept now blk net oc bs oc' :
  SendRelay_block now blk net oc = Ret (bs, oc') -> recv_kept (oc_base oc) (oc_base oc').
Proof.
  unfold SendRelay_block. case_decide; [by intros; simplify_eq|]. case_decide.
  - destruct (HalfOpenConn oc) as [t|]; [|apply once_send_kept].
    destruct (tcp_Write _ _ _) as [[n [e|]] t']; [intros H'; by apply once_send_kept in H'|by intros; simplify_eq].
  - case_decide; [|by intros; simplify_eq]. destruct (BlockData blk); [done|].
    destruct (HalfOpenConn oc) eqn:Et; [|done]. repeat case_decide; [by intros; simplify_eq..|].
    unfold closeThenCancel, close_conn. rewrite Et. cbn. by intros; simplify_eq.
Qed.

Lemma RecvRelay_read_kept now res oc bs pc oc' :
  RecvRelay_read now res oc = Ret (bs, pc, oc') -> recv_kept (oc_base oc) (oc_base oc').
Proof.
  unfold RecvRelay_read. destruct res as [d|e].
  - destruct (forward _ _ _) eqn:E. intros; simplify_eq. by eapply forward_kept.
  - destruct (closeThenCancelWithOnceSend (now 0%nat) oc) as [[b oc1]| |] eqn:E;
      [apply once_send_kept in E|..]; destruct e; intros; simplify_eq/=; done.
Qed.

Lemma RecvRelay_drain_kept now i res oc bs pc oc' :
  RecvRelay_drain now i res oc = (bs, pc, oc') -> recv_kept (oc_base oc) (oc_base oc').
Proof.
  unfold RecvRelay_drain. destruct res as [[|b d]|e]; intros; simplify_eq; try done.
  destruct (forward _ _ _) eqn:E. simplify_eq. by eapply forward_kept.
Qed.

(** The goroutines of the connection itself only take blocks off its queue. *)
Lemma oc_step_kept s l bs s' :
  (forall blk, l <> ORecvBlock blk /\ l <> ODeliver blk) -> oc_step s l = Ret (bs, s') ->
  recv_kept (oc_base (os_conn s)) (oc_base (os_conn s')).
Proof.
  intros Hl. destruct l as [blk|blk| |i|i now ok|i|i now net|i now net|i now sec]; cbn [oc_step].
  - by destruct (Hl blk).
  - by destruct (Hl blk).
  - by intros; simplify_eq.
  - destruct (os_spawned s !! i); [|done]. by intros; simplify_eq.
  - destruct (os_dialing s !! i); [|done]. unfold connect_dialed. destruct ok; [by intros; simplify_eq|].
    destruct (SendDisconnect _ _ _) as [bs' base] eqn:Es. intros; simplify_eq. by apply SendDisconnect_kept in Es.
  - destruct (os_recv s !! i) as [[]|]; try done; by intros; simplify_eq.
  - unfold tcp_read_of. destruct (os_recv s !! i) as [[]|]; try done;
      (destruct (HalfOpenConn (os_conn s)) as [t|]; [|done]); cbn [mbind outcome_bind].
    + destruct (RecvRelay_read _ _ _) as [[[bs' pc] oc1]| |] eqn:E; [|done..]. cbn. intros; simplify_eq.
      by apply RecvRelay_read_kept in E.
    + destruct (RecvRelay_drain _ _ _ _) as [[bs' pc] oc1] eqn:E. cbn. intros; simplify_eq.
      by apply RecvRelay_drain_kept in E.
  - destruct (os_send s !! i) as [[]|]; try done.
    destruct (chan_recv _) as [blk q| |] eqn:Eq; [|by intros; simplify_eq|done].
    destruct (SendRelay_block _ _ _ _) as [[bs' oc1]| |] eqn:E; [|done..]. cbn. intros; simplify_eq.
    apply SendRelay_block_kept in E. etrans; [|exact E]. apply chan_recv_buf in Eq.
    constructor; cbn; try done. rewrite Eq. by apply suffix_cons_r.
  - destruct (os_send s !! i) as [[]|]; try done. destruct (stopped _); [|done].
    destruct sec; [|by intros; simplify_eq].
    destruct (closeThenCancelWithOnceSend _ _) as [[bs' oc1]| |] eqn:E; [|done..]. cbn. intros; simplify_eq.
    by apply once_send_kept in E.
Qed.

(** What the goroutines take off the ordered queue: the blocks [SendRelay] gets,
    and nothing else. *)
Lemma sendData_queue now d b bs b' : sendData now d b = (bs, b') -> orderedRecvQueue b' = orderedRecvQueue b.
Proof. unfold sendData. destruct (packData _ _ _ _). by intros [= _ <-]. Qed.

Lemma forward_queue now d oc bs oc' : forward now d oc = (bs, oc') -> orderedRecvQueue (oc_base oc') = orderedRecvQueue (oc_base oc).
Proof.
  unfold forward. destruct (sendData _ _ _) as [blocks base] eqn:Es. intros [= _ <-].
  by apply sendData_queue in Es.
Qed.

Lemma once_send_queue now oc bs oc' :
  closeThenCancelWithOnceSend now oc = Ret (bs, oc') -> orderedRecvQueue (oc_base oc') = orderedRecvQueue (oc_base oc).
Proof.
  unfold closeThenCancelWithOnceSend, close_conn. destruct (HalfOpenConn oc); [|done].
  cbn [mbind outcome_bind]. case_match; [by intros; simplify_eq|].
  destruct (SendDisconnect _ _ _) as [bs' base] eqn:Es. intros; simplify_eq.
  by apply SendDisconnect_same in Es as (_ & _ & E & _).
Qed.

Lemma SendRelay_block_queue now blk net oc bs oc' :
  SendRelay_block now blk net oc = Ret (bs, oc') -> orderedRecvQueue (oc_base oc') = orderedRecvQueue (oc_base oc).
Proof.
  unfold SendRelay_block. case_decide; [by intros; simplify_eq|]. case_decide.
  - destruct (HalfOpenConn oc) as [t|]; [|apply once_send_queue].
    destruct (tcp_Write _ _ _) as [[n [e|]] t']; [intros H'; by apply once_send_queue in H'|by intros; simplify_eq].
  - case_decide; [|by intros; simplify_eq]. destruct (BlockData blk); [done|].
    destruct (HalfOpenConn oc) eqn:Et; [|done]. repeat case_decide; [by intros; simplify_eq..|].
    unfold closeThenCancel, close_conn. rewrite Et. cbn. by intros; simplify_eq.
Qed.

Lemma RecvRelay_read_queue now res oc bs pc oc' :
  RecvRelay_read now res oc = Ret (bs, pc, oc') -> orderedRecvQueue (oc_base oc') = orderedRecvQueue (oc_base oc).
Proof.
  unfold RecvRelay_read. destruct res as [d|e].
  - destruct (forward _ _ _) eqn:E. intros; simplify_eq. by eapply forward_queue.
  - destruct (closeThenCancelWithOnceSend (now 0%nat) oc) as [[b oc1]| |] eqn:E;
      [apply once_send_queue in E|..]; destruct e; intros; simplify_eq/=; done.
Qed.

Lemma RecvRelay_drain_queue now i res oc bs pc oc' :
  RecvRelay_drain now i res oc = (bs, pc, oc') -> orderedRecvQueue (oc_base oc') = orderedRecvQueue (oc_base oc).
Proof.
  unfold RecvRelay_drain. destruct res as [[|b d]|e]; intros; simplify_eq; try done.
  destruct (forward _ _ _) eqn:E. simplify_eq. by eapply forward_queue.
Qed.

Lemma oc_step_takes s l bs s' :
  (forall blk, l <> ORecvBlock blk /\ l <> ODeliver blk) -> oc_step s l = Ret (bs, s') ->
  ch_buf (orderedRecvQueue (oc_base (os_conn s))) = takes_of s l ++ ch_buf (orderedRecvQueue (oc_base (os_conn s'))).
Proof.
  intros Hl. destruct l as [blk|blk| |i|i now ok|i|i now net|i now net|i now sec]; cbn [oc_step takes_of app].
  - by destruct (Hl blk).
  - by destruct (Hl blk).
  - by intros; simplify_eq.
  - destruct (os_spawned s !! i); [|done]. by intros; simplify_eq.
  - destruct (os_dialing s !! i); [|done]. unfold connect_dialed. destruct ok; [by intros; simplify_eq|].
    destruct (SendDisconnect _ _ _) as [bs' base] eqn:Es. intros; simplify_eq.
    apply SendDisconnect_same in Es as (_ & _ & E & _). cbn. by rewrite E.
  - destruct (os_recv s !! i) as [[]|]; try done; by intros; simplify_eq.
  - unfold tcp_read_of. destruct (os_recv s !! i) as [[]|]; try done;
      (destruct (HalfOpenConn (os_conn s)) as [t|]; [|done]); cbn [mbind outcome_bind].
    + destruct (RecvRelay_read _ _ _) as [[[bs' pc] oc1]| |] eqn:E; [|done..]. cbn. intros; simplify_eq/=.
      apply RecvRelay_read_queue in E. by rewrite E.
    + destruct (RecvRelay_drain _ _ _ _) as [[bs' pc] oc1] eqn:E. cbn. intros; simplify_eq/=.
      apply RecvRelay_drain_queue in E. by rewrite E.
  - destruct (os_send s !! i) as [[]|]; try done.
    destruct (chan_recv _) as [blk q| |] eqn:Eq; [|by intros; simplify_eq|done].
    destruct (SendRelay_block _ _ _ _) as [[bs' oc1]| |] eqn:E; [|done..]. cbn. intros; simplify_eq/=.
    apply SendRelay_block_queue in E. apply chan_recv_buf in Eq. rewrite E, Eq. done.
  - destruct (os_send s !! i) as [[]|]; try done. destruct (stopped _); [|done].
    destruct sec; [|by intros; simplify_eq].
    destruct (closeThenCancelWithOnceSend _ _) as [[bs' oc1]| |] eqn:E; [|done..]. cbn. intros; simplify_eq/=.
    apply once_send_queue in E. by rewrite E.
Qed.

(** The invariant depends on the receiving half only through what is closed. *)
Lemma oc_inv_base h0 tr a b c s base :
  oc_inv h0 tr (mkHistory a b c s) ->
  sendBlockID (bc_processor base) = sendBlockID (bc_processor (oc_base (os_conn s))) ->
  Connection.connectionID base = Connection.connectionID (oc_base (os_conn s)) ->
  closed base = closed (oc_base (os_conn s)) ->
  ch_closed (recvQueue base) = ch_closed (recvQueue (oc_base (os_conn s))) ->
  ch_closed (orderedRecvQueue base) = ch_closed (orderedRecvQueue (oc_base (os_conn s))) ->
  oc_inv h0 tr (mkHistory a b c (with_conn (set_oc_base base (os_conn s)) s)).
Proof.
  intros [Cu (N1 & N2 & N3) R Sh [C1 C2] No So Ou] E1 E2 E3 E4 E5.
  constructor; cbn [h_state h_sent h_read h_taken with_conn os_conn os_recv os_send set_oc_base oc_base HalfOpenConn] in *;
    try done.
  - unfold counter_ok in *. cbn. by rewrite E1.
  - split; [done|]. split; congruence.
  - unfold opened in *. cbn. by rewrite E3.
  - split; congruence.
Qed.

(** * Properties *)

Lemma oc_run_inv cid rs os tr h :
  run oc_hstep (oc_init cid rs os) tr = Some h -> oc_inv (oc_init cid rs os) tr h.
Proof.
  intros H. eapply (run_invariant oc_hstep (oc_inv (oc_init cid rs os))); [apply oc_inv_init| |exact H].
  intros. by eapply oc_inv_step.
Qed.

(** C26: target to client. However dials, relays, deliveries and cancellations
    interleave, the blocks an outbound connection sends are numbered 0, 1, 2 and
    so on, their data is exactly what was read from the target in the order read,
    and it sends at most one disconnect of both directions per dial. *)
Theorem outbound_to_client (cid : Z) (rs os : nat) (tr : list oc_label) (h : history) :
  run oc_hstep (oc_init cid rs os) tr = Some h ->
  numbered cid 0 (h_sent h) /\ concat (data_of <$> h_sent h) = h_read h /\
  (shutdowns (h_sent h) <= dials tr)%nat.
Proof.
  intros H. apply oc_run_inv in H as [_ [N _] R Sh _ _ _ _].
  split; [exact N|]. split; [exact R|lia].
Qed.

(** A target that answers and then closes while a block is on its way. *)
Definition example_run : list oc_label :=
  [ORecvBlock (NewConnectBlock 0 9 0 "t"); OConnect 0; ODialed 0 1 true;
   ODeliver (NewConnectBlock 0 9 0 "t"); OSend 0 2 None;
   ODeliver (newDataBlock 0 9 1 [x0a; x0b]); OSend 0 3 None;
   ORecvCheck 0; ORecvRead 0 (fun _ => 4) (Ok [x01; x02; x03]); ORecvCheck 0; ORecvCheck 0;
   ODeliver (newDataBlock 0 9 2 [x0c; x0d]); OSend 0 5 (Some 1%nat);
   ORecvRead 0 (fun _ => 6) (Err EOF); OSendDone 0 7 true].

Lemma outbound_to_client_witness :
  exists h, h_read h = [x01; x02; x03] /\ length (h_sent h) = 2%nat /\
  numbered 9 0 (h_sent h) /\ concat (data_of <$> h_sent h) = h_read h /\
  (shutdowns (h_sent h) <= dials example_run)%nat.
Proof.
  destruct (run oc_hstep (oc_init 9 32 32) example_run) as [h|] eqn:E; [|vm_compute in E; discriminate].
  exists h. pose proof E as E'. vm_compute in E'. injection E' as <-.
  split; [reflexivity|]. split; [reflexivity|]. exact (outbound_to_client _ _ _ _ _ E).
Defined.

(** C27: client to target. When one dial has succeeded, the target has been
    given a prefix of the data of the blocks taken off the ordered queue, and all
    of it as long as the socket has not been closed for writing. *)
Theorem outbound_to_target (cid : Z) (rs os : nat) (tr : list oc_label) (h : history) (t : tcp) :
  run oc_hstep (oc_init cid rs os) tr = Some h -> (established tr <= 1)%nat ->
  HalfOpenConn (os_conn (h_state h)) = Some t ->
  tcp_out t `prefix_of` concat (data_of <$> h_taken h) /\
  (tcp_closed t = false -> tcp_wclosed t = false -> tcp_out t = concat (data_of <$> h_taken h)).
Proof.
  intros H He Ht. apply oc_run_inv in H as [_ _ _ _ _ _ _ Ou]. specialize (Ou He). by rewrite Ht in Ou.
Qed.

Lemma outbound_to_target_witness :
  exists h t, tcp_out t = [x0a; x0b; x0c] /\
  tcp_out t `prefix_of` concat (data_of <$> h_taken h) /\
  (tcp_closed t = false -> tcp_wclosed t = false -> tcp_out t = concat (data_of <$> h_taken h)).
Proof.
  destruct (run oc_hstep (oc_init 9 32 32) example_run) as [h|] eqn:E; [|vm_compute in E; discriminate].
  exists h. pose proof E as E'. vm_compute in E'. injection E' as <-.
  exists (mkTcp [x0a; x0b; x0c] false false true). split; [reflexivity|].
  refine (outbound_to_target _ _ _ _ _ _ E _ _); [vm_compute; lia|reflexivity].
Defined.

(** C28: when an outbound connection panics. In any interleaving of its goroutines with
    each other, with what its peer hands it and with its target, the next step of one of
    them panics if and only if it is a [SendRelay] that takes a disconnect without a byte
    in it from the ordered queue: no other block, no error of the target, no order of
    closing and cancelling does it, but that block, which the other end of a tunnel may
    send, does it always. *)
Theorem outbound_panic_iff (cid : Z) (rs os : nat) (tr : list oc_label) (h : history) (l : oc_label) :
  run oc_hstep (oc_init cid rs os) tr = Some h ->
  oc_step (h_state h) l = Panic <-> takes_empty (h_state h) l.
Proof. intros Hrun. split; [apply oc_run_inv in Hrun; by apply oc_step_panics with (1 := Hrun)|apply takes_empty_panics]. Qed.

(** A target is dialled, and the other end sends such a block. *)
Definition empty_disconnect : Block := mkBlock TypeDisconnect 9 0 1 0 [] None.
Definition panicking_run : list oc_label :=
  [ORecvBlock (NewConnectBlock 0 9 0 "t"); OConnect 0; ODialed 0 1 true; ODeliver (NewConnectBlock 0 9 0 "t");
   OSend 0 2 None; ODeliver empty_disconnect].

Lemma outbound_panic_iff_witness :
  (exists h, run oc_hstep (oc_init 9 32 32) (take 12 example_run) = Some h /\ oc_step (h_state h) (OSend 0 5 None) <> Panic) /\
  (exists h, run oc_hstep (oc_init 9 32 32) panicking_run = Some h /\ oc_step (h_state h) (OSend 0 5 None) = Panic).
Proof.
  split.
  - destruct (run oc_hstep (oc_init 9 32 32) (take 12 example_run)) as [h|] eqn:E; [|vm_compute in E; discriminate].
    exists h. split; [reflexivity|]. rewrite (outbound_panic_iff _ _ _ _ _ _ E). vm_compute in E. injection E as <-.
    intros (i & now & net & blk & rest & [= <- <- <-] & _ & [= <- <-] & Ht & _). discriminate Ht.
  - destruct (run oc_hstep (oc_init 9 32 32) panicking_run) as [h|] eqn:E; [|vm_compute in E; discriminate].
    exists h. split; [reflexivity|]. rewrite (outbound_panic_iff _ _ _ _ _ _ E). vm_compute in E. injection E as <-.
    exists 0%nat, 5, None, empty_disconnect, []. repeat split.
Defined.

(** A connection cancelled from outside (the pool's time-out) can end with
    both relays gone, its socket still open and no disconnect sent: both relays
    may leave through a cancellation branch that closes nothing. *)
Theorem cancel_leaks_socket :
  exists tr h, run oc_hstep (oc_init 9 32 32) tr = Some h /\ os_recv (h_state h) = [RDone] /\ os_send (h_state h) = [false] /\
    os_spawned (h_state h) = [] /\ os_dialing (h_state h) = [] /\
    HalfOpenConn (os_conn (h_state h)) = Some new_tcp /\ h_sent h = [] /\
    stopped (oc_base (os_conn (h_state h))) = true.
Proof.
  exists [ORecvBlock (NewConnectBlock 0 9 0 "t"); OConnect 0; ODialed 0 1 true; OStop;
          ORecvCheck 0; OSendDone 0 2 false].
  eexists. split; [vm_compute; reflexivity|]. vm_compute. done.
Qed.
