(* ===== verification/GoNet.v ===== *)
(** What the sources use of packages net, fmt and strconv: decimal numbers, the
    text of an IP address and the split of a host:port address. *)

From S2P Require Import Prelude GoIO.

Local Open Scope Z_scope.

Definition byte_nat (b : byte) : nat := Z.to_nat (Z_of_byte b).

(** * Printing *)

(** Decimal digits, [fmt]'s [%d] of a non-negative number. *)
Fixpoint digits (fuel : nat) (n : Z) (acc : list byte) : list byte :=
  match fuel with
  | O => acc
  | S fuel =>
      let acc := byte_of_Z (48 + n mod 10) :: acc in
      if decide (n / 10 = 0) then acc else digits fuel (n / 10) acc
  end.

(** Enough digits for any number below 10^20. *)
Definition itoa (n : Z) : list byte := digits 20 n [].

Definition join (sep : list byte) (l : list (list byte)) : list byte :=
  match l with [] => [] | x :: l => x ++ concat ((fun y => sep ++ y) <$> l) end.

Definition dotted (ip : list byte) : list byte := join [x2e] ((fun b => itoa (Z_of_byte b)) <$> ip).

(** Hexadecimal without leading zeros. *)
Definition hex_digit (n : Z) : byte := byte_of_Z (if decide (n < 10) then 48 + n else 87 + n).
Fixpoint hex (fuel : nat) (n : Z) (acc : list byte) : list byte :=
  match fuel with
  | O => acc
  | S fuel =>
      let acc := hex_digit (n mod 16) :: acc in
      if decide (n / 16 = 0) then acc else hex fuel (n / 16) acc
  end.

(** The eight 16-bit groups of a 16-byte address. *)
Fixpoint groups (ip : list byte) : list Z :=
  match ip with
  | a :: b :: ip => Z_of_byte a * 256 + Z_of_byte b :: groups ip
  | _ => []
  end.

(** The length of the run of zero groups that starts a list. *)
Fixpoint zero_run (l : list Z) : nat :=
  match l with 0 :: l => S (zero_run l) | _ => 0 end.

(** The first longest run of at least two zero groups: start and length. *)
Fixpoint longest_run (l : list Z) (i : nat) (best : nat * nat) : nat * nat :=
  match l with
  | [] => best
  | _ :: l' =>
      let n := zero_run l in
      longest_run l' (S i) (if decide (best.2 < n)%nat then (i, n) else best)
  end.

Definition groups_string (l : list Z) : list byte := join [x3a] ((fun g => hex 4 g []) <$> l).

(** [net.IP(ip).String()] for a slice of four or sixteen bytes. *)
Definition IP_String (ip : list byte) : list byte :=
  if decide (length ip = 4%nat) then dotted ip
  else if decide (take 12 ip = replicate 10 x00 ++ [xff; xff]) then dotted (drop 12 ip)
  else
    let l := groups ip in
    let '(i, n) := longest_run l 0 (0%nat, 1%nat) in
    if decide (n <= 1)%nat then groups_string l
    else groups_string (take i l) ++ [x3a; x3a] ++ groups_string (drop (i + n) l).

Example ip_strings :
  IP_String [x7f; x00; x00; x01] = String.list_byte_of_string "127.0.0.1" /\
  IP_String (replicate 15 x00 ++ [x01]) = String.list_byte_of_string "::1" /\
  IP_String (replicate 10 x00 ++ [xff; xff; x0a; x00; x00; x02]) = String.list_byte_of_string "10.0.0.2" /\
  IP_String [x20; x01; x0d; xb8; x00; x00; x00; x00; x00; x01; x00; x00; x00; x00; x00; x00] =
    String.list_byte_of_string "2001:db8:0:0:1::".
Proof. vm_compute. done. Qed.

(** * net.SplitHostPort *)

Definition colon : byte := x3a.
Definition lbracket : byte := x5b.
Definition rbracket : byte := x5d.

(** [strings.LastIndexByte], [strings.IndexByte]. *)
Fixpoint index_byte (b : byte) (s : list byte) : option nat :=
  match s with
  | [] => None
  | c :: s => if decide (c = b) then Some 0%nat else S <$> index_byte b s
  end.

Fixpoint last_index_byte (b : byte) (s : list byte) : option nat :=
  match s with
  | [] => None
  | c :: s =>
      match last_index_byte b s with
      | Some i => Some (S i)
      | None => if decide (c = b) then Some 0%nat else None
      end
  end.

Definition addr_error (msg : string) : result error (list byte * list byte) := Err (ErrMsg msg).

(** The host part: its bounds are checked, then the brackets of the rest. *)
Definition SplitHostPort (hostport : list byte) : result error (list byte * list byte) :=
  match last_index_byte colon hostport with
  | None => addr_error "missing port in address"
  | Some i =>
      let finish host (j k : nat) :=
        if decide (lbracket ∈ drop j hostport) then addr_error "unexpected '[' in address"
        else if decide (rbracket ∈ drop k hostport) then addr_error "unexpected ']' in address"
        else Ok (host, drop (S i) hostport) in
      if decide (head hostport = Some lbracket) then
        match index_byte rbracket hostport with
        | None => addr_error "missing ']' in address"
        | Some e =>
            if decide (S e = length hostport) then addr_error "missing port in address"
            else if decide (S e = i) then finish (slice 1 e hostport) 1%nat (S e)
            else if decide (hostport !! S e = Some colon) then addr_error "too many colons in address"
            else addr_error "missing port in address"
        end
      else
        let host := take i hostport in
        if decide (colon ∈ host) then addr_error "too many colons in address" else finish host 0%nat 0%nat
  end.

Example split_examples :
  SplitHostPort (String.list_byte_of_string "a.b:80") =
    Ok (String.list_byte_of_string "a.b", String.list_byte_of_string "80") /\
  SplitHostPort (String.list_byte_of_string "[::1]:80") =
    Ok (String.list_byte_of_string "::1", String.list_byte_of_string "80") /\
  SplitHostPort (String.list_byte_of_string "::1:80") = addr_error "too many colons in address" /\
  SplitHostPort (String.list_byte_of_string "10.0.0.1") = addr_error "missing port in address".
Proof. vm_compute. done. Qed.

(** ** Facts *)

Lemma last_index_byte_app b l r :
  (b ∉ r) -> last_index_byte b (l ++ b :: r) = Some (length l).
Proof.
  intros Hr. assert (last_index_byte b r = None) as Hn.
  { clear l. induction r as [|c r IH]; [done|]. cbn. apply not_elem_of_cons in Hr as [Hc Hr].
    rewrite IH by done. by rewrite decide_False. }
  induction l as [|c l IH]; cbn.
  - rewrite Hn. by rewrite decide_True.
  - by rewrite IH.
Qed.

(** A decimal number has digits only. *)
Definition is_digit (b : byte) : Prop := 48 <= Z_of_byte b <= 57.

Lemma digits_digits fuel n acc : Forall is_digit acc -> Forall is_digit (digits fuel n acc).
Proof.
  revert n acc. induction fuel as [|fuel IH]; intros n acc Ha; cbn [digits]; [done|].
  assert (Forall is_digit (byte_of_Z (48 + n mod 10) :: acc)) as H.
  { constructor; [|done]. unfold is_digit. rewrite Z_of_byte_of_Z. unfold u8.
    pose proof (Z.mod_pos_bound n 10 ltac:(lia)). rewrite Z.mod_small by lia. lia. }
  case_decide; [done|by apply IH].
Qed.

Lemma itoa_digits n : Forall is_digit (itoa n).
Proof. apply digits_digits. constructor. Qed.

Lemma digits_no_colon l : Forall is_digit l -> (colon ∉ l).
Proof. intros H Hin. rewrite Forall_forall in H. specialize (H _ Hin). unfold is_digit in H. cbn in H. lia. Qed.

Lemma digits_no_bracket l : Forall is_digit l -> (lbracket ∉ l) /\ (rbracket ∉ l).
Proof.
  intros H. split; intros Hin; rewrite Forall_forall in H; specialize (H _ Hin); unfold is_digit in H; cbn in H; lia.
Qed.

(** host:port with a host free of colons and brackets splits back. *)
Lemma split_join host n :
  (colon ∉ host) -> (lbracket ∉ host) -> (rbracket ∉ host) ->
  SplitHostPort (host ++ colon :: itoa n) = Ok (host, itoa n).
Proof.
  intros Hc Hl Hr. destruct (digits_no_bracket _ (itoa_digits n)) as [Hl2 Hr2].
  unfold SplitHostPort. rewrite last_index_byte_app by apply digits_no_colon, itoa_digits.
  assert (forall b, (b ∉ host) -> (b ∉ itoa n) -> b <> colon -> b ∉ host ++ colon :: itoa n) as Hno.
  { intros b H1 H2 H3. rewrite not_elem_of_app, not_elem_of_cons. auto. }
  rewrite decide_False.
  2:{ intros E. apply (Hno lbracket Hl Hl2); [done|]. destruct (host ++ _) eqn:Eh; [done|].
      injection E as ->. by left. }
  rewrite take_app_length, decide_False by done. rewrite !drop_0.
  rewrite decide_False by (by apply Hno). rewrite decide_False by (by apply Hno).
  f_equal. f_equal. rewrite drop_app_ge by lia. by replace (S (length host) - length host)%nat with 1%nat by lia.
Qed.

(** A host with a colon, not in brackets, is refused. *)
Lemma split_colon host n :
  (colon ∈ host) -> head host <> Some lbracket ->
  SplitHostPort (host ++ colon :: itoa n) = addr_error "too many colons in address".
Proof.
  intros Hc Hl. unfold SplitHostPort. rewrite last_index_byte_app by apply digits_no_colon, itoa_digits.
  rewrite decide_False by (destruct host; [by apply elem_of_nil in Hc|done]).
  by rewrite take_app_length, decide_True.
Qed.

(** ** The text of an address *)

Lemma join_Forall (P : byte -> Prop) sep l :
  Forall P sep -> Forall (Forall P) l -> Forall P (join sep l).
Proof.
  intros Hs Hl. destruct Hl as [|x l Hx Hl]; [by constructor|]. cbn [join]. apply Forall_app. split; [done|].
  induction Hl as [|y l Hy Hl IH]; [by constructor|]. cbn. rewrite !Forall_app. done.
Qed.

Lemma hex_Forall (P : byte -> Prop) fuel n acc :
  (forall k, 0 <= k < 16 -> P (hex_digit k)) -> Forall P acc -> Forall P (hex fuel n acc).
Proof.
  intros Hd. revert n acc. induction fuel as [|fuel IH]; intros n acc Ha; cbn [hex]; [done|].
  assert (Forall P (hex_digit (n mod 16) :: acc)) by (constructor; [apply Hd, Z.mod_pos_bound; lia|done]).
  case_decide; [done|by apply IH].
Qed.

Lemma hex_digit_plain k : 0 <= k < 16 -> hex_digit k <> lbracket /\ hex_digit k <> rbracket.
Proof.
  intros Hk. unfold hex_digit.
  split; intros E%(f_equal Z_of_byte); rewrite Z_of_byte_of_Z, u8_small in E by (unfold is_u8; case_decide; lia);
    cbn in E; case_decide; lia.
Qed.

(** No address prints with a bracket. *)
Lemma groups_string_plain l : Forall (fun b => b <> lbracket /\ b <> rbracket) (groups_string l).
Proof.
  apply join_Forall; [by repeat constructor|]. apply Forall_fmap, Forall_forall. intros g _.
  apply hex_Forall; [apply hex_digit_plain|constructor].
Qed.

Lemma dotted_plain ip : Forall (fun b => b <> colon /\ b <> lbracket /\ b <> rbracket) (dotted ip).
Proof.
  apply join_Forall; [by repeat constructor|]. apply Forall_fmap, Forall_forall. intros g _. cbn.
  eapply Forall_impl; [apply itoa_digits|]. intros b Hb. unfold is_digit in Hb.
  repeat split; intros ->; cbn in Hb; lia.
Qed.

Lemma groups_length ip : length (groups ip) = Nat.div2 (length ip).
Proof. revert ip. fix IH 1. intros [|a [|b ip]]; [done..|]. cbn. f_equal. apply IH. Qed.

Lemma groups_string_colon l : (2 <= length l)%nat -> colon ∈ groups_string l.
Proof.
  destruct l as [|a [|b l]]; cbn [length]; [lia..|]. intros _. unfold groups_string. cbn [fmap list_fmap join].
  apply elem_of_app. right. cbn. by left.
Qed.

(** An address of sixteen bytes that is not an IPv4 one prints with a colon. *)
Definition mapped_prefix : list byte := replicate 10 x00 ++ [xff; xff].

Lemma IP_String_v6 ip :
  length ip = 16%nat -> take 12 ip <> mapped_prefix ->
  (colon ∈ IP_String ip) /\ head (IP_String ip) <> Some lbracket.
Proof.
  intros Hl Hm. unfold IP_String. rewrite decide_False by lia. rewrite decide_False by done.
  destruct (longest_run (groups ip) 0 (0%nat, 1%nat)) as [i n]. cbv zeta.
  set (s := if decide (n <= 1)%nat then _ else _).
  assert ((colon ∈ s) /\ Forall (fun b => b <> lbracket /\ b <> rbracket) s) as [Hc Hp].
  { unfold s. case_decide.
    - split; [apply groups_string_colon; rewrite groups_length, Hl; cbn; lia|apply groups_string_plain].
    - split; [apply elem_of_app; right; apply elem_of_app; left; by left|].
      rewrite !Forall_app. split; [apply groups_string_plain|]. split; [by repeat constructor|apply groups_string_plain]. }
  split; [done|]. destruct s as [|b s]; [done|]. apply Forall_cons in Hp as [[Hb _] _]. cbn. congruence.
Qed.

(** An IPv4 address, in four bytes or in sixteen, prints in decimal. *)
Definition is_v4 (ip : list byte) : Prop := length ip = 4%nat \/ take 12 ip = mapped_prefix.

Lemma IP_String_v4 ip :
  is_v4 ip -> Forall (fun b => b <> colon /\ b <> lbracket /\ b <> rbracket) (IP_String ip).
Proof.
  intros [Hl|Hm]; unfold IP_String.
  - rewrite decide_True by done. apply dotted_plain.
  - case_decide; [apply dotted_plain|]. rewrite decide_True by done. apply dotted_plain.
Qed.

Lemma split_plain host n :
  Forall (fun b => b <> colon /\ b <> lbracket /\ b <> rbracket) host ->
  SplitHostPort (host ++ colon :: itoa n) = Ok (host, itoa n).
Proof. rewrite Forall_forall. intros Hp. apply split_join; intros Hi; destruct (Hp _ Hi) as (? & ? & ?); done. Qed.
