(* ===== verification/Text.v ===== *)
(** cmd/rabbit.go: the string helpers at its end, and what the file uses of package
    strings. *)

From S2P Require Import Prelude GoIO GoNet.

Definition str : string -> list byte := String.list_byte_of_string.

(** * Package strings *)

(** [strings.Index(s, sep)]: the first place where [sep] begins. *)
Fixpoint has_prefix (s prefix : list byte) {struct prefix} : bool :=
  match prefix, s with
  | [], _ => true
  | c :: prefix, d :: s => if decide (c = d) then has_prefix s prefix else false
  | _ :: _, [] => false
  end.

Fixpoint Index (s sep : list byte) : option nat :=
  if has_prefix s sep then Some 0 else
  match s with
  | [] => None
  | _ :: s => S <$> Index s sep
  end.

(** [strings.Split(s, sep)] for a separator that is not empty. *)
Fixpoint Split_at (fuel : nat) (s sep : list byte) : list (list byte) :=
  match fuel, Index s sep with
  | S fuel, Some i => take i s :: Split_at fuel (drop (i + length sep) s) sep
  | _, _ => [s]
  end.
Definition Split (s sep : list byte) : list (list byte) := Split_at (length s) s sep.

(** [strings.TrimSpace] of an ASCII string. *)
Definition is_space (b : byte) : bool := bool_decide (b ∈ [x20; x09; x0a; x0b; x0c; x0d]).

Fixpoint drop_while (f : byte -> bool) (s : list byte) : list byte :=
  match s with
  | c :: s' => if f c then drop_while f s' else s
  | [] => []
  end.
Definition trim (f : byte -> bool) (s : list byte) : list byte := rev (drop_while f (rev (drop_while f s))).
Definition TrimSpace : list byte -> list byte := trim is_space.

(** [strings.ToLower] of an ASCII string. *)
Definition lower (b : byte) : byte :=
  let n := Z_of_byte b in if decide (65 <= n <= 90)%Z then byte_of_Z (n + 32) else b.
Definition ToLower (s : list byte) : list byte := lower <$> s.

Lemma ToLower_again s : ToLower (ToLower s) = ToLower s.
Proof.
  unfold ToLower. rewrite <-list_fmap_compose. apply list_fmap_ext. intros _ b _. unfold compose.
  by destruct b.
Qed.

(** * The helpers *)

(** [splitAndTrim(s, sep)]. *)
Definition splitAndTrim (s sep : list byte) : list (list byte) :=
  if decide (s = []) then []
  else filter (fun p => p <> []) (TrimSpace <$> Split s sep).

(** The inner loop of [find]: [s[i+j] == substr[j]] for all [j]. *)
Fixpoint find_match (fuel i j : nat) (s substr : list byte) : bool :=
  match fuel with
  | O => true
  | S fuel => if decide (s !! (i + j) <> substr !! j) then false else find_match fuel i (S j) s substr
  end.

(** [find(s, substr)], from the index [i] on; [fuel] counts the indices left. *)
Fixpoint find_from (fuel i : nat) (s substr : list byte) : option nat :=
  match fuel with
  | O => None
  | S fuel => if find_match (length substr) i 0 s substr then Some i else find_from fuel (S i) s substr
  end.
Definition find (s substr : list byte) : option nat :=
  find_from (if decide (length substr <= length s) then S (length s - length substr) else 0) 0 s substr.

(** [split(s, sep)]; [None] if [fuel] passes are not enough. *)
Fixpoint split_loop (fuel idx : nat) (s sep : list byte) (result : list (list byte)) : option (list (list byte)) :=
  match fuel with
  | O => None
  | S fuel =>
      match find (drop idx s) sep with
      | None => Some (result ++ [drop idx s])
      | Some i => split_loop fuel (idx + (i + length sep)) s sep (result ++ [slice idx (idx + i) s])
      end
  end.
Definition split (fuel : nat) (s sep : list byte) : option (list (list byte)) := split_loop fuel 0 s sep [].

(** [trimSpace(s)]: the two loops on its indices. *)
Definition trims (b : byte) : bool := bool_decide (b ∈ [x20; x09; x0a; x0d]).
Fixpoint trim_start (fuel start : nat) (s : list byte) : nat :=
  match fuel with
  | O => start
  | S fuel => if from_option trims false (s !! start) then trim_start fuel (S start) s else start
  end.
Fixpoint trim_end (fuel start e : nat) (s : list byte) : nat :=
  match fuel with
  | O => e
  | S fuel =>
      if decide (start < e) then
        if from_option trims false (s !! (e - 1)) then trim_end fuel start (e - 1) s else e
      else e
  end.
Definition trimSpace (s : list byte) : list byte :=
  let start := trim_start (length s) 0 s in
  slice start (trim_end (length s) start (length s) s) s.

(** * [find] is [strings.Index] *)

Lemma has_prefix_spec s p : has_prefix s p = true <-> p `prefix_of` s.
Proof.
  revert s. induction p as [|c p IH]; intros s; [split; [intros _; apply prefix_nil|done]|].
  destruct s as [|d s]; cbn [has_prefix]; [split; [done|by intros ?%prefix_nil_not]|].
  case_decide as Hc.
  - subst d. rewrite IH. split; [apply prefix_cons|apply prefix_cons_inv_2].
  - split; [done|]. intros ?%prefix_cons_inv_1. done.
Qed.

Lemma find_match_spec n i j s p :
  find_match n i j s p = true <-> forall k, j <= k < j + n -> s !! (i + k) = p !! k.
Proof.
  revert j. induction n as [|n IH]; intros j; cbn [find_match]; [split; [intros _ k ?; lia|done]|].
  case_decide as Hd.
  - split; [done|]. intros H. by rewrite H in Hd by lia.
  - rewrite IH. split; [intros H k Hk|intros H k Hk; apply H; lia].
    destruct (decide (k = j)) as [->|]; [done|apply H; lia].
Qed.

Lemma find_match_prefix i s p : i + length p <= length s ->
  find_match (length p) i 0 s p = has_prefix (drop i s) p.
Proof.
  intros Hl. apply Bool.eq_iff_eq_true. rewrite find_match_spec, has_prefix_spec. split.
  - intros H. exists (drop (i + length p) s). apply list_eq. intros k. destruct (decide (k < length p)) as [Hk|Hk].
    + rewrite lookup_app_l by done. rewrite lookup_drop. apply H. lia.
    + rewrite lookup_app_r by lia. rewrite !lookup_drop. f_equal. lia.
  - intros [r Hr] k Hk. rewrite <-lookup_drop, Hr, lookup_app_l by lia. done.
Qed.

Lemma Index_long s p : length s < length p -> Index s p = None.
Proof.
  induction s as [|c s IH]; cbn [Index length]; intros Hl.
  - by destruct p; [cbn in Hl; lia|].
  - destruct (has_prefix (c :: s) p) eqn:E.
    + apply has_prefix_spec, prefix_length in E. cbn in E. lia.
    + by rewrite IH by lia.
Qed.

Lemma find_from_Index n i s p :
  0 < length p -> i + n + length p = S (length s) \/ n = 0 /\ length s < i + length p ->
  find_from n i s p = (fun k => i + k) <$> Index (drop i s) p.
Proof.
  intros Hp. revert i. induction n as [|n IH]; intros i Hn; cbn [find_from].
  - rewrite Index_long; [done|]. rewrite length_drop. lia.
  - assert (i + length p <= length s) as Hl by lia. rewrite find_match_prefix by done.
    destruct (lookup_lt_is_Some_2 s i) as [c Hc]; [lia|]. rewrite (drop_S _ _ _ Hc).
    cbn [Index]. destruct (has_prefix (c :: drop (S i) s) p); [cbn; f_equal; lia|].
    rewrite IH by lia. destruct (Index (drop (S i) s) p); cbn; [f_equal; lia|done].
Qed.

Lemma find_Index s p : find s p = Index s p.
Proof.
  destruct p as [|c p].
  - unfold find. rewrite decide_True by (cbn; lia). cbn. by destruct s.
  - unfold find. rewrite find_from_Index; [rewrite drop_0; by destruct (Index s (c :: p))|cbn; lia|].
    case_decide; lia.
Qed.

(** * [split] is [strings.Split] *)

Lemma Index_prefix s p i : Index s p = Some i -> i + length p <= length s /\ take (length p) (drop i s) = p.
Proof.
  revert i. induction s as [|c s IH]; intros i; cbn [Index].
  - destruct p; [|done]. cbn. intros [= <-]. done.
  - destruct (has_prefix (c :: s) p) eqn:E.
    + intros [= <-]. apply has_prefix_spec in E as [r Hr]. rewrite drop_0, Hr, length_app, take_app_length. split; [lia|done].
    + destruct (Index s p) as [k|] eqn:Ek; [|done]. intros [= <-]. destruct (IH _ eq_refl) as [Hk Ht].
      cbn [length drop]. split; [lia|done].
Qed.

(** A pass either ends or takes a piece and a separator off. *)
Lemma split_loop_Split n fuel idx s sep result :
  0 < length sep -> length s <= idx + n -> n < fuel -> idx <= length s ->
  split_loop fuel idx s sep result = Some (result ++ Split_at n (drop idx s) sep).
Proof.
  intros Hsep. revert fuel idx result. induction n as [|n IH]; intros fuel idx result Hn Hf Hi;
    (destruct fuel as [|fuel]; [lia|]); cbn [split_loop Split_at]; rewrite find_Index;
    destruct (Index (drop idx s) sep) as [i|] eqn:Ei; try done.
  - apply Index_prefix in Ei as [Hl _]. rewrite length_drop in Hl. lia.
  - apply Index_prefix in Ei as [Hl _]. rewrite length_drop in Hl.
    rewrite IH by lia. rewrite <-app_assoc, drop_drop. cbn [app]. do 3 f_equal.
    unfold slice. f_equal. lia.
Qed.

Lemma split_Split s sep : 0 < length sep -> split (S (length s)) s sep = Some (Split s sep).
Proof. intros Hs. unfold split, Split. rewrite (split_loop_Split (length s)) by lia. by rewrite drop_0. Qed.

(** The pieces, joined, are the string, and none contains the separator. *)
Lemma join_cons sep x l : l <> [] -> GoNet.join sep (x :: l) = x ++ sep ++ GoNet.join sep l.
Proof. destruct l as [|y l]; [done|]. intros _. cbn. by rewrite <-!app_assoc. Qed.

Lemma Split_at_join n s sep : GoNet.join sep (Split_at n s sep) = s.
Proof.
  revert s. induction n as [|n IH]; intros s; cbn [Split_at]; [cbn; by rewrite app_nil_r|].
  destruct (Index s sep) as [i|] eqn:Ei; [|cbn; by rewrite app_nil_r].
  apply Index_prefix in Ei as [Hl Ht]. rewrite join_cons, IH.
  - rewrite <-Ht at 1. rewrite <-drop_drop. by rewrite take_drop, take_drop.
  - destruct n; cbn [Split_at]; [done|]. by destruct (Index _ _).
Qed.

Lemma Index_take s sep i : sep <> [] -> Index s sep = Some i -> Index (take i s) sep = None.
Proof.
  intros Hsep. revert i. induction s as [|c s IH]; intros i; cbn [Index].
  - by destruct sep.
  - destruct (has_prefix (c :: s) sep) eqn:E; [intros [= <-]; by destruct sep|].
    destruct (Index s sep) as [k|] eqn:Ek; [|done]. intros [= <-]. cbn [take Index].
    rewrite (IH _ eq_refl). destruct (has_prefix (c :: take k s) sep) eqn:E'; [|done].
    exfalso. apply has_prefix_spec in E' as [r Hr]. assert (has_prefix (c :: s) sep = true) as Ht; [|congruence].
    apply has_prefix_spec. exists (r ++ drop k s). rewrite app_assoc, <-Hr. cbn. by rewrite take_drop.
Qed.

Lemma Split_at_pieces n s sep : sep <> [] -> length s <= n -> Forall (fun p => Index p sep = None) (Split_at n s sep).
Proof.
  intros Hsep. revert s. induction n as [|n IH]; intros s Hl; cbn [Split_at].
  - apply Forall_singleton. destruct s; [|cbn in Hl; lia]. by destruct sep.
  - destruct (Index s sep) as [i|] eqn:Ei; [|by apply Forall_singleton].
    apply Forall_cons_2; [by apply Index_take|]. apply IH. rewrite length_drop.
    destruct sep; [done|]. cbn [length]. lia.
Qed.

(** * [trimSpace] *)

Lemma trim_start_spec n i s :
  length s <= i + n -> i <= length s ->
  i <= trim_start n i s <= length s /\ drop (trim_start n i s) s = drop_while trims (drop i s).
Proof.
  revert i. induction n as [|n IH]; intros i Hl Hi; cbn [trim_start].
  - rewrite drop_ge by lia. done.
  - destruct (s !! i) as [c|] eqn:Ec; cbn [from_option].
    + pose proof (lookup_lt_Some _ _ _ Ec) as Hlt. pose proof (drop_S _ _ _ Ec) as Hd.
      destruct (trims c) eqn:Et.
      * destruct (IH (S i)) as [H1 H2]; [lia..|]. split; [lia|]. rewrite H2, Hd. cbn [drop_while]. by rewrite Et.
      * split; [lia|]. rewrite Hd. cbn [drop_while]. by rewrite Et.
    + apply lookup_ge_None in Ec. rewrite drop_ge by lia. split; [lia|done].
Qed.

Lemma trim_end_spec n start e s :
  e <= start + n -> start <= e <= length s ->
  slice start (trim_end n start e s) s = rev (drop_while trims (rev (slice start e s))).
Proof.
  revert e. induction n as [|n IH]; intros e Hn He; cbn [trim_end].
  - replace e with start by lia. by rewrite slice_empty.
  - case_decide as Hlt; [|replace e with start by lia; by rewrite slice_empty].
    destruct (lookup_lt_is_Some_2 s (e - 1)) as [c Hc]; [lia|]. rewrite Hc. cbn [from_option].
    assert (slice start e s = slice start (e - 1) s ++ [c]) as Hsl.
    { unfold slice. replace (e - start) with (S (e - 1 - start)) by lia. apply take_S_r. rewrite lookup_drop.
      by replace (start + (e - 1 - start)) with (e - 1) by lia. }
    destruct (trims c) eqn:Et.
    + rewrite IH by lia. rewrite Hsl, rev_app_distr. cbn [rev app drop_while]. by rewrite Et.
    + rewrite Hsl, rev_app_distr. cbn [rev app drop_while]. rewrite Et. cbn [rev]. by rewrite rev_involutive.
Qed.

Lemma trimSpace_trim s : trimSpace s = trim trims s.
Proof.
  unfold trimSpace, trim. destruct (trim_start_spec (length s) 0 s) as [[_ H1] H2]; [lia..|]. rewrite drop_0 in H2.
  rewrite trim_end_spec by lia. unfold slice. rewrite H2, take_ge; [done|].
  rewrite <-H2, length_drop. lia.
Qed.

(** * Properties *)

(** The helpers are what their comments say, the functions of package strings
    simplified. [find] is [strings.Index]; [split] with a separator that is not
    empty ends and is [strings.Split], so that its pieces joined by the separator
    are the string again and none of them contains it, but with an empty separator
    it never ends; and [trimSpace] is [strings.TrimSpace] for the four ASCII spaces
    it knows. *)
Theorem helpers_simplify_strings (s sep : list byte) :
  find s sep = Index s sep /\
  (sep <> [] -> split (S (length s)) s sep = Some (Split s sep) /\ GoNet.join sep (Split s sep) = s /\
    Forall (fun p => Index p sep = None) (Split s sep)) /\
  (forall fuel, split fuel s [] = None) /\
  trimSpace s = trim trims s.
Proof.
  split; [apply find_Index|]. split; [|split; [|apply trimSpace_trim]].
  - intros Hsep. split; [apply split_Split; destruct sep; [done|cbn; lia]|].
    split; [apply Split_at_join|by apply Split_at_pieces].
  - intros fuel. unfold split. generalize 0, (@nil (list byte)). induction fuel as [|fuel IH]; intros i r; [done|].
    cbn [split_loop]. rewrite find_Index. assert (Index (drop i s) [] = Some 0) as -> by (by destruct (drop i s)). apply IH.
Qed.
