(* ===== verification/GoTime.v ===== *)
(** Package time, as far as the status pages use it: a clock reading in the text of
    the layout "2006-01-02 15:04:05.999999".  The zone of the process is a parameter. *)

From S2P Require Import Prelude GoIO Text GoNet.

Local Open Scope Z_scope.

(** [time.Local]: the seconds east of UTC at a Unix time. *)
Class LocalZone : Type := zone_offset : Z -> Z.

Definition utc : LocalZone := fun _ => 0.

(** * The calendar *)

Record date : Type := mkDate { d_year : Z; d_month : Z; d_day : Z }.

(** The proleptic Gregorian date of a number of days since 1970: eras of 400 years that
    begin in March, in centuries, groups of four years and years, of which the last
    may be a day longer. *)
Definition civil (days : Z) : date :=
  let z := days + 719468 in
  let era := z `div` 146097 in
  let doe := z `mod` 146097 in
  let c := Z.min 3 (doe `div` 36524) in
  let doc := doe - 36524 * c in
  let q := doc `div` 1461 in
  let doq := doc - 1461 * q in
  let a := Z.min 3 (doq `div` 365) in
  let doy := doq - 365 * a in
  let mp := (5 * doy + 2) `div` 153 in
  let m := if decide (mp < 10) then mp + 3 else mp - 9 in
  let y := era * 400 + 100 * c + 4 * q + a in
  mkDate (if decide (m <= 2) then y + 1 else y) m (doy - (153 * mp + 2) `div` 5 + 1).

(** The days from 1970 to a date. *)
Definition days_of (d : date) : Z :=
  let y := if decide (d_month d <= 2) then d_year d - 1 else d_year d in
  let mp := if decide (2 < d_month d) then d_month d - 3 else d_month d + 9 in
  365 * y + y `div` 4 - y `div` 100 + y `div` 400 + (153 * mp + 2) `div` 5 + d_day d - 1 - 719468.

(** * The text *)

(** [n] with at least [w] digits. *)
Definition pad (w : nat) (n : Z) : list byte :=
  let l := itoa n in replicate (w - length l) x30 ++ l.

Fixpoint trim_zeros (l : list byte) : list byte :=
  match l with
  | [] => []
  | b :: l => match trim_zeros l with [] => if decide (b = x30) then [] else [b] | l => b :: l end
  end.

(** ".999999": a fraction without the zeros at its end, or nothing. *)
Definition fraction (micros : Z) : list byte :=
  match trim_zeros (pad 6 micros) with [] => [] | l => x2e :: l end.

(** [time.Unix(0, nanos).Format("2006-01-02 15:04:05.999999")]. *)
Definition format_stamp `{Zone : LocalZone} (nanos : Z) : list byte :=
  let secs := nanos `div` 10 ^ 9 in
  let local := secs + zone_offset secs in
  let d := civil (local `div` 86400) in
  let s := local `mod` 86400 in
  pad 4 (d_year d) ++ [x2d] ++ pad 2 (d_month d) ++ [x2d] ++ pad 2 (d_day d) ++ [x20] ++
  pad 2 (s `div` 3600) ++ [x3a] ++ pad 2 ((s `mod` 3600) `div` 60) ++ [x3a] ++ pad 2 (s `mod` 60) ++
  fraction ((nanos `mod` 10 ^ 9) `div` 1000).

(** * Facts *)

(** Where a day lies in its era. *)
Record in_era (c q a doy : Z) : Prop := {
  ie_century : 0 <= c <= 3;
  ie_four : 0 <= q <= 24;
  ie_year : 0 <= a <= 3;
  ie_day : 0 <= doy <= 365;
}.

Lemma era_split doe :
  0 <= doe < 146097 ->
  let c := Z.min 3 (doe `div` 36524) in let doc := doe - 36524 * c in
  let q := doc `div` 1461 in let doq := doc - 1461 * q in
  let a := Z.min 3 (doq `div` 365) in
  in_era c q a (doq - 365 * a).
Proof.
  intros H c doc q doq a.
  assert (0 <= c <= 3 /\ 0 <= doc <= 36524) as [Hc Hdoc] by (subst doc c; zlia).
  assert (0 <= q <= 24 /\ 0 <= doq <= 1460) as [Hq Hdoq] by (clear -Hdoc; clearbody doc; subst doq q; zlia).
  clearbody doq. assert (0 <= a <= 3 /\ 0 <= doq - 365 * a <= 365) as [Ha Hdoy] by (clear -Hdoq; subst a; zlia). by constructor.
Qed.

Lemma era_years era c q a doy :
  in_era c q a doy ->
  let y := era * 400 + 100 * c + 4 * q + a in
  365 * y + y `div` 4 - y `div` 100 + y `div` 400 = 146097 * era + 36524 * c + 1461 * q + 365 * a.
Proof.
  intros [] y.
  rewrite <-(Z.div_unique_pos y 4 (era * 100 + 25 * c + q) a), <-(Z.div_unique_pos y 100 (era * 4 + c) (4 * q + a)),
    <-(Z.div_unique_pos y 400 era (100 * c + 4 * q + a)) by (subst y; lia). subst y. lia.
Qed.

(** A day of the year, from March, in months. *)
Lemma month_split doy :
  0 <= doy <= 365 ->
  let mp := (5 * doy + 2) `div` 153 in 0 <= mp <= 11 /\ 0 <= doy - (153 * mp + 2) `div` 5 <= 30.
Proof. intros H mp. subst mp. zlia. Qed.

(** No day is skipped and none comes twice. *)
Theorem civil_days (days : Z) :
  days_of (civil days) = days /\ 1 <= d_month (civil days) <= 12 /\ 1 <= d_day (civil days) <= 31.
Proof.
  unfold civil. pose proof (Z.mod_pos_bound (days + 719468) 146097 eq_refl) as Hd.
  pose proof (Z.div_mod (days + 719468) 146097 ltac:(lia)) as Hz. pose proof (era_split _ Hd) as He.
  generalize dependent ((days + 719468) `div` 146097). generalize dependent ((days + 719468) `mod` 146097).
  intros doe Hd He era Hz. cbv zeta in *.
  set (c := Z.min 3 (doe `div` 36524)) in *. set (doc := doe - 36524 * c) in *. set (q := doc `div` 1461) in *.
  set (doq := doc - 1461 * q) in *. set (a := Z.min 3 (doq `div` 365)) in *. set (doy := doq - 365 * a) in *.
  pose proof (month_split doy (ie_day _ _ _ _ He)) as [Hm Hday]. pose proof (era_years era _ _ _ _ He) as Hy. cbv zeta in Hy.
  unfold days_of. cbn [d_year d_month d_day].
  set (mp := (5 * doy + 2) `div` 153) in *.
  assert (doe = 36524 * c + 1461 * q + 365 * a + doy) as Edoe by lia.
  clearbody mp doy a doq q doc c.
  destruct (decide (mp < 10)).
  - rewrite !(decide_False (P := mp + 3 <= 2)), (decide_True (P := 2 < mp + 3)) by lia.
    replace (mp + 3 - 3) with mp by lia. lia.
  - rewrite !(decide_True (P := mp - 9 <= 2)), (decide_False (P := 2 < mp - 9)) by lia.
    replace (mp - 9 + 9) with mp by lia.
    replace (era * 400 + 100 * c + 4 * q + a + 1 - 1) with (era * 400 + 100 * c + 4 * q + a) by lia. lia.
Qed.

Example stamps :
  format_stamp (Zone := utc) 0 = str "1970-01-01 00:00:00" /\
  format_stamp (Zone := utc) 1709210096123450000 = str "2024-02-29 12:34:56.12345" /\
  format_stamp (Zone := fun _ => 8 * 3600) 1735689599999999999 = str "2025-01-01 07:59:59.999999" /\
  format_stamp (Zone := utc) (-1) = str "1969-12-31 23:59:59.999999" /\
  format_stamp (Zone := utc) (- 2 ^ 63) = str "1677-09-21 00:12:43.145224".
Proof. vm_compute. repeat split. Qed.
