(* ===== verification/Logger.v ===== *)
(** logger/logger.go: the levels, where the lines go, and the
    syslog connections the loggers open. *)

From S2P Require Import Prelude GoIO Text.

Local Open Scope Z_scope.

Definition LogLevelOff : Z := 0.
Definition LogLevelFatal : Z := 1.
Definition LogLevelError : Z := 2.
Definition LogLevelWarn : Z := 3.
Definition LogLevelInfo : Z := 4.
Definition LogLevelInfoA : Z := 5.
Definition LogLevelDebug : Z := 6.

(** Where a line is written: the standard output, or a connection to syslog by its
    number. *)
Inductive log_sink : Type := Stdout | Syslog (k : nat).

#[export] Instance log_sink_eq_dec : EqDecision log_sink.
Proof. solve_decision. Defined.

Record Logger : Type := mkLogger {
  lg_prefix : list byte;
  lg_out : list log_sink;
  lg_level : Z;
}.

(** The package variables, the output of the standard logger, and for every
    connection to syslog that was opened whether it is still open. *)
Record log_vars : Type := mkLogVars {
  LEVEL : Z;
  lv_AppName : list byte;
  lv_UseSyslog : bool;
  syslogWriter : option nat;
  std_out : list log_sink;
  syslogs : list bool;
}.

(** The initial values. *)
Definition init_log : log_vars := mkLogVars LogLevelOff (str "rabbit-mtcp-ws") true None [] [].

(** [NewLogger(prefix)]; [reachable]: what [syslog.New] says.  [None]: [log.Fatal]
    has ended the process. *)
Definition NewLogger (prefix : list byte) (reachable : bool) (g : log_vars) : option (Logger * log_vars) :=
  if lv_UseSyslog g then
    if reachable then
      let k := length (syslogs g) in
      let multiWriter := [Stdout; Syslog k] in
      Some (mkLogger prefix multiWriter (LEVEL g),
            mkLogVars (LEVEL g) (lv_AppName g) (lv_UseSyslog g) (Some k) multiWriter (syslogs g ++ [true]))
    else None
  else Some (mkLogger prefix [Stdout] (LEVEL g), g).

(** [CloseSyslog()]: the writer of the last logger. *)
Definition CloseSyslog (g : log_vars) : log_vars :=
  match syslogWriter g with
  | Some k =>
      mkLogVars (LEVEL g) (lv_AppName g) (lv_UseSyslog g) (syslogWriter g) (std_out g) (<[k := false]> (syslogs g))
  | None => g
  end.

(** What [main] sets before it makes its first logger. *)
Definition set_log_vars (level : Z) (name : list byte) (use : bool) (g : log_vars) : log_vars :=
  mkLogVars level name use (syslogWriter g) (std_out g) (syslogs g).

(** * Lines *)

(** A line, without its date and time: what each output is written. *)
Record log_line : Type := mkLine { ln_to : log_sink; ln_prefix : list byte; ln_text : list byte }.

Definition newline : byte := x0a.

(** [log.Logger.Output]: a newline at the end if there is none. *)
Definition Output (l : Logger) (s : list byte) : list log_line :=
  let s := if decide (last s = Some newline) then s else s ++ [newline] in
  (fun k => mkLine k (lg_prefix l) s) <$> lg_out l.

Section Methods.
(** [fmt.Sprintf] on the arguments of a call. *)
Context {A : Type} (Sprintf : list byte -> list A -> list byte).

Definition Println (l : Logger) (v : list byte) : list log_line := Output l (v ++ [newline]).
Definition Printf (l : Logger) (format : list byte) (v : list A) : list log_line := Output l (Sprintf format v).

Definition Logln (l : Logger) (v : list byte) : list log_line := Println l v.
Definition Logf (l : Logger) (format : list byte) (v : list A) : list log_line := Printf l format v.

Definition Debugln (l : Logger) (v : list byte) : list log_line :=
  if decide (LogLevelDebug <= lg_level l) then Println l (str "[Debug] " ++ v) else [].
Definition Debugf (l : Logger) (format : list byte) (v : list A) : list log_line :=
  if decide (LogLevelDebug <= lg_level l) then Printf l (str "[Debug] " ++ format) v else [].

Definition InfoAln (l : Logger) (v : list byte) : list log_line :=
  if decide (LogLevelInfoA <= lg_level l) then Println l (str "[Info] " ++ v) else [].
Definition InfoAf (l : Logger) (format : list byte) (v : list A) : list log_line :=
  if decide (LogLevelInfoA <= lg_level l) then Printf l (str "[Info] " ++ format) v else [].

Definition Infoln (l : Logger) (v : list byte) : list log_line :=
  if decide (LogLevelInfo <= lg_level l) then Println l (str "[Info] " ++ v) else [].
Definition Infof (l : Logger) (format : list byte) (v : list A) : list log_line :=
  if decide (LogLevelInfo <= lg_level l) then Printf l (str "[Info] " ++ format) v else [].

Definition Warnln (l : Logger) (v : list byte) : list log_line :=
  if decide (LogLevelWarn <= lg_level l) then Println l (str "[Warn] " ++ v) else [].
Definition Warnf (l : Logger) (format : list byte) (v : list A) : list log_line :=
  if decide (LogLevelWarn <= lg_level l) then Printf l (str "[Warn] " ++ format) v else [].

Definition Errorln (l : Logger) (v : list byte) : list log_line :=
  if decide (LogLevelError <= lg_level l) then Println l (str "[Error] " ++ v) else [].
Definition Errorf (l : Logger) (format : list byte) (v : list A) : list log_line :=
  if decide (LogLevelError <= lg_level l) then Printf l (str "[Error] " ++ format) v else [].

Definition Fatalln (l : Logger) (v : list byte) : list log_line :=
  if decide (LogLevelFatal <= lg_level l) then Println l (str "[Fatal] " ++ v) else [].
Definition Fatalf (l : Logger) (format : list byte) (v : list A) : list log_line :=
  if decide (LogLevelFatal <= lg_level l) then Printf l (str "[Fatal] " ++ format) v else [].
End Methods.

(** * The loggers of a process *)

(** The loggers made one after the other with these prefixes. *)
Fixpoint make_loggers (prefixes : list (list byte)) (g : log_vars) : option (list Logger * log_vars) :=
  match prefixes with
  | [] => Some ([], g)
  | p :: ps =>
      '(l, g) ← NewLogger p true g;
      '(ls, g) ← make_loggers ps g;
      Some (l :: ls, g)
  end.

Definition open_syslogs (g : log_vars) : nat := length (filter (fun b => b = true) (syslogs g)).

Lemma make_loggers_spec prefixes g :
  lv_UseSyslog g = true ->
  exists ls g', make_loggers prefixes g = Some (ls, g') /\ length ls = length prefixes /\ LEVEL g' = LEVEL g /\
    syslogs g' = syslogs g ++ replicate (length prefixes) true /\
    syslogWriter g' = (if decide (prefixes = []) then syslogWriter g else Some (length (syslogs g) + length prefixes - 1)%nat) /\
    Forall (fun l => lg_level l = LEVEL g) ls.
Proof.
  revert g. induction prefixes as [|p ps IH]; intros g Hu; cbn [make_loggers].
  - exists [], g. split_and!; try done. by rewrite app_nil_r.
  - unfold NewLogger. rewrite Hu. cbn [mbind option_bind].
    edestruct (IH (mkLogVars (LEVEL g) (lv_AppName g) true (Some (length (syslogs g))) [Stdout; Syslog (length (syslogs g))]
      (syslogs g ++ [true]))) as (ls & g' & E & Hl & Hv & Hs & Hw & Hf); [done|].
    rewrite E. cbn [mbind option_bind]. eexists _, g'. split; [done|]. cbn [syslogs LEVEL] in *. split_and!; try done.
    + cbn. by rewrite Hl.
    + by rewrite Hs, <-app_assoc.
    + rewrite Hw. rewrite (decide_False (P := p :: ps = [])) by done. rewrite length_app. cbn [length syslogWriter].
      case_decide as Hn; [subst; cbn; f_equal; lia|f_equal; lia].
    + by apply Forall_cons_2.
Qed.

(** * Properties *)

(** The loggers leak their connections to syslog. With [UseSyslog], the
    default, every logger - each connection makes two, each tunnel one - opens a
    connection to syslog of its own, and closes none; [CloseSyslog] at the end closes
    that of the last logger, so that of [n + 1] of them [n] stay open. And a logger
    that finds syslog gone ends the process. *)
Theorem syslog_leak (prefixes : list (list byte)) (g : log_vars) (p : list byte) :
  lv_UseSyslog g = true -> syslogs g = [] -> prefixes <> [] ->
  (exists ls g', make_loggers prefixes g = Some (ls, g') /\ open_syslogs g' = length prefixes /\
     S (open_syslogs (CloseSyslog g')) = length prefixes) /\
  NewLogger p false g = None.
Proof.
  intros Hu Hs Hne. destruct (make_loggers_spec prefixes g Hu) as (ls & g' & E & _ & _ & Hs' & Hw & _).
  rewrite Hs in Hs', Hw. cbn [app length] in Hs', Hw. rewrite decide_False in Hw by done. split.
  - exists ls, g'. split; [done|]. unfold open_syslogs, CloseSyslog. rewrite Hw. cbn [syslogs]. rewrite Hs'.
    assert (forall n, length (filter (fun b => b = true) (replicate n true)) = n) as Hr
      by (intros n; induction n as [|n IH]; [done|]; cbn [replicate]; rewrite filter_cons_True by done; cbn [length]; by rewrite IH).
    split; [apply Hr|]. destruct (exists_last Hne) as (l & x & ->). rewrite length_app. cbn [length].
    assert (0 + (length l + 1) - 1 = length l)%nat as -> by lia. rewrite (Nat.add_comm (length l)). cbn [Nat.add].
    rewrite replicate_S_end, insert_app_r_alt by (by rewrite length_replicate). rewrite length_replicate, Nat.sub_diag.
    cbn [list_insert]. rewrite filter_app, length_app, Hr. cbn. rewrite decide_False by done. cbn. lia.
  - unfold NewLogger. by rewrite Hu.
Qed.

Lemma syslog_leak_witness :
  exists ls g', make_loggers [str "[Tunnel-1]"; str "[InboundConnection-7]"; str "[BlockProcessor]"] init_log = Some (ls, g') /\
    open_syslogs g' = 3%nat /\ S (open_syslogs (CloseSyslog g')) = 3%nat.
Proof.
  apply (syslog_leak [str "[Tunnel-1]"; str "[InboundConnection-7]"; str "[BlockProcessor]"] init_log []); done.
Defined.

(** A logger writes a line only at its level or below: the methods, by level. *)
Definition methods {A} (Sprintf : list byte -> list A -> list byte) (l : Logger) (s : list byte) (v : list A)
    : list (Z * list log_line) := [
  (LogLevelDebug, Debugln l s); (LogLevelDebug, Debugf Sprintf l s v);
  (LogLevelInfoA, InfoAln l s); (LogLevelInfoA, InfoAf Sprintf l s v);
  (LogLevelInfo, Infoln l s); (LogLevelInfo, Infof Sprintf l s v);
  (LogLevelWarn, Warnln l s); (LogLevelWarn, Warnf Sprintf l s v);
  (LogLevelError, Errorln l s); (LogLevelError, Errorf Sprintf l s v);
  (LogLevelFatal, Fatalln l s); (LogLevelFatal, Fatalf Sprintf l s v)].

(** The level of a logger is the one at the time it was made: what was made before
    [main] set the level is silent for good, and the others write to every output
    exactly the lines of their level and below. *)
Theorem levels_gate {A} (Sprintf : list byte -> list A -> list byte) (prefix : list byte) (reachable : bool)
    (g g' : log_vars) (l : Logger) (s : list byte) (v : list A) :
  NewLogger prefix reachable g = Some (l, g') ->
  Forall (fun '(level, lines) => (LEVEL g < level -> lines = []) /\ (level <= LEVEL g -> ln_to <$> lines = lg_out l))
    (methods Sprintf l s v).
Proof.
  intros Hn. assert (lg_level l = LEVEL g) as Hl.
  { unfold NewLogger in Hn. destruct (lv_UseSyslog g), reachable; try done; by injection Hn as <- _. }
  assert (forall x, ln_to <$> Output l x = lg_out l) as Ho.
  { intros x. unfold Output. rewrite <-list_fmap_compose. unfold compose. cbn. apply list_fmap_id. }
  unfold methods, Debugln, Debugf, InfoAln, InfoAf, Infoln, Infof, Warnln, Warnf, Errorln, Errorf, Fatalln, Fatalf,
    Println, Printf. rewrite Hl.
  repeat (apply Forall_cons_2; [split; intros ?; case_decide; solve [done|lia|apply Ho]|]). apply Forall_nil_2.
Qed.
