(* ===== verification/LoggerWin.v ===== *)
(** logger/logger_win.go: the logger of the Windows build, which has no syslog, and
    that it writes what the other one writes to the standard output. *)

From S2P Require Import Prelude GoIO Text.
From S2P Require Logger.

Local Open Scope Z_scope.

(** The constants. *)
Definition LogLevelOff : Z := 0.
Definition LogLevelFatal : Z := 1.
Definition LogLevelError : Z := 2.
Definition LogLevelWarn : Z := 3.
Definition LogLevelInfo : Z := 4.
Definition LogLevelInfoA : Z := 5.
Definition LogLevelDebug : Z := 6.

(** The package variables; [UseSyslog] is never looked at. *)
Record win_vars : Type := mkWinVars { LEVEL : Z; AppName : list byte; UseSyslog : bool }.
Definition init_win : win_vars := mkWinVars LogLevelOff (str "rabbit-mtcp-ws") true.

(** A logger on the standard output. *)
Record Logger : Type := mkLogger { lw_prefix : list byte; lw_level : Z }.

Definition NewLogger (prefix : list byte) (g : win_vars) : Logger := mkLogger prefix (LEVEL g).

Definition CloseSyslog (g : win_vars) : win_vars := g.

(** [log.Logger.Output] on the standard output: prefix and text. *)
Definition Output (l : Logger) (s : list byte) : list (list byte * list byte) :=
  [(lw_prefix l, if decide (last s = Some Logger.newline) then s else s ++ [Logger.newline])].

Section Methods.
Context {A : Type} (Sprintf : list byte -> list A -> list byte).

Definition Println (l : Logger) (v : list byte) : list (list byte * list byte) := Output l (v ++ [Logger.newline]).
Definition Printf (l : Logger) (format : list byte) (v : list A) : list (list byte * list byte) := Output l (Sprintf format v).

Definition Logln (l : Logger) (v : list byte) : list (list byte * list byte) := Println l v.
Definition Logf (l : Logger) (format : list byte) (v : list A) : list (list byte * list byte) := Printf l format v.

Definition Debugln (l : Logger) (v : list byte) : list (list byte * list byte) :=
  if decide (LogLevelDebug <= lw_level l) then Println l (str "[Debug] " ++ v) else [].
Definition Debugf (l : Logger) (format : list byte) (v : list A) : list (list byte * list byte) :=
  if decide (LogLevelDebug <= lw_level l) then Printf l (str "[Debug] " ++ format) v else [].

Definition InfoAln (l : Logger) (v : list byte) : list (list byte * list byte) :=
  if decide (LogLevelInfoA <= lw_level l) then Println l (str "[Info] " ++ v) else [].
Definition InfoAf (l : Logger) (format : list byte) (v : list A) : list (list byte * list byte) :=
  if decide (LogLevelInfoA <= lw_level l) then Printf l (str "[Info] " ++ format) v else [].

Definition Infoln (l : Logger) (v : list byte) : list (list byte * list byte) :=
  if decide (LogLevelInfo <= lw_level l) then Println l (str "[Info] " ++ v) else [].
Definition Infof (l : Logger) (format : list byte) (v : list A) : list (list byte * list byte) :=
  if decide (LogLevelInfo <= lw_level l) then Printf l (str "[Info] " ++ format) v else [].

Definition Warnln (l : Logger) (v : list byte) : list (list byte * list byte) :=
  if decide (LogLevelWarn <= lw_level l) then Println l (str "[Warn] " ++ v) else [].
Definition Warnf (l : Logger) (format : list byte) (v : list A) : list (list byte * list byte) :=
  if decide (LogLevelWarn <= lw_level l) then Printf l (str "[Warn] " ++ format) v else [].

Definition Errorln (l : Logger) (v : list byte) : list (list byte * list byte) :=
  if decide (LogLevelError <= lw_level l) then Println l (str "[Error] " ++ v) else [].
Definition Errorf (l : Logger) (format : list byte) (v : list A) : list (list byte * list byte) :=
  if decide (LogLevelError <= lw_level l) then Printf l (str "[Error] " ++ format) v else [].

Definition Fatalln (l : Logger) (v : list byte) : list (list byte * list byte) :=
  if decide (LogLevelFatal <= lw_level l) then Println l (str "[Fatal] " ++ v) else [].
Definition Fatalf (l : Logger) (format : list byte) (v : list A) : list (list byte * list byte) :=
  if decide (LogLevelFatal <= lw_level l) then Printf l (str "[Fatal] " ++ format) v else [].
End Methods.

(** A call of a method, in either build: of [Logln] or [Logf], or of one for a level. *)
Inductive severity : Type := Always | Fatal | Error | Warn | Info | InfoA | Debug.

Inductive method (A : Type) : Type :=
  | Line (level : severity) (v : list byte)
  | Formatted (level : severity) (format : list byte) (v : list A).
Arguments Line {A} _ _.
Arguments Formatted {A} _ _ _.

Definition call_win {A} (Sprintf : list byte -> list A -> list byte) (m : method A) (l : Logger) : list (list byte * list byte) :=
  match m with
  | Line level v =>
      match level with
      | Always => Logln l v | Fatal => Fatalln l v | Error => Errorln l v | Warn => Warnln l v | Info => Infoln l v | InfoA => InfoAln l v
      | Debug => Debugln l v
      end
  | Formatted level format v =>
      match level with
      | Always => Logf Sprintf l format v | Fatal => Fatalf Sprintf l format v | Error => Errorf Sprintf l format v
      | Warn => Warnf Sprintf l format v | Info => Infof Sprintf l format v | InfoA => InfoAf Sprintf l format v
      | Debug => Debugf Sprintf l format v
      end
  end.

Definition call_unix {A} (Sprintf : list byte -> list A -> list byte) (m : method A) (l : Logger.Logger) : list Logger.log_line :=
  match m with
  | Line level v =>
      match level with
      | Always => Logger.Logln l v | Fatal => Logger.Fatalln l v | Error => Logger.Errorln l v | Warn => Logger.Warnln l v
      | Info => Logger.Infoln l v | InfoA => Logger.InfoAln l v | Debug => Logger.Debugln l v
      end
  | Formatted level format v =>
      match level with
      | Always => Logger.Logf Sprintf l format v | Fatal => Logger.Fatalf Sprintf l format v | Error => Logger.Errorf Sprintf l format v
      | Warn => Logger.Warnf Sprintf l format v | Info => Logger.Infof Sprintf l format v | InfoA => Logger.InfoAf Sprintf l format v
      | Debug => Logger.Debugf Sprintf l format v
      end
  end.

#[local] Existing Instance Logger.log_sink_eq_dec.

(** What a call writes to the standard output. *)
Definition on_stdout (lines : list Logger.log_line) : list (list byte * list byte) :=
  (fun x => (Logger.ln_prefix x, Logger.ln_text x)) <$> filter (fun x => Logger.ln_to x = Logger.Stdout) lines.

Definition same_logger (l : Logger.Logger) (w : Logger) : Prop :=
  Logger.lg_prefix l = lw_prefix w /\ Logger.lg_level l = lw_level w /\
  filter (fun k => k = Logger.Stdout) (Logger.lg_out l) = [Logger.Stdout].

Lemma Output_same l w s : same_logger l w -> on_stdout (Logger.Output l s) = Output w s.
Proof.
  intros (Hp & _ & Ho). unfold on_stdout, Logger.Output, Output. rewrite <-Hp.
  set (text := if decide _ then _ else _). revert Ho. generalize (Logger.lg_out l). intros ks Hks.
  assert (filter (fun x => Logger.ln_to x = Logger.Stdout) ((fun k => Logger.mkLine k (Logger.lg_prefix l) text) <$> ks) =
    (fun k => Logger.mkLine k (Logger.lg_prefix l) text) <$> filter (fun k => k = Logger.Stdout) ks) as ->.
  { clear Hks. induction ks as [|k ks IH]; [done|]. cbn [fmap list_fmap]. rewrite !filter_cons. cbn [Logger.ln_to].
    case_decide; [|done]. cbn [fmap list_fmap]. by f_equal. }
  by rewrite Hks.
Qed.

(** * Property *)

(** The builds log alike. With or without syslog, a logger of either build made
    under the same [LEVEL] writes the same lines to the standard output, whatever the
    method and its arguments. *)
Theorem builds_log_alike {A} (Sprintf : list byte -> list A -> list byte) (prefix : list byte) (g g' : Logger.log_vars)
    (w : win_vars) (l : Logger.Logger) (m : method A) :
  Logger.LEVEL g = LEVEL w -> Logger.NewLogger prefix true g = Some (l, g') ->
  on_stdout (call_unix Sprintf m l) = call_win Sprintf m (NewLogger prefix w).
Proof.
  intros Hlevel Hn.
  assert (same_logger l (NewLogger prefix w)) as Hs.
  { unfold Logger.NewLogger in Hn. destruct (Logger.lv_UseSyslog g); injection Hn as <- _; by repeat split. }
  assert (forall level x y, on_stdout x = y ->
    on_stdout (if decide (level <= Logger.lg_level l) then x else []) =
      if decide (level <= lw_level (NewLogger prefix w)) then y else []) as Hgate.
  { intros level x y <-. destruct Hs as (_ & -> & _). by case_decide. }
  destruct m as [level v|level format v]; cbn [call_unix call_win];
    destruct level; first [by apply Output_same|by apply Hgate, Output_same].
Qed.

Definition example_vars : Logger.log_vars := Logger.set_log_vars 3 (str "rabbit") true Logger.init_log.

Lemma builds_log_alike_witness :
  exists l g', Logger.NewLogger (str "[Main]") true example_vars = Some (l, g') /\
    on_stdout (call_unix (fun s (_ : list unit) => s) (Line Warn (str "hot")) l) = [(str "[Main]", str "[Warn] hot" ++ [x0a])].
Proof.
  eexists _, _. split; [reflexivity|].
  etrans; [|reflexivity].
  apply (builds_log_alike (fun s (_ : list unit) => s) (str "[Main]") example_vars
    (Logger.mkLogVars 3 (str "rabbit") true (Some 0%nat) [Logger.Stdout; Logger.Syslog 0] [true]) (mkWinVars 3 [] false));
    reflexivity.
Defined.
