(* ===== verification/GoIP.v ===== *)
(** What the sources use of package net's addresses: [ParseIP], [ParseCIDR] and
    [IPNet.Contains], as net/netip parses them. *)

From S2P Require Import Prelude GoIO GoNet Text.

Local Open Scope Z_scope.

Definition digit (c : byte) : option Z :=
  let n := Z_of_byte c in if decide (48 <= n <= 57) then Some (n - 48) else None.
Definition hexdigit (c : byte) : option Z :=
  let n := Z_of_byte c in
  if decide (48 <= n <= 57) then Some (n - 48)
  else if decide (97 <= n <= 102) then Some (n - 87)
  else if decide (65 <= n <= 70) then Some (n - 55)
  else None.

Definition dot : byte := x2e.

(** * netip.ParseAddr *)

(** [parseIPv4Fields]: the octet being read ([val] in [digLen] digits) and those
    before it. *)
Fixpoint parseIPv4Fields (s : list byte) (val : Z) (digLen : nat) (fields : list byte) : option (list byte) :=
  match s with
  | [] => if decide (length fields = 3 /\ digLen <> 0)%nat then Some (fields ++ [byte_of_Z val]) else None
  | c :: s =>
      match digit c with
      | Some d =>
          if decide (digLen = 1%nat /\ val = 0) then None
          else
            let val := val * 10 + d in
            if decide (255 < val) then None else parseIPv4Fields s val (S digLen) fields
      | None =>
          if decide (c = dot /\ digLen <> 0%nat /\ s <> [] /\ length fields <> 3%nat)
          then parseIPv4Fields s 0 0 (fields ++ [byte_of_Z val]) else None
      end
  end.
Definition parseIPv4 (s : list byte) : option (list byte) := parseIPv4Fields s 0 0 [].

(** The hexadecimal digits a group starts with: its value and their number. *)
Fixpoint hex_group (s : list byte) (acc : Z) (off : nat) : Z * nat :=
  match s with
  | c :: s' => match hexdigit c with Some d => hex_group s' (acc * 16 + d) (S off) | None => (acc, off) end
  | [] => (acc, off)
  end.

(** The loop of [parseIPv6]: the bytes so far, the place of the ellipsis, and the
    rest of the string. *)
Fixpoint parseIPv6_groups (fuel : nat) (s : list byte) (ip : list byte) (ellipsis : option nat)
    : option (list byte * option nat * list byte) :=
  match fuel with
  | O => Some (ip, ellipsis, s)
  | S fuel =>
      if decide (16 <= length ip)%nat then Some (ip, ellipsis, s)
      else
        let '(acc, off) := hex_group s 0 0 in
        if decide (off = 0 \/ 4 < off)%nat then None
        else if decide (s !! off = Some dot) then
          if decide ((ellipsis = None /\ length ip <> 12%nat) \/ (16 < length ip + 4)%nat) then None
          else match parseIPv4 s with Some v4 => Some (ip ++ v4, ellipsis, []) | None => None end
        else
          let ip := ip ++ [byte_of_Z (acc / 256); byte_of_Z acc] in
          match drop off s with
          | [] => Some (ip, ellipsis, [])
          | c :: s =>
              if decide (c <> colon \/ s = []) then None
              else if decide (head s = Some colon) then
                if decide (ellipsis <> None) then None
                else if decide (tail s = []) then Some (ip, Some (length ip), [])
                else parseIPv6_groups fuel (tail s) ip (Some (length ip))
              else parseIPv6_groups fuel s ip ellipsis
          end
  end.

Definition parseIPv6 (s : list byte) : option (list byte) :=
  let start := if has_prefix s [colon; colon] then (drop 2 s, Some 0%nat) else (s, None) in
  match start with
  | ([], Some _) => Some (replicate 16 x00)
  | (s, ellipsis) =>
      match parseIPv6_groups 8 s [] ellipsis with
      | Some (ip, ellipsis, []) =>
          if decide (length ip < 16)%nat then
            match ellipsis with
            | Some e => Some (take e ip ++ replicate (16 - length ip) x00 ++ drop e ip)
            | None => None
            end
          else if decide (ellipsis = None) then Some ip else None
      | _ => None
      end
  end.

(** The number of bits of the form the address is written in, and the address as 16
    bytes.  An address with a zone is no [net.IP]. *)
Definition ParseAddr (s : list byte) : option (Z * list byte) :=
  match List.find (fun c => bool_decide (c ∈ [dot; colon; x25])) s with
  | Some c =>
      if decide (c = dot) then (fun ip => (32, replicate 10 x00 ++ [xff; xff] ++ ip)) <$> parseIPv4 s
      else if decide (c = colon) then
        if decide (x25 ∈ s) then None else (fun ip => (128, ip)) <$> parseIPv6 s
      else None
  | None => None
  end.

(** [net.ParseIP(s)]: 16 bytes, or nil. *)
Definition ParseIP (s : list byte) : option (list byte) := snd <$> ParseAddr s.

(** * Networks *)

Definition To4 (ip : list byte) : option (list byte) :=
  if decide (length ip = 4%nat) then Some ip
  else if decide (length ip = 16%nat /\ take 12 ip = replicate 10 x00 ++ [xff; xff]) then Some (drop 12 ip)
  else None.

(** [net.CIDRMask(ones, 8 * n)]. *)
Definition CIDRMask (ones : Z) (n : nat) : list byte :=
  (fun i => byte_of_Z (255 - Z.shiftr 255 (Z.max 0 (Z.min 8 (ones - 8 * Z.of_nat i))))) <$> seq 0 n.

Definition and_bytes (a m : list byte) : list byte :=
  zip_with (fun x y => byte_of_Z (Z.land (Z_of_byte x) (Z_of_byte y))) a m.

Record IPNet : Type := mkIPNet { net_IP : list byte; net_Mask : list byte }.

(** [dtoi]: the number [s] starts with, and how many digits it has. *)
Fixpoint dtoi (s : list byte) (n : Z) (i : nat) : option (Z * nat) :=
  match s with
  | c :: s =>
      match digit c with
      | Some d =>
          let n := n * 10 + d in if decide (0xFFFFFF <= n) then None else dtoi s n (S i)
      | None => if decide (i = 0%nat) then None else Some (n, i)
      end
  | [] => if decide (i = 0%nat) then None else Some (n, i)
  end.

(** [net.ParseCIDR(s)], the network. *)
Definition ParseCIDR (s : list byte) : option IPNet :=
  i ← index_byte x2f s;
  '(bits, ip) ← ParseAddr (take i s);
  '(n, k) ← dtoi (drop (S i) s) 0 0;
  if decide (k = length (drop (S i) s) /\ n <= bits) then
    let m := CIDRMask n (Z.to_nat (bits / 8)) in
    let ip := if decide (bits = 32) then drop 12 ip else ip in
    Some (mkIPNet (and_bytes ip m) m)
  else None.

(** [n.Contains(ip)]. *)
Definition Contains (n : IPNet) (ip : list byte) : bool :=
  let nn := default (net_IP n) (To4 (net_IP n)) in
  let m := if decide (length nn = 4%nat /\ length (net_Mask n) = 16%nat) then drop 12 (net_Mask n) else net_Mask n in
  let ip := default ip (To4 ip) in
  bool_decide (length ip = length nn /\ and_bytes nn m = and_bytes ip m).

Example parse_ips :
  ParseIP (str "127.0.0.1") = Some (replicate 10 x00 ++ [xff; xff; x7f; x00; x00; x01]) /\
  ParseIP (str "127.0.0.01") = None /\ ParseIP (str "1.2.3") = None /\ ParseIP (str "1.2.3.256") = None /\
  ParseIP (str "::") = Some (replicate 16 x00) /\
  ParseIP (str "2001:db8::1") = Some ([x20; x01; x0d; xb8] ++ replicate 11 x00 ++ [x01]) /\
  ParseIP (str "::ffff:10.0.0.2") = Some (replicate 10 x00 ++ [xff; xff; x0a; x00; x00; x02]) /\
  ParseIP (str "1:2:3:4:5:6:7:8") <> None /\ ParseIP (str "1:2:3:4:5:6:7::8") = None /\
  ParseIP (str "1::2::3") = None /\ ParseIP (str "fe80::1%eth0") = None /\ ParseIP (str "10.0.0.1:80") = None.
Proof. vm_compute. repeat split; discriminate. Qed.

Definition in_network (s ip : list byte) : option bool :=
  n ← ParseCIDR s; ip ← ParseIP ip; Some (Contains n ip).

Example networks :
  in_network (str "10.1.0.0/16") (str "10.1.2.3") = Some true /\
  in_network (str "10.1.0.0/16") (str "10.2.2.3") = Some false /\
  in_network (str "10.1.2.3/32") (str "::ffff:10.1.2.3") = Some true /\
  in_network (str "0.0.0.0/0") (str "::1") = Some false /\
  in_network (str "::1/32") (str "0:0:ffff::7") = Some true /\
  ParseCIDR (str "10.0.0.1") = None /\ ParseCIDR (str "10.0.0.1/33") = None.
Proof. vm_compute. repeat split. Qed.
