(* ===== verification/Socks5.v ===== *)
(** client/client.go: the SOCKS5 server the client offers: negotiation of the
    authentication method, password authentication, the CONNECT request and the
    target address handed to [Dial].  The connection is any duplex [net.Conn]. *)

From S2P Require Import Prelude GoIO GoNet.

Local Open Scope Z_scope.

(** * Constants *)

Definition Socks5Version : byte := x05.
Definition Socks5AuthNone : byte := x00.
Definition Socks5AuthPassword : byte := x02.
Definition Socks5AuthNoAcceptable : byte := xff.
Definition Socks5CmdConnect : byte := x01.
Definition Socks5AddrTypeIPv4 : byte := x01.
Definition Socks5AddrTypeDomain : byte := x03.
Definition Socks5AddrTypeIPv6 : byte := x04.
Definition Socks5ReplySuccess : byte := x00.
Definition Socks5ReplyCommandNotSupported : byte := x07.
Definition Socks5ReplyAddressTypeNotSupported : byte := x08.
Definition Socks5AuthPasswordVer : byte := x01.
Definition Socks5AuthStatusSuccess : byte := x00.
Definition Socks5AuthStatusFailure : byte := x01.

(** * Calls on a connection that may fail

    A call waits, or returns a value or an error with the connection after it. *)
Definition io (C A : Type) : Type := C -> outcome (result error A * C).

#[export] Instance io_ret {C} : MRet (io C) := fun A a c => Ret (Ok a, c).
#[export] Instance io_bind {C} : MBind (io C) := fun A B f m c =>
  match m c with
  | Ret (Ok a, c) => f a c
  | Ret (Err e, c) => Ret (Err e, c)
  | Panic => Panic
  | Blocks => Blocks
  end.

Definition fail {C A} (msg : string) : io C A := fun c => Ret (Err (ErrMsg msg), c).

(** * The handlers *)

(** [nil] is [None]. *)
Record Socks5Auth : Type := mkAuth { Username : list byte; Password : list byte }.

Section Handlers.
Context {C : Type} `{Reader C, Writer C}.

(** [io.ReadFull(conn, buf[:n])]. *)
Definition read_full (n : nat) : io C (list byte) := fun c =>
  match ReadFull n c with
  | None => Blocks
  | Some (_, Some e, c) => Ret (Err e, c)
  | Some (b, None, c) => Ret (Ok b, c)
  end.

(** [conn.Write(b)] with its results dropped, and with its error returned. *)
Definition write_ (b : list byte) : io C unit := fun c =>
  let '(_, _, c) := wwrite b c in Ret (Ok tt, c).
Definition write_checked (b : list byte) : io C unit := fun c =>
  match wwrite b c with
  | (_, None, c) => Ret (Ok tt, c)
  | (_, Some e, c) => Ret (Err e, c)
  end.

Definition sendSocks5Reply (reply : byte) : io C unit :=
  write_checked [Socks5Version; reply; x00; Socks5AddrTypeIPv4; x00; x00; x00; x00; x00; x00].

(** The same call where its error is ignored. *)
Definition sendSocks5Reply_ (reply : byte) : io C unit := fun c =>
  match sendSocks5Reply reply c with
  | Ret (_, c) => Ret (Ok tt, c)
  | o => o
  end.

Definition performPasswordAuth (auth : option Socks5Auth) : io C unit :=
  match auth with
  | None => fail "auth info is nil"
  | Some auth =>
      hd ← read_full 2;
      let ver := hd !!! 0%nat in
      let ulen := hd !!! 1%nat in
      if decide (ver <> Socks5AuthPasswordVer) then fail "unsupported auth version"
      else
        username ← read_full (byte_nat ulen);
        pl ← read_full 1;
        let plen := pl !!! 0%nat in
        password ← read_full (byte_nat plen);
        if decide (username = Username auth /\ password = Password auth)
        then write_ [Socks5AuthPasswordVer; Socks5AuthStatusSuccess]
        else
          write_ [Socks5AuthPasswordVer; Socks5AuthStatusFailure];;
          fail "invalid username or password"
  end.

Definition socks5Handshake (auth : option Socks5Auth) : io C unit :=
  hd ← read_full 2;
  let ver := hd !!! 0%nat in
  let nmethods := hd !!! 1%nat in
  if decide (ver <> Socks5Version) then fail "unsupported SOCKS version"
  else
    methods ← read_full (byte_nat nmethods);
    match auth with
    | Some _ =>
        if decide (Socks5AuthPassword ∈ methods) then
          write_ [Socks5Version; Socks5AuthPassword];; performPasswordAuth auth
        else
          write_ [Socks5Version; Socks5AuthNoAcceptable];;
          fail "client doesn't support password authentication"
    | None =>
        if decide (Socks5AuthNone ∈ methods) then write_ [Socks5Version; Socks5AuthNone]
        else
          write_ [Socks5Version; Socks5AuthNoAcceptable];;
          fail "client doesn't support no authentication"
    end.

(** The target's host, by address type. *)
Definition read_host (atyp : byte) : io C (list byte) :=
  if decide (atyp = Socks5AddrTypeIPv4) then ipv4 ← read_full 4; mret (IP_String ipv4)
  else if decide (atyp = Socks5AddrTypeDomain) then
    domainLen ← read_full 1; read_full (byte_nat (domainLen !!! 0%nat))
  else if decide (atyp = Socks5AddrTypeIPv6) then ipv6 ← read_full 16; mret (IP_String ipv6)
  else sendSocks5Reply_ Socks5ReplyAddressTypeNotSupported;; fail "unsupported address type".

Definition socks5ProcessRequest : io C (list byte) :=
  buf ← read_full 4;
  let ver := buf !!! 0%nat in
  let cmd := buf !!! 1%nat in
  let atyp := buf !!! 3%nat in
  if decide (ver <> Socks5Version) then fail "unsupported SOCKS version"
  else if decide (cmd <> Socks5CmdConnect) then
    sendSocks5Reply_ Socks5ReplyCommandNotSupported;; fail "unsupported command"
  else
    host ← read_host atyp;
    portBuf ← read_full 2;
    let port := Z.lor (Z.shiftl (Z_of_byte (portBuf !!! 0%nat)) 8) (Z_of_byte (portBuf !!! 1%nat)) in
    let target := host ++ [x3a] ++ itoa port in
    sendSocks5Reply Socks5ReplySuccess;;
    mret target.

(** [handleSocks5Client] up to [c.Dial(target)]: the target. *)
Definition handleSocks5Client (auth : option Socks5Auth) : io C (list byte) :=
  socks5Handshake auth;; socks5ProcessRequest.
End Handlers.


(** * Facts *)

Section Facts.
Context {C : Type} `{Duplex C}.

Lemma read_full_ok n c bs oe :
  delivers c bs oe -> (n <= length bs)%nat ->
  exists c', read_full n c = Ret (Ok (take n bs), c') /\ delivers c' (drop n bs) oe /\ emitted c' = emitted c.
Proof.
  intros Hd Hl. unfold read_full. destruct (ReadFull_enough n c bs oe Hd Hl) as (c' & E & Hd').
  rewrite E. apply ReadFull_emitted in E. eauto.
Qed.

Lemma read_full_prefix n c b rest oe :
  delivers c (b ++ rest) oe -> length b = n ->
  exists c', read_full n c = Ret (Ok b, c') /\ delivers c' rest oe /\ emitted c' = emitted c.
Proof.
  intros Hd <-. destruct (read_full_ok (length b) c _ oe Hd) as (c' & -> & Hd' & He);
    [rewrite length_app; lia|]. rewrite take_app_length in *. rewrite drop_app_length in Hd'. eauto.
Qed.

(** A read that succeeds has found its bytes at the front of the stream. *)
Lemma read_full_inv n c bs oe b c' :
  delivers c bs oe -> read_full n c = Ret (Ok b, c') ->
  exists rest, bs = b ++ rest /\ length b = n /\ delivers c' rest oe /\ emitted c' = emitted c.
Proof.
  intros Hd Hr. destruct (decide (n <= length bs)%nat) as [Hl|Hl].
  - destruct (read_full_ok n c bs oe Hd Hl) as (c1 & E & Hd1 & He). rewrite E in Hr. injection Hr as <- <-.
    exists (drop n bs). rewrite take_drop, length_take. split; [done|]. split; [lia|done].
  - unfold read_full in Hr. destruct oe as [e|].
    + destruct (ReadFull_short n c bs e Hd) as (c1 & E & _); [lia|]. by rewrite E in Hr.
    + by rewrite (ReadFull_block n c bs Hd) in Hr by lia.
Qed.

Lemma write_spec b c bs oe :
  delivers c bs oe ->
  exists c' n, write_ b c = Ret (Ok tt, c') /\ delivers c' bs oe /\ emitted c' = emitted c ++ take n b.
Proof.
  intros Hd. unfold write_. destruct (wwrite b c) as [[n e] c'] eqn:E.
  exists c', n. split; [done|]. split; [by eapply write_delivers|].
  by apply wwrite_spec in E as (_ & ? & _).
Qed.

Lemma bind_ok {A B} (m : io C A) (f : A -> io C B) c a c' : m c = Ret (Ok a, c') -> (m ≫= f) c = f a c'.
Proof. intros E. unfold mbind, io_bind. by rewrite E. Qed.

(** A sequence that succeeds went through the success of its first call. *)
Lemma bind_inv {A B} (m : io C A) (f : A -> io C B) c b c' :
  (m ≫= f) c = Ret (Ok b, c') -> exists a c1, m c = Ret (Ok a, c1) /\ f a c1 = Ret (Ok b, c').
Proof. unfold mbind, io_bind. destruct (m c) as [[[a|e] c1]| |]; [eauto|done..]. Qed.

Lemma fail_inv {A} msg (c : C) (a : A) c' : fail msg c = Ret (Ok a, c') -> False.
Proof. done. Qed.

Lemma two_bytes (hd : list byte) : length hd = 2%nat -> hd = [hd !!! 0%nat; hd !!! 1%nat].
Proof. by destruct hd as [|a [|b [|]]]. Qed.

Lemma one_byte (hd : list byte) : length hd = 1%nat -> hd = [hd !!! 0%nat].
Proof. by destruct hd as [|a [|]]. Qed.

(** The password sub-negotiation, when it succeeds. *)
Lemma password_inv auth c bs oe c' :
  delivers c bs oe -> performPasswordAuth (Some auth) c = Ret (Ok tt, c') ->
  exists ulen plen rest,
    bs = [Socks5AuthPasswordVer; ulen] ++ Username auth ++ [plen] ++ Password auth ++ rest /\
    byte_nat ulen = length (Username auth) /\ byte_nat plen = length (Password auth) /\
    delivers c' rest oe.
Proof.
  intros Hd E. cbn [performPasswordAuth] in E.
  apply bind_inv in E as (hd & c1 & E1 & E).
  apply (read_full_inv _ _ _ _ _ _ Hd) in E1 as (r1 & -> & L1 & D1 & _).
  destruct (decide (hd !!! 0%nat <> Socks5AuthPasswordVer)) as [|Hv%dec_stable]; [done|].
  apply bind_inv in E as (user & c2 & E2 & E).
  apply (read_full_inv _ _ _ _ _ _ D1) in E2 as (r2 & -> & L2 & D2 & _).
  apply bind_inv in E as (pl & c3 & E3 & E).
  apply (read_full_inv _ _ _ _ _ _ D2) in E3 as (r3 & -> & L3 & D3 & _).
  apply bind_inv in E as (pass & c4 & E4 & E).
  apply (read_full_inv _ _ _ _ _ _ D3) in E4 as (r4 & -> & L4 & D4 & _).
  case_decide as Hcred; [|by apply bind_inv in E as (? & ? & _ & ?%fail_inv)].
  destruct Hcred as [-> ->].
  destruct (write_spec [Socks5AuthPasswordVer; Socks5AuthStatusSuccess] c4 r4 oe D4) as (c5 & n & Ew & D5 & _).
  rewrite Ew in E. injection E as <-.
  exists (hd !!! 1%nat), (pl !!! 0%nat), r4.
  rewrite (two_bytes _ L1), Hv, (one_byte _ L3) at 1. done.
Qed.

(** What a client that got through has sent. *)
Lemma handshake_inv (auth : Socks5Auth) (c c' : C) (bs : list byte) (oe : option error) :
  delivers c bs oe -> socks5Handshake (Some auth) c = Ret (Ok tt, c') ->
  exists nmethods methods ulen plen rest,
    bs = [Socks5Version; nmethods] ++ methods ++ [Socks5AuthPasswordVer; ulen] ++ Username auth ++
         [plen] ++ Password auth ++ rest /\
    byte_nat nmethods = length methods /\ Socks5AuthPassword ∈ methods /\
    byte_nat ulen = length (Username auth) /\ byte_nat plen = length (Password auth) /\
    delivers c' rest oe.
Proof.
  intros Hd E. unfold socks5Handshake in E.
  apply bind_inv in E as (hd & c1 & E1 & E).
  apply (read_full_inv _ _ _ _ _ _ Hd) in E1 as (r1 & -> & L1 & D1 & _).
  destruct (decide (hd !!! 0%nat <> Socks5Version)) as [|Hv%dec_stable]; [done|].
  apply bind_inv in E as (methods & c2 & E2 & E).
  apply (read_full_inv _ _ _ _ _ _ D1) in E2 as (r2 & -> & L2 & D2 & _).
  case_decide as Hm; [|by apply bind_inv in E as (? & ? & _ & ?%fail_inv)].
  apply bind_inv in E as ([] & c3 & E3 & E).
  destruct (write_spec [Socks5Version; Socks5AuthPassword] c2 r2 oe D2) as (c4 & n & Ew & D4 & _).
  rewrite Ew in E3. injection E3 as <-.
  destruct (password_inv auth c4 r2 oe c' D4 E) as (ulen & plen & rest & -> & Hu & Hp & D5).
  exists (hd !!! 1%nat), methods, ulen, plen, rest.
  split; [by rewrite (two_bytes _ L1), Hv at 1|]. done.
Qed.

(** No way in without the password. When the proxy asks for a password, a
    negotiation succeeds only if the client offered the password method and then
    sent the configured user name and password, byte for byte; and what follows
    them is left for the request. *)
Theorem socks5_password_required (auth : Socks5Auth) (c c' : C) (bs : list byte) (oe : option error) :
  delivers c bs oe -> socks5Handshake (Some auth) c = Ret (Ok tt, c') ->
  exists nmethods methods ulen plen rest,
    bs = [Socks5Version; nmethods] ++ methods ++ [Socks5AuthPasswordVer; ulen] ++ Username auth ++
         [plen] ++ Password auth ++ rest /\
    byte_nat nmethods = length methods /\ Socks5AuthPassword ∈ methods /\
    byte_nat ulen = length (Username auth) /\ byte_nat plen = length (Password auth) /\
    delivers c' rest oe.
Proof. apply handshake_inv. Qed.

(** The password sub-negotiation on any well-formed message. *)
Lemma password_run auth c ulen user plen pass rest oe :
  delivers c ([Socks5AuthPasswordVer; ulen] ++ user ++ [plen] ++ pass ++ rest) oe ->
  byte_nat ulen = length user -> byte_nat plen = length pass ->
  exists c' n, performPasswordAuth (Some auth) c =
      Ret (if decide (user = Username auth /\ pass = Password auth) then Ok tt
           else Err (ErrMsg "invalid username or password"), c') /\
    delivers c' rest oe /\
    emitted c' = emitted c ++ take n [Socks5AuthPasswordVer;
      if decide (user = Username auth /\ pass = Password auth) then Socks5AuthStatusSuccess
      else Socks5AuthStatusFailure].
Proof.
  intros Hd Hu Hp. cbn [performPasswordAuth].
  destruct (read_full_prefix 2 c _ _ oe Hd eq_refl) as (c1 & E1 & D1 & M1).
  rewrite (bind_ok _ _ _ _ _ E1). cbn [lookup_total list_lookup_total]. rewrite decide_False by (intros []; done).
  destruct (read_full_prefix (byte_nat ulen) c1 _ _ oe D1 ltac:(done)) as (c2 & E2 & D2 & M2).
  rewrite (bind_ok _ _ _ _ _ E2).
  destruct (read_full_prefix 1 c2 _ _ oe D2 eq_refl) as (c3 & E3 & D3 & M3).
  rewrite (bind_ok _ _ _ _ _ E3). cbn [lookup_total list_lookup_total].
  destruct (read_full_prefix (byte_nat plen) c3 _ _ oe D3 ltac:(done)) as (c4 & E4 & D4 & M4).
  rewrite (bind_ok _ _ _ _ _ E4). case_decide.
  - destruct (write_spec [Socks5AuthPasswordVer; Socks5AuthStatusSuccess] c4 rest oe D4) as (c5 & n & -> & D5 & M5).
    exists c5, n. split; [done|]. split; [done|]. by rewrite M5, M4, M3, M2, M1.
  - destruct (write_spec [Socks5AuthPasswordVer; Socks5AuthStatusFailure] c4 rest oe D4) as (c5 & n & Ew & D5 & M5).
    rewrite (bind_ok _ _ _ _ _ Ew). exists c5, n. split; [done|]. split; [done|]. by rewrite M5, M4, M3, M2, M1.
Qed.
End Facts.

(** * Requests *)

(** The target of a request as the client encodes it. *)
Inductive host : Type :=
  | HostIPv4 (ip : list byte)
  | HostDomain (name : list byte)
  | HostIPv6 (ip : list byte).

Definition host_ok (h : host) : Prop :=
  match h with
  | HostIPv4 ip => length ip = 4%nat
  | HostDomain name => (length name < 256)%nat
  | HostIPv6 ip => length ip = 16%nat
  end.

Definition encode_host (h : host) : list byte :=
  match h with
  | HostIPv4 ip => Socks5AddrTypeIPv4 :: ip
  | HostDomain name => Socks5AddrTypeDomain :: byte_of_Z (Z.of_nat (length name)) :: name
  | HostIPv6 ip => Socks5AddrTypeIPv6 :: ip
  end.

Definition host_text (h : host) : list byte :=
  match h with HostIPv4 ip | HostIPv6 ip => IP_String ip | HostDomain name => name end.

Definition encode_request (rsv : byte) (h : host) (port : Z) : list byte :=
  [Socks5Version; Socks5CmdConnect; rsv] ++ encode_host h ++
  [byte_of_Z (Z.shiftr port 8); byte_of_Z port].

Lemma byte_nat_length (n : nat) : (n < 256)%nat -> byte_nat (byte_of_Z (Z.of_nat n)) = n.
Proof. intros. unfold byte_nat. rewrite Z_of_byte_of_Z, u8_small by (unfold is_u8; lia). lia. Qed.

Lemma port_bytes port :
  0 <= port < 2 ^ 16 ->
  Z.lor (Z.shiftl (Z_of_byte (byte_of_Z (Z.shiftr port 8))) 8) (Z_of_byte (byte_of_Z port)) = port.
Proof.
  intros Hp. rewrite !Z_of_byte_of_Z. unfold u8. rewrite Z.shiftr_div_pow2 by lia.
  rewrite Z.mod_small with (a := port / 2 ^ 8) by zlia.
  rewrite Z.shiftl_mul_pow2 by lia. rewrite <-(Z.land_ones port 8) by lia.
  rewrite <-Z.shiftl_mul_pow2, <-Z.shiftr_div_pow2 by lia.
  apply Z.bits_inj'. intros i Hi. rewrite Z.lor_spec, Z.land_spec, Z.shiftl_spec by lia.
  destruct (decide (i < 8)).
  - rewrite Z.testbit_neg_r by lia. rewrite Z.ones_spec_low by lia. by rewrite andb_true_r.
  - rewrite Z.shiftr_spec by lia. rewrite Z.ones_spec_high by lia. rewrite andb_false_r, orb_false_r.
    f_equal. lia.
Qed.

Definition success_reply : list byte :=
  [Socks5Version; Socks5ReplySuccess; x00; Socks5AddrTypeIPv4; x00; x00; x00; x00; x00; x00].

Section Request.
Context {C : Type} `{Duplex C}.

Lemma read_host_ok h c rest oe :
  host_ok h -> delivers c (tail (encode_host h) ++ rest) oe ->
  exists c', read_host (encode_host h !!! 0%nat) c = Ret (Ok (host_text h), c') /\
    delivers c' rest oe /\ emitted c' = emitted c.
Proof.
  intros Hok Hd. unfold read_host. destruct h as [ip|name|ip]; cbn [encode_host tail host_ok host_text] in *;
    cbn [lookup_total list_lookup_total].
  - rewrite decide_True by done.
    destruct (read_full_prefix 4 c ip rest oe Hd Hok) as (c1 & E1 & D1 & M1). rewrite (bind_ok _ _ _ _ _ E1). eauto.
  - rewrite decide_False, decide_True by done.
    destruct (read_full_prefix 1 c [byte_of_Z (Z.of_nat (length name))] (name ++ rest) oe Hd eq_refl) as (c1 & E1 & D1 & M1).
    rewrite (bind_ok _ _ _ _ _ E1). cbn [lookup_total list_lookup_total]. rewrite byte_nat_length by done.
    destruct (read_full_prefix (length name) c1 name rest oe D1 eq_refl) as (c2 & E2 & D2 & M2).
    exists c2. split; [done|]. split; [done|]. by rewrite M2.
  - rewrite !decide_False, decide_True by done.
    destruct (read_full_prefix 16 c ip rest oe Hd Hok) as (c1 & E1 & D1 & M1). rewrite (bind_ok _ _ _ _ _ E1). eauto.
Qed.

(** A well-formed request, up to its reply. *)
Lemma connect_request_run (c : C) (rsv : byte) (h : host) (port : Z) (rest : list byte)
    (oe : option error) :
  host_ok h -> 0 <= port < 2 ^ 16 -> delivers c (encode_request rsv h port ++ rest) oe ->
  exists c1, delivers c1 rest oe /\ emitted c1 = emitted c /\
    socks5ProcessRequest c =
      match wwrite success_reply c1 with
      | (_, None, c2) => Ret (Ok (host_text h ++ [colon] ++ itoa port), c2)
      | (_, Some e, c2) => Ret (Err e, c2)
      end.
Proof.
  intros Hok Hp Hd. unfold socks5ProcessRequest, encode_request in *.
  assert (encode_host h = encode_host h !!! 0%nat :: tail (encode_host h)) as Eh by (by destruct h).
  rewrite Eh in Hd.
  destruct (read_full_prefix 4 c [Socks5Version; Socks5CmdConnect; rsv; encode_host h !!! 0%nat]
    (tail (encode_host h) ++ [byte_of_Z (Z.shiftr port 8); byte_of_Z port] ++ rest) oe) as (c1 & E1 & D1 & M1);
    [by rewrite <-!app_assoc in Hd|done|].
  rewrite (bind_ok _ _ _ _ _ E1). cbv zeta.
  change ([Socks5Version; Socks5CmdConnect; rsv; encode_host h !!! 0%nat] !!! 0%nat) with Socks5Version.
  change ([Socks5Version; Socks5CmdConnect; rsv; encode_host h !!! 0%nat] !!! 1%nat) with Socks5CmdConnect.
  change ([Socks5Version; Socks5CmdConnect; rsv; encode_host h !!! 0%nat] !!! 3%nat) with (encode_host h !!! 0%nat).
  rewrite !decide_False by (intros []; done).
  destruct (read_host_ok h c1 _ oe Hok D1) as (c2 & E2 & D2 & M2). rewrite (bind_ok _ _ _ _ _ E2).
  destruct (read_full_prefix 2 c2 [byte_of_Z (Z.shiftr port 8); byte_of_Z port] rest oe D2 eq_refl)
    as (c3 & E3 & D3 & M3).
  rewrite (bind_ok _ _ _ _ _ E3). exists c3. split; [done|]. split; [congruence|].
  cbn [lookup_total list_lookup_total]. rewrite port_bytes by done.
  unfold mbind, io_bind, sendSocks5Reply, write_checked. fold success_reply.
  by destruct (wwrite success_reply c3) as [[n [e|]] c4].
Qed.

(** C31: a CONNECT request, whatever its reserved byte and however it arrives, is
    turned into the target [host:port], the port in decimal, all of the request
    and nothing after it being read; the target is returned exactly when the
    success reply could be written. *)
Theorem socks5_connect_request (c : C) (rsv : byte) (h : host) (port : Z) (rest : list byte)
    (oe : option error) :
  host_ok h -> 0 <= port < 2 ^ 16 -> delivers c (encode_request rsv h port ++ rest) oe ->
  exists c1, delivers c1 rest oe /\ emitted c1 = emitted c /\
    socks5ProcessRequest c =
      match wwrite success_reply c1 with
      | (_, None, c2) => Ret (Ok (host_text h ++ [colon] ++ itoa port), c2)
      | (_, Some e, c2) => Ret (Err e, c2)
      end.
Proof. apply connect_request_run. Qed.

(** The target a CONNECT gives is an address [net.Dial] can split when it is
    an IPv4 address or a name free of colons and brackets; an IPv6 address is not
    put in brackets, and every one that is not an IPv4 address in disguise gives a
    target that is refused. *)
Theorem socks5_targets (c c' : C) (rsv : byte) (h : host) (port : Z) (rest target : list byte)
    (oe : option error) :
  host_ok h -> 0 <= port < 2 ^ 16 ->
  (forall name, h = HostDomain name -> Forall (fun b => b <> colon /\ b <> lbracket /\ b <> rbracket) name) ->
  delivers c (encode_request rsv h port ++ rest) oe ->
  socks5ProcessRequest c = Ret (Ok target, c') ->
  SplitHostPort target =
    match h with
    | HostIPv6 ip =>
        if decide (take 12 ip = mapped_prefix) then Ok (IP_String ip, itoa port)
        else Err (ErrMsg "too many colons in address")
    | _ => Ok (host_text h, itoa port)
    end.
Proof.
  intros Hok Hp Hn Hd E. destruct (connect_request_run c rsv h port rest oe Hok Hp Hd) as (c1 & D1 & M1 & Er).
  rewrite Er in E. destruct (wwrite success_reply c1) as [[n [e|]] c2]; [discriminate|].
  injection E as <- _. cbn [app]. destruct h as [ip|name|ip]; cbn [host_text host_ok] in *.
  - apply split_plain, IP_String_v4. by left.
  - by apply split_plain, Hn.
  - case_decide as Hm; [apply split_plain, IP_String_v4; by right|].
    destruct (IP_String_v6 ip Hok Hm). by apply split_colon.
Qed.

(** The negotiation without a password succeeds exactly when the client
    offers the method without authentication, and its answer says which. *)
Theorem socks5_no_auth (c : C) (nmethods : byte) (methods rest : list byte) (oe : option error) :
  byte_nat nmethods = length methods ->
  delivers c ([Socks5Version; nmethods] ++ methods ++ rest) oe ->
  exists c' n,
    socks5Handshake None c =
      Ret (if decide (Socks5AuthNone ∈ methods) then Ok tt
           else Err (ErrMsg "client doesn't support no authentication"), c') /\
    delivers c' rest oe /\
    emitted c' = emitted c ++ take n [Socks5Version;
      if decide (Socks5AuthNone ∈ methods) then Socks5AuthNone else Socks5AuthNoAcceptable].
Proof.
  intros Hn Hd. unfold socks5Handshake.
  destruct (read_full_prefix 2 c _ _ oe Hd eq_refl) as (c1 & E1 & D1 & M1).
  rewrite (bind_ok _ _ _ _ _ E1). cbv zeta.
  change ([Socks5Version; nmethods] !!! 0%nat) with Socks5Version.
  change ([Socks5Version; nmethods] !!! 1%nat) with nmethods.
  rewrite decide_False by (intros []; done).
  destruct (read_full_prefix (byte_nat nmethods) c1 _ _ oe D1 ltac:(done)) as (c2 & E2 & D2 & M2).
  rewrite (bind_ok _ _ _ _ _ E2). case_decide.
  - destruct (write_spec [Socks5Version; Socks5AuthNone] c2 rest oe D2) as (c3 & n & -> & D3 & M3).
    exists c3, n. split; [done|]. split; [done|]. by rewrite M3, M2, M1.
  - destruct (write_spec [Socks5Version; Socks5AuthNoAcceptable] c2 rest oe D2) as (c3 & n & Ew & D3 & M3).
    rewrite (bind_ok _ _ _ _ _ Ew). exists c3, n. split; [done|]. split; [done|]. by rewrite M3, M2, M1.
Qed.
End Request.

(** A client on a socket. *)
Definition client_says (bs : list byte) : duplex stream sink :=
  mkDuplex (Stream ((fun b => [b]) <$> bs) None) (Sink [] None).

Definition example_auth : Socks5Auth := mkAuth [x75] [x70; x77].

Lemma socks5_password_required_witness :
  exists c', exists nmethods methods ulen plen rest,
    [x05; x01; x02; x01; x01; x75; x02; x70; x77; x2a] = [Socks5Version; nmethods] ++ methods ++
      [Socks5AuthPasswordVer; ulen] ++ Username example_auth ++ [plen] ++ Password example_auth ++ rest /\
    byte_nat nmethods = length methods /\ Socks5AuthPassword ∈ methods /\
    byte_nat ulen = length (Username example_auth) /\ byte_nat plen = length (Password example_auth) /\
    delivers (c' : duplex stream sink) rest None.
Proof.
  destruct (socks5Handshake (Some example_auth) (client_says [x05; x01; x02; x01; x01; x75; x02; x70; x77; x2a]))
    as [[[[]|e] c']| |] eqn:E; [|vm_compute in E; discriminate..].
  exists c'. refine (socks5_password_required example_auth
    (client_says [x05; x01; x02; x01; x01; x75; x02; x70; x77; x2a]) c' _ None _ E).
  by vm_compute.
Defined.

Lemma socks5_connect_request_witness :
  exists c1 : duplex stream sink, delivers c1 [x47] None /\
    emitted c1 = emitted (client_says (encode_request x00 (HostIPv4 [x7f; x00; x00; x01]) 8080 ++ [x47])) /\
    socks5ProcessRequest (client_says (encode_request x00 (HostIPv4 [x7f; x00; x00; x01]) 8080 ++ [x47])) =
      match wwrite success_reply c1 with
      | (_, None, c2) => Ret (Ok (host_text (HostIPv4 [x7f; x00; x00; x01]) ++ [colon] ++ itoa 8080), c2)
      | (_, Some e, c2) => Ret (Err e, c2)
      end.
Proof.
  apply (socks5_connect_request (client_says (encode_request x00 (HostIPv4 [x7f; x00; x00; x01]) 8080 ++ [x47]))
    x00 (HostIPv4 [x7f; x00; x00; x01]) 8080 [x47] None); [reflexivity|lia|by vm_compute].
Defined.

Lemma socks5_no_auth_witness :
  exists (c' : duplex stream sink) n,
    socks5Handshake None (client_says [x05; x02; x02; x00; x2a]) =
      Ret (if decide (Socks5AuthNone ∈ [x02; x00]) then Ok tt
           else Err (ErrMsg "client doesn't support no authentication"), c') /\
    delivers c' [x2a] None /\
    emitted c' = emitted (client_says [x05; x02; x02; x00; x2a]) ++ take n [Socks5Version;
      if decide (Socks5AuthNone ∈ [x02; x00]) then Socks5AuthNone else Socks5AuthNoAcceptable].
Proof.
  apply (socks5_no_auth (client_says [x05; x02; x02; x00; x2a]) x02 [x02; x00] [x2a] None);
    [reflexivity|by vm_compute].
Defined.

Lemma socks5_targets_witness :
  exists target (c' : duplex stream sink),
    socks5ProcessRequest (client_says (encode_request x00 (HostIPv6 (replicate 15 x00 ++ [x01])) 80)) =
      Ret (Ok target, c') /\
    SplitHostPort target = Err (ErrMsg "too many colons in address").
Proof.
  destruct (socks5ProcessRequest (client_says (encode_request x00 (HostIPv6 (replicate 15 x00 ++ [x01])) 80)))
    as [[[target|e] c']| |] eqn:E; [|vm_compute in E; discriminate..].
  exists target, c'. split; [done|].
  apply (socks5_targets (client_says (encode_request x00 (HostIPv6 (replicate 15 x00 ++ [x01])) 80)) c' x00 (HostIPv6 (replicate 15 x00 ++ [x01])) 80 [] target None); [done|lia|done| |exact E].
  clear E. by vm_compute.
Defined.
