(* ===== verification/Relay.v ===== *)
(** client/client.go: [biRelay], which copies between the connection of a local
    application and a connection of the pool, each way by a goroutine, and shuts
    them down. *)

From S2P Require Import Prelude GoIO Block Processor RingBuffer Connection Inbound.
From S2P Require Outbound.

Local Open Scope Z_scope.

(** * State *)

(** The calls [relay] makes once [io.Copy] has returned. *)
Inductive half_op : Type :=
  | DstSetDeadline
  | SrcSetDeadline
  | DstClose
  | SrcClose
  | DstCloseWrite
  | SrcCloseRead.

(** Where a goroutine of [relay] is: in [io.Copy], about to read or to write what
    it has read ([er] came with it), or behind it with the error [io.Copy] returned
    and the calls still to be made. A [Write] of the pool's connection that has passed its
    check is at [CopySend p rest]: it is to write [p], and [rest] is what it has not sent. *)
Inductive copy_pc : Type :=
  | CopyRead
  | CopyWrite (p : list byte) (er : option error)
  | CopySend (p rest : list byte) (er : option error)
  | CopyEnd (err : option error) (ops : list half_op).

Inductive main_pc : Type := WgWait | CloseRight | MainDone.

(** [left] is the local application's connection, [right] the pool's; [bi_up] copies
    from left to right, [bi_down] from right to left. *)
Record birelay : Type := mkBi {
  bi_left : Outbound.tcp;
  bi_right : InboundConnection;
  bi_up : copy_pc;
  bi_down : copy_pc;
  bi_main : main_pc;
}.

Definition set_left (t : Outbound.tcp) (s : birelay) : birelay := mkBi t (bi_right s) (bi_up s) (bi_down s) (bi_main s).
Definition set_right (c : InboundConnection) (s : birelay) : birelay := mkBi (bi_left s) c (bi_up s) (bi_down s) (bi_main s).
Definition set_up (pc : copy_pc) (s : birelay) : birelay := mkBi (bi_left s) (bi_right s) pc (bi_down s) (bi_main s).
Definition set_down (pc : copy_pc) (s : birelay) : birelay := mkBi (bi_left s) (bi_right s) (bi_up s) pc (bi_main s).
Definition set_main (pc : main_pc) (s : birelay) : birelay := mkBi (bi_left s) (bi_right s) (bi_up s) (bi_down s) pc.

Definition start_biRelay (t : Outbound.tcp) (c : InboundConnection) : birelay := mkBi t c CopyRead CopyRead WgWait.

(** * Steps *)

(** [io.Copy]'s buffer. *)
Definition copy_size : nat := Z.to_nat (32 * 1024).

(** What [relay] does with the error of [io.Copy]. *)
Definition after_copy (err : option error) : copy_pc :=
  match err with
  | Some e => CopyEnd (Some e) [DstSetDeadline; SrcSetDeadline; DstClose; SrcClose]
  | None => CopyEnd None [DstCloseWrite; SrcCloseRead]
  end.

(** [io.Copy] looks at the error of its read after writing the bytes. *)
Definition copy_on (er : option error) : copy_pc :=
  match er with
  | None => CopyRead
  | Some EOF => after_copy None
  | Some e => after_copy (Some e)
  end.
Definition copy_got (p : list byte) (er : option error) : copy_pc :=
  if decide (p <> []) then CopyWrite p er else copy_on er.
Definition copy_written (p : list byte) (er : option error) (nw : nat) (ew : option error) : copy_pc :=
  match ew with
  | Some e => after_copy (Some e)
  | None => if decide (nw <> length p) then after_copy (Some ErrShortWrite) else copy_on er
  end.

(** A call of [relay] on the local connection. *)
Definition left_op (op : half_op) (t : Outbound.tcp) : Outbound.tcp :=
  match op with
  | DstClose | SrcClose => Outbound.tcp_Close t
  | DstCloseWrite => Outbound.tcp_CloseWrite t
  | SrcCloseRead => Outbound.tcp_CloseRead t
  | DstSetDeadline | SrcSetDeadline => t
  end.

(** The same on the pool's. *)
Definition right_op (now : Z) (op : half_op) : ic_op :=
  match op with
  | DstClose | SrcClose => OpClose now
  | DstCloseWrite => OpCloseWrite now
  | SrcCloseRead => OpCloseRead now
  | DstSetDeadline | SrcSetDeadline => OpSetDeadline now
  end.

Definition on_dst (op : half_op) : bool :=
  match op with DstSetDeadline | DstClose | DstCloseWrite => true | _ => false end.

Inductive bi_label : Type :=
  | BLeftRead (net : result error (list byte))       (** the network has bytes or an error *)
  | BRightWrite                                      (** [Write] looks whether it may *)
  | BRightBlock (now : Z)                            (** and sends the next block *)
  | BRightWritten                                    (** and returns *)
  | BRightRead (now : nat -> Z) (pick : nat -> bool)
  | BLeftWrite (net : option nat)                    (** it takes all, or fails after some bytes *)
  | BUpOp (now : Z)                                  (** the next call of the goroutine going up *)
  | BDownOp (now : Z)
  | BMain (now : Z)
  | BRecvBlock (blk : Block)                         (** the pool hands a block to the connection *)
  | BDeliver (blk : Block).

(** The call a step makes on the pool's connection. *)
Definition right_call (s : birelay) (l : bi_label) : option ic_op :=
  match l with
  | BRightBlock now =>
      match bi_up s with
      | CopySend _ rest _ => if decide (rest = []) then None else Some (OpWriteBlock now (take (Z.to_nat DataSize) rest))
      | _ => None
      end
  | BRightWritten => match bi_up s with CopySend p [] _ => Some (OpWriteCount (length p)) | _ => None end
  | BRightRead now pick => Some (OpRead now pick copy_size)
  | BUpOp now =>
      match bi_up s with CopyEnd _ (op :: _) => if on_dst op then Some (right_op now op) else None | _ => None end
  | BDownOp now =>
      match bi_down s with CopyEnd _ (op :: _) => if on_dst op then None else Some (right_op now op) | _ => None end
  | BMain now => match bi_main s with CloseRight => Some (OpClose now) | _ => None end
  | BRecvBlock blk => Some (OpRecvBlock blk)
  | BDeliver blk => Some (OpDeliver blk)
  | BLeftRead _ | BRightWrite | BLeftWrite _ => None
  end.

(** A call on the pool's connection of which only the state matters. *)
Definition call_right (op : ic_op) (s : birelay) : option (list Block * birelay) :=
  match ic_step ([], bi_right s) op with Some (bs, c) => Some (bs, set_right c s) | None => None end.

(** One step: the blocks put on the send queue, and the state. *)
Definition bi_step (s : birelay) (l : bi_label) : option (list Block * birelay) :=
  match l with
  | BLeftRead net =>
      match bi_up s, Outbound.tcp_Read net (bi_left s) with
      | CopyRead, Ok bs =>
          if decide (bs <> [] /\ (length bs <= copy_size)%nat) then Some ([], set_up (copy_got bs None) s) else None
      | CopyRead, Err e => Some ([], set_up (copy_got [] (Some e)) s)
      | _, _ => None
      end
  | BRightWrite =>
      match bi_up s with
      | CopyWrite p er =>
          if may_write (bi_right s) then Some ([], set_up (CopySend p p er) s)
          else Some ([], set_up (copy_written p er 0 (Some EINVAL)) s)
      | _ => None
      end
  | BRightBlock now =>
      match bi_up s with
      | CopySend p rest er =>
          if decide (rest = []) then None
          else call_right (OpWriteBlock now (take (Z.to_nat DataSize) rest))
                 (set_up (CopySend p (drop (Z.to_nat DataSize) rest) er) s)
      | _ => None
      end
  | BRightWritten =>
      match bi_up s with
      | CopySend p [] er => call_right (OpWriteCount (length p)) (set_up (copy_written p er (length p) None) s)
      | _ => None
      end
  | BRightRead now pick =>
      match bi_down s, Read (S (length (queued (bi_right s)))) now pick copy_size (bi_right s) with
      | CopyRead, Some (Ret (p, er, c)) => Some ([], set_down (copy_got p er) (set_right c s))
      | _, _ => None
      end
  | BLeftWrite net =>
      match bi_down s with
      | CopyWrite p er =>
          let '(nw, ew, t) := Outbound.tcp_Write p net (bi_left s) in
          Some ([], set_down (copy_written p er nw ew) (set_left t s))
      | _ => None
      end
  | BUpOp now =>
      match bi_up s with
      | CopyEnd err (op :: ops) =>
          let s := set_up (CopyEnd err ops) s in
          if on_dst op then call_right (right_op now op) s else Some ([], set_left (left_op op (bi_left s)) s)
      | _ => None
      end
  | BDownOp now =>
      match bi_down s with
      | CopyEnd err (op :: ops) =>
          let s := set_down (CopyEnd err ops) s in
          if on_dst op then Some ([], set_left (left_op op (bi_left s)) s) else call_right (right_op now op) s
      | _ => None
      end
  | BMain now =>
      match bi_main s, bi_up s, bi_down s with
      | WgWait, CopyEnd _ [], CopyEnd _ [] => Some ([], set_main CloseRight (set_left (Outbound.tcp_Close (bi_left s)) s))
      | CloseRight, _, _ => call_right (OpClose now) (set_main MainDone s)
      | _, _, _ => None
      end
  | BRecvBlock blk => call_right (OpRecvBlock blk) s
  | BDeliver blk => call_right (OpDeliver blk) s
  end.

(** * Runs

    With the blocks sent, the bytes read from the local connection, those the reads
    of the pool's connection gave, those of the blocks delivered to it, and the
    calls made on it. *)
Record bi_hist : Type := mkBiHist {
  bh_state : birelay;
  bh_log : list Block;
  bh_in : list byte;
  bh_given : list byte;
  bh_delivered : list byte;
  bh_ops : list ic_op;
}.

Definition bi_init (t : Outbound.tcp) (c : InboundConnection) : bi_hist := mkBiHist (start_biRelay t c) [] [] [] [] [].

Definition left_got (s : birelay) (l : bi_label) : list byte :=
  match l with
  | BLeftRead net => match Outbound.tcp_Read net (bi_left s) with Ok bs => bs | Err _ => [] end
  | _ => []
  end.
Definition right_gave (s : birelay) (l : bi_label) : list byte :=
  match right_call s l with Some op => read_by (bi_right s) op | None => [] end.
Definition right_got (s : birelay) (l : bi_label) : list byte :=
  match right_call s l with Some op => delivered_by op | None => [] end.

Definition calls_of (s : birelay) (l : bi_label) : list ic_op :=
  match right_call s l with Some op => [op] | None => [] end.

Definition bi_hstep (h : bi_hist) (l : bi_label) : option bi_hist :=
  let s := bh_state h in
  match bi_step s l with
  | Some (bs, s') =>
      Some (mkBiHist s' (bh_log h ++ bs) (bh_in h ++ left_got (bh_state h) l) (bh_given h ++ right_gave s l)
              (bh_delivered h ++ right_got s l) (bh_ops h ++ calls_of s l))
  | None => None
  end.

(** * One call on the pool's connection *)

Lemma sendData_types now data base bs base' :
  sendData now data base = (bs, base') -> Forall (fun b => Type_ b = TypeData) bs.
Proof.
  unfold sendData, packData. intros Hs. pose proof (NewDataBlocks_loop_types (length data) (connectionID base) now data 0 0
    (sendBlockID (bc_processor base))) as Ht.
  unfold NewDataBlocks in Hs. destruct (NewDataBlocks_loop _ _ _ _ _ _ _) as [bs1 n]. by injection Hs as <- _.
Qed.

(** Nothing its user calls makes a connection ask for a target. *)
Lemma ic_step_no_connect c op bs c' :
  ic_step ([], c) op = Some (bs, c') -> Forall (fun b => Type_ b <> TypeConnect) bs.
Proof.
  apply ic_step_sends.
  - intros now data b bs1 b' Hs%sendData_types. eapply Forall_impl; [exact Hs|]. cbn. by intros x ->.
  - intros now st b bs1 b' (_ & _ & _ & id & ->)%SendDisconnect_same. by apply Forall_singleton.
Qed.

(** A block after which the other end expects no data. *)
Definition ends_writing (b : Block) : Prop :=
  Type_ b = TypeDisconnect /\ (BlockData b = [byte_of_Z ShutdownWrite] \/ BlockData b = [byte_of_Z ShutdownBoth]).

(** What a call can send, and that it does not reopen the connection. *)
Record call_spec (c : InboundConnection) (op : ic_op) (bs : list Block) (c' : InboundConnection) : Prop := {
  cs_closed : closed (ic_base c) = true -> closed (ic_base c') = true;
  cs_ends : Exists ends_writing bs -> closed (ic_base c') = true \/ exists now, op = OpCloseWrite now;
  cs_close : forall now, op = OpClose now -> closed (ic_base c') = true;
}.

Lemma call_spec_quiet c op c' :
  (closed (ic_base c) = true -> closed (ic_base c') = true) -> (forall now, op = OpClose now -> closed (ic_base c') = true) ->
  call_spec c op [] c'.
Proof. intros H1 H2. constructor; [done|by intros ?%Exists_nil|done]. Qed.

Lemma SendDisconnect_spec now st base bs base' :
  SendDisconnect now st base = (bs, base') ->
  closed base' = closed base /\ (st = ShutdownRead -> ~ Exists ends_writing bs).
Proof.
  intros (E & _ & _ & id & ->)%SendDisconnect_same. split; [done|].
  intros ->. rewrite Exists_cons, Exists_nil. intros [[_ [?|?]]|?]; done.
Qed.

(** Data blocks alone end nothing. *)
Lemma sendData_ends now data base bs base' : sendData now data base = (bs, base') -> ~ Exists ends_writing bs.
Proof.
  intros Es (b & Hb & [Hd _])%Exists_exists. apply sendData_types in Es. rewrite Forall_forall in Es.
  by rewrite (Es b Hb) in Hd.
Qed.

Lemma sendData_closed now data base bs base' : sendData now data base = (bs, base') -> closed base' = closed base.
Proof. unfold sendData. destruct (packData _ _ _ _). by intros [= _ <-]. Qed.

Lemma ic_step_spec c op bs c' :
  ic_step ([], c) op = Some (bs, c') -> call_spec c op bs c'.
Proof.
  destruct op as [now pick n|now data|now|now|now|t|blk|blk|now chunk|n]; cbn [ic_step app].
  - destruct (Read _ _ _ _ _) as [[[[out err] c2]| |]|] eqn:E; [|done..]. intros [= <- <-].
    apply Read_sender in E as [E1 E2 E3 E4 E5 _ _]. by apply call_spec_quiet.
  - unfold Write. destruct (_ || _) eqn:E; [intros [= <- <-]; by apply call_spec_quiet|].
    destruct (sendData now data (ic_base c)) as [bs' base] eqn:Es. intros [= <- <-].
    constructor; [|by intros ?%(sendData_ends _ _ _ _ _ Es)|done]. cbn. by rewrite (sendData_closed _ _ _ _ _ Es).
  - unfold Close. destruct (closed (ic_base c)) eqn:Ec; [intros [= <- <-]; by apply call_spec_quiet|].
    destruct (SendDisconnect _ _ _) as [bs' base] eqn:Es. apply SendDisconnect_spec in Es as (E1 & _).
    destruct (close_call (recvQueue base)) as [q| |]; [|done..]. cbn [mbind outcome_bind].
    destruct (close_call (orderedRecvQueue base)) as [oq| |]; [|done..]. intros [= <- <-].
    constructor; cbn; try done; by left.
  - unfold CloseRead. destruct (SendDisconnect _ _ _) as [bs' base] eqn:Es. intros [= <- <-].
    apply SendDisconnect_spec in Es as (E1 & E3). constructor; cbn; [congruence| |done]. by intros ?%E3.
  - unfold CloseWrite. destruct (SendDisconnect _ _ _) as [bs' base] eqn:Es. intros [= <- <-].
    apply SendDisconnect_spec in Es as (E1 & _). constructor; cbn; [congruence| |done]. right. eauto.
  - intros [= <- <-]. by apply call_spec_quiet.
  - destruct (RecvBlock _ _) as [b| |] eqn:E; [|done..]. unfold RecvBlock in E. destruct (send_call _ _); [|done..].
    injection E as <-. intros [= <- <-]. by apply call_spec_quiet.
  - destruct (send_call _ _); [|done..]. intros [= <- <-]. by apply call_spec_quiet.
  - unfold Write_block. destruct (sendData _ chunk (ic_base c)) as [bs' base] eqn:Es. intros [= <- <-].
    constructor; [|by intros ?%(sendData_ends _ _ _ _ _ Es)|done]. cbn. by rewrite (sendData_closed _ _ _ _ _ Es).
  - intros [= <- <-]. by apply call_spec_quiet.
Qed.

(** A step makes the call [right_call] names, or leaves the connection alone. *)
Lemma bi_step_call s l bs s' :
  bi_step s l = Some (bs, s') ->
  match right_call s l with
  | Some op => ic_step ([], bi_right s) op = Some (bs, bi_right s')
  | None => bs = [] /\ bi_right s' = bi_right s
  end.
Proof.
  assert (forall op s0, bi_right s0 = bi_right s -> call_right op s0 = Some (bs, s') ->
    ic_step ([], bi_right s) op = Some (bs, bi_right s')) as Hcall.
  { intros op s0 E. unfold call_right. rewrite E. destruct (ic_step _ op) as [[bs' c]|]; [|done]. by intros [= <- <-]. }
  destruct l as [net| |now| |now pick|net|now|now|now|blk|blk]; cbn [bi_step right_call].
  - destruct (bi_up s); [|done..]. destruct (Outbound.tcp_Read net (bi_left s)); [case_decide; [|done]|]; by intros [= <- <-].
  - destruct (bi_up s) as [|p er| |]; [done| |done..]. destruct (may_write _); by intros [= <- <-].
  - destruct (bi_up s) as [| |p rest er|]; try done. case_decide; [done|by apply Hcall].
  - destruct (bi_up s) as [| |p [|] er|]; try done. by apply Hcall.
  - destruct (bi_down s); [|done..]. cbn [ic_step].
    destruct (Read _ _ _ _ _) as [[[[p er] c]| |]|]; [|done..]. by intros [= <- <-].
  - destruct (bi_down s) as [|p er| |]; [done| |done..]. destruct (Outbound.tcp_Write _ _ _) as [[nw ew] t]. by intros [= <- <-].
  - destruct (bi_up s) as [| | |err [|op ops]]; try done. destruct (on_dst op); [by apply Hcall|by intros [= <- <-]].
  - destruct (bi_down s) as [| | |err [|op ops]]; try done. destruct (on_dst op); [by intros [= <- <-]|by apply Hcall].
  - destruct (bi_main s), (bi_up s) as [| | |? []], (bi_down s) as [| | |? []]; try done; try (by apply Hcall); by intros [= <- <-].
  - by apply Hcall.
  - by apply Hcall.
Qed.

(** * The pool's connection over a run *)

Section Right.
Context (c0 : InboundConnection).
Implicit Types (h : bi_hist) (s : birelay).

(** The calls are a run of the connection, and its streams are kept. *)
Record right_inv h : Prop := {
  ri_calls : run ic_step ([], c0) (bh_ops h) = Some (bh_log h, bi_right (bh_state h));
  ri_sender : calls_inv c0 (bh_log h, bi_right (bh_state h));
  ri_wf : in_wf (bi_right (bh_state h));
  ri_u64 : is_u64 (received_bytes (bi_right (bh_state h)));
  ri_stream : bh_given h ++ unread (bi_right (bh_state h)) = unread c0 ++ bh_delivered h;
}.

Lemma right_inv_init t : fresh c0 -> in_wf c0 -> is_u64 (received_bytes c0) -> right_inv (bi_init t c0).
Proof. intros Hf Hw Hu. constructor; cbn; try done; [by apply fresh_calls_inv|by rewrite app_nil_r]. Qed.

(** What a step sends. *)
Definition step_sends s l s' (bs : list Block) : Prop :=
  match right_call s l with
  | Some op => call_spec (bi_right s) op bs (bi_right s') /\ concat (data_of <$> bs) = written_by (bi_right s) op
  | None => bs = [] /\ bi_right s' = bi_right s
  end.

Lemma right_inv_step h l h' :
  right_inv h -> bi_hstep h l = Some h' ->
  right_inv h' /\ exists bs, bh_log h' = bh_log h ++ bs /\ step_sends (bh_state h) l (bh_state h') bs.
Proof.
  intros [R1 R2 R3 R4 R5]. unfold bi_hstep. destruct (bi_step (bh_state h) l) as [[bs s']|] eqn:Es; [|done].
  intros [= <-]. cbn [bh_log bh_state]. apply bi_step_call in Es. unfold right_gave, right_got, calls_of, step_sends.
  destruct (right_call (bh_state h) l) as [op|].
  - pose proof (ci_u32 _ _ R2) as Hu. cbn [snd] in Hu.
    destruct (ic_step_io _ _ _ _ _ R3 R4 Hu Es) as (bs' & Ebs & Hd & Hs & Hw & Hr). cbn [app] in Ebs. subst bs'.
    assert (ic_step (bh_log h, bi_right (bh_state h)) op = Some (bh_log h ++ bs, bi_right s')) as Es'
      by (rewrite ic_step_log, Es; done).
    split; [|exists bs; split; [done|]; split; [by eapply ic_step_spec|done]]. constructor; cbn [bh_state bh_log bh_ops bh_given bh_delivered]; try done.
    + rewrite run_app, R1. cbn [run]. by rewrite Es'.
    + by eapply calls_inv_step.
    + by rewrite <-app_assoc, Hs, app_assoc, R5, app_assoc.
  - destruct Es as [-> Ec]. rewrite !app_nil_r. split; [|exists []; rewrite app_nil_r; by split_and!].
    constructor; cbn [bh_state bh_log bh_ops bh_given bh_delivered]; rewrite ?Ec, ?app_nil_r; try done.
Qed.
End Right.

(** * Copying *)

(** What a copier has put, of what it has got. *)
Definition copied (pc : copy_pc) (got put : list byte) : Prop :=
  match pc with
  | CopyRead | CopyEnd None _ => put = got
  | CopyWrite p _ => put ++ p = got
  | CopySend _ rest _ => put ++ rest = got
  | CopyEnd (Some _) _ => put `prefix_of` got
  end.

Lemma copied_prefix pc got put : copied pc got put -> put `prefix_of` got.
Proof.
  destruct pc as [|p er|p rest er|[e|] ops]; cbn; [by intros ->|intros <-; by apply prefix_app_r..|done|by intros ->].
Qed.

Lemma copied_on er all : copied (copy_on er) all all.
Proof. destruct er as [[]|]; try done; cbn; exists []; by rewrite app_nil_r. Qed.

Lemma copied_got p er got put : copied CopyRead got put -> copied (copy_got p er) (got ++ p) put.
Proof.
  cbn. intros ->. unfold copy_got. case_decide as Hp; [done|]. destruct p; [|done].
  rewrite app_nil_r. apply copied_on.
Qed.

Lemma copied_written p er nw ew got put :
  copied (CopyWrite p er) got put -> copied (copy_written p er nw ew) got (put ++ take nw p).
Proof.
  cbn. intros <-. unfold copy_written.
  assert (put ++ take nw p `prefix_of` put ++ p) as Hp by (apply prefix_app; exists (drop nw p); by rewrite take_drop).
  destruct ew as [e|]; [done|]. case_decide as Hn; [done|].
  assert (nw = length p) as -> by (destruct (decide (nw = length p)); [done|by destruct Hn]). rewrite firstn_all. apply copied_on.
Qed.

Lemma tcp_Write_took p net t nw ew t' :
  Outbound.tcp_Write p net t = (nw, ew, t') ->
  Outbound.tcp_out t' = Outbound.tcp_out t ++ take nw p /\ Outbound.tcp_closed t' = Outbound.tcp_closed t.
Proof.
  unfold Outbound.tcp_Write. destruct (Outbound.tcp_closed t) eqn:Ec; cbn [orb].
  - intros [= <- _ <-]. by rewrite app_nil_r.
  - destruct (Outbound.tcp_wclosed t); [intros [= <- _ <-]; by rewrite app_nil_r|].
    destruct net as [k|]; intros [= <- _ <-]; cbn; (split; [|done]); [|by rewrite firstn_all].
    f_equal. by rewrite <-take_take, firstn_all.
Qed.

Lemma left_op_out op t : Outbound.tcp_out (left_op op t) = Outbound.tcp_out t /\
  (Outbound.tcp_closed t = true -> Outbound.tcp_closed (left_op op t) = true) /\
  (op = DstClose \/ op = SrcClose -> Outbound.tcp_closed (left_op op t) = true).
Proof. split; [|split]; destruct op; cbn; try done; intros [?|?]; done. Qed.

(** * The invariant of the copying *)

#[export] Instance ends_writing_dec (b : Block) : Decision (ends_writing b).
Proof. unfold ends_writing. apply _. Defined.

(** The data behind the first block that ends the writing. *)
Fixpoint late (log : list Block) : list byte :=
  match log with
  | [] => []
  | b :: log => if decide (ends_writing b) then concat (data_of <$> log) else late log
  end.

Lemma late_none log : ~ Exists ends_writing log -> late log = [].
Proof.
  induction log as [|b log IH]; [done|]. rewrite Exists_cons. intros Hn. cbn.
  rewrite decide_False by tauto. apply IH. tauto.
Qed.

Lemma late_app log bs :
  late (log ++ bs) = if decide (Exists ends_writing log) then late log ++ concat (data_of <$> bs) else late bs.
Proof.
  induction log as [|b log IH]; cbn [app late].
  - by rewrite decide_False by (by intros ?%Exists_nil).
  - destruct (decide (ends_writing b)) as [Hb|Hb].
    + rewrite decide_True by (by constructor). by rewrite fmap_app, concat_app.
    + rewrite IH. destruct (decide (Exists ends_writing log)) as [He|He];
        [by rewrite decide_True by (by constructor 2)|by rewrite decide_False by (rewrite Exists_cons; tauto)].
Qed.

Lemma late_le bs : (length (late bs) <= length (concat (data_of <$> bs)))%nat.
Proof. induction bs as [|b bs IH]; [done|]. cbn [late]. rewrite fmap_cons. cbn [concat]. rewrite length_app. case_decide; lia. Qed.

Definition ended (pc : copy_pc) : Prop := match pc with CopyEnd _ _ => True | _ => False end.

(** After an error the calls still to be made close both ends. *)
Definition closing (pc : copy_pc) (dst_closed src_closed : bool) : Prop :=
  match pc with
  | CopyEnd (Some _) ops => (dst_closed = true \/ DstClose ∈ ops) /\ (src_closed = true \/ SrcClose ∈ ops)
  | _ => True
  end.

Lemma closing_mono pc (d s d' s' : bool) :
  (d = true -> d' = true) -> (s = true -> s' = true) -> closing pc d s -> closing pc d' s'.
Proof. destruct pc as [| | |[e|] ops]; cbn; tauto. Qed.

Lemma closing_after err d s : closing (after_copy err) d s.
Proof. destruct err; cbn; [split; right; set_solver|done]. Qed.

Lemma closing_on er d s : closing (copy_on er) d s.
Proof. destruct er as [[]|]; cbn; try done; split; right; set_solver. Qed.

Lemma closing_got p er d s : closing (copy_got p er) d s.
Proof. unfold copy_got. case_decide; [done|apply closing_on]. Qed.

Lemma closing_written p er nw ew d s : closing (copy_written p er nw ew) d s.
Proof. unfold copy_written. destruct ew; [apply closing_after|]. case_decide; [apply closing_after|apply closing_on]. Qed.

(** Making the next call. *)
Lemma closing_op err op ops (d s d' s' : bool) :
  (d = true \/ op = DstClose -> d' = true) -> (s = true \/ op = SrcClose -> s' = true) ->
  closing (CopyEnd err (op :: ops)) d s -> closing (CopyEnd err ops) d' s'.
Proof. intros Hd Hs. destruct err; cbn; [|done]. rewrite !elem_of_cons. intros [[?|[?|?]] [?|[?|?]]]; auto. Qed.

Section Copiers.
Implicit Types (s : birelay).

Definition left_closed s : bool := Outbound.tcp_closed (bi_left s).
Definition right_closed s : bool := closed (ic_base (bi_right s)).

(** What the two copiers have got and put. *)
Record copies s (got_up put_up got_down : list byte) : Prop := {
  cv_up : copied (bi_up s) got_up put_up;
  cv_down : copied (bi_down s) got_down (Outbound.tcp_out (bi_left s));
}.

(** What is closed, or will be. *)
Record closes s : Prop := {
  cv_closing_up : closing (bi_up s) (right_closed s) (left_closed s);
  cv_closing_down : closing (bi_down s) (left_closed s) (right_closed s);
  cv_main : match bi_main s with
            | WgWait => True
            | CloseRight => left_closed s = true
            | MainDone => left_closed s = true /\ right_closed s = true
            end;
}.

Lemma call_right_spec op s bs s' :
  call_right op s = Some (bs, s') -> exists c, ic_step ([], bi_right s) op = Some (bs, c) /\ s' = set_right c s.
Proof. unfold call_right. destruct (ic_step _ op) as [[bs' c]|]; [|done]. intros [= <- <-]. eauto. Qed.

(** The bytes a step writes to the pool's connection. *)
Definition right_took s (l : bi_label) : list byte := from_option (written_by (bi_right s)) [] (right_call s l).

(** A step that gets nothing and puts nothing. *)
Lemma copies_same s s' l gu pu gd :
  bi_up s' = bi_up s \/ (exists err op ops, bi_up s = CopyEnd err (op :: ops) /\ bi_up s' = CopyEnd err ops) ->
  bi_down s' = bi_down s \/ (exists err op ops, bi_down s = CopyEnd err (op :: ops) /\ bi_down s' = CopyEnd err ops) ->
  Outbound.tcp_out (bi_left s') = Outbound.tcp_out (bi_left s) -> left_got s l = [] -> right_took s l = [] -> right_gave s l = [] ->
  copies s gu pu gd -> copies s' (gu ++ left_got s l) (pu ++ right_took s l) (gd ++ right_gave s l).
Proof.
  intros Hu Hd Hl -> -> -> [C1 C2]. rewrite !app_nil_r. constructor; rewrite ?Hl.
  - destruct Hu as [->|(err & op & ops & E & ->)]; [done|]. by rewrite E in C1.
  - destruct Hd as [->|(err & op & ops & E & ->)]; [done|]. by rewrite E in C2.
Qed.

Lemma copies_step s l bs s' gu pu gd :
  bi_step s l = Some (bs, s') -> copies s gu pu gd ->
  copies s' (gu ++ left_got s l) (pu ++ right_took s l) (gd ++ right_gave s l).
Proof.
  intros Hs Hc. destruct l as [net| |now| |now pick|net|now|now|now|blk|blk]; cbn [bi_step] in Hs.
  - destruct Hc as [C1 C2]. unfold right_took, right_gave. cbn [left_got right_call from_option]. rewrite !app_nil_r.
    destruct (bi_up s) eqn:Eu; [|done..].
    destruct (Outbound.tcp_Read net (bi_left s)) as [p|e]; [case_decide; [|done]|]; injection Hs as _ <-;
      (constructor; cbn; [by apply copied_got|done]).
  - destruct Hc as [C1 C2]. unfold right_took, right_gave. cbn [left_got right_call from_option]. rewrite !app_nil_r.
    destruct (bi_up s) as [|p er| |] eqn:Eu; [done| |done..].
    destruct (may_write (bi_right s)); injection Hs as _ <-; (constructor; cbn; [|done]); [done|].
    rewrite <-(app_nil_r pu). by apply (copied_written p er 0 (Some EINVAL)).
  - destruct Hc as [C1 C2]. unfold right_took, right_gave. cbn [left_got right_call].
    destruct (bi_up s) as [| |p rest er|] eqn:Eu; try done. case_decide as Hr; [done|].
    apply call_right_spec in Hs as (c & _ & ->). cbn [from_option written_by read_by]. rewrite !app_nil_r.
    constructor; cbn; [|done]. by rewrite <-app_assoc, take_drop.
  - destruct Hc as [C1 C2]. unfold right_took, right_gave. cbn [left_got right_call].
    destruct (bi_up s) as [| |p [|] er|] eqn:Eu; try done. apply call_right_spec in Hs as (c & _ & ->).
    cbn [from_option written_by read_by]. rewrite !app_nil_r. constructor; cbn; [|done].
    cbn in C1. rewrite app_nil_r in C1. subst pu. unfold copy_written. rewrite decide_False by tauto. apply copied_on.
  - destruct Hc as [C1 C2]. unfold right_took, right_gave. cbn [left_got right_call from_option written_by read_by].
    rewrite !app_nil_r. destruct (bi_down s) eqn:Ed; [|done..].
    destruct (Read _ _ _ _ _) as [[[[p er] c]| |]|]; [|done..]. injection Hs as _ <-.
    constructor; cbn; [done|by apply copied_got].
  - destruct Hc as [C1 C2]. unfold right_took, right_gave. cbn [left_got right_call from_option]. rewrite !app_nil_r.
    destruct (bi_down s) as [|p er| |] eqn:Ed; [done| |done..].
    destruct (Outbound.tcp_Write p net (bi_left s)) as [[nw ew] t] eqn:Ew. injection Hs as _ <-.
    apply tcp_Write_took in Ew as [Ew _]. constructor; cbn; rewrite ?Ew; [done|by apply copied_written].
  - destruct (bi_up s) as [| | |err [|op ops]] eqn:Eu; try done.
    eapply copies_same; [..|exact Hc]; unfold right_took, right_gave; cbn [right_call]; rewrite ?Eu; try done;
      try (by destruct op); destruct (on_dst op); (apply call_right_spec in Hs as (c & _ & ->) || injection Hs as _ <-); cbn; eauto 10;
      apply left_op_out.
  - destruct (bi_down s) as [| | |err [|op ops]] eqn:Ed; try done.
    eapply copies_same; [..|exact Hc]; unfold right_took, right_gave; cbn [right_call]; rewrite ?Ed; try done;
      try (by destruct op); destruct (on_dst op); (apply call_right_spec in Hs as (c & _ & ->) || injection Hs as _ <-); cbn; eauto 10;
      apply left_op_out.
  - assert (bi_up s' = bi_up s /\ bi_down s' = bi_down s /\ Outbound.tcp_out (bi_left s') = Outbound.tcp_out (bi_left s))
      as (E1 & E2 & E3).
    { destruct (bi_main s), (bi_up s) as [| | |? []] eqn:Eu, (bi_down s) as [| | |? []] eqn:Ed; try done;
        (apply call_right_spec in Hs as (c & _ & ->) || injection Hs as _ <-); cbn; by rewrite ?Eu, ?Ed. }
    eapply copies_same; [..|exact Hc]; unfold right_took, right_gave; cbn [right_call]; try (by destruct (bi_main s)); auto.
  - apply call_right_spec in Hs as (c & _ & ->). eapply copies_same; [..|exact Hc]; auto.
  - apply call_right_spec in Hs as (c & _ & ->). eapply copies_same; [..|exact Hc]; auto.
Qed.

(** The ends only close, and a copier that has not moved on owes the same calls. *)
Lemma closes_grow s s' :
  (left_closed s = true -> left_closed s' = true) -> (right_closed s = true -> right_closed s' = true) ->
  bi_main s' = bi_main s ->
  bi_up s' = bi_up s \/ closing (bi_up s') (right_closed s') (left_closed s') ->
  bi_down s' = bi_down s \/ closing (bi_down s') (left_closed s') (right_closed s') -> closes s -> closes s'.
Proof.
  intros Hl Hr Hm Hu Hd [C3 C4 C5]. constructor.
  - destruct Hu as [->|?]; [|done]. by eapply closing_mono; [exact Hr|exact Hl|].
  - destruct Hd as [->|?]; [|done]. by eapply closing_mono; [exact Hl|exact Hr|].
  - rewrite Hm. destruct (bi_main s); [done|auto|]. destruct C5. auto.
Qed.

(** Once closed the ends stay closed; [Close] closes. *)
Lemma closes_step s l bs s' :
  bi_step s l = Some (bs, s') -> (right_closed s = true -> right_closed s' = true) ->
  (forall now, right_call s l = Some (OpClose now) -> right_closed s' = true) -> closes s -> closes s'.
Proof.
  intros Hs Hcl Hclose Hc. pose proof Hc as [C3 C4 C5].
  destruct l as [net| |now| |now pick|net|now|now|now|blk|blk]; cbn [bi_step right_call] in *.
  - destruct (bi_up s) eqn:Eu; [|done..].
    destruct (Outbound.tcp_Read net (bi_left s)) as [p|e]; [case_decide; [|done]|]; injection Hs as _ <-;
      apply (closes_grow s); cbn; auto using closing_got.
  - destruct (bi_up s) as [|p er| |]; [done| |done..].
    destruct (may_write _); injection Hs as _ <-; apply (closes_grow s); cbn; auto.
    right. apply (closing_after (Some EINVAL)).
  - destruct (bi_up s) as [| |p rest er|]; try done. case_decide; [done|]. apply call_right_spec in Hs as (c & _ & ->).
    apply (closes_grow s); cbn; auto; by right.
  - destruct (bi_up s) as [| |p [|] er|]; try done. apply call_right_spec in Hs as (c & _ & ->).
    apply (closes_grow s); [auto..| |by left|done]; cbn [bi_up set_up set_right]. right. apply closing_written.
  - destruct (bi_down s); [|done..]. destruct (Read _ _ _ _ _) as [[[[p er] c]| |]|]; [|done..]. injection Hs as _ <-.
    apply (closes_grow s); cbn; auto using closing_got.
  - destruct (bi_down s) as [|p er| |]; [done| |done..]. destruct (Outbound.tcp_Write p net (bi_left s)) as [[nw ew] t] eqn:Ew.
    injection Hs as _ <-. apply tcp_Write_took in Ew as [_ Ec].
    apply (closes_grow s); cbn; auto using closing_written. unfold left_closed. cbn. by rewrite Ec.
  - destruct (bi_up s) as [| | |err [|op ops]] eqn:Eu; try done. destruct (on_dst op) eqn:Eo.
    + apply call_right_spec in Hs as (c & Ec & ->). apply (closes_grow s); cbn; auto. right.
      eapply closing_op; [..|exact C3]; [|by intros [?| ->]]. intros [?| ->]; [by apply Hcl|by apply (Hclose now)].
    + injection Hs as _ <-. destruct (left_op_out op (bi_left s)) as (_ & L2 & L3). apply (closes_grow s); cbn; auto. right.
      eapply closing_op; [..|exact C3]; [by intros [?| ->]|]. unfold left_closed. intros [?| ->]; cbn; auto.
  - destruct (bi_down s) as [| | |err [|op ops]] eqn:Ed; try done. destruct (on_dst op) eqn:Eo.
    + injection Hs as _ <-. destruct (left_op_out op (bi_left s)) as (_ & L2 & L3). apply (closes_grow s); cbn; auto. right.
      eapply closing_op; [..|exact C4]; [|by intros [?| ->]]. unfold left_closed. intros [?| ->]; cbn; auto.
    + apply call_right_spec in Hs as (c & Ec & ->). apply (closes_grow s); cbn; auto. right.
      eapply closing_op; [..|exact C4]; [by intros [?| ->]|]. intros [?| ->]; [by apply Hcl|by apply (Hclose now)].
  - destruct (bi_main s) eqn:Em; [..|done].
    + destruct (bi_up s) as [| | |err []] eqn:Eu; try done. destruct (bi_down s) as [| | |err' []] eqn:Ed; try done.
      injection Hs as _ <-. constructor; cbn; rewrite ?Eu, ?Ed; try done; by eapply closing_mono; [..|eassumption].
    + apply call_right_spec in Hs as (c & Ec & ->). constructor; cbn;
        [by eapply closing_mono; [exact Hcl| |exact C3]|by eapply closing_mono; [|exact Hcl|exact C4]|].
      split; [done|]. by apply (Hclose now).
  - apply call_right_spec in Hs as (c & _ & ->). apply (closes_grow s); cbn; auto.
  - apply call_right_spec in Hs as (c & _ & ->). apply (closes_grow s); cbn; auto.
Qed.
End Copiers.

(** What a copier writes is in its buffer, and what it still has to send once it has
    passed the check of [Write]. *)
Definition writing_ok (pc : copy_pc) : Prop :=
  match pc with CopyWrite p _ => (length p <= copy_size)%nat | _ => True end.
Definition to_send (pc : copy_pc) : nat := match pc with CopySend _ rest _ => length rest | _ => 0 end.

Lemma writing_got p er : (length p <= copy_size)%nat -> writing_ok (copy_got p er) /\ to_send (copy_got p er) = 0%nat.
Proof. unfold copy_got. case_decide; [done|]. by destruct er as [[]|]. Qed.

Lemma writing_written p er nw ew : writing_ok (copy_written p er nw ew) /\ to_send (copy_written p er nw ew) = 0%nat.
Proof. unfold copy_written. destruct ew; [done|]. case_decide; [done|]. by destruct er as [[]|]. Qed.

Section BiRelay.
Context (c0 : InboundConnection).
Implicit Types (h : bi_hist) (s : birelay).

Record bi_inv h : Prop := {
  bv_right : right_inv c0 h;
  bv_copies : copies (bh_state h) (bh_in h) (concat (data_of <$> bh_log h)) (bh_given h);
  bv_closes : closes (bh_state h);
  bv_writing : writing_ok (bi_up (bh_state h));
  bv_ends : Exists ends_writing (bh_log h) ->
    right_closed (bh_state h) = true \/ ended (bi_up (bh_state h)) /\ late (bh_log h) = [];
  bv_late : (length (late (bh_log h)) + to_send (bi_up (bh_state h)) <= copy_size)%nat;
}.

Lemma bi_inv_init : fresh c0 -> in_wf c0 -> is_u64 (received_bytes c0) -> bi_inv (bi_init Outbound.new_tcp c0).
Proof.
  intros Hf Hw Hu. constructor; [by apply right_inv_init|done|done|done|by intros ?%Exists_nil|cbn; unfold copy_size; lia].
Qed.

(** Which calls of the copiers end the writing. *)
Lemma right_call_closewrite s l now : right_call s l = Some (OpCloseWrite now) -> ended (bi_up s).
Proof.
  destruct l; cbn; try done; intros Hc.
  - destruct (bi_up s); try done. by case_decide.
  - by destruct (bi_up s) as [| |? []|].
  - by destruct (bi_up s).
  - destruct (bi_down s) as [| | |? [|[] ?]]; try done; cbn in Hc; discriminate Hc.
  - by destruct (bi_main s).
Qed.

Lemma bi_step_ended s l bs s' : bi_step s l = Some (bs, s') -> ended (bi_up s) -> ended (bi_up s').
Proof.
  destruct l; cbn [bi_step]; unfold call_right; intros Hs He; repeat case_match; simplify_eq; try done.
  cbn. by match goal with E : bi_up _ = _ |- _ => rewrite E end.
Qed.

(** A step sends of what the write in progress has left, or begins one, which an open
    connection allows. *)
Lemma bi_step_writing s l bs s' :
  bi_step s l = Some (bs, s') -> writing_ok (bi_up s) ->
  writing_ok (bi_up s') /\
  ((length (right_took s l) + to_send (bi_up s') <= to_send (bi_up s))%nat \/
   right_took s l = [] /\ right_closed s = false /\ ~ ended (bi_up s) /\ (to_send (bi_up s') <= copy_size)%nat).
Proof.
  intros Hs Hw. unfold right_took. destruct l as [net| |now| |now pick|net|now|now|now|blk|blk]; cbn [bi_step right_call] in *.
  - destruct (bi_up s) eqn:Eu; [|done..]. cbn [from_option length to_send].
    destruct (Outbound.tcp_Read net (bi_left s)) as [p|e]; [case_decide as Hd; [|done]|]; injection Hs as _ <-; cbn [bi_up set_up].
    + destruct Hd as [_ Hd]. destruct (writing_got p None Hd) as [H1 ->]. split; [done|left; lia].
    + destruct (writing_got [] (Some e)) as [H1 ->]; [cbn; lia|]. split; [done|left; lia].
  - destruct (bi_up s) as [|p er| |] eqn:Eu; [done| |done..]. cbn [from_option length].
    destruct (may_write (bi_right s)) eqn:Em; injection Hs as _ <-; cbn [bi_up set_up].
    + split; [done|]. right. split; [done|]. unfold may_write in Em. apply negb_true_iff, orb_false_iff in Em as [_ Em].
      split; [done|]. split; [by intros ?|exact Hw].
    + cbn. split; [done|left; lia].
  - destruct (bi_up s) as [| |p rest er|] eqn:Eu; try done. case_decide as Hr; [done|].
    apply call_right_spec in Hs as (c & _ & ->). cbn. split; [done|left]. rewrite length_take, length_drop. lia.
  - destruct (bi_up s) as [| |p [|] er|] eqn:Eu; try done. apply call_right_spec in Hs as (c & _ & ->). cbn [bi_up set_up set_right].
    destruct (writing_written p er (length p) None) as [H1 ->]. split; [done|left; cbn; lia].
  - destruct (bi_down s); [|done..]. destruct (Read _ _ _ _ _) as [[[[p er] c]| |]|]; [|done..]. injection Hs as _ <-.
    cbn. split; [done|left; lia].
  - destruct (bi_down s) as [|p er| |]; [done| |done..]. destruct (Outbound.tcp_Write p net (bi_left s)) as [[nw ew] t].
    injection Hs as _ <-. cbn. split; [done|left; lia].
  - destruct (bi_up s) as [| | |err [|op ops]] eqn:Eu; try done.
    assert (bi_up s' = CopyEnd err ops) as ->
      by (destruct (on_dst op); (apply call_right_spec in Hs as (c & _ & ->) || injection Hs as _ <-); done).
    split; [done|left]. by destruct op.
  - destruct (bi_down s) as [| | |err [|op ops]] eqn:Ed; try done.
    assert (bi_up s' = bi_up s) as ->
      by (destruct (on_dst op); (apply call_right_spec in Hs as (c & _ & ->) || injection Hs as _ <-); done).
    split; [done|left]. by destruct op.
  - assert (bi_up s' = bi_up s) as ->.
    { destruct (bi_main s), (bi_up s) as [| | |? []] eqn:Eu, (bi_down s) as [| | |? []] eqn:Ed; try done;
        (apply call_right_spec in Hs as (c & _ & ->) || injection Hs as _ <-); cbn; by rewrite ?Eu. }
    split; [done|left]. by destruct (bi_main s).
  - apply call_right_spec in Hs as (c & _ & ->). cbn. split; [done|left; lia].
  - apply call_right_spec in Hs as (c & _ & ->). cbn. split; [done|left; lia].
Qed.

(** The rules on what is sent. *)
Lemma sends_inv h l bs s' :
  bi_inv h -> bi_step (bh_state h) l = Some (bs, s') -> step_sends (bh_state h) l s' bs ->
  writing_ok (bi_up s') /\
  (Exists ends_writing (bh_log h ++ bs) -> right_closed s' = true \/ ended (bi_up s') /\ late (bh_log h ++ bs) = []) /\
  (length (late (bh_log h ++ bs)) + to_send (bi_up s') <= copy_size)%nat /\
  (right_closed (bh_state h) = true -> right_closed s' = true).
Proof.
  intros Hi Es Hsend. pose proof (bv_ends _ Hi) as Hends. pose proof (bv_late _ Hi) as Hlate.
  destruct (bi_step_writing _ _ _ _ Es (bv_writing _ Hi)) as [Hw Hor].
  assert (concat (data_of <$> bs) = right_took (bh_state h) l) as Et.
  { unfold step_sends in Hsend. unfold right_took. destruct (right_call _ l); [by destruct Hsend|]. by destruct Hsend as [-> _]. }
  assert ((right_closed (bh_state h) = true -> right_closed s' = true) /\
    (Exists ends_writing bs -> right_closed s' = true \/ ended (bi_up s') /\ right_took (bh_state h) l = [])) as [Hcl Hnew].
  { unfold step_sends in Hsend. unfold right_took, right_closed in *. destruct (right_call (bh_state h) l) as [op|] eqn:Ec.
    - destruct Hsend as [[S1 S2 S3] _]. split; [exact S1|]. intros [?|[now ->]]%S2; [by left|]. right. split; [|done].
      eapply bi_step_ended; [exact Es|]. by eapply right_call_closewrite.
    - destruct Hsend as [-> ->]. split; [done|by intros ?%Exists_nil]. }
  split; [done|]. rewrite late_app, Exists_app, Et. split; [|split; [|exact Hcl]].
  - intros He. destruct (decide (Exists ends_writing (bh_log h))) as [H0|H0].
    + destruct (Hends H0) as [?|[H1 ->]]; [left; auto|].
      destruct Hor as [Hle|(_ & _ & Hn & _)]; [|done]. right. split; [by eapply bi_step_ended|].
      assert (to_send (bi_up (bh_state h)) = 0%nat) as Hz by (by destruct (bi_up (bh_state h))).
      destruct (right_took (bh_state h) l); [done|cbn in Hle; lia].
    + destruct He as [?|He]; [done|]. destruct (Hnew He) as [?|[H1 H2]]; [by left|]. right. split; [done|].
      pose proof (late_le bs) as Hl. rewrite Et, H2 in Hl. by destruct (late bs); [|cbn in Hl; lia].
  - pose proof (late_le bs) as Hl. rewrite Et in Hl. destruct Hor as [Hle|(Ht & Ho & Hn & Hle)].
    + case_decide; [rewrite length_app|]; lia.
    + rewrite Ht in *. cbn in Hl. case_decide as H0; [|lia]. destruct (Hends H0) as [?|[? _]]; [congruence|done].
Qed.

Lemma bi_inv_step h l h' : bi_inv h -> bi_hstep h l = Some h' -> bi_inv h'.
Proof.
  intros Hi Hs. pose proof (right_inv_step c0 _ _ _ (bv_right _ Hi) Hs) as (Hr & bs & Hlog & Hsend).
  unfold bi_hstep in Hs. destruct (bi_step (bh_state h) l) as [[bs' s']|] eqn:Es; [|done]. injection Hs as <-.
  cbn [bh_log bh_state] in *. apply app_inv_head in Hlog. subst bs'.
  destruct (sends_inv _ _ _ _ Hi Es Hsend) as (Hw & Hends & Hlate & Hcl).
  assert (concat (data_of <$> bs) = right_took (bh_state h) l) as Et.
  { unfold step_sends in Hsend. unfold right_took. destruct (right_call _ l); [by destruct Hsend|]. by destruct Hsend as [-> _]. }
  constructor; try done; cbn [bh_log bh_state bh_in bh_given].
  - rewrite fmap_app, concat_app, Et. by eapply copies_step; [exact Es|apply bv_copies].
  - eapply closes_step; [exact Es|exact Hcl| |by apply bv_closes].
    intros now Ec. unfold step_sends in Hsend. rewrite Ec in Hsend. destruct Hsend as [[_ _ Hc] _]. by apply (Hc now).
Qed.
End BiRelay.

Lemma bi_run_inv c0 tr h :
  fresh c0 -> in_wf c0 -> is_u64 (received_bytes c0) -> run bi_hstep (bi_init Outbound.new_tcp c0) tr = Some h -> bi_inv c0 h.
Proof.
  intros Hf Hw Hu. apply (run_invariant bi_hstep (fun _ h => bi_inv c0 h)); [by apply bi_inv_init|].
  intros _ s l s' Hi Hs. by eapply bi_inv_step.
Qed.

(** * Properties *)

(** C29: [biRelay] loses, repeats and reorders nothing either way. In any
    interleaving of its goroutines with each other and with what the pool delivers,
    the data blocks sent carry a prefix of the bytes read from the local
    application, and all of them once the copy up has ended without error; the
    application has been sent a prefix of the bytes the pool's connection gave, all
    of them once the copy down has ended without error, and what the connection
    gave and will give are the bytes delivered to it. Behind a block that tells the
    other end that the writing is over there is no data but that of one write, which
    had passed its check when the connection was closed: at most the bytes of a buffer,
    and none at all while the connection is open. *)
Theorem relay_copies (c0 : InboundConnection) (tr : list bi_label) (h : bi_hist) :
  fresh c0 -> in_wf c0 -> is_u64 (received_bytes c0) -> run bi_hstep (bi_init Outbound.new_tcp c0) tr = Some h ->
  concat (data_of <$> bh_log h) `prefix_of` bh_in h /\
  (forall ops, bi_up (bh_state h) = CopyEnd None ops -> concat (data_of <$> bh_log h) = bh_in h) /\
  Outbound.tcp_out (bi_left (bh_state h)) `prefix_of` bh_given h /\
  (forall ops, bi_down (bh_state h) = CopyEnd None ops -> Outbound.tcp_out (bi_left (bh_state h)) = bh_given h) /\
  bh_given h ++ unread (bi_right (bh_state h)) = unread c0 ++ bh_delivered h /\
  (length (late (bh_log h)) <= copy_size)%nat /\
  (late (bh_log h) <> [] -> right_closed (bh_state h) = true).
Proof.
  intros Hf Hw Hu Hrun. destruct (bi_run_inv _ _ _ Hf Hw Hu Hrun) as [R [C1 C2] _ _ Le L].
  split; [by eapply copied_prefix|]. split; [intros ops E; by rewrite E in C1|].
  split; [by eapply copied_prefix|]. split; [intros ops E; by rewrite E in C2|].
  split; [apply (ri_stream _ _ R)|]. split; [lia|]. intros Hl.
  destruct (decide (Exists ends_writing (bh_log h))) as [He|He]; [by destruct (Le He) as [?|[_ ?]]|].
  by rewrite late_none in Hl.
Qed.

(** [biRelay] closes what it was given, once. In any run the calls it makes on
    the pool's connection are calls the connection allows, numbered by it and with
    at most one block shutting both directions down; a copier that has failed and
    has made its calls has closed both ends, so that the other one ends too; and
    when [biRelay] returns, both ends are closed. *)
Theorem relay_closes (c0 : InboundConnection) (tr : list bi_label) (h : bi_hist) :
  fresh c0 -> in_wf c0 -> is_u64 (received_bytes c0) -> run bi_hstep (bi_init Outbound.new_tcp c0) tr = Some h ->
  run ic_step ([], c0) (bh_ops h) = Some (bh_log h, bi_right (bh_state h)) /\
  sends_numbered (ic_base c0) (bh_log h) (ic_base (bi_right (bh_state h))) /\ (shutdowns (bh_log h) <= 1)%nat /\
  (forall e, bi_up (bh_state h) = CopyEnd (Some e) [] \/ bi_down (bh_state h) = CopyEnd (Some e) [] ->
    left_closed (bh_state h) = true /\ right_closed (bh_state h) = true) /\
  (bi_main (bh_state h) = MainDone -> left_closed (bh_state h) = true /\ right_closed (bh_state h) = true).
Proof.
  intros Hf Hw Hu Hrun. destruct (bi_run_inv _ _ _ Hf Hw Hu Hrun) as [[R1 R2 _ _ _] _ [C3 C4 C5] _ _ _].
  split; [done|]. split; [exact (ci_numbered _ _ R2)|]. split.
  - pose proof (ci_shutdowns _ _ R2) as Hs. cbn [fst snd] in Hs. destruct (closed _); lia.
  - split; [|intros E; by rewrite E in C5].
    intros e [E|E]; [rewrite E in C3|rewrite E in C4]; cbn in *;
      [destruct C3 as [[?|?%elem_of_nil] [?|?%elem_of_nil]]|destruct C4 as [[?|?%elem_of_nil] [?|?%elem_of_nil]]]; done.
Qed.

(** ** An exchange: a request, an answer, and the end of both. *)
Definition example_right : InboundConnection := NewInboundConnection 7 4 4 0.

Definition example_relay : list bi_label :=
  [BLeftRead (Ok [x01; x02; x03]); BDeliver (newDataBlock 0 7 0 [x0a; x0b]); BRightWrite; BRightBlock 1;
   BRightWritten; BRightRead (fun _ => 1) (fun _ => false); BLeftWrite None; BLeftRead (Err EOF); BUpOp 2; BUpOp 2;
   BDeliver (NewDisconnectBlock 3 7 1 ShutdownBoth); BRightRead (fun _ => 3) (fun _ => false);
   BDownOp 4; BDownOp 4; BMain 5; BMain 5].

Lemma relay_copies_witness :
  exists h, Outbound.tcp_out (bi_left (bh_state h)) = [x0a; x0b] /\ bh_in h = [x01; x02; x03] /\
  concat (data_of <$> bh_log h) `prefix_of` bh_in h /\ (length (late (bh_log h)) <= copy_size)%nat.
Proof.
  destruct (run_succeeds (match run bi_hstep (bi_init Outbound.new_tcp example_right) example_relay with
    | Some h => if decide (Outbound.tcp_out (bi_left (bh_state h)) = [x0a; x0b] /\ bh_in h = [x01; x02; x03])
                then Some h else None
    | None => None end)) as [h E']; [vm_compute; reflexivity|].
  destruct (run bi_hstep (bi_init Outbound.new_tcp example_right) example_relay) as [h0|] eqn:E; [|done].
  case_decide as Hd; [|done]. destruct Hd as [H1 H2]. exists h0. split; [exact H1|]. split; [exact H2|].
  destruct (relay_copies example_right example_relay h0) as (P1 & _ & _ & _ & _ & P6 & _).
  - apply (bool_decide_unpack (fresh example_right)). vm_compute. reflexivity.
  - apply NewByteRingBuffer_wf.
  - split; reflexivity || discriminate.
  - exact E.
  - split; [exact P1|exact P6].
Defined.

Lemma relay_closes_witness :
  exists h, bi_main (bh_state h) = MainDone /\ left_closed (bh_state h) = true /\ right_closed (bh_state h) = true /\
  (shutdowns (bh_log h) <= 1)%nat.
Proof.
  destruct (run_succeeds (match run bi_hstep (bi_init Outbound.new_tcp example_right) example_relay with
    | Some h => match bi_main (bh_state h) with MainDone => Some h | _ => None end
    | None => None end)) as [h E']; [vm_compute; reflexivity|].
  destruct (run bi_hstep (bi_init Outbound.new_tcp example_right) example_relay) as [h0|] eqn:E; [|done].
  destruct (bi_main (bh_state h0)) eqn:Em; [done..|]. exists h0. split; [exact Em|].
  destruct (relay_closes example_right example_relay h0) as (_ & _ & P3 & _ & P5).
  - apply (bool_decide_unpack (fresh example_right)). vm_compute. reflexivity.
  - apply NewByteRingBuffer_wf.
  - split; reflexivity || discriminate.
  - exact E.
  - destruct (P5 Em) as [P6 P7]. split; [exact P6|]. split; [exact P7|exact P3].
Defined.

(** ** Data behind the end. The copier going up is in [Write] behind its check when the
    write to the application fails and the other copier closes both ends: the block that
    says that the writing is over is followed by the bytes of the write, which the copier
    takes for sent. *)
Definition example_late : list bi_label :=
  [BLeftRead (Ok [x01; x02; x03]); BRightWrite; BDeliver (newDataBlock 0 7 0 [x0a; x0b]);
   BRightRead (fun _ => 1) (fun _ => false); BLeftWrite (Some 0%nat); BDownOp 2; BDownOp 2; BDownOp 2; BDownOp 2;
   BRightBlock 3; BRightWritten].

Theorem relay_writes_after_close :
  exists h, run bi_hstep (bi_init Outbound.new_tcp example_right) example_late = Some h /\
    late (bh_log h) = [x01; x02; x03] /\ bi_up (bh_state h) = CopyRead.
Proof.
  destruct (run_succeeds_with (run bi_hstep (bi_init Outbound.new_tcp example_right) example_late)
    (fun h => bool_decide (late (bh_log h) = [x01; x02; x03]) && match bi_up (bh_state h) with CopyRead => true | _ => false end))
    as (h & Hr & [Hl%bool_decide_eq_true_1 Hu]%andb_prop); [vm_compute; reflexivity|].
  exists h. split; [exact Hr|]. split; [exact Hl|]. by destruct (bi_up (bh_state h)).
Qed.
