(* ===== verification/Tunnel.v ===== *)
(** tunnel_pool/tunnel.go: one tunnel, a connection to the other peer that
    carries whole blocks: the exchange of peer IDs, the relay of one block each
    way, the keep-alive tick and the relay of the outgoing queues. *)

From S2P Require Import Prelude GoIO Block Stats.

Local Open Scope Z_scope.

(** The package's variables (tunnel_pool/const.go), which the configuration may
    overwrite before anything starts, and the values they are declared with. *)
Class TunnelVars : Type := mkTunnelVars {
  PingInterval : Z;
  TunnelRecvTimeoutSec : Z;
  ErrorWaitSec : Z;
  SendQueueSize : nat;
  RecvQueueSize : nat;
}.

Definition const_go : TunnelVars := mkTunnelVars 30 40 3 64 64.

(** [tn_closed]: [Close()] was called on the connection; [tn_cancelled]: the
    context is cancelled. *)
Record Tunnel (C : Type) : Type := mkTunnel {
  Conn : C;
  tn_closed : bool;
  tn_cancelled : bool;
  tunnelID : Z;
  peerID : Z;
  tn_RecvBytes : Z;
  tn_SentBytes : Z;
  tn_LastActivity : Z;
  tn_LatencyNano : Z;
  IsClientMode : bool;
  IsActive : bool;
}.
Arguments mkTunnel {C} _ _ _ _ _ _ _ _ _ _ _.
Arguments Conn {C} _.
Arguments tn_closed {C} _.
Arguments tn_cancelled {C} _.
Arguments tunnelID {C} _.
Arguments peerID {C} _.
Arguments tn_RecvBytes {C} _.
Arguments tn_SentBytes {C} _.
Arguments tn_LastActivity {C} _.
Arguments tn_LatencyNano {C} _.
Arguments IsClientMode {C} _.
Arguments IsActive {C} _.

Section Fields.
Context {C : Type}.
Implicit Types (t : Tunnel C).

Definition GetLastActive t : Z := tn_LastActivity t.
Definition GetLatencyNano t : Z := tn_LatencyNano t.
Definition GetPeerID t : Z := peerID t.

Definition set_Conn (c : C) t : Tunnel C :=
  mkTunnel c (tn_closed t) (tn_cancelled t) (tunnelID t) (peerID t) (tn_RecvBytes t) (tn_SentBytes t)
    (tn_LastActivity t) (tn_LatencyNano t) (IsClientMode t) (IsActive t).
Definition set_peerID (p : Z) t : Tunnel C :=
  mkTunnel (Conn t) (tn_closed t) (tn_cancelled t) (tunnelID t) p (tn_RecvBytes t) (tn_SentBytes t)
    (tn_LastActivity t) (tn_LatencyNano t) (IsClientMode t) (IsActive t).
Definition add_SentBytes (n : Z) t : Tunnel C :=
  mkTunnel (Conn t) (tn_closed t) (tn_cancelled t) (tunnelID t) (peerID t) (tn_RecvBytes t)
    (u64 (tn_SentBytes t + n)) (tn_LastActivity t) (tn_LatencyNano t) (IsClientMode t) (IsActive t).
Definition add_RecvBytes (n : Z) t : Tunnel C :=
  mkTunnel (Conn t) (tn_closed t) (tn_cancelled t) (tunnelID t) (peerID t)
    (u64 (tn_RecvBytes t + n)) (tn_SentBytes t) (tn_LastActivity t) (tn_LatencyNano t) (IsClientMode t)
    (IsActive t).
Definition set_IsActive (b : bool) t : Tunnel C :=
  mkTunnel (Conn t) (tn_closed t) (tn_cancelled t) (tunnelID t) (peerID t) (tn_RecvBytes t) (tn_SentBytes t)
    (tn_LastActivity t) (tn_LatencyNano t) (IsClientMode t) b.

Definition SetLastActive (now : Z) t : Tunnel C :=
  mkTunnel (Conn t) (tn_closed t) (tn_cancelled t) (tunnelID t) (peerID t) (tn_RecvBytes t) (tn_SentBytes t)
    now (tn_LatencyNano t) (IsClientMode t) true.
Definition SetLatencyNano (latency : Z) t : Tunnel C :=
  mkTunnel (Conn t) (tn_closed t) (tn_cancelled t) (tunnelID t) (peerID t) (tn_RecvBytes t) (tn_SentBytes t)
    (tn_LastActivity t) latency (IsClientMode t) (IsActive t).
Definition SetLatencyNanoSince (now timestamp : Z) t : Tunnel C :=
  SetLatencyNano (i64 (now - timestamp)) t.

(** [tunnel.closeThenCancel()]. *)
Definition closeThenCancel t : Tunnel C :=
  mkTunnel (Conn t) true true (tunnelID t) (peerID t) (tn_RecvBytes t) (tn_SentBytes t)
    (tn_LastActivity t) (tn_LatencyNano t) (IsClientMode t) (IsActive t).

(** [newTunnelWithID] around the (possibly encrypted) connection [c]; [id] is
    the random number drawn. *)
Definition newTunnelWithID (c : C) (id peer : Z) (client : bool) : Tunnel C :=
  mkTunnel c false false id peer 0 0 0 0 client false.
End Fields.

Section Relay.
Context {C : Type} `{Reader C, Writer C}.
Implicit Types (t : Tunnel C) (g : global_stats).

(** [io.Copy] of bytes to the tunnel's connection; a closed one fails. *)
Definition conn_write (data : list byte) t : nat * option error * Tunnel C :=
  if tn_closed t then (0%nat, Some ErrClosed, t)
  else let '(n, oe, c) := copy_bytes data (Conn t) in (n, oe, set_Conn c t).

(** * The exchange of peer IDs *)

(** [io.CopyN(conn, reader, 4)] of four bytes is one write as well. *)
Definition sendPeerID (p : Z) t : option error * Tunnel C :=
  let '(n, oe, t) := conn_write (le_put 4 p) t in (oe, t).

(** A read that would wait for ever ends with the 30-second deadline. *)
Definition recvPeerID t : result error Z * Tunnel C :=
  match ReadFull 4 (Conn t) with
  | None => (Err ErrTimeout, t)
  | Some (_, Some e, c) => (Err e, set_Conn c t)
  | Some (b, None, c) => (Ok (le_get b), set_Conn c t)
  end.

Definition activeExchangePeerID t : option error * Tunnel C :=
  match sendPeerID (peerID t) t with
  | (Some e, t) => (Some e, t)
  | (None, t) =>
      match recvPeerID t with
      | (Err e, t) => (Some e, t)
      | (Ok p, t) =>
          if decide (peerID t = p) then (None, t) else (Some (ErrMsg "invalid exchanging"), t)
      end
  end.

Definition passiveExchangePeerID t : option error * Tunnel C :=
  match recvPeerID t with
  | (Err e, t) => (Some e, t)
  | (Ok p, t) =>
      match sendPeerID p t with
      | (Some e, t) => (Some e, t)
      | (None, t) => (None, set_peerID p t)
      end
  end.

Definition NewActiveTunnel (c : C) (id peer : Z) : option error * Tunnel C :=
  activeExchangePeerID (newTunnelWithID c id peer true).

Definition NewPassiveTunnel (c : C) (id : Z) : option error * Tunnel C :=
  passiveExchangePeerID (newTunnelWithID c id 0 false).

(** * Sending one block *)

(** [tunnel.packThenSend(blk, retryQueue)]; [retry]: the queue is not nil.  The
    block handed to the retrying goroutine comes first. *)
Definition packThenSend (blk : Block) (retry : bool) g t : option Block * global_stats * Tunnel C :=
  let '(dataToSend, blk) := Pack blk in
  let '(n, oe, t) := conn_write dataToSend t in
  let ok := bool_decide (oe = None /\ n = length dataToSend) in
  let '(g, t) :=
    if ok then
      (on_mode (IsClientMode t) (AddSentBytes (Z.of_nat n)) g, add_SentBytes (Z.of_nat n) t)
    else (g, t) in
  if negb ok && retry then (Some blk, g, closeThenCancel t) else (None, g, t).

(** * Receiving one block *)

(** A block that was parsed, up to the [select] that forwards it: the block to
    forward, with the cache [Pack] has filled. *)
Definition InboundRelay_block (now : nat -> Z) (blk : Block) g t
    : outcome (option Block * global_stats * Tunnel C) :=
  let t := SetLastActive (now 0%nat) t in
  let '(packed, blk) := Pack blk in
  let receivedBytes := Z.of_nat (length packed) in
  let g := on_mode (IsClientMode t) (AddRecvBytes receivedBytes) g in
  let t := add_RecvBytes receivedBytes t in
  if decide (Type_ blk = TypePing) then
    match Uint64 (BlockData blk) with
    | None => Panic
    | Some v =>
        let t := SetLatencyNano (i64 v) t in
        let pongblk := NewPongBlock (now 1%nat) 0 0 (u64 (TimeStamp blk)) in
        let '(_, g, t) := packThenSend pongblk false g t in Ret (None, g, t)
    end
  else if decide (Type_ blk = TypePong) then
    match Uint64 (BlockData blk) with
    | None => Panic
    | Some v => Ret (None, g, SetLatencyNanoSince (now 1%nat) (i64 v) t)
    end
  else Ret (Some blk, g, t).

(** The default branch of the loop of [InboundRelay]: a read that finds the
    connection closed or broken closes the tunnel. *)
Definition InboundRelay_read (now : nat -> Z) g t : outcome (option Block * global_stats * Tunnel C) :=
  if tn_closed t then Ret (None, g, closeThenCancel t)
  else
    match NewBlockFromReader (Conn t) with
    | None => Blocks
    | Some (Err _, c) => Ret (None, g, closeThenCancel (set_Conn c t))
    | Some (Ok blk, c) => InboundRelay_block now blk g (set_Conn c t)
    end.

(** * Keep-alive *)

(** Seconds since the last activity, [(time.Now().UnixNano()-last)/1e9]. *)
Definition idle_seconds (now : Z) t : Z := Z.quot (i64 (now - GetLastActive t)) (10 ^ 9).

(** One tick of [PingPong]; the clock is read at each check and for the block. *)
Definition PingPong_tick `{V : TunnelVars} (now : nat -> Z) g t : global_stats * Tunnel C :=
  let '(g, t) :=
    if decide (PingInterval < idle_seconds (now 0%nat) t) then
      let blk := NewPingBlock (now 1%nat) (tunnelID t) 0 (u64 (tn_LatencyNano t)) in
      let '(_, g, t) := packThenSend blk false g t in (g, t)
    else (g, t) in
  if decide (PingInterval + TunnelRecvTimeoutSec < idle_seconds (now 2%nat) t)
  then (g, closeThenCancel (set_IsActive false t)) else (g, t).
End Relay.

(** * Facts about the operations *)

Section Facts.
Context {C : Type} `{LawfulReader C} `{!Writer C, !LawfulWriter C}.
Implicit Types (t : Tunnel C) (g : global_stats).

(** What a write leaves alone. *)
Record same_tunnel (t t' : Tunnel C) : Prop := {
  st_closed : tn_closed t' = tn_closed t;
  st_cancelled : tn_cancelled t' = tn_cancelled t;
  st_id : tunnelID t' = tunnelID t;
  st_peer : peerID t' = peerID t;
  st_recv : tn_RecvBytes t' = tn_RecvBytes t;
  st_last : tn_LastActivity t' = tn_LastActivity t;
  st_latency : tn_LatencyNano t' = tn_LatencyNano t;
  st_mode : IsClientMode t' = IsClientMode t;
  st_active : IsActive t' = IsActive t;
}.

Lemma conn_write_spec data t n oe t' :
  conn_write data t = (n, oe, t') ->
  (n <= length data)%nat /\ emitted (Conn t') = emitted (Conn t) ++ take n data /\
  (oe = None -> n = length data /\ tn_closed t = false) /\ tn_SentBytes t' = tn_SentBytes t /\
  same_tunnel t t'.
Proof.
  unfold conn_write. destruct (tn_closed t) eqn:Ec.
  - intros [= <- <- <-]. rewrite app_nil_r. split; [lia|]. done.
  - destruct (copy_bytes data (Conn t)) as [[m oe'] c] eqn:Ew.
    apply copy_bytes_spec in Ew as (H1 & H2 & H3). intros [= <- <- <-].
    split; [done|]. split; [done|]. split; [auto|]. split; [done|]. by constructor.
Qed.

(** One block sent, on every branch. *)
Lemma packThenSend_spec blk retry g t rb g' t' :
  packed_ok blk -> packThenSend blk retry g t = (rb, g', t') ->
  (rb = None /\ tn_closed t = false /\ emitted (Conn t') = emitted (Conn t) ++ encode blk /\
   tn_SentBytes t' = u64 (tn_SentBytes t + Z.of_nat (length (encode blk))) /\
   g' = on_mode (IsClientMode t) (AddSentBytes (Z.of_nat (length (encode blk)))) g /\ same_tunnel t t') \/
  (exists n, (n <= length (encode blk))%nat /\ emitted (Conn t') = emitted (Conn t) ++ take n (encode blk) /\
   tn_SentBytes t' = tn_SentBytes t /\ g' = g /\
   if retry then rb = Some (Pack blk).2 /\ tn_closed t' = true /\ tn_cancelled t' = true
   else rb = None /\ same_tunnel t t').
Proof.
  intros Hp. unfold packThenSend.
  pose proof (Pack_encode blk Hp) as Hd. destruct (Pack blk) as [data blk'] eqn:Epk. cbn [fst] in Hd. subst data.
  destruct (conn_write (encode blk) t) as [[n oe] t1] eqn:Ew.
  apply conn_write_spec in Ew as (H1 & H2 & H3 & H4 & H5).
  cbv zeta. case_bool_decide as Hok; cbn [negb andb].
  - destruct Hok as [-> ->]. destruct (H3 eq_refl) as [_ Hc]. intros [= <- <- <-]. left.
    rewrite firstn_all in H2. destruct H5. rewrite st_mode0. cbn. rewrite H4.
    split_and!; try done.
  - intros E. right. exists n. destruct retry; simplify_eq; (split; [done|]).
    + cbn. done.
    + done.
Qed.

(** Reading back what the other side's [sendPeerID] wrote. *)
Lemma recvPeerID_spec t p rest oe :
  is_u32 p -> delivers (Conn t) (le_put 4 p ++ rest) oe ->
  exists c, recvPeerID t = (Ok p, set_Conn c t) /\ delivers c rest oe.
Proof.
  intros Hp Hd. unfold recvPeerID.
  destruct (ReadFull_enough 4 (Conn t) _ oe Hd) as (c & -> & Hd');
    [rewrite length_app, length_le_put; lia|].
  exists c. rewrite take_app_length' by (by rewrite length_le_put).
  rewrite drop_app_length' in Hd' by (by rewrite length_le_put).
  split; [|done]. rewrite le_get_put. do 3 f_equal. by apply u32_small.
Qed.

Lemma recvPeerID_short t bs e :
  (length bs < 4)%nat -> delivers (Conn t) bs (Some e) ->
  exists c, recvPeerID t = (Err (short_error bs e), set_Conn c t).
Proof.
  intros Hl Hd. unfold recvPeerID.
  destruct (ReadFull_short 4 (Conn t) bs e Hd Hl) as (c & -> & _). eauto.
Qed.
End Facts.

Section Exchange.
Context {C : Type} `{Duplex C}.
Implicit Types (t : Tunnel C).

Lemma sendPeerID_spec p t oe t' bs e :
  sendPeerID p t = (oe, t') -> delivers (Conn t) bs e ->
  same_tunnel t t' /\ delivers (Conn t') bs e /\
  (oe = None -> emitted (Conn t') = emitted (Conn t) ++ le_put 4 p).
Proof.
  unfold sendPeerID. destruct (conn_write (le_put 4 p) t) as [[n err] t1] eqn:E. intros [= <- <-] Hd.
  pose proof (conn_write_spec _ _ _ _ _ E) as (_ & W2 & W3 & _ & W4). split; [done|]. split.
  - unfold conn_write in E. destruct (tn_closed t); [by simplify_eq|].
    destruct (copy_bytes _ _) as [[m err'] c] eqn:Ec. simplify_eq. cbn.
    by eapply copy_bytes_delivers.
  - intros ->. destruct (W3 eq_refl) as [-> _]. by rewrite firstn_all in W2.
Qed.

Lemma recvPeerID_emitted t r t' : recvPeerID t = (r, t') -> emitted (Conn t') = emitted (Conn t).
Proof.
  unfold recvPeerID. destruct (ReadFull 4 (Conn t)) as [[[b [e|]] c]|] eqn:E;
    intros [= <- <-]; [|..|done]; by apply ReadFull_emitted in E.
Qed.

(** The passive end takes the ID it is sent and answers with it. *)
Lemma NewPassiveTunnel_spec (cs : C) (ids p : Z) (rs : list byte) (e1 : option error) (ts : Tunnel C) :
  is_u32 p -> delivers cs (le_put 4 p ++ rs) e1 -> NewPassiveTunnel cs ids = (None, ts) ->
  peerID ts = p /\ emitted (Conn ts) = emitted cs ++ le_put 4 p /\ delivers (Conn ts) rs e1.
Proof.
  intros Hp Hs. unfold NewPassiveTunnel, passiveExchangePeerID.
  destruct (recvPeerID_spec (newTunnelWithID cs ids 0 false) p rs e1 Hp Hs) as (c1 & Er & Hd1).
  pose proof (recvPeerID_emitted _ _ _ Er) as He. rewrite Er.
  destruct (sendPeerID p _) as [[e|] t1] eqn:Esd; [done|]. intros [= <-].
  apply sendPeerID_spec with (bs := rs) (e := e1) in Esd as (_ & Hd2 & Hem); [|exact Hd1].
  cbn [set_peerID Conn]. rewrite Hem by done. rewrite He. done.
Qed.

(** C34: a completed exchange of peer IDs. A passive tunnel takes the ID it was
    sent and answers with it; an active tunnel that succeeds was answered with
    its own ID and anything else is an error; both leave the streams at the first
    byte after the IDs. *)
Theorem peer_exchange (cs cc : C) (ids idc p q : Z) (rs rc : list byte) (e1 e2 : option error)
    (ts tc : Tunnel C) (err : option error) :
  is_u32 p -> is_u32 q ->
  delivers cs (le_put 4 p ++ rs) e1 -> delivers cc (le_put 4 q ++ rc) e2 ->
  NewPassiveTunnel cs ids = (None, ts) -> NewActiveTunnel cc idc p = (err, tc) ->
  (peerID ts = p /\ emitted (Conn ts) = emitted cs ++ le_put 4 p /\ delivers (Conn ts) rs e1) /\
  (q <> p -> err <> None) /\
  (err = None -> peerID tc = p /\ emitted (Conn tc) = emitted cc ++ le_put 4 p /\ delivers (Conn tc) rc e2).
Proof.
  intros Hp Hq Hs Hc Ep Ea. split.
  - by apply (NewPassiveTunnel_spec cs ids).
  - unfold NewActiveTunnel, activeExchangePeerID in Ea.
    destruct (sendPeerID _ _) as [[e|] t1] eqn:Esd; [by injection Ea as <- <-|].
    apply sendPeerID_spec with (bs := le_put 4 q ++ rc) (e := e2) in Esd as (Hst & Hd2 & Hem); [|exact Hc].
    destruct (recvPeerID_spec t1 q rc e2 Hq Hd2) as (c1 & Er & Hd1).
    pose proof (recvPeerID_emitted _ _ _ Er) as He. rewrite Er in Ea.
    change (peerID (set_Conn c1 t1)) with (peerID t1) in Ea. rewrite (st_peer _ _ Hst) in Ea.
    cbn [newTunnelWithID peerID] in Ea.
    case_decide as Hpq; injection Ea as <- <-; [|by split].
    split; [congruence|]. intros _. rewrite He, Hem by done.
    split; [exact (st_peer _ _ Hst)|done].
Qed.
End Exchange.

Lemma peer_exchange_witness :
  let cs := mkDuplex (Stream [le_put 4 77; [x01]] None) (Sink [] None) in
  let cc := mkDuplex (Stream [le_put 4 77] None) (Sink [] None) in
  exists ts tc : Tunnel (duplex stream sink),
  (peerID ts = 77 /\ emitted (Conn ts) = emitted cs ++ le_put 4 77 /\ delivers (Conn ts) [x01] None) /\
  (77 <> 77 -> @None error <> None) /\
  (@None error = None ->
   peerID tc = 77 /\ emitted (Conn tc) = emitted cc ++ le_put 4 77 /\ delivers (Conn tc) [] None).
Proof.
  intros cs cc.
  destruct (NewPassiveTunnel cs 1) as [[e|] ts] eqn:Es; [vm_compute in Es; discriminate|].
  destruct (NewActiveTunnel cc 2 77) as [[e|] tc] eqn:Ec; [vm_compute in Ec; discriminate|].
  exists ts, tc. refine (peer_exchange cs cc 1 2 77 77 [x01] [] None None ts tc None _ _ _ _ Es Ec);
    [unfold is_u32; lia..|by vm_compute|by vm_compute].
Defined.

(** * Keep-alive and latency *)

(** C35: what happens to one block put on a tunnel. Either all of its bytes and
    nothing else went out and exactly they were counted, or the write failed: then
    a block of the queues closes the tunnel and is handed on to be retried, whole. *)
Theorem send_or_retry {C} `{!Writer C, !LawfulWriter C} (blk : Block) (g g' : global_stats)
    (t t' : Tunnel C) (rb : option Block) :
  packed_ok blk -> packThenSend blk true g t = (rb, g', t') ->
  (rb = None /\ tn_closed t' = false /\ emitted (Conn t') = emitted (Conn t) ++ encode blk /\
   tn_SentBytes t' = u64 (tn_SentBytes t + Z.of_nat (length (encode blk))) /\
   g' = on_mode (IsClientMode t) (AddSentBytes (Z.of_nat (length (encode blk)))) g) \/
  (exists rblk, rb = Some rblk /\ received rblk = received blk /\ packed_ok rblk /\
   tn_closed t' = true /\ tn_cancelled t' = true /\ g' = g /\ tn_SentBytes t' = tn_SentBytes t /\
   exists n, emitted (Conn t') = emitted (Conn t) ++ take n (encode blk)).
Proof.
  intros Hp E. apply packThenSend_spec in E as [(-> & Hc & He & Hs & -> & Hst)|(n & _ & He & Hs & -> & -> & Hc & Hk)];
    [left|right|done].
  - split; [done|]. rewrite (st_closed _ _ Hst). done.
  - exists (Pack blk).2. rewrite Pack_received. split_and!; eauto using Pack_packed_ok.
Qed.

(** A socket that takes [n] more bytes. *)
Definition example_tunnel (room : option nat) : Tunnel (duplex stream sink) :=
  newTunnelWithID (mkDuplex (Stream [] None) (Sink [] room)) 5 77 true.

Lemma send_or_retry_witness :
  exists rb g' (t' : Tunnel (duplex stream sink)),
  (rb = None /\ tn_closed t' = false /\
   emitted (Conn t') = emitted (Conn (example_tunnel (Some 10%nat))) ++ encode (newDataBlock 0 1 2 [x01]) /\
   tn_SentBytes t' = u64 (tn_SentBytes (example_tunnel (Some 10%nat)) +
     Z.of_nat (length (encode (newDataBlock 0 1 2 [x01])))) /\
   g' = on_mode true (AddSentBytes (Z.of_nat (length (encode (newDataBlock 0 1 2 [x01]))))) (InitStats 10)) \/
  (exists rblk, rb = Some rblk /\ received rblk = received (newDataBlock 0 1 2 [x01]) /\ packed_ok rblk /\
   tn_closed t' = true /\ tn_cancelled t' = true /\ g' = InitStats 10 /\
   tn_SentBytes t' = tn_SentBytes (example_tunnel (Some 10%nat)) /\
   exists n, emitted (Conn t') = emitted (Conn (example_tunnel (Some 10%nat))) ++
     take n (encode (newDataBlock 0 1 2 [x01]))).
Proof.
  destruct (packThenSend (newDataBlock 0 1 2 [x01]) true (InitStats 10) (example_tunnel (Some 10%nat)))
    as [[rb g'] t'] eqn:E.
  exists rb, g', t'. apply (send_or_retry (newDataBlock 0 1 2 [x01]) (InitStats 10) g'
    (example_tunnel (Some 10%nat)) t' rb); [by right|exact E].
Defined.

Lemma Pack_fields b :
  Type_ (Pack b).2 = Type_ b /\ BlockData (Pack b).2 = BlockData b /\ TimeStamp (Pack b).2 = TimeStamp b.
Proof. unfold Pack. by destruct (packed b). Qed.

Lemma i64_u64_u64 z : is_i64 z -> i64 (u64 (u64 z)) = z.
Proof. intros. unfold u64 at 1. rewrite Zmod_small by apply u64_range. by apply i64_u64. Qed.

Lemma Uint64_field z : Uint64 (le_put 8 z) = Some (u64 z).
Proof. rewrite <-(app_nil_r (le_put 8 z)). apply Uint64_put. Qed.

Section Ping.
Context {C : Type} `{!Writer C, !LawfulWriter C} `{!Reader C}.
Implicit Types (t : Tunnel C) (g : global_stats).

(** The tunnel after the bookkeeping of a received block. *)
Definition noted (now : Z) (blk : Block) t : Tunnel C :=
  add_RecvBytes (Z.of_nat (length (Pack blk).1)) (SetLastActive now t).

(** [InboundRelay] on the three kinds of block. *)
Lemma receive_ping now blk g t v :
  Type_ blk = TypePing -> Uint64 (BlockData blk) = Some v ->
  InboundRelay_block now blk g t =
    let g := on_mode (IsClientMode t) (AddRecvBytes (Z.of_nat (length (Pack blk).1))) g in
    let '(_, g, t) := packThenSend (NewPongBlock (now 1%nat) 0 0 (u64 (TimeStamp blk))) false g
                        (SetLatencyNano (i64 v) (noted (now 0%nat) blk t)) in Ret (None, g, t).
Proof.
  intros Ht Hv. unfold InboundRelay_block, noted. destruct (Pack_fields blk) as (E1 & E2 & E3).
  destruct (Pack blk) as [p b]. cbn [fst snd] in *. rewrite E1, E2, E3, Hv.
  rewrite decide_True by done. done.
Qed.

Lemma receive_pong now blk g t v :
  Type_ blk = TypePong -> Uint64 (BlockData blk) = Some v ->
  InboundRelay_block now blk g t =
    Ret (None, on_mode (IsClientMode t) (AddRecvBytes (Z.of_nat (length (Pack blk).1))) g,
         SetLatencyNanoSince (now 1%nat) (i64 v) (noted (now 0%nat) blk t)).
Proof.
  intros Ht Hv. unfold InboundRelay_block, noted. destruct (Pack_fields blk) as (E1 & E2 & E3).
  destruct (Pack blk) as [p b]. cbn [fst snd] in *. rewrite E1, E2, Hv, Ht.
  rewrite decide_False, decide_True by done. done.
Qed.

Lemma receive_other now blk g t :
  Type_ blk <> TypePing -> Type_ blk <> TypePong ->
  InboundRelay_block now blk g t =
    Ret (Some (Pack blk).2, on_mode (IsClientMode t) (AddRecvBytes (Z.of_nat (length (Pack blk).1))) g,
         noted (now 0%nat) blk t).
Proof.
  intros H1 H2. unfold InboundRelay_block, noted. destruct (Pack_fields blk) as (E1 & _ & _).
  destruct (Pack blk) as [p b]. cbn [fst snd] in *. rewrite E1.
  by rewrite !decide_False by done.
Qed.

(** Round-trip latency. The tunnel that answers a ping sends one pong that
    carries the ping's time stamp, takes over the latency the ping reports and
    forwards nothing; the tunnel that gets this pong forwards nothing either and
    its latency becomes the time since it sent the ping. *)
Theorem ping_pong_latency (t1 t2 : Tunnel C) (g : global_stats) (now1 : Z) (now2 now3 : nat -> Z) :
  is_i64 now1 -> is_i64 (tn_LatencyNano t1) ->
  let ping := NewPingBlock now1 (tunnelID t1) 0 (u64 (tn_LatencyNano t1)) in
  let pong := NewPongBlock (now2 1%nat) 0 0 (u64 now1) in
  (exists g' t2' n, InboundRelay_block now2 ping g t2 = Ret (None, g', t2') /\
     tn_LatencyNano t2' = tn_LatencyNano t1 /\ tn_LastActivity t2' = now2 0%nat /\
     emitted (Conn t2') = emitted (Conn t2) ++ take n (encode pong) /\
     (tn_SentBytes t2' <> tn_SentBytes t2 -> n = length (encode pong))) /\
  (exists g' t1', InboundRelay_block now3 pong g t1 = Ret (None, g', t1') /\
     tn_LatencyNano t1' = i64 (now3 1%nat - now1) /\ Conn t1' = Conn t1).
Proof.
  intros Hn Hl ping pong. split.
  - rewrite (receive_ping now2 ping g t2 (u64 (u64 (tn_LatencyNano t1))) eq_refl (Uint64_field _)). cbv zeta.
    destruct (packThenSend _ _ _ _) as [[rb g'] t'] eqn:E. exists g', t'.
    apply packThenSend_spec in E as [(_ & _ & He & _ & _ & Hst)|(n & _ & He & Hs & _ & _ & Hst)]; [..|by left].
    + exists (length (encode pong)). rewrite firstn_all. split; [done|].
      rewrite (st_latency _ _ Hst), (st_last _ _ Hst). split; [by apply i64_u64_u64|]. done.
    + exists n. split; [done|]. rewrite (st_latency _ _ Hst), (st_last _ _ Hst).
      split; [by apply i64_u64_u64|]. split; [done|]. split; [done|]. intros Hne. by destruct Hne.
  - rewrite (receive_pong now3 pong g t1 (u64 (u64 now1)) eq_refl (Uint64_field _)).
    eexists _, _. split; [done|]. split; [|done]. cbn. by rewrite i64_u64_u64.
Qed.

(** The ping part of a tick. *)
Definition ping_part `{V : TunnelVars} (now : nat -> Z) g t : global_stats * Tunnel C :=
  if decide (PingInterval < idle_seconds (now 0%nat) t) then
    let '(_, g, t) := packThenSend (NewPingBlock (now 1%nat) (tunnelID t) 0 (u64 (tn_LatencyNano t))) false g t in
    (g, t)
  else (g, t).

Lemma ping_part_spec `{V : TunnelVars} now g t g1 t1 :
  ping_part now g t = (g1, t1) ->
  same_tunnel t t1 /\
  if decide (PingInterval < idle_seconds (now 0%nat) t) then
    exists n, emitted (Conn t1) = emitted (Conn t) ++
      take n (encode (NewPingBlock (now 1%nat) (tunnelID t) 0 (u64 (tn_LatencyNano t))))
  else g1 = g /\ t1 = t.
Proof.
  unfold ping_part. case_decide; [|by intros [= <- <-]].
  destruct (packThenSend _ _ _ _) as [[rb g'] t'] eqn:E. intros [= <- <-].
  apply packThenSend_spec in E as [(_ & _ & He & _ & _ & Hst)|(n & _ & He & _ & _ & _ & Hst)]; [..|by left];
    (split; [done|]); rewrite He; [|by eexists].
  exists (length (encode (NewPingBlock (now 1%nat) (tunnelID t) 0 (u64 (tn_LatencyNano t))))).
  by rewrite firstn_all.
Qed.

Lemma PingPong_tick_parts `{V : TunnelVars} now g t :
  PingPong_tick now g t =
  let '(g, t) := ping_part now g t in
  if decide (PingInterval + TunnelRecvTimeoutSec < idle_seconds (now 2%nat) t)
  then (g, closeThenCancel (set_IsActive false t)) else (g, t).
Proof.
  unfold PingPong_tick, ping_part. case_decide; [|done]. by destruct (packThenSend _ _ _ _) as [[]].
Qed.

Lemma idle_seconds_lt b now t :
  0 <= now - tn_LastActivity t < 2 ^ 63 ->
  b < idle_seconds now t <-> (b + 1) * 10 ^ 9 <= now - tn_LastActivity t.
Proof.
  intros Hr. unfold idle_seconds, GetLastActive.
  assert (i64 (now - tn_LastActivity t) = now - tn_LastActivity t) as ->
    by (unfold i64; rewrite Z.mod_small by lia; lia).
  rewrite Z.quot_div_nonneg by lia. zlia.
Qed.

(** The keep-alive tick. A tunnel that received something within the last
    [PingInterval] whole seconds is left alone; one silent for longer is pinged;
    and the tick closes a tunnel when, and only when, it has been silent for longer
    than [PingInterval + TunnelRecvTimeoutSec] whole seconds. *)
Theorem keep_alive `{V : TunnelVars} (now : nat -> Z) (g g' : global_stats) (t t' : Tunnel C) :
  0 <= TunnelRecvTimeoutSec -> tn_closed t = false -> now 0%nat <= now 2%nat ->
  (forall k, 0 <= now k - tn_LastActivity t < 2 ^ 63) ->
  PingPong_tick now g t = (g', t') ->
  (now 2%nat - tn_LastActivity t < (PingInterval + 1) * 10 ^ 9 -> g' = g /\ t' = t) /\
  ((PingInterval + 1) * 10 ^ 9 <= now 0%nat - tn_LastActivity t ->
   exists n, emitted (Conn t') = emitted (Conn t) ++
     take n (encode (NewPingBlock (now 1%nat) (tunnelID t) 0 (u64 (tn_LatencyNano t))))) /\
  (tn_closed t' = true <->
   (PingInterval + TunnelRecvTimeoutSec + 1) * 10 ^ 9 <= now 2%nat - tn_LastActivity t).
Proof.
  intros Hto Hc Hle Hnow. rewrite PingPong_tick_parts. destruct (ping_part now g t) as [g1 t1] eqn:E.
  apply ping_part_spec in E as [Hst Hp]. pose proof (st_last _ _ Hst) as Hl.
  assert (tn_closed t1 = false) as Hc1 by (rewrite (st_closed _ _ Hst); done).
  pose proof (idle_seconds_lt PingInterval _ _ (Hnow 0%nat)) as H1.
  assert (PingInterval + TunnelRecvTimeoutSec < idle_seconds (now 2%nat) t1 <->
    (PingInterval + TunnelRecvTimeoutSec + 1) * 10 ^ 9 <= now 2%nat - tn_LastActivity t) as H2
    by (rewrite idle_seconds_lt by (rewrite Hl; apply Hnow); by rewrite Hl).
  intros H. split; [|split].
  - intros Hlt. rewrite decide_False in Hp by lia.
    rewrite decide_False in H by (rewrite H2; lia).
    destruct Hp as [-> ->]. by injection H as <- <-.
  - intros Hge. rewrite decide_True in Hp by lia. destruct Hp as [n Hn]. exists n.
    case_decide; injection H as <- <-; exact Hn.
  - rewrite <-H2. case_decide; injection H as <- <-; cbn; rewrite ?Hc1; by split.
Qed.
End Ping.

#[local] Existing Instance const_go.

Lemma ping_pong_latency_witness :
  let t1 := SetLatencyNano 250 (example_tunnel None) in
  let t2 := example_tunnel None in
  let ping := NewPingBlock 1000 5 0 250 in
  let pong := NewPongBlock 1600 0 0 1000 in
  (exists g' t2' n, InboundRelay_block (fun _ => 1600) ping (InitStats 3) t2 = Ret (None, g', t2') /\
     tn_LatencyNano t2' = 250 /\ tn_LastActivity t2' = 1600 /\
     emitted (Conn t2') = emitted (Conn t2) ++ take n (encode pong) /\
     (tn_SentBytes t2' <> tn_SentBytes t2 -> n = length (encode pong))) /\
  (exists g' t1', InboundRelay_block (fun _ => 2300) pong (InitStats 3) t1 = Ret (None, g', t1') /\
     tn_LatencyNano t1' = i64 (2300 - 1000) /\ Conn t1' = Conn t1).
Proof.
  refine (ping_pong_latency (SetLatencyNano 250 (example_tunnel None)) (example_tunnel None) (InitStats 3)
    1000 (fun _ => 1600) (fun _ => 2300) _ _); unfold is_i64; cbn [tn_LatencyNano SetLatencyNano]; lia.
Defined.

Lemma keep_alive_witness :
  let t := SetLastActive 1000 (example_tunnel None) in
  let now (k : nat) := 1000 + 71 * 10 ^ 9 in
  exists g' t',
  (now 2%nat - 1000 < (PingInterval + 1) * 10 ^ 9 -> g' = InitStats 3 /\ t' = t) /\
  ((PingInterval + 1) * 10 ^ 9 <= now 0%nat - 1000 ->
   exists n, emitted (Conn t') = emitted (Conn t) ++ take n (encode (NewPingBlock (now 1%nat) 5 0 (u64 0)))) /\
  (tn_closed t' = true <-> (PingInterval + TunnelRecvTimeoutSec + 1) * 10 ^ 9 <= now 2%nat - 1000).
Proof.
  intros t now. destruct (PingPong_tick now (InitStats 3) t) as [g' t'] eqn:E. exists g', t'.
  refine (keep_alive now (InitStats 3) g' t t' _ eq_refl _ _ E); [done|apply Z.le_refl|].
  intros k. subst now t. cbn [tn_LastActivity SetLastActive]. lia.
Defined.

(** The bytes of a ping that went out only in part stay on the wire of a
    tunnel that stays open: packing a block behind them gives a stream whose next
    block is not that block, whereas without the broken ping it is. *)
Theorem broken_ping_desynchronises :
  exists (t t' : Tunnel (duplex stream sink)) g,
    PingPong_tick (fun _ => 1000 + 31 * 10 ^ 9) (InitStats 3) t = (g, t') /\
    tn_closed t' = false /\ tn_cancelled t' = false /\
    let data := newDataBlock 0 1 0 [x01; x02; x03] in
    (exists r, NewBlockFromReader (Stream [emitted (Conn t) ++ encode data] (Some EOF)) =
       Some (Ok (received data), r)) /\
    (exists b r, NewBlockFromReader (Stream [emitted (Conn t') ++ encode data] (Some EOF)) =
       Some (Ok b, r) /\ b <> received data).
Proof.
  exists (SetLastActive 1000 (example_tunnel (Some 10%nat))). eexists _, _.
  split; [vm_compute; reflexivity|]. split; [done|]. split; [done|]. cbv zeta. split.
  - eexists. vm_compute. reflexivity.
  - eexists _, _. split; [vm_compute; reflexivity|]. vm_compute. discriminate.
Qed.
