(* ===== verification/TunnelPool.v ===== *)
(** tunnel_pool/pool.go and the relay loops of tunnel_pool/tunnel.go: the pool's
    queues, the tunnels that serve them and the goroutines of each tunnel, as a
    transition system over the pool. *)

From S2P Require Import Prelude GoIO Block Stats Tunnel.

Local Open Scope Z_scope.

(** What the pool asks of its manager ([Manager] of manager.go): to be told the
    pool's size, and to start a [DecreaseNotify]. *)
Class Manager (M : Type) : Type := {
  Notify : nat -> M -> M;
  DecreaseNotify_starts : M -> M;
}.

(** Where [OutboundRelay] is: before the check of the context, the [select] on
    the retry queue, or the [select] on both queues. *)
Inductive out_pc : Type := AtCancel | AtRetry | AtMain | OutEnded.

(** Where [InboundRelay] is: at the head of its loop or forwarding a block. *)
Inductive in_pc : Type := InLoop | InForward (blk : Block) | InEnded.

#[export] Instance out_pc_eq_dec : EqDecision out_pc.
Proof. solve_decision. Defined.

(** A tunnel of the pool with its goroutines; [e_waiting]: the goroutine that
    removes it still waits for its context. *)
Record entry (C : Type) : Type := mkEntry {
  e_tunnel : Tunnel C;
  e_out : out_pc;
  e_in : in_pc;
  e_waiting : bool;
}.
Arguments mkEntry {C} _ _ _ _.
Arguments e_tunnel {C} _.
Arguments e_out {C} _.
Arguments e_in {C} _.
Arguments e_waiting {C} _.

(** [tunnelMapping] maps a tunnel ID to the index of its entry; [retrying]: the
    goroutines [packThenSend] left behind, with the index of their tunnel. *)
Record TunnelPool (M C : Type) : Type := mkPool {
  entries : list (entry C);
  tunnelMapping : gmap Z nat;
  tp_peerID : Z;
  manager : M;
  sendQueue : chan Block;
  sendRetryQueue : chan Block;
  recvQueue : chan Block;
  retrying : list (nat * Block);
  tp_cancelled : bool;
  tp_stats : global_stats;
}.
Arguments mkPool {M C} _ _ _ _ _ _ _ _ _ _.
Arguments entries {M C} _.
Arguments tunnelMapping {M C} _.
Arguments tp_peerID {M C} _.
Arguments manager {M C} _.
Arguments sendQueue {M C} _.
Arguments sendRetryQueue {M C} _.
Arguments recvQueue {M C} _.
Arguments retrying {M C} _.
Arguments tp_cancelled {M C} _.
Arguments tp_stats {M C} _.

(** What a step does to blocks. *)
Inductive pool_event : Type :=
  | Accepted (blk : Block)             (** taken from the connection pool *)
  | SentOn (i : nat) (blk : Block)     (** put whole on tunnel [i] *)
  | Dropped (blk : Block)              (** given up by a retrying goroutine *)
  | Delivered (blk : Block)            (** handed to the connection pool *)
  | Discarded (blk : Block).           (** received by a cancelled tunnel, no room *)

Inductive out_choice : Type := ChooseCancel | ChooseRetry | ChooseNormal | ChooseDefault.

Inductive pool_label (C : Type) : Type :=
  | PSend (blk : Block)
  | PRecv
  | PAddTunnel (t : Tunnel C)
  | POut (i : nat) (ch : out_choice)
  | PRetryPut (k : nat)
  | PRetryDrop (k : nat)
  | PIn (i : nat) (now : nat -> Z)
  | PInForward (i : nat)
  | PInCancel (i : nat)
  | PTick (i : nat) (now : nat -> Z)     (** may be ready beside a cancelled context *)
  | PRemove (i : nat)
  | PClose.
Arguments PSend {C} _.
Arguments PRecv {C}.
Arguments PAddTunnel {C} _.
Arguments POut {C} _ _.
Arguments PRetryPut {C} _.
Arguments PRetryDrop {C} _.
Arguments PIn {C} _ _.
Arguments PInForward {C} _.
Arguments PInCancel {C} _.
Arguments PTick {C} _ _.
Arguments PRemove {C} _.
Arguments PClose {C}.

Section Pool.
Context `{V : TunnelVars} {M C : Type} `{Manager M, Reader C, Writer C}.
Implicit Types (p : TunnelPool M C) (e : entry C) (t : Tunnel C).

Definition set_entry (i : nat) e p : TunnelPool M C :=
  mkPool (<[i := e]> (entries p)) (tunnelMapping p) (tp_peerID p) (manager p) (sendQueue p)
    (sendRetryQueue p) (recvQueue p) (retrying p) (tp_cancelled p) (tp_stats p).
Definition set_entries (es : list (entry C)) p : TunnelPool M C :=
  mkPool es (tunnelMapping p) (tp_peerID p) (manager p) (sendQueue p)
    (sendRetryQueue p) (recvQueue p) (retrying p) (tp_cancelled p) (tp_stats p).
Definition set_sendQueue (q : chan Block) p : TunnelPool M C :=
  mkPool (entries p) (tunnelMapping p) (tp_peerID p) (manager p) q
    (sendRetryQueue p) (recvQueue p) (retrying p) (tp_cancelled p) (tp_stats p).
Definition set_retryQueue (q : chan Block) p : TunnelPool M C :=
  mkPool (entries p) (tunnelMapping p) (tp_peerID p) (manager p) (sendQueue p)
    q (recvQueue p) (retrying p) (tp_cancelled p) (tp_stats p).
Definition set_recvQueue (q : chan Block) p : TunnelPool M C :=
  mkPool (entries p) (tunnelMapping p) (tp_peerID p) (manager p) (sendQueue p)
    (sendRetryQueue p) q (retrying p) (tp_cancelled p) (tp_stats p).
Definition set_retrying (l : list (nat * Block)) p : TunnelPool M C :=
  mkPool (entries p) (tunnelMapping p) (tp_peerID p) (manager p) (sendQueue p)
    (sendRetryQueue p) (recvQueue p) l (tp_cancelled p) (tp_stats p).
Definition set_stats (g : global_stats) p : TunnelPool M C :=
  mkPool (entries p) (tunnelMapping p) (tp_peerID p) (manager p) (sendQueue p)
    (sendRetryQueue p) (recvQueue p) (retrying p) (tp_cancelled p) g.
Definition set_mapping (m : gmap Z nat) (mgr : M) p : TunnelPool M C :=
  mkPool (entries p) m (tp_peerID p) mgr (sendQueue p)
    (sendRetryQueue p) (recvQueue p) (retrying p) (tp_cancelled p) (tp_stats p).
Definition cancel_pool p : TunnelPool M C :=
  mkPool (entries p) (tunnelMapping p) (tp_peerID p) (manager p) (sendQueue p)
    (sendRetryQueue p) (recvQueue p) (retrying p) true (tp_stats p).

Definition NewTunnelPool (peerID : Z) (mgr : M) (g : global_stats) : TunnelPool M C :=
  mkPool [] ∅ peerID (DecreaseNotify_starts mgr) (make_chan SendQueueSize) (make_chan SendQueueSize)
    (make_chan RecvQueueSize)
    [] false g.

(** [tp.AddTunnel(tunnel)]: the goroutines start at the head of their loops. *)
Definition AddTunnel t p : TunnelPool M C :=
  let m := <[tunnelID t := length (entries p)]> (tunnelMapping p) in
  let p := set_mapping m (Notify (size m) (manager p)) p in
  let p := set_stats (on_mode (IsClientMode t) IncrementTunnelCount (tp_stats p)) p in
  set_entries (entries p ++ [mkEntry t AtCancel InLoop true]) p.

(** [tp.RemoveTunnel(tunnel)]. *)
Definition RemoveTunnel t p : TunnelPool M C :=
  match tunnelMapping p !! tunnelID t with
  | None => p
  | Some j =>
      let client := from_option (fun e => IsClientMode (e_tunnel e)) (IsClientMode t) (entries p !! j) in
      let m := delete (tunnelID t) (tunnelMapping p) in
      let p := set_mapping m (DecreaseNotify_starts (Notify (size m) (manager p))) p in
      set_stats (on_mode client DecrementTunnelCount (tp_stats p)) p
  end.

(** [tp.Close()]. *)
Definition close_entry e : entry C := mkEntry (closeThenCancel (e_tunnel e)) (e_out e) (e_in e) (e_waiting e).

Definition Close p : outcome (TunnelPool M C) :=
  let p := cancel_pool p in
  let mapped := (map_to_list (tunnelMapping p)).*2 in
  let p := set_entries (imap (fun i e => if decide (i ∈ mapped) then close_entry e else e) (entries p)) p in
  sq ← close_call (sendQueue p);
  rq ← close_call (sendRetryQueue p);
  iq ← close_call (recvQueue p);
  Ret (set_recvQueue iq (set_retryQueue rq (set_sendQueue sq p))).

(** [packThenSend(blk, retryQueue)] run by [OutboundRelay] of entry [i]. *)
Definition relay_send (i : nat) (e : entry C) (blk : Block) (next : out_pc) p
    : list pool_event * TunnelPool M C :=
  let '(rb, g, t) := packThenSend blk true (tp_stats p) (e_tunnel e) in
  let p := set_stats g (set_entry i (mkEntry t next (e_in e) (e_waiting e)) p) in
  match rb with
  | None => ([SentOn i blk], p)
  | Some blk => ([], set_retrying (retrying p ++ [(i, blk)]) p)
  end.

Definition end_out (i : nat) e p : TunnelPool M C :=
  set_entry i (mkEntry (e_tunnel e) OutEnded (e_in e) (e_waiting e)) p.
Definition goto_out (i : nat) e (pc : out_pc) p : TunnelPool M C :=
  set_entry i (mkEntry (e_tunnel e) pc (e_in e) (e_waiting e)) p.

(** A receive from one of the two queues by [OutboundRelay]. *)
Definition take_retry (i : nat) e (next : out_pc) p : outcome (list pool_event * TunnelPool M C) :=
  match chan_recv (sendRetryQueue p) with
  | Received blk q => Ret (relay_send i e blk next (set_retryQueue q p))
  | RecvClosed => Ret ([], end_out i e p)
  | RecvBlocks => Blocks
  end.
Definition take_normal (i : nat) e (next : out_pc) p : outcome (list pool_event * TunnelPool M C) :=
  match chan_recv (sendQueue p) with
  | Received blk q => Ret (relay_send i e blk next (set_sendQueue q p))
  | RecvClosed => Ret ([], end_out i e p)
  | RecvBlocks => Blocks
  end.

(** One [select] of [OutboundRelay]. *)
Definition OutboundRelay_step (i : nat) e (ch : out_choice) p : outcome (list pool_event * TunnelPool M C) :=
  let cancelled := tn_cancelled (e_tunnel e) in
  match e_out e, ch with
  | OutEnded, _ => Blocks
  | _, ChooseCancel => if cancelled then Ret ([], end_out i e p) else Blocks
  | AtCancel, ChooseDefault => if cancelled then Blocks else Ret ([], goto_out i e AtRetry p)
  | AtRetry, ChooseRetry => take_retry i e AtMain p
  | AtRetry, ChooseDefault =>
      match chan_recv (sendRetryQueue p) with
      | RecvBlocks => if cancelled then Blocks else Ret ([], goto_out i e AtMain p)
      | _ => Blocks
      end
  | AtMain, ChooseRetry => take_retry i e AtCancel p
  | AtMain, ChooseNormal => take_normal i e AtCancel p
  | _, _ => Blocks
  end.

Definition goto_in (i : nat) e t (pc : in_pc) (g : global_stats) p : TunnelPool M C :=
  set_stats g (set_entry i (mkEntry t (e_out e) pc (e_waiting e)) p).

(** The branch of [InboundRelay] for a cancelled context: one more read, a
    block found is forwarded if there is room. *)
Definition InboundRelay_last (i : nat) e p : outcome (list pool_event * TunnelPool M C) :=
  let t := e_tunnel e in
  if tn_closed t then Ret ([], goto_in i e t InEnded (tp_stats p) p)
  else
    match NewBlockFromReader (Conn t) with
    | None => Blocks
    | Some (Err _, c) => Ret ([], goto_in i e (set_Conn c t) InEnded (tp_stats p) p)
    | Some (Ok blk, c) =>
        let '(packed, blk) := Pack blk in
        let n := Z.of_nat (length packed) in
        let t := Tunnel.add_RecvBytes n (set_Conn c t) in
        let g := on_mode (IsClientMode t) (AddRecvBytes n) (tp_stats p) in
        match chan_send blk (recvQueue p) with
        | Sent q => Ret ([], set_recvQueue q (goto_in i e t InEnded g p))
        | SendBlocks => Ret ([Discarded blk], goto_in i e t InEnded g p)
        | SendPanics => Panic
        end
    end.

(** One pass of [InboundRelay] up to the forwarding of a block. *)
Definition InboundRelay_step (i : nat) (now : nat -> Z) e p : outcome (list pool_event * TunnelPool M C) :=
  match e_in e with
  | InLoop =>
      if tn_cancelled (e_tunnel e) then InboundRelay_last i e p
      else
        '(fwd, g, t) ← InboundRelay_read now (tp_stats p) (e_tunnel e);
        Ret ([], goto_in i e t (match fwd with Some blk => InForward blk | None => InLoop end) g p)
  | _ => Blocks
  end.

Definition pool_step p (l : pool_label C) : outcome (list pool_event * TunnelPool M C) :=
  match l with
  | PSend blk => q ← send_call blk (sendQueue p); Ret ([Accepted blk], set_sendQueue q p)
  | PRecv =>
      match chan_recv (recvQueue p) with
      | Received blk q => Ret ([Delivered blk], set_recvQueue q p)
      | _ => Blocks
      end
  | PAddTunnel t => Ret ([], AddTunnel t p)
  | POut i ch => match entries p !! i with Some e => OutboundRelay_step i e ch p | None => Blocks end
  | PRetryPut k =>
      match retrying p !! k with
      | Some (_, blk) =>
          q ← send_call blk (sendRetryQueue p);
          Ret ([], set_retryQueue q (set_retrying (delete k (retrying p)) p))
      | None => Blocks
      end
  | PRetryDrop k =>
      match retrying p !! k with
      | Some (i, blk) =>
          match entries p !! i with
          | Some e =>
              if tn_cancelled (e_tunnel e)
              then Ret ([Dropped blk], set_retrying (delete k (retrying p)) p) else Blocks
          | None => Blocks
          end
      | None => Blocks
      end
  | PIn i now => match entries p !! i with Some e => InboundRelay_step i now e p | None => Blocks end
  | PInForward i =>
      match entries p !! i with
      | Some e =>
          match e_in e with
          | InForward blk =>
              q ← send_call blk (recvQueue p);
              Ret ([], set_recvQueue q (goto_in i e (e_tunnel e) InLoop (tp_stats p) p))
          | _ => Blocks
          end
      | None => Blocks
      end
  | PInCancel i =>
      match entries p !! i with
      | Some e =>
          match e_in e, tn_cancelled (e_tunnel e) with
          | InForward blk, true => Ret ([Discarded blk], goto_in i e (e_tunnel e) InEnded (tp_stats p) p)
          | _, _ => Blocks
          end
      | None => Blocks
      end
  | PTick i now =>
      match entries p !! i with
      | Some e =>
          if decide (0 < PingInterval) then
            let '(g, t) := PingPong_tick now (tp_stats p) (e_tunnel e) in
            Ret ([], goto_in i e t (e_in e) g p)
          else Blocks
      | None => Blocks
      end
  | PRemove i =>
      match entries p !! i with
      | Some e =>
          if e_waiting e && tn_cancelled (e_tunnel e) then
            Ret ([], RemoveTunnel (e_tunnel e)
                       (set_entry i (mkEntry (e_tunnel e) (e_out e) (e_in e) false) p))
          else Blocks
      | None => Blocks
      end
  | PClose => p ← Close p; Ret ([], p)
  end.
End Pool.

(** * Where the blocks are *)

Definition accepted (evs : list pool_event) : list Block :=
  omap (fun ev => match ev with Accepted b => Some (received b) | _ => None end) evs.
Definition sent_on (evs : list pool_event) : list Block :=
  omap (fun ev => match ev with SentOn _ b => Some (received b) | _ => None end) evs.
Definition dropped (evs : list pool_event) : list Block :=
  omap (fun ev => match ev with Dropped b => Some (received b) | _ => None end) evs.

Lemma accepted_app e1 e2 : accepted (e1 ++ e2) = accepted e1 ++ accepted e2.
Proof. apply omap_app. Qed.
Lemma sent_on_app e1 e2 : sent_on (e1 ++ e2) = sent_on e1 ++ sent_on e2.
Proof. apply omap_app. Qed.
Lemma dropped_app e1 e2 : dropped (e1 ++ e2) = dropped e1 ++ dropped e2.
Proof. apply omap_app. Qed.

Section Conservation.
Context `{V : TunnelVars} {M C : Type} `{Manager M, Reader C, Writer C}.
Implicit Types (p : TunnelPool M C) (e : entry C) (t : Tunnel C).

(** The blocks the pool holds, caches emptied. *)
Definition held p : list Block :=
  received <$> (ch_buf (sendQueue p) ++ ch_buf (sendRetryQueue p) ++ (retrying p).*2).

(** A step moves blocks and neither makes nor loses any. *)
Definition conserves p (evs : list pool_event) p' : Prop :=
  accepted evs ++ held p ≡ₚ held p' ++ sent_on evs ++ dropped evs.

Lemma conserves_same p evs p' :
  held p' = held p -> accepted evs = [] -> sent_on evs = [] -> dropped evs = [] -> conserves p evs p'.
Proof. intros E1 E2 E3 E4. unfold conserves. by rewrite E1, E2, E3, E4, !app_nil_r. Qed.

Lemma retry_received blk retry g t rb g' t' :
  packThenSend blk retry g t = (Some rb, g', t') -> received rb = received blk.
Proof.
  unfold packThenSend. pose proof (Pack_received blk) as Hr.
  destruct (Pack blk) as [d b]. destruct (conn_write d t) as [[n oe] t1]. cbn [fst snd] in *.
  cbv zeta. destruct (bool_decide _), retry; cbn [negb andb]; intros E;
    first [discriminate E|injection E as <- _ _; exact Hr].
Qed.

(** [relay_send] moves the block it was given out of the pool or to a retry. *)
Lemma relay_send_held i e blk next p evs p' :
  relay_send i e blk next p = (evs, p') ->
  received blk :: held p ≡ₚ held p' ++ sent_on evs ++ dropped evs /\ accepted evs = [].
Proof.
  unfold relay_send. destruct (packThenSend _ _ _ _) as [[[rb|] g] t] eqn:E; intros [= <- <-].
  - apply retry_received in E. split; [|done]. unfold held. cbn.
    rewrite !fmap_app. cbn. rewrite E, !app_nil_r, !app_assoc. by rewrite <-Permutation_cons_append.
  - split; [|done]. unfold held. cbn. by rewrite <-Permutation_cons_append.
Qed.

Lemma take_retry_conserves i e next p evs p' :
  take_retry i e next p = Ret (evs, p') -> conserves p evs p'.
Proof.
  unfold take_retry. destruct (chan_recv _) as [blk q| |] eqn:Eq; [|intros; simplify_eq; by apply conserves_same|done].
  intros [= Er]. apply relay_send_held in Er as [Hh Ha]. unfold conserves. rewrite Ha. cbn [app].
  rewrite <-Hh. apply chan_recv_buf in Eq. unfold held. cbn. rewrite Eq. cbn.
  rewrite !fmap_app. cbn. rewrite fmap_app. symmetry. apply Permutation_middle.
Qed.

Lemma take_normal_conserves i e next p evs p' :
  take_normal i e next p = Ret (evs, p') -> conserves p evs p'.
Proof.
  unfold take_normal. destruct (chan_recv _) as [blk q| |] eqn:Eq; [|intros; simplify_eq; by apply conserves_same|done].
  intros [= Er]. apply relay_send_held in Er as [Hh Ha]. unfold conserves. rewrite Ha. cbn [app].
  rewrite <-Hh. apply chan_recv_buf in Eq. unfold held. cbn. by rewrite Eq.
Qed.

Lemma OutboundRelay_conserves i e ch p evs p' :
  OutboundRelay_step i e ch p = Ret (evs, p') -> conserves p evs p'.
Proof.
  unfold OutboundRelay_step. destruct (e_out e), ch; try done;
    try (apply take_retry_conserves); try (apply take_normal_conserves);
    repeat case_match; intros; simplify_eq; by apply conserves_same.
Qed.

Lemma InboundRelay_conserves i now e p evs p' :
  InboundRelay_step i now e p = Ret (evs, p') -> conserves p evs p'.
Proof.
  unfold InboundRelay_step, InboundRelay_last. destruct (e_in e); try done.
  destruct (tn_cancelled _).
  - destruct (tn_closed _); [intros; simplify_eq; by apply conserves_same|].
    destruct (NewBlockFromReader _) as [[[b|err] c]|]; [| |done].
    + destruct (Pack b) as [d b']. destruct (chan_send _ _); intros; simplify_eq; by apply conserves_same.
    + intros; simplify_eq; by apply conserves_same.
  - destruct (InboundRelay_read _ _ _) as [[[fwd g] t]| |]; [|done..].
    cbn. intros; simplify_eq; by apply conserves_same.
Qed.

(** What [Close] does: every tunnel of the pool is closed, the queues keep their
    blocks. *)
Record close_spec p p' : Prop := {
  cl_entries : entries p' =
    imap (fun i e => if decide (i ∈ (map_to_list (tunnelMapping p)).*2) then close_entry e else e) (entries p);
  cl_send : ch_buf (sendQueue p') = ch_buf (sendQueue p);
  cl_retry : ch_buf (sendRetryQueue p') = ch_buf (sendRetryQueue p);
  cl_recv : ch_buf (recvQueue p') = ch_buf (recvQueue p);
  cl_retrying : retrying p' = retrying p;
}.

Lemma Close_spec p p' : Close p = Ret p' -> close_spec p p'.
Proof.
  unfold Close, close_call, chan_close. cbn [cancel_pool set_entries sendQueue sendRetryQueue recvQueue].
  destruct (ch_closed (sendQueue p)), (ch_closed (sendRetryQueue p)), (ch_closed (recvQueue p)); try done.
  intros [= <-]. by constructor.
Qed.

Lemma Close_held p p' : Close p = Ret p' -> held p' = held p.
Proof. intros [_ E1 E2 _ E3]%Close_spec. unfold held. by rewrite E1, E2, E3. Qed.

Lemma RemoveTunnel_keeps t p :
  entries (RemoveTunnel t p) = entries p /\ sendQueue (RemoveTunnel t p) = sendQueue p /\
  sendRetryQueue (RemoveTunnel t p) = sendRetryQueue p /\ recvQueue (RemoveTunnel t p) = recvQueue p /\
  retrying (RemoveTunnel t p) = retrying p.
Proof. unfold RemoveTunnel. by destruct (_ !! _). Qed.

Lemma RemoveTunnel_held t p : held (RemoveTunnel t p) = held p.
Proof. destruct (RemoveTunnel_keeps t p) as (_ & E1 & E2 & _ & E3). unfold held. by rewrite E1, E2, E3. Qed.

Lemma delete_retrying (k : nat) (l : list (nat * Block)) i blk :
  l !! k = Some (i, blk) -> received <$> l.*2 ≡ₚ received blk :: (received <$> (delete k l).*2).
Proof.
  intros Hk. change (received blk :: (received <$> (delete k l).*2))
    with (received <$> ((i, blk) :: delete k l).*2).
  by apply fmap_Permutation, fmap_Permutation, delete_Permutation.
Qed.

Lemma pool_step_conserves p l evs p' : pool_step p l = Ret (evs, p') -> conserves p evs p'.
Proof.
  destruct l as [blk| |t|i ch|k|k|i now|i|i|i now|i|]; cbn [pool_step].
  - unfold send_call. destruct (chan_send _ _) as [q| |] eqn:Eq; [|done..]. cbn. intros; simplify_eq.
    apply chan_send_buf in Eq. unfold conserves, held. cbn. rewrite Eq, app_nil_r, <-app_assoc.
    rewrite !fmap_app. cbn. apply Permutation_middle.
  - destruct (chan_recv _); [|done..]. intros; simplify_eq; by apply conserves_same.
  - intros; simplify_eq; by apply conserves_same.
  - destruct (entries p !! i); [apply OutboundRelay_conserves|done].
  - destruct (retrying p !! k) as [[i blk]|] eqn:Ek; [|done].
    unfold send_call. destruct (chan_send _ _) as [q| |] eqn:Eq; [|done..]. cbn. intros; simplify_eq.
    apply chan_send_buf in Eq. unfold conserves, held. cbn. rewrite Eq, app_nil_r, !fmap_app.
    rewrite (delete_retrying _ _ _ _ Ek). cbn. by rewrite <-!app_assoc.
  - destruct (retrying p !! k) as [[i blk]|] eqn:Ek; [|done].
    destruct (entries p !! i) as [e|]; [|done]. destruct (tn_cancelled _); [|done]. intros; simplify_eq.
    unfold conserves, held. cbn. rewrite !fmap_app, (delete_retrying _ _ _ _ Ek).
    rewrite <-Permutation_cons_append. rewrite !app_assoc. by rewrite <-Permutation_middle.
  - destruct (entries p !! i); [apply InboundRelay_conserves|done].
  - destruct (entries p !! i) as [e|]; [|done]. destruct (e_in e); [done| |done].
    destruct (send_call _ _); [|done..]. cbn. intros; simplify_eq; by apply conserves_same.
  - destruct (entries p !! i) as [e|]; [|done]. destruct (e_in e), (tn_cancelled (e_tunnel e)); try done.
    intros; simplify_eq; by apply conserves_same.
  - destruct (entries p !! i) as [e|]; [|done]. case_decide; [|done]. destruct (PingPong_tick _ _ _).
    intros; simplify_eq; by apply conserves_same.
  - destruct (entries p !! i) as [e|]; [|done]. destruct (_ && _); [|done].
    intros; simplify_eq. apply conserves_same; [|done..]. by rewrite RemoveTunnel_held.
  - destruct (Close p) as [q| |] eqn:E; [|done..]. cbn. intros; simplify_eq.
    apply conserves_same; [|done..]. by apply Close_held.
Qed.
End Conservation.

(** * Runs of the pool *)

Section Runs.
Context `{V : TunnelVars} {M C : Type} `{Manager M, Reader C, Writer C}.

(** A step with the events so far. *)
Definition pool_hstep (s : list pool_event * TunnelPool M C) (l : pool_label C)
    : option (list pool_event * TunnelPool M C) :=
  match pool_step s.2 l with Ret (evs, p) => Some (s.1 ++ evs, p) | _ => None end.

Lemma pool_run_conserves (p0 : TunnelPool M C) tr s :
  held p0 = [] -> run pool_hstep ([], p0) tr = Some s ->
  accepted s.1 ≡ₚ held s.2 ++ sent_on s.1 ++ dropped s.1.
Proof.
  intros H0' Hrun.
  apply (run_invariant pool_hstep (fun _ s => accepted s.1 ≡ₚ held s.2 ++ sent_on s.1 ++ dropped s.1)
    ([], p0)) with (tr := tr); [cbn [fst snd]; by rewrite H0'| |exact Hrun].
  intros _ [evs p] l [evs' p'] Hi. unfold pool_hstep. cbn [fst snd] in *.
  destruct (pool_step p l) as [[ev q]| |] eqn:E; [|done..]. intros [= <- <-].
  apply pool_step_conserves in E. unfold conserves in E.
  rewrite accepted_app, sent_on_app, dropped_app, Hi.
  rewrite (Permutation_app_comm _ (accepted ev)), app_assoc, E.
  rewrite <-!app_assoc. apply Permutation_app_head, Permutation_interleave.
Qed.
End Runs.

(** * Draining

    A tunnel whose connection takes whatever is written empties the queues. *)

Section Drain.
Context `{V : TunnelVars} {M C : Type} `{Manager M, Reader C, Writer C}.
Context (good : C -> Prop)
  (good_writes : forall c data, good c -> exists c', wwrite data c = (length data, None, c') /\ good c').
Implicit Types (p : TunnelPool M C) (e : entry C).

(** Tunnel [i] is open and serves the queues of a pool that is open. *)
Record serves (i : nat) p e : Prop := {
  sv_entry : entries p !! i = Some e;
  sv_running : e_out e <> OutEnded;
  sv_open : tn_closed (e_tunnel e) = false;
  sv_live : tn_cancelled (e_tunnel e) = false;
  sv_good : good (Conn (e_tunnel e));
  sv_queue : ch_closed (sendQueue p) = false;
  sv_retry : ch_closed (sendRetryQueue p) = false;
}.

Definition waiting p : list Block := ch_buf (sendQueue p) ++ ch_buf (sendRetryQueue p).

(** The steps [OutboundRelay] can still make with what is queued. *)
Definition steps_left p e : nat :=
  3 * length (waiting p) + match e_out e with AtCancel => 2 | AtRetry => 1 | _ => 0 end.

Lemma good_send blk g (t : Tunnel C) :
  good (Conn t) -> tn_closed t = false ->
  exists g' t', packThenSend blk true g t = (None, g', t') /\ good (Conn t') /\ tn_closed t' = false /\
    tn_cancelled t' = tn_cancelled t.
Proof.
  intros Hg Ho. unfold packThenSend. destruct (Pack blk) as [data b]. unfold conn_write, copy_bytes. rewrite Ho.
  destruct (decide (data = [])) as [->|Hd].
  - cbn. by eexists _, _.
  - destruct (good_writes (Conn t) data Hg) as (c' & -> & Hc'). rewrite decide_True by done.
    cbv beta iota zeta. rewrite bool_decide_true by done. cbn.
    by eexists _, _.
Qed.

(** A block that is sent leaves the queue it was in. *)
Lemma relay_send_serves i e blk next p :
  serves i p e -> next <> OutEnded ->
  exists p' e', relay_send i e blk next p = ([SentOn i blk], p') /\ serves i p' e' /\ e_out e' = next /\
    sendQueue p' = sendQueue p /\ sendRetryQueue p' = sendRetryQueue p.
Proof.
  intros [S1 S2 S3 S4 S5 S6 S7] Hn. unfold relay_send.
  destruct (good_send blk (tp_stats p) (e_tunnel e) S5 S3) as (g' & t' & -> & Hg & Ho & Hc).
  eexists _, (mkEntry t' next (e_in e) (e_waiting e)). split; [done|]. split; [|done].
  constructor; cbn; try done; [|congruence].
  apply list_lookup_insert_eq. by eapply lookup_lt_Some.
Qed.

(** What one step of the tunnel does: it comes closer to the end, and what it takes
    from a queue is sent. *)
Record drains (i : nat) p e (evs : list pool_event) p' e' : Prop := {
  dr_serves : serves i p' e';
  dr_closer : (steps_left p' e' < steps_left p e)%nat;
  dr_sent : received <$> waiting p ≡ₚ sent_on evs ++ (received <$> waiting p');
}.

Lemma drains_goto i p e pc :
  serves i p e -> (pc = AtRetry /\ e_out e = AtCancel \/ pc = AtMain /\ e_out e = AtRetry) ->
  drains i p e [] (goto_out i e pc p) (mkEntry (e_tunnel e) pc (e_in e) (e_waiting e)).
Proof.
  intros [S1 S2 S3 S4 S5 S6 S7] Hpc. constructor; [constructor; cbn; try done| |done].
  - apply list_lookup_insert_eq. by eapply lookup_lt_Some.
  - by destruct Hpc as [[-> _]|[-> _]].
  - unfold steps_left, waiting. cbn. destruct Hpc as [[-> ->]|[-> ->]]; lia.
Qed.

Lemma drains_retry i p e next blk q evs p' :
  serves i p e -> (next = AtMain \/ next = AtCancel) -> chan_recv (sendRetryQueue p) = Received blk q ->
  relay_send i e blk next (set_retryQueue q p) = (evs, p') -> exists e', drains i p e evs p' e'.
Proof.
  intros S Hn Hq Hr. pose proof (chan_recv_buf _ _ _ Hq) as Hb. pose proof (chan_recv_closed _ _ _ Hq) as Hcl.
  destruct (relay_send_serves i e blk next (set_retryQueue q p)) as (p1 & e1 & E & Hs & Ho & E1 & E2);
    [destruct S; constructor; try done; cbn; congruence|by destruct Hn as [-> | ->]|].
  rewrite E in Hr. injection Hr as <- <-. exists e1. constructor; [done| |].
  - unfold steps_left, waiting. rewrite Ho, E1, E2, Hb, !length_app. cbn. destruct Hn as [-> | ->], (e_out e); lia.
  - unfold waiting. rewrite E1, E2, Hb. cbn. rewrite !fmap_app. cbn. symmetry. apply Permutation_middle.
Qed.

Lemma drains_normal i p e blk q evs p' :
  serves i p e -> chan_recv (sendQueue p) = Received blk q ->
  relay_send i e blk AtCancel (set_sendQueue q p) = (evs, p') -> exists e', drains i p e evs p' e'.
Proof.
  intros S Hq Hr. pose proof (chan_recv_buf _ _ _ Hq) as Hb. pose proof (chan_recv_closed _ _ _ Hq) as Hcl.
  destruct (relay_send_serves i e blk AtCancel (set_sendQueue q p)) as (p1 & e1 & E & Hs & Ho & E1 & E2);
    [destruct S; constructor; try done; cbn; congruence|done|].
  rewrite E in Hr. injection Hr as <- <-. exists e1. constructor; [done| |].
  - unfold steps_left, waiting. rewrite Ho, E1, E2, Hb, !length_app. cbn. destruct (e_out e); lia.
  - unfold waiting. rewrite E1, E2, Hb. done.
Qed.

Lemma drain_step i ch p e evs p' :
  serves i p e -> pool_step p (POut i ch) = Ret (evs, p') -> exists e', drains i p e evs p' e'.
Proof.
  intros S. pose proof S as [S1 S2 S3 S4 S5 S6 S7]. cbn [pool_step]. rewrite S1. unfold OutboundRelay_step. rewrite S4.
  assert (forall next, next = AtMain \/ next = AtCancel -> take_retry i e next p = Ret (evs, p') -> exists e', drains i p e evs p' e')
    as Hretry.
  { intros next Hn. unfold take_retry. destruct (chan_recv (sendRetryQueue p)) as [blk q| |] eqn:Eq.
    - intros [= E]. by eapply drains_retry.
    - unfold chan_recv in Eq. rewrite S7 in Eq. by destruct (ch_buf _).
    - done. }
  destruct (e_out e) eqn:Eo, ch; try done; cbn; try (apply Hretry; by auto).
  - intros [= <- <-]. eexists. apply drains_goto; auto.
  - destruct (chan_recv (sendRetryQueue p)); [done..|]. intros [= <- <-]. eexists. apply drains_goto; auto.
  - unfold take_normal. destruct (chan_recv (sendQueue p)) as [blk q| |] eqn:Eq.
    + intros [= E]. by eapply drains_normal.
    + unfold chan_recv in Eq. rewrite S6 in Eq. by destruct (ch_buf _).
    + done.
Qed.

(** While something is queued a tunnel can go on that is not cancelled. *)
Lemma relay_progress i p e :
  entries p !! i = Some e -> e_out e <> OutEnded -> tn_cancelled (e_tunnel e) = false ->
  ch_closed (sendRetryQueue p) = false -> waiting p <> [] -> exists ch, is_Some (pool_hstep ([], p) (POut i ch)).
Proof.
  intros S1 S2 S4 S7 Hw. unfold pool_hstep. cbn [snd pool_step]. rewrite S1. unfold OutboundRelay_step. rewrite S4.
  destruct (e_out e) eqn:Eo; [|destruct (ch_buf (sendRetryQueue p)) as [|b l] eqn:Er|
    destruct (ch_buf (sendRetryQueue p)) as [|b l] eqn:Er|done].
  - exists ChooseDefault. cbn. by eexists.
  - exists ChooseDefault. unfold chan_recv. rewrite Er, S7. by eexists.
  - exists ChooseRetry. unfold take_retry, chan_recv. rewrite Er. destruct (relay_send _ _ _ _ _). by eexists.
  - exists ChooseNormal. unfold take_normal, chan_recv. unfold waiting in Hw. rewrite Er, app_nil_r in Hw.
    destruct (ch_buf (sendQueue p)) as [|b l]; [done|]. destruct (relay_send _ _ _ _ _). by eexists.
  - exists ChooseRetry. unfold take_retry, chan_recv. rewrite Er. destruct (relay_send _ _ _ _ _). by eexists.
Qed.

Lemma drain_run i tr p e evs evs' p' :
  serves i p e -> Forall (fun l => exists ch, l = POut i ch) tr -> run pool_hstep (evs, p) tr = Some (evs', p') ->
  exists e', serves i p' e' /\ (length tr + steps_left p' e' <= steps_left p e)%nat /\
    sent_on evs ++ (received <$> waiting p) ≡ₚ sent_on evs' ++ (received <$> waiting p').
Proof.
  revert p e evs. induction tr as [|l tr IH]; intros p e evs S Htr; cbn [run].
  - intros [= <- <-]. by exists e.
  - apply Forall_cons in Htr as [[ch ->] Htr]. unfold pool_hstep at 1. cbn [fst snd].
    destruct (pool_step p (POut i ch)) as [[ev p1]| |] eqn:Es; [|done..].
    destruct (drain_step _ _ _ _ _ _ S Es) as (e1 & [S1 Hl Hp]). intros (e' & S' & Hl' & Hp')%(IH _ _ _ S1 Htr).
    exists e'. split; [done|]. split; [cbn [length]; lia|]. rewrite <-Hp', sent_on_app, Hp. by rewrite app_assoc.
Qed.
End Drain.

(** Queued blocks get out. Take a pool that is open and one of its tunnels, open
    and on a connection that takes whatever is written to it. The tunnel's
    [OutboundRelay], running by itself and whatever its [select]s choose, makes no
    more than three steps a queued block and two; while a block is queued it can
    make another; and where it can make none every block that was queued, for the
    first time or again, has been put whole on the tunnel. *)
Theorem pool_drains {M C} `{V : TunnelVars, Manager M, Reader C, Writer C} (good : C -> Prop) (i : nat)
    (p p' : TunnelPool M C) (e : entry C) (tr : list (pool_label C)) (evs : list pool_event) :
  (forall c data, good c -> exists c', wwrite data c = (length data, None, c') /\ good c') ->
  serves good i p e -> Forall (fun l => exists ch, l = POut i ch) tr ->
  run pool_hstep ([], p) tr = Some (evs, p') ->
  (length tr <= 3 * length (waiting p) + 2)%nat /\
  (waiting p' <> [] -> exists ch, is_Some (pool_hstep (evs, p') (POut i ch))) /\
  ((forall ch, pool_hstep (evs, p') (POut i ch) = None) -> sent_on evs ≡ₚ received <$> waiting p).
Proof.
  intros Hg S Htr Hrun. destruct (drain_run good Hg _ _ _ _ _ _ _ S Htr Hrun) as (e' & S' & Hl & Hp).
  assert (waiting p' <> [] -> exists ch, is_Some (pool_hstep (evs, p') (POut i ch))) as Hgo.
  { intros Hw. destruct S' as [S1 S2 _ S4 _ _ S7].
    destruct (relay_progress _ _ _ S1 S2 S4 S7 Hw) as (ch & [s E]). exists ch. unfold pool_hstep in *. cbn [snd fst] in *.
    destruct (pool_step p' (POut i ch)) as [[ev q]| |]; by eexists. }
  split; [unfold steps_left in Hl; destruct (e_out e); lia|]. split; [done|]. intros Hend.
  destruct (decide (waiting p' = [])) as [E|Hne].
  - rewrite E, app_nil_r in Hp. by rewrite <-Hp.
  - destruct (Hgo Hne) as (ch & [s E]). by rewrite Hend in E.
Qed.

(** A manager that is told nothing, and tunnels that take [room] more bytes. *)
#[local] Instance unit_manager : Manager unit := {| Notify _ m := m; DecreaseNotify_starts m := m |}.

#[local] Existing Instance const_go.

Definition example_pool : TunnelPool unit (duplex stream sink) := NewTunnelPool 77 tt (InitStats 10).
Definition block_a : Block := newDataBlock 0 1 0 [x01].
Definition block_b : Block := newDataBlock 0 1 1 [x02].

(** A tunnel on a socket that never fails, with a block in each queue. *)
Definition drain_pool : option (list pool_event * TunnelPool unit (duplex stream sink)) :=
  run pool_hstep ([], example_pool)
    [PAddTunnel (example_tunnel (Some 5%nat)); PAddTunnel (example_tunnel None); PSend block_a;
     POut 0 ChooseDefault; POut 0 ChooseDefault; POut 0 ChooseNormal; PRetryPut 0; PSend block_b].

Definition drain_trace : list (pool_label (duplex stream sink)) :=
  [POut 1 ChooseDefault; POut 1 ChooseRetry; POut 1 ChooseNormal; POut 1 ChooseDefault; POut 1 ChooseDefault].

Lemma pool_drains_witness :
  exists evs0 p evs p', drain_pool = Some (evs0, p) /\ run pool_hstep ([], p) drain_trace = Some (evs, p') /\
    length (waiting p) = 2%nat /\ sent_on evs ≡ₚ received <$> waiting p.
Proof.
  destruct (run_succeeds (match drain_pool with
    | Some (evs0, p) =>
        match entries p !! 1%nat, run pool_hstep ([], p) drain_trace with
        | Some e, Some (evs, p') =>
            if decide (e_out e <> OutEnded /\ tn_closed (e_tunnel e) = false /\ tn_cancelled (e_tunnel e) = false /\
                sk_room (dx_out (Conn (e_tunnel e))) = None /\ ch_closed (sendQueue p) = false /\
                ch_closed (sendRetryQueue p) = false /\ length (waiting p) = 2%nat /\
                Forall (fun ch => match pool_hstep (evs, p') (POut 1 ch) with None => true | _ => false end = true)
                  [ChooseCancel; ChooseRetry; ChooseNormal; ChooseDefault])
            then Some (evs0, p, e, evs, p') else None
        | _, _ => None end
    | None => None end)) as [[[[[evs0 p] e] evs] p'] E']; [vm_compute; reflexivity|].
  destruct drain_pool as [[evs1 p1]|]; [|done]. destruct (entries p1 !! 1%nat) as [e1|] eqn:Ee; [|done].
  destruct (run pool_hstep ([], p1) drain_trace) as [[evs2 p2]|] eqn:Er; [|done].
  case_decide as Hd; [|done]. destruct Hd as (H1 & H2 & H3 & H4 & H5 & H6 & H7 & H8).
  exists evs1, p1, evs2, p2. split; [done|]. split; [exact Er|]. split; [exact H7|].
  apply (pool_drains (fun c : duplex stream sink => sk_room (dx_out c) = None) 1 p1 p2 e1 drain_trace evs2).
  - intros [r [out room]] data Hr. cbn in Hr. subst room. eexists. split; reflexivity.
  - by constructor.
  - repeat first [apply Forall_nil_2|apply Forall_cons_2; [by eexists|]].
  - exact Er.
  - intros ch. rewrite Forall_forall in H8. assert (ch ∈ [ChooseCancel; ChooseRetry; ChooseNormal; ChooseDefault]) as Hin
      by (destruct ch; set_solver). specialize (H8 ch Hin). by destruct (pool_hstep _ _).
Defined.

(** The retry is not certain. A tunnel that fails to send a block is
    cancelled before the goroutine that would put the block back looks, so that the
    goroutine may give it up although the retry queue is empty and another tunnel
    is ready: the block is gone. *)
Theorem failed_block_may_be_dropped :
  exists tr evs (p : TunnelPool unit (duplex stream sink)),
    run pool_hstep ([], example_pool) tr = Some (evs, p) /\
    accepted evs = [received block_a] /\ dropped evs = [received block_a] /\ sent_on evs = [] /\
    held p = [] /\ ch_buf (sendRetryQueue p) = [] /\ (0 < ch_cap (sendRetryQueue p))%nat /\
    exists e, entries p !! 1%nat = Some e /\ tn_closed (e_tunnel e) = false.
Proof.
  exists [PSend block_a; PAddTunnel (example_tunnel (Some 5%nat)); PAddTunnel (example_tunnel None);
          POut 0 ChooseDefault; POut 0 ChooseDefault; POut 0 ChooseNormal; PRetryDrop 0].
  eexists _, _. split; [vm_compute; reflexivity|]. vm_compute. split_and!; try done; [lia|].
  eexists. split; reflexivity.
Qed.

(** [Close] closes the queue the tunnels forward to; a tunnel that has read a
    block and not forwarded it yet panics if it then chooses to send. *)
Theorem close_panics_forwarding_tunnel :
  exists tr evs (p : TunnelPool unit (duplex stream sink)),
    run pool_hstep ([], example_pool) tr = Some (evs, p) /\ pool_step p (PInForward 0) = Panic.
Proof.
  exists [PAddTunnel (newTunnelWithID (mkDuplex (Stream [encode block_a] None) (Sink [] None)) 5 77 false);
          PIn 0 (fun _ => 9); PClose].
  eexists _, _. split; [vm_compute; reflexivity|]. reflexivity.
Qed.
