(* ===== verification/PoolManager.v ===== *)
(** tunnel_pool/manager.go: the client's manager, which dials until the pool has
    its number of tunnels, and the server's, which removes a peer whose pool has
    been empty for too long. *)

From S2P Require Import Prelude Tunnel TunnelPool.

Local Open Scope Z_scope.

(** * ClientManager *)

Record ClientManager : Type := mkClientManager {
  tunnelNum : Z;
  endpoints : list string;
  retryFailed : bool;
  cm_started : nat;        (** [DecreaseNotify] goroutines started *)
}.

Definition NewClientManager (tunnelNum : Z) (endpoints : list string) (retryFailed : bool) : ClientManager :=
  mkClientManager tunnelNum endpoints retryFailed 0.

#[export] Instance ClientManager_manager : Manager ClientManager := {|
  Notify _ cm := cm;
  DecreaseNotify_starts cm := mkClientManager (tunnelNum cm) (endpoints cm) (retryFailed cm) (S (cm_started cm));
|}.

(** How one attempt at an endpoint ends. *)
Inductive attempt : Type := DialFailed | ExchangeFailed | Created.

Inductive dn_event : Type :=
  | Slept (sec : Z)
  | Added (endpoint : string).

(** The variables of [DecreaseNotify]; [cm.endpoints] is the manager's slice. *)
Record dn_state : Type := mkDn {
  dn_endpoints : list string;
  lastfailed : string;
  retryweight : gmap string Z;
  tunnelToCreate : Z;
}.

Definition weight (s : dn_state) (endpoint : string) : Z := default 0 (retryweight s !! endpoint).

Definition curindex (s : dn_state) : nat :=
  Z.to_nat ((tunnelToCreate s - 1) mod Z.of_nat (length (dn_endpoints s))).

(** Exchange the failed endpoint with the next one, or the last with the first. *)
Definition demote (i : nat) (l : list string) : list string :=
  let j := if decide (i = length l - 1)%nat then 0%nat else S i in
  match l !! i, l !! j with
  | Some endpoint, Some other => <[j := endpoint]> (<[i := other]> l)
  | _, _ => l
  end.

Definition on_dial_failed `{V : TunnelVars} (retry : bool) (endpoint : string) (s : dn_state) : list dn_event * dn_state :=
  let '(l, w) :=
    if retry then
      (dn_endpoints s,
       if decide (weight s endpoint < 5) then <[endpoint := weight s endpoint + 1]> (retryweight s)
       else retryweight s)
    else
      (if decide (lastfailed s = endpoint) then demote (curindex s) (dn_endpoints s) else dn_endpoints s,
       <[endpoint := 1]> (retryweight s)) in
  ([Slept (default 0 (w !! endpoint) * ErrorWaitSec)], mkDn l endpoint w (tunnelToCreate s)).

Definition on_dialed (endpoint : string) (s : dn_state) : dn_state :=
  if decide (lastfailed s = endpoint)
  then mkDn (dn_endpoints s) "" (<[endpoint := 0]> (retryweight s)) (tunnelToCreate s)
  else s.

(** The endpoint to try, empty when there are none. *)
Definition choose_endpoint (s : dn_state) : string :=
  if decide (0 < length (dn_endpoints s))%nat
  then default ""%string (dn_endpoints s !! curindex s) else ""%string.

(** One pass of the loop; [dial] says how an attempt at an endpoint ends. *)
Definition DecreaseNotify_pass `{V : TunnelVars} (retry : bool) (dial : string -> attempt) (s : dn_state)
    : list dn_event * dn_state :=
  let endpoint := choose_endpoint s in
  if decide (endpoint = ""%string) then ([], s)
  else
    match dial endpoint with
    | DialFailed => on_dial_failed retry endpoint s
    | ExchangeFailed => ([Slept ErrorWaitSec], on_dialed endpoint s)
    | Created =>
        let s := on_dialed endpoint s in
        ([Added endpoint], mkDn (dn_endpoints s) (lastfailed s) (retryweight s) (tunnelToCreate s - 1))
    end.

(** The loop: [cancelled k] is the pool's context at pass [k]. *)
Fixpoint DecreaseNotify_loop `{V : TunnelVars} (fuel : nat) (retry : bool) (cancelled : nat -> bool)
    (dial : nat -> string -> attempt) (k : nat) (s : dn_state) : option (list dn_event * dn_state) :=
  if decide (tunnelToCreate s <= 0) then Some ([], s)
  else
    match fuel with
    | O => None
    | S fuel =>
        if cancelled k then Some ([], s)
        else
          let '(evs, s) := DecreaseNotify_pass retry (dial k) s in
          match DecreaseNotify_loop fuel retry cancelled dial (S k) s with
          | Some (evs', s) => Some (evs ++ evs', s)
          | None => None
          end
    end.

(** [cm.DecreaseNotify(pool)] on a pool of [tunnelCount] tunnels. *)
Definition DecreaseNotify `{V : TunnelVars} (fuel : nat) (cancelled : nat -> bool) (dial : nat -> string -> attempt)
    (tunnelCount : Z) (cm : ClientManager) : option (list dn_event * dn_state) :=
  DecreaseNotify_loop fuel (retryFailed cm) cancelled dial 0
    (mkDn (endpoints cm) "" ∅ (tunnelNum cm - tunnelCount)).

Definition added (evs : list dn_event) : list string :=
  omap (fun ev => match ev with Added e => Some e | _ => None end) evs.

(** * ServerManager *)

(** A countdown goroutine: its context, and whether it has ended. *)
Record countdown : Type := mkCountdown { cd_cancelled : bool; cd_done : bool }.

Record ServerManager : Type := mkServerManager {
  triggered : bool;
  countdowns : list countdown;          (** oldest first; [cancelCountDownFunc] is the last one's *)
  peer_removed : bool;                  (** [removePeerFunc] was called *)
}.

Definition NewServerManager : ServerManager := mkServerManager false [] false.

Definition cancel_last (l : list countdown) : list countdown :=
  match last l with
  | Some c => <[(length l - 1)%nat := mkCountdown true (cd_done c)]> l
  | None => l
  end.

(** [sm.Notify(pool)]. *)
Definition server_notify (tunnelCount : nat) (sm : ServerManager) : ServerManager :=
  let sm :=
    if decide (tunnelCount = 0%nat /\ triggered sm = false)
    then mkServerManager true (cancel_last (countdowns sm) ++ [mkCountdown false false]) (peer_removed sm)
    else sm in
  if decide (tunnelCount <> 0%nat /\ triggered sm = true)
  then mkServerManager false (cancel_last (countdowns sm)) (peer_removed sm) else sm.

#[export] Instance ServerManager_manager : Manager ServerManager := {|
  Notify := server_notify;
  DecreaseNotify_starts sm := sm;
|}.

Inductive sm_label : Type :=
  | SNotify (tunnelCount : nat)
  | SExpired (i : nat)           (** the timer of countdown [i] is up *)
  | SStopped (i : nat).          (** countdown [i] sees its context cancelled *)

Definition sm_step (sm : ServerManager) (l : sm_label) : option ServerManager :=
  match l with
  | SNotify n => Some (Notify n sm)
  | SExpired i =>
      match countdowns sm !! i with
      | Some (mkCountdown c false) =>
          Some (mkServerManager (triggered sm) (<[i := mkCountdown c true]> (countdowns sm)) true)
      | _ => None
      end
  | SStopped i =>
      match countdowns sm !! i with
      | Some (mkCountdown true false) =>
          Some (mkServerManager (triggered sm) (<[i := mkCountdown true true]> (countdowns sm)) (peer_removed sm))
      | _ => None
      end
  end.

(** * The client keeps its endpoints and fills its pool *)

Lemma demote_Permutation i l : demote i l ≡ₚ l.
Proof.
  unfold demote. set (j := if decide _ then _ else _).
  destruct (l !! i) as [a|] eqn:Ei; [|done]. destruct (l !! j) as [b|] eqn:Ej; [|done].
  by apply Permutation_insert_swap.
Qed.

Lemma added_app e1 e2 : added (e1 ++ e2) = added e1 ++ added e2.
Proof. apply omap_app. Qed.

Section Loop.
Context `{V : TunnelVars} (Hwait : 0 <= ErrorWaitSec) (retry : bool) (cancelled : nat -> bool) (dial : nat -> string -> attempt).
Implicit Types (s : dn_state).

(** What a pass keeps, whatever the attempt. *)
Record pass_ok s (evs : list dn_event) s' : Prop := {
  po_endpoints : dn_endpoints s' ≡ₚ dn_endpoints s;
  po_todo : tunnelToCreate s' = tunnelToCreate s - Z.of_nat (length (added evs));
  po_slept sec : Slept sec ∈ evs -> ErrorWaitSec <= sec <= 5 * ErrorWaitSec;
  po_added e : e ∈ added evs -> e ∈ dn_endpoints s;
  po_weight : map_Forall (fun _ w => 0 <= w <= 5) (retryweight s');
}.

Lemma pass_ok_trans s1 e1 s2 e2 s3 : pass_ok s1 e1 s2 -> pass_ok s2 e2 s3 -> pass_ok s1 (e1 ++ e2) s3.
Proof.
  intros [P1 T1 S1 A1 W1] [P2 T2 S2 A2 W2]. constructor.
  - by rewrite P2.
  - rewrite added_app, length_app. lia.
  - intros sec [?|?]%elem_of_app; auto.
  - intros e. rewrite added_app. intros [?|?]%elem_of_app; [auto|]. rewrite <-P1. auto.
  - done.
Qed.

Lemma on_dial_failed_ok e s evs s' :
  map_Forall (fun _ w => 0 <= w <= 5) (retryweight s) ->
  on_dial_failed retry e s = (evs, s') -> pass_ok s evs s'.
Proof.
  intros Hw. assert (0 <= weight s e <= 5) as Hwe
    by (unfold weight; destruct (_ !! _) eqn:E; cbn; [by apply Hw in E|lia]).
  unfold on_dial_failed. destruct retry.
  - case_decide as Hlt; intros [= <- <-]; constructor; cbn [dn_endpoints tunnelToCreate retryweight added omap list_omap];
      try done; try (cbn; lia); try (by intros ? ?%elem_of_nil).
    + intros sec. rewrite lookup_insert_eq, list_elem_of_singleton. cbn [default]. intros [= ->].
      cbn. nia.
    + apply map_Forall_insert_2; [lia|done].
    + intros sec. fold (weight s e). rewrite list_elem_of_singleton. intros [= ->]. nia.
  - intros [= <- <-]. constructor; cbn [dn_endpoints tunnelToCreate retryweight added omap list_omap].
    + case_decide; [apply demote_Permutation|done].
    + cbn. lia.
    + intros sec. rewrite lookup_insert_eq, list_elem_of_singleton. cbn [default]. intros [= ->]. nia.
    + by intros ? ?%elem_of_nil.
    + apply map_Forall_insert_2; [lia|done].
Qed.

Lemma on_dialed_same e s :
  dn_endpoints (on_dialed e s) = dn_endpoints s /\ tunnelToCreate (on_dialed e s) = tunnelToCreate s /\
  (map_Forall (fun _ w => 0 <= w <= 5) (retryweight s) ->
   map_Forall (fun _ w => 0 <= w <= 5) (retryweight (on_dialed e s))).
Proof.
  unfold on_dialed. case_decide; [|done]. split; [done|]. split; [done|]. intros Hw.
  apply map_Forall_insert_2; [lia|done].
Qed.

Lemma pass_spec k s evs s' :
  map_Forall (fun _ w => 0 <= w <= 5) (retryweight s) ->
  DecreaseNotify_pass retry (dial k) s = (evs, s') -> pass_ok s evs s'.
Proof.
  intros Hw. unfold DecreaseNotify_pass. cbv zeta. set (ep := choose_endpoint s).
  case_decide as He.
  { intros [= <- <-]. constructor; try done; cbn; [lia|by intros ? ?%elem_of_nil..]. }
  assert (ep ∈ dn_endpoints s) as Hin.
  { subst ep. unfold choose_endpoint in *. case_decide; [|done]. destruct (dn_endpoints s !! curindex s) eqn:El; [|done].
    by eapply list_elem_of_lookup_2. }
  destruct (on_dialed_same ep s) as (D1 & D2 & D3).
  destruct (dial k ep); [by apply on_dial_failed_ok|intros [= <- <-]..];
    (constructor; cbn [dn_endpoints tunnelToCreate retryweight added omap list_omap]; rewrite ?D1, ?D2; auto);
    try (cbn; lia).
  - intros sec. rewrite list_elem_of_singleton. intros [= ->]. nia.
  - by intros ? ?%elem_of_nil.
  - intros sec. by rewrite list_elem_of_singleton.
  - intros e. rewrite list_elem_of_singleton. by intros ->.
Qed.

Lemma loop_spec fuel k s evs s' :
  map_Forall (fun _ w => 0 <= w <= 5) (retryweight s) ->
  DecreaseNotify_loop fuel retry cancelled dial k s = Some (evs, s') ->
  pass_ok s evs s' /\ ((forall j, cancelled j = false) -> tunnelToCreate s' <= 0) /\
  (0 <= tunnelToCreate s -> 0 <= tunnelToCreate s').
Proof.
  revert k s evs. induction fuel as [|fuel IH]; intros k s evs Hw; cbn [DecreaseNotify_loop];
    assert (pass_ok s [] s) as Hr by (constructor; try done; cbn; [lia|by intros ? ?%elem_of_nil..]).
  - case_decide; [|done]. by intros [= <- <-].
  - case_decide as Ht; [by intros [= <- <-]|].
    destruct (cancelled k) eqn:Ec; [intros [= <- <-]; split; [done|]; split; [|done]|].
    { intros Hnc. by rewrite Hnc in Ec. }
    destruct (DecreaseNotify_pass retry (dial k) s) as [e1 s1] eqn:Ep.
    destruct (DecreaseNotify_loop _ _ _ _ _ s1) as [[e2 s2]|] eqn:El; [|done]. intros [= <- <-].
    pose proof (pass_spec _ _ _ _ Hw Ep) as Hok.
    apply IH in El as (Hok2 & H1 & H2); [|by apply po_weight in Hok].
    split; [by eapply pass_ok_trans|]. split; [done|]. intros _. apply H2.
    assert (length (added e1) <= 1)%nat as Hle.
    { revert Ep. unfold DecreaseNotify_pass, on_dial_failed. repeat case_match; intros [= <- <-]; cbn; lia. }
    rewrite (po_todo _ _ _ Hok). lia.
Qed.

Lemma loop_full fuel k s :
  tunnelToCreate s <= 0 -> DecreaseNotify_loop fuel retry cancelled dial k s = Some ([], s).
Proof. intros. destruct fuel; cbn [DecreaseNotify_loop]; by rewrite decide_True. Qed.

(** Once every attempt succeeds, each pass creates a tunnel. *)
Lemma pass_progress k s :
  dn_endpoints s <> [] -> Forall (fun e => e <> ""%string) (dn_endpoints s) ->
  (forall e, dial k e = Created) ->
  exists e s', dn_endpoints s !! curindex s = Some e /\
    DecreaseNotify_pass retry (dial k) s = ([Added e], s') /\
    dn_endpoints s' = dn_endpoints s /\ tunnelToCreate s' = tunnelToCreate s - 1.
Proof.
  intros Hne Hall Hd.
  assert (0 < length (dn_endpoints s))%nat as Hl by (destruct (dn_endpoints s); [done|cbn; lia]).
  destruct (dn_endpoints s !! curindex s) as [e|] eqn:El.
  2:{ apply lookup_ge_None in El. unfold curindex in El.
      pose proof (Z.mod_pos_bound (tunnelToCreate s - 1) (Z.of_nat (length (dn_endpoints s))) ltac:(lia)). lia. }
  destruct (on_dialed_same e s) as (D1 & D2 & _).
  assert (choose_endpoint s = e) as Ece by (unfold choose_endpoint; rewrite decide_True by done; by rewrite El).
  unfold DecreaseNotify_pass. cbv zeta. rewrite Ece.
  rewrite decide_False by exact (Forall_lookup_1 _ _ _ _ Hall El).
  rewrite Hd. eexists _, _. split; [done|]. split; [done|]. cbn. by rewrite D1, D2.
Qed.

Lemma loop_fills fuel k s :
  (forall j, cancelled j = false) -> (forall j e, (k <= j)%nat -> dial j e = Created) ->
  dn_endpoints s <> [] -> Forall (fun e => e <> ""%string) (dn_endpoints s) ->
  tunnelToCreate s <= Z.of_nat fuel ->
  exists evs s', DecreaseNotify_loop fuel retry cancelled dial k s = Some (evs, s').
Proof.
  revert k s. induction fuel as [|fuel IH]; intros k s Hc Hd Hne Hall Hf; cbn [DecreaseNotify_loop].
  - rewrite decide_True by lia. eauto.
  - case_decide; [eauto|]. rewrite Hc.
    destruct (pass_progress k s Hne Hall) as (e & s1 & _ & -> & E1 & E2); [intros; apply Hd; lia|].
    destruct (IH (S k) s1 Hc) as (evs & s2 & ->); rewrite ?E1; eauto; try lia.
    intros j e' Hj. apply Hd. lia.
Qed.

(** However the first attempts end, the loop goes on; from pass [n] on it fills. *)
Lemma loop_eventually n fuel k s :
  (forall j, cancelled j = false) -> (forall j e, (k + n <= j)%nat -> dial j e = Created) ->
  map_Forall (fun _ w => 0 <= w <= 5) (retryweight s) ->
  dn_endpoints s <> [] -> Forall (fun e => e <> ""%string) (dn_endpoints s) ->
  tunnelToCreate s <= Z.of_nat fuel ->
  exists evs s', DecreaseNotify_loop (n + fuel) retry cancelled dial k s = Some (evs, s').
Proof.
  revert k s. induction n as [|n IH]; intros k s Hc Hd Hw Hne Hall Hf.
  - apply loop_fills; auto. intros j e Hj. apply Hd. lia.
  - cbn [Nat.add DecreaseNotify_loop]. case_decide; [eauto|]. rewrite Hc.
    destruct (DecreaseNotify_pass retry (dial k) s) as [e1 s1] eqn:Ep.
    apply pass_spec in Ep as Hok; [|done]. destruct Hok as [P T _ _ W].
    destruct (IH (S k) s1 Hc) as (evs & s2 & ->); auto; try lia.
    + intros j e Hj. apply Hd. lia.
    + intros E. apply Hne. apply Permutation_nil_r. by rewrite <-P, E.
    + by rewrite P.
    + eauto.
Qed.
End Loop.

(** * The server's countdown *)

(** What the countdowns say after a run whose last notification counted
    [last_count] tunnels. *)
Record sm_inv (last_count : option nat) (sm : ServerManager) : Prop := {
  si_triggered : triggered sm = bool_decide (last_count = Some 0%nat);
  si_old : forall i c, countdowns sm !! i = Some c -> S i <> length (countdowns sm) -> cd_cancelled c = true;
  si_last : forall c, last (countdowns sm) = Some c -> cd_cancelled c = negb (triggered sm);
  si_armed : triggered sm = true -> countdowns sm <> [];
  si_removed : forall c, c ∈ countdowns sm -> cd_cancelled c = false -> cd_done c = true -> peer_removed sm = true;
}.

Definition notified (tr : list sm_label) : option nat :=
  last (omap (fun l => match l with SNotify n => Some n | _ => None end) tr).

Lemma notified_snoc tr l :
  notified (tr ++ [l]) = match l with SNotify n => Some n | _ => notified tr end.
Proof. unfold notified. rewrite omap_app. destruct l; cbn; by rewrite ?app_nil_r, ?last_snoc. Qed.

Lemma cancel_last_spec l :
  length (cancel_last l) = length l /\
  (forall i c, cancel_last l !! i = Some c ->
     exists c0, l !! i = Some c0 /\ cd_done c = cd_done c0 /\
       (cd_cancelled c = if decide (S i = length l) then true else cd_cancelled c0)).
Proof.
  unfold cancel_last. destruct (last l) as [c1|] eqn:El.
  2:{ apply last_None in El as ->. split; [done|]. by intros i c. }
  rewrite last_lookup in El. split; [apply length_insert|]. intros i c Hi.
  assert (0 < length l)%nat as Hl by (destruct l; [done|cbn; lia]).
  destruct (decide (S i = length l)) as [E|E].
  - assert (i = Nat.pred (length l)) as -> by lia. replace (length l - 1)%nat with (Nat.pred (length l)) in Hi by lia.
    rewrite list_lookup_insert_eq in Hi by lia. injection Hi as <-. eauto.
  - rewrite list_lookup_insert_ne in Hi by lia. eauto.
Qed.

Lemma cancel_last_all l :
  (forall i c, l !! i = Some c -> S i <> length l -> cd_cancelled c = true) ->
  Forall (fun c => cd_cancelled c = true) (cancel_last l).
Proof.
  intros Hold. apply Forall_lookup. intros i c Hi.
  destruct (cancel_last_spec l) as [_ Hs]. destruct (Hs _ _ Hi) as (c0 & H0 & _ & ->).
  case_decide; [done|eauto].
Qed.

Lemma sm_inv_notify lc sm n : sm_inv lc sm -> sm_inv (Some n) (server_notify n sm).
Proof.
  intros [T O L A R]. pose proof (cancel_last_all _ O) as Hall.
  assert (forall c, c ∈ cancel_last (countdowns sm) -> cd_cancelled c = false -> False) as Hnone.
  { intros c Hc E. rewrite Forall_forall in Hall. rewrite (Hall _ Hc) in E. done. }
  unfold server_notify. destruct n as [|n]; destruct (triggered sm) eqn:Et.
  - rewrite !decide_False by (intros []; congruence). constructor; rewrite ?Et; try done.
  - rewrite (decide_True (P := 0%nat = 0%nat /\ false = false)) by done.
    rewrite decide_False by (intros []; congruence).
    constructor; cbn [triggered countdowns peer_removed]; [done| | |by destruct (cancel_last _)|].
    + intros i c Hi Hn. rewrite length_app in Hn. cbn in Hn.
      apply lookup_app_Some in Hi as [Hi|[Hl Hi]].
      * rewrite Forall_lookup in Hall. eauto.
      * apply list_lookup_singleton_Some in Hi as [? _]. lia.
    + intros c. rewrite last_snoc. by intros [= <-].
    + intros c [Hc|Hc]%elem_of_app; [intros E; by destruct (Hnone c)|].
      apply list_elem_of_singleton in Hc as ->. done.
  - rewrite (decide_False (P := S n = 0%nat /\ true = false)) by (intros []; congruence).
    rewrite decide_True by done.
    constructor; cbn [triggered countdowns peer_removed]; try done.
    + intros i c Hi _. rewrite Forall_lookup in Hall. eauto.
    + intros c Hc. rewrite last_lookup in Hc. rewrite Forall_lookup in Hall. eauto.
    + intros c Hc E. by destruct (Hnone c).
  - rewrite (decide_False (P := S n = 0%nat /\ false = false)) by (intros []; congruence).
    rewrite decide_False by (intros []; congruence). constructor; rewrite ?Et; try done.
Qed.

(** A countdown that ends keeps its context as it is. *)
Lemma sm_inv_done lc sm i c0 removed :
  sm_inv lc sm -> countdowns sm !! i = Some (mkCountdown c0 false) ->
  (c0 = false -> removed = true) -> (peer_removed sm = true -> removed = true) ->
  sm_inv lc (mkServerManager (triggered sm) (<[i := mkCountdown c0 true]> (countdowns sm)) removed).
Proof.
  intros [T O L A R] Hi Hrem Hkeep.
  assert (forall j c, <[i := mkCountdown c0 true]> (countdowns sm) !! j = Some c ->
    exists c1, countdowns sm !! j = Some c1 /\ cd_cancelled c = cd_cancelled c1 /\
      (cd_done c = true -> cd_cancelled c = false -> cd_done c1 = true \/ c0 = false)) as Hlk.
  { intros j c Hj. destruct (decide (i = j)) as [<-|Hij].
    - rewrite list_lookup_insert_eq in Hj by (by eapply lookup_lt_Some). injection Hj as <-.
      eexists. split; [exact Hi|]. split; [done|]. intros _. auto.
    - rewrite list_lookup_insert_ne in Hj by done. eauto 6. }
  constructor; cbn [triggered countdowns peer_removed]; rewrite ?length_insert; [done|..].
  - intros j c Hj Hn. destruct (Hlk _ _ Hj) as (c1 & Hc1 & -> & _). eauto.
  - intros c. rewrite last_lookup, length_insert. intros Hj.
    destruct (Hlk _ _ Hj) as (c1 & Hc1 & -> & _). apply L. by rewrite last_lookup.
  - intros Ht E. apply (A Ht). apply length_zero_iff_nil. by rewrite <-(length_insert (countdowns sm) i (mkCountdown c0 true)), E.
  - intros c [j Hj]%list_elem_of_lookup Hc Hd. destruct (Hlk _ _ Hj) as (c1 & Hc1 & E & H1).
    destruct (H1 Hd Hc) as [Hd1|Hf]; [|auto]. apply Hkeep. apply (R c1); [|congruence|done].
    by eapply list_elem_of_lookup_2.
Qed.

Lemma sm_run_inv tr sm : run sm_step NewServerManager tr = Some sm -> sm_inv (notified tr) sm.
Proof.
  apply (run_invariant sm_step (fun tr sm => sm_inv (notified tr) sm)).
  - constructor; cbn; try done. by intros c ?%elem_of_nil.
  - intros tr' s l s' Hi. rewrite notified_snoc. destruct l as [n|i|i]; cbn [sm_step].
    + intros [= <-]. by eapply sm_inv_notify.
    + destruct (countdowns s !! i) as [[c []]|] eqn:E; [done| |done]. intros [= <-].
      by eapply sm_inv_done.
    + destruct (countdowns s !! i) as [[[] []]|] eqn:E; try done. intros [= <-].
      by eapply sm_inv_done.
Qed.

(** * Properties *)

(** C36: the client refills its pool. However attempts at endpoints fail at
    first, once they succeed [DecreaseNotify] returns having added exactly the
    missing tunnels, each to one of its endpoints; it only ever reorders the list of
    endpoints and waits between one and five times [ErrorWaitSec] after a failure. *)
Theorem client_refills_pool `{V : TunnelVars} (n : nat) (dial : nat -> string -> attempt) (tunnelCount : Z) (cm : ClientManager) :
  0 <= ErrorWaitSec -> endpoints cm <> [] -> Forall (fun e => e <> ""%string) (endpoints cm) ->
  (forall j e, (n <= j)%nat -> dial j e = Created) ->
  exists evs s', DecreaseNotify (n + Z.to_nat (tunnelNum cm - tunnelCount)) (fun _ => false) dial tunnelCount cm
      = Some (evs, s') /\
    length (added evs) = Z.to_nat (tunnelNum cm - tunnelCount) /\
    (forall e, e ∈ added evs -> e ∈ endpoints cm) /\
    dn_endpoints s' ≡ₚ endpoints cm /\
    (forall sec, Slept sec ∈ evs -> ErrorWaitSec <= sec <= 5 * ErrorWaitSec).
Proof.
  intros Hwait Hne Hall Hd. unfold DecreaseNotify.
  set (s := mkDn (endpoints cm) "" ∅ (tunnelNum cm - tunnelCount)).
  destruct (loop_eventually Hwait (retryFailed cm) (fun _ => false) dial n (Z.to_nat (tunnelNum cm - tunnelCount)) 0 s)
    as (evs & s' & E); try done; [subst s; cbn [tunnelToCreate]; lia|].
  exists evs, s'. split; [exact E|]. pose proof (loop_spec Hwait _ _ _ _ _ _ _ _ (map_Forall_empty _) E) as (Hok & H1 & H2).
  destruct Hok as [P T S A _]. specialize (H1 ltac:(done)).
  change (tunnelToCreate s) with (tunnelNum cm - tunnelCount) in T, H2. split_and!; auto.
  destruct (decide (0 <= tunnelNum cm - tunnelCount)); [lia|].
  rewrite loop_full in E by (subst s; cbn; lia). injection E as <- <-. cbn. lia.
Qed.

#[local] Existing Instance const_go.

(** Two endpoints; the first two attempts fail, which demotes an endpoint. *)
Lemma client_refills_pool_witness :
  let cm := NewClientManager 3 ["a:1"; "b:2"]%string false in
  let dial (j : nat) (e : string) := if decide (j < 2)%nat then DialFailed else Created in
  exists evs s', DecreaseNotify (2 + Z.to_nat (3 - 0)) (fun _ => false) dial 0 cm = Some (evs, s') /\
    length (added evs) = Z.to_nat (3 - 0) /\
    (forall e, e ∈ added evs -> e ∈ endpoints cm) /\
    dn_endpoints s' ≡ₚ endpoints cm /\
    (forall sec, Slept sec ∈ evs -> ErrorWaitSec <= sec <= 5 * ErrorWaitSec).
Proof.
  apply (client_refills_pool 2 (fun j _ => if decide (j < 2)%nat then DialFailed else Created) 0
    (NewClientManager 3 ["a:1"; "b:2"]%string false)).
  - discriminate.
  - discriminate.
  - repeat constructor; discriminate.
  - intros j e Hj. by rewrite decide_False by lia.
Defined.

Lemma pass_no_endpoints retry dial s :
  dn_endpoints s = [] -> DecreaseNotify_pass retry dial s = ([], s).
Proof. intros E. unfold DecreaseNotify_pass, choose_endpoint. by rewrite E. Qed.

(** Without endpoints, [DecreaseNotify] neither dials nor waits nor returns
    while the pool's context lives: it spins with its lock held. *)
Theorem no_endpoints_spins (fuel : nat) (dial : nat -> string -> attempt) (tunnelCount : Z) (cm : ClientManager) :
  endpoints cm = [] -> tunnelCount < tunnelNum cm ->
  DecreaseNotify fuel (fun _ => false) dial tunnelCount cm = None.
Proof.
  intros He Hlt. unfold DecreaseNotify. rewrite He. generalize 0%nat.
  induction fuel as [|fuel IH]; intros k; cbn [DecreaseNotify_loop tunnelToCreate];
    (rewrite decide_False by lia); [done|].
  by rewrite pass_no_endpoints, IH.
Qed.

Lemma no_endpoints_spins_witness :
  DecreaseNotify 1000 (fun _ => false) (fun _ _ => Created) 0 (NewClientManager 3 [] true) = None.
Proof. apply (no_endpoints_spins 1000 (fun _ _ => Created) 0 (NewClientManager 3 [] true)); [reflexivity|cbn; lia]. Defined.

(** The server's countdown. After any sequence of notifications and timer
    events: if the pool's last reported size was zero, the newest countdown is
    armed, so that it ends only by removing the peer, and every older one is
    cancelled; if it was not zero, every countdown is cancelled. *)
Theorem empty_pool_countdown (tr : list sm_label) (sm : ServerManager) :
  run sm_step NewServerManager tr = Some sm ->
  match notified tr with
  | Some O =>
      exists c, last (countdowns sm) = Some c /\ cd_cancelled c = false /\
        (cd_done c = true -> peer_removed sm = true) /\
        sm_step sm (SStopped (length (countdowns sm) - 1)) = None /\
        Forall (fun c => cd_cancelled c = true) (removelast (countdowns sm))
  | _ => Forall (fun c => cd_cancelled c = true) (countdowns sm)
  end.
Proof.
  intros Hrun%sm_run_inv. destruct Hrun as [T O L A R].
  destruct (notified tr) as [[|n]|] eqn:En; [rewrite bool_decide_true in T by done|..].
  2, 3: rewrite bool_decide_false in T by done; apply Forall_lookup; intros i c Hi;
    destruct (decide (S i = length (countdowns sm))) as [E|E]; [|by eauto];
    rewrite (L c), T; [done|]; rewrite last_lookup; by replace (Nat.pred _) with i by lia.
  destruct (last (countdowns sm)) as [c|] eqn:El; [|by apply last_None in El; destruct (A T)].
  exists c. split; [done|]. specialize (L c eq_refl). rewrite T in L. cbn in L. split; [done|].
  apply last_Some in El as [l El]. rewrite El in *. split; [|split].
  - apply R; [|done]. apply elem_of_app. right. by left.
  - cbn [sm_step]. rewrite El, length_app. cbn [length]. rewrite lookup_app_r by lia.
    replace (length l + 1 - 1 - length l)%nat with 0%nat by lia. cbn. destruct c as [[] []]; done.
  - rewrite removelast_last. apply Forall_lookup. intros i c' Hi.
    pose proof (lookup_lt_Some _ _ _ Hi). apply (O i).
    + rewrite lookup_app_l by done. done.
    + rewrite length_app. cbn. lia.
Qed.

Lemma empty_pool_countdown_witness :
  exists sm, peer_removed sm = true /\
  match notified [SNotify 1; SNotify 0; SNotify 2; SStopped 0; SNotify 0; SExpired 1] with
  | Some O =>
      exists c, last (countdowns sm) = Some c /\ cd_cancelled c = false /\
        (cd_done c = true -> peer_removed sm = true) /\
        sm_step sm (SStopped (length (countdowns sm) - 1)) = None /\
        Forall (fun c => cd_cancelled c = true) (removelast (countdowns sm))
  | _ => Forall (fun c => cd_cancelled c = true) (countdowns sm)
  end.
Proof.
  eexists. split; [|apply (empty_pool_countdown
    [SNotify 1; SNotify 0; SNotify 2; SStopped 0; SNotify 0; SExpired 1]); reflexivity]. reflexivity.
Defined.
