(* ===== verification/ConnPool.v ===== *)
(** connection_pool/pool.go: the connections of a peer by ID, the relay that
    hands the blocks of the tunnel pool to them and the relay that passes theirs
    on, with the connections' own operations as steps of the same system. *)

From S2P Require Import Prelude GoIO Block Stats Processor Connection.
From S2P Require Inbound Outbound.

Local Open Scope Z_scope.

(** A [connection.Connection] is one of the two kinds. *)
Inductive conn : Type :=
  | InConn (c : Inbound.InboundConnection)
  | OutConn (s : Outbound.oc_state).

Definition conn_base (c : conn) : baseConnection :=
  match c with
  | InConn c => Inbound.ic_base c
  | OutConn s => Outbound.oc_base (Outbound.os_conn s)
  end.

Definition GetConnectionID (c : conn) : Z := connectionID (conn_base c).

(** The interface's [RecvBlock]. *)
Definition conn_RecvBlock (blk : Block) (c : conn) : outcome conn :=
  match c with
  | InConn c => b ← RecvBlock blk (Inbound.ic_base c); Ret (InConn (Inbound.set_base b c))
  | OutConn s => '(_, s) ← Outbound.oc_step s (Outbound.ORecvBlock blk); Ret (OutConn s)
  end.

(** A connection with the goroutines the pool starts for it: its [OrderedRelay]
    and the one that waits for its context to remove it. *)
Record centry : Type := mkCEntry {
  ce_conn : conn;
  ce_relay : relay_pc;
  ce_waiting : bool;
}.

Definition set_conn (c : conn) (e : centry) : centry := mkCEntry c (ce_relay e) (ce_waiting e).

(** Where [recvRelay] is: waiting for a block, before its check of the context
    with the connection it has found, in that connection's [RecvBlock], or
    returned. *)
Inductive recv_at : Type :=
  | RecvWaiting
  | RecvFound (k : nat) (blk : Block)
  | RecvHanding (k : nat) (blk : Block)
  | RecvStopped.

(** Where [sendRelay] is: waiting, with a block for the tunnel pool, returned. *)
Inductive send_at : Type := SendWaiting | SendHolding (blk : Block) | SendStopped.

(** [conns] are the connections ever created, [connectionMapping] their indices
    by ID.  [tunnel_send] and [tunnel_recv] are the tunnel pool's queues. *)
Record ConnectionPool : Type := mkConnPool {
  conns : list centry;
  connectionMapping : gmap Z nat;
  cp_sendQueue : chan Block;
  tunnel_send : chan Block;
  tunnel_recv : chan Block;
  acceptNewConnection : bool;
  cp_cancelled : bool;
  cp_recv : recv_at;
  cp_send : send_at;
  cp_stats : global_stats;
}.

Definition set_conns (l : list centry) (p : ConnectionPool) : ConnectionPool :=
  mkConnPool l (connectionMapping p) (cp_sendQueue p) (tunnel_send p) (tunnel_recv p)
    (acceptNewConnection p) (cp_cancelled p) (cp_recv p) (cp_send p) (cp_stats p).
Definition set_cp_sendQueue (q : chan Block) (p : ConnectionPool) : ConnectionPool :=
  mkConnPool (conns p) (connectionMapping p) q (tunnel_send p) (tunnel_recv p)
    (acceptNewConnection p) (cp_cancelled p) (cp_recv p) (cp_send p) (cp_stats p).
Definition set_tunnel_queues (sq rq : chan Block) (p : ConnectionPool) : ConnectionPool :=
  mkConnPool (conns p) (connectionMapping p) (cp_sendQueue p) sq rq
    (acceptNewConnection p) (cp_cancelled p) (cp_recv p) (cp_send p) (cp_stats p).
Definition set_tunnel_send (q : chan Block) (p : ConnectionPool) : ConnectionPool :=
  set_tunnel_queues q (tunnel_recv p) p.
Definition set_tunnel_recv (q : chan Block) (p : ConnectionPool) : ConnectionPool :=
  set_tunnel_queues (tunnel_send p) q p.
Definition set_connectionMapping (m : gmap Z nat) (g : global_stats) (p : ConnectionPool) : ConnectionPool :=
  mkConnPool (conns p) m (cp_sendQueue p) (tunnel_send p) (tunnel_recv p)
    (acceptNewConnection p) (cp_cancelled p) (cp_recv p) (cp_send p) g.
Definition recv_goto (r : recv_at) (p : ConnectionPool) : ConnectionPool :=
  mkConnPool (conns p) (connectionMapping p) (cp_sendQueue p) (tunnel_send p) (tunnel_recv p)
    (acceptNewConnection p) (cp_cancelled p) r (cp_send p) (cp_stats p).
Definition send_goto (r : send_at) (p : ConnectionPool) : ConnectionPool :=
  mkConnPool (conns p) (connectionMapping p) (cp_sendQueue p) (tunnel_send p) (tunnel_recv p)
    (acceptNewConnection p) (cp_cancelled p) (cp_recv p) r (cp_stats p).

(** Replacing the part the two kinds share. *)
Definition set_conn_base (b : baseConnection) (c : conn) : conn :=
  match c with
  | InConn c => InConn (Inbound.set_base b c)
  | OutConn s => OutConn (Outbound.with_conn (Outbound.set_oc_base b (Outbound.os_conn s)) s)
  end.

(** [cp.stopRelay()]: the connections' contexts descend from the pool's. *)
Definition stopped_conn (c : conn) : conn := set_conn_base (Stop (conn_base c)) c.
Definition stop_conn (e : centry) : centry := set_conn (stopped_conn (ce_conn e)) e.

Definition stopRelay (p : ConnectionPool) : ConnectionPool :=
  mkConnPool (stop_conn <$> conns p) (connectionMapping p) (cp_sendQueue p) (tunnel_send p) (tunnel_recv p)
    (acceptNewConnection p) true (cp_recv p) (cp_send p) (cp_stats p).

(** connection_pool/pool.go *)
Definition SendQueueSize : nat := 64.

Definition NewConnectionPool (tsend trecv : chan Block) (accept : bool) (g : global_stats) : ConnectionPool :=
  mkConnPool [] ∅ (make_chan SendQueueSize) tsend trecv accept false RecvWaiting SendWaiting g.

(** Both global counters, whatever the side. *)
Definition on_both (f : Stats -> Stats) (g : global_stats) : global_stats := on_server f (on_client f g).

(** [cp.addConnection(c)] for the connection stored at the end of [conns]. *)
Definition addConnection (c : conn) (p : ConnectionPool) : ConnectionPool :=
  let m := <[GetConnectionID c := length (conns p)]> (connectionMapping p) in
  set_connectionMapping m (on_both IncrementConnectionCount (cp_stats p)) (set_conns (conns p ++ [mkCEntry c AtSelect true]) p).

Definition removeConnection (c : conn) (p : ConnectionPool) : ConnectionPool :=
  match connectionMapping p !! GetConnectionID c with
  | Some _ =>
      set_connectionMapping (delete (GetConnectionID c) (connectionMapping p))
        (on_both DecrementConnectionCount (cp_stats p)) p
  | None => p
  end.

(** The variables of connection/const.go, which the configuration may overwrite,
    and the values they are declared with. *)
Class ConnVars : Type := mkConnVars { RecvQueueSize : nat; OrderedRecvQueueSize : nat }.

Definition const_go : ConnVars := mkConnVars 32 32.

Section Pool.
Context `{V : ConnVars}.

Definition new_inbound (id now : Z) : conn :=
  InConn (Inbound.NewInboundConnection id RecvQueueSize OrderedRecvQueueSize now).
Definition new_outbound (id : Z) : conn :=
  OutConn (Outbound.mkOcState (Outbound.NewOutboundConnection id RecvQueueSize OrderedRecvQueueSize)
             [] [] [] []).

(** The context of a new connection descends from the pool's. *)
Definition in_context (p : ConnectionPool) (c : conn) : conn :=
  if cp_cancelled p then stopped_conn c else c.

Definition NewPooledInboundConnection (id now : Z) (p : ConnectionPool) : ConnectionPool :=
  addConnection (in_context p (new_inbound id now)) p.

Definition NewPooledOutboundConnection (id : Z) (p : ConnectionPool) : ConnectionPool :=
  addConnection (in_context p (new_outbound id)) p.

(** The connection a block goes to, created if need be.  [None]: an unknown
    connection, the block is logged and dropped. *)
Definition find_connection (blk : Block) (p : ConnectionPool) : option (nat * ConnectionPool) :=
  match connectionMapping p !! ConnectionID blk with
  | Some k => Some (k, p)
  | None =>
      if acceptNewConnection p
      then Some (length (conns p), NewPooledOutboundConnection (ConnectionID blk) p)
      else None
  end.

(** [recvRelay]: the outer [select] on the queue, the check of the context, the
    call of [RecvBlock]. *)
Definition recvRelay_take (p : ConnectionPool) : outcome ConnectionPool :=
  match cp_recv p with
  | RecvWaiting =>
      match chan_recv (tunnel_recv p) with
      | Received blk q =>
          match find_connection blk (set_tunnel_recv q p) with
          | Some (k, p) => Ret (recv_goto (RecvFound k blk) p)
          | None => Ret (set_tunnel_recv q p)
          end
      | RecvClosed => Ret (recv_goto RecvStopped p)
      | RecvBlocks => Blocks
      end
  | _ => Blocks
  end.

Definition recvRelay_check (p : ConnectionPool) : outcome ConnectionPool :=
  match cp_recv p with
  | RecvFound k blk => Ret (recv_goto (if cp_cancelled p then RecvStopped else RecvHanding k blk) p)
  | _ => Blocks
  end.

Definition recvRelay_hand (p : ConnectionPool) : outcome ConnectionPool :=
  match cp_recv p with
  | RecvHanding k blk =>
      match conns p !! k with
      | None => Panic
      | Some e =>
          c ← conn_RecvBlock blk (ce_conn e);
          Ret (recv_goto RecvWaiting (set_conns (<[k := set_conn c e]> (conns p)) p))
      end
  | _ => Blocks
  end.

(** The outer [select] on the context. *)
Definition recvRelay_done (p : ConnectionPool) : outcome ConnectionPool :=
  match cp_recv p, cp_cancelled p with
  | RecvWaiting, true => Ret (recv_goto RecvStopped p)
  | _, _ => Blocks
  end.

(** [sendRelay]: the outer [select] on the queue, the inner one on the tunnel
    pool's queue, and either of them on the context. *)
Definition sendRelay_take (p : ConnectionPool) : outcome ConnectionPool :=
  match cp_send p with
  | SendWaiting =>
      match chan_recv (cp_sendQueue p) with
      | Received blk q => Ret (send_goto (SendHolding blk) (set_cp_sendQueue q p))
      | RecvClosed => Ret (send_goto SendStopped p)
      | RecvBlocks => Blocks
      end
  | _ => Blocks
  end.

Definition sendRelay_put (p : ConnectionPool) : outcome ConnectionPool :=
  match cp_send p with
  | SendHolding blk => q ← send_call blk (tunnel_send p); Ret (send_goto SendWaiting (set_tunnel_send q p))
  | _ => Blocks
  end.

Definition sendRelay_done (p : ConnectionPool) : outcome ConnectionPool :=
  match cp_send p, cp_cancelled p with
  | (SendWaiting | SendHolding _), true => Ret (send_goto SendStopped p)
  | _, _ => Blocks
  end.

(** Blocks put on the pool's queue one after the other. *)
Fixpoint send_all (bs : list Block) (q : chan Block) : outcome (chan Block) :=
  match bs with
  | [] => Ret q
  | b :: bs => q ← send_call b q; send_all bs q
  end.

(** [ClientPeer.Dial(address)]: a new inbound connection that asks for the
    target. *)
Definition Dial (id now : Z) (address : string) (p : ConnectionPool) : outcome ConnectionPool :=
  let k := length (conns p) in
  let p := NewPooledInboundConnection id now p in
  match conns p !! k with
  | Some e =>
      let '(bs, b) := SendConnect now address (conn_base (ce_conn e)) in
      q ← send_all bs (cp_sendQueue p);
      Ret (set_cp_sendQueue q (set_conns (<[k := set_conn (set_conn_base b (ce_conn e)) e]> (conns p)) p))
  | None => Panic
  end.

(** A step of a connection's [OrderedRelay] on its two queues. *)
Definition OrderedRelay_step (l : relay_label) (e : centry) : outcome centry :=
  let b := conn_base (ce_conn e) in
  match relay_step (mkRelay (ce_relay e) (bc_processor b)) l with
  | None => Blocks
  | Some r =>
      let next b := mkCEntry (set_conn_base (set_processor (rl_x r) b) (ce_conn e)) (rl_pc r) (ce_waiting e) in
      match l with
      | LRecv blk =>
          match chan_recv (recvQueue b) with
          | Received blk' q => if decide (blk' = blk) then Ret (next (set_recvQueue q b)) else Blocks
          | _ => Blocks
          end
      | LRecvClosed => match chan_recv (recvQueue b) with RecvClosed => Ret (next b) | _ => Blocks end
      | LSent blk => q ← send_call blk (orderedRecvQueue b); Ret (next (set_orderedRecvQueue q b))
      | LTimeout killed => Ret (next (if killed then Stop b else b))
      | LDone => if stopped b then Ret (next b) else Blocks
      end
  end.

(** The calls a user of an inbound connection makes, and the steps of an outbound
    connection that are its own; blocks reach them through the relays only. *)
Definition user_call (op : Inbound.ic_op) : bool :=
  match op with Inbound.OpRecvBlock _ | Inbound.OpDeliver _ => false | _ => true end.
Definition own_step (l : Outbound.oc_label) : bool :=
  match l with Outbound.ORecvBlock _ | Outbound.ODeliver _ => false | _ => true end.

Inductive cp_label : Type :=
  | CDial (id now : Z) (address : string)
  | CTunnelIn (blk : Block)                  (** the tunnel pool has received a block *)
  | CTunnelOut                               (** the tunnel pool takes a block to send *)
  | CTunnelClose                             (** the tunnel pool closes its queues *)
  | CRecvTake | CRecvCheck | CRecvHand | CRecvDone   (** [recvRelay] *)
  | CSendTake | CSendPut | CSendDone                 (** [sendRelay] *)
  | COrderedRelay (k : nat) (l : relay_label)
  | CInbound (k : nat) (op : Inbound.ic_op)
  | COutbound (k : nat) (l : Outbound.oc_label)
  | CRemove (k : nat)                        (** the goroutine of connection [k] sees it stopped *)
  | CStop.                                   (** the peer's context is cancelled *)

(** One step; a call whose blocks do not all fit on the pool's queue waits. *)
Definition cp_step (p : ConnectionPool) (l : cp_label) : outcome ConnectionPool :=
  match l with
  | CDial id now address => Dial id now address p
  | CTunnelIn blk => q ← send_call blk (tunnel_recv p); Ret (set_tunnel_recv q p)
  | CTunnelOut =>
      match chan_recv (tunnel_send p) with
      | Received _ q => Ret (set_tunnel_send q p)
      | _ => Blocks
      end
  | CTunnelClose =>
      sq ← close_call (tunnel_send p);
      rq ← close_call (tunnel_recv p);
      Ret (set_tunnel_queues sq rq p)
  | CRecvTake => recvRelay_take p
  | CRecvCheck => recvRelay_check p
  | CRecvHand => recvRelay_hand p
  | CRecvDone => recvRelay_done p
  | CSendTake => sendRelay_take p
  | CSendPut => sendRelay_put p
  | CSendDone => sendRelay_done p
  | COrderedRelay k l =>
      match conns p !! k with
      | Some e => e ← OrderedRelay_step l e; Ret (set_conns (<[k := e]> (conns p)) p)
      | None => Blocks
      end
  | CInbound k op =>
      match conns p !! k with
      | Some e =>
          match ce_conn e with
          | InConn c =>
              match (if user_call op then Inbound.ic_step ([], c) op else None) with
              | Some (bs, c) =>
                  q ← send_all bs (cp_sendQueue p);
                  Ret (set_cp_sendQueue q (set_conns (<[k := set_conn (InConn c) e]> (conns p)) p))
              | None => Blocks
              end
          | OutConn _ => Blocks
          end
      | _ => Blocks
      end
  | COutbound k l =>
      match conns p !! k with
      | Some e =>
          match ce_conn e with
          | OutConn s =>
              '(bs, s) ← (if own_step l then Outbound.oc_step s l else Blocks);
              q ← send_all bs (cp_sendQueue p);
              Ret (set_cp_sendQueue q (set_conns (<[k := set_conn (OutConn s) e]> (conns p)) p))
          | InConn _ => Blocks
          end
      | _ => Blocks
      end
  | CRemove k =>
      match conns p !! k with
      | Some e =>
          if ce_waiting e && stopped (conn_base (ce_conn e))
          then Ret (removeConnection (ce_conn e)
                      (set_conns (<[k := mkCEntry (ce_conn e) (ce_relay e) false]> (conns p)) p))
          else Blocks
      | None => Blocks
      end
  | CStop => Ret (stopRelay p)
  end.

(** * The invariant of the pool *)

Definition counter_ok (b : baseConnection) : Prop := is_u32 (sendBlockID (bc_processor b)).

(** The blocks a connection holds for its reader. *)
Definition pc_blocks (pc : relay_pc) : list Block :=
  match pc with SendDirect b | SendCached b => [b] | _ => [] end.

(** Every block in a connection's hands carries its ID. *)
Record owns_blocks (e : centry) : Prop := {
  ob_recv : Forall (fun b => ConnectionID b = GetConnectionID (ce_conn e)) (ch_buf (recvQueue (conn_base (ce_conn e))));
  ob_pc : Forall (fun b => ConnectionID b = GetConnectionID (ce_conn e)) (pc_blocks (ce_relay e));
  ob_cache : map_Forall (fun _ b => ConnectionID b = GetConnectionID (ce_conn e))
    (cache (bc_processor (conn_base (ce_conn e))));
  ob_ordered : Forall (fun b => ConnectionID b = GetConnectionID (ce_conn e))
    (ch_buf (orderedRecvQueue (conn_base (ce_conn e))));
}.

(** The connection [recvRelay] is working for, with the block it has for it. *)
Definition at_connection (r : recv_at) : option (nat * Block) :=
  match r with RecvFound k blk | RecvHanding k blk => Some (k, blk) | _ => None end.

Record cp_inv (p : ConnectionPool) : Prop := {
  cp_entries k e : conns p !! k = Some e -> owns_blocks e;
  cp_mapping id k : connectionMapping p !! id = Some k ->
    exists e, conns p !! k = Some e /\ GetConnectionID (ce_conn e) = id;
  cp_holding k blk : at_connection (cp_recv p) = Some (k, blk) ->
    exists e, conns p !! k = Some e /\ GetConnectionID (ce_conn e) = ConnectionID blk;
}.

(** Pools in which every connection of the first keeps its place and ID. *)
Lemma cp_inv_move p p' :
  (forall k e, conns p !! k = Some e ->
    exists e', conns p' !! k = Some e' /\ GetConnectionID (ce_conn e') = GetConnectionID (ce_conn e)) ->
  (forall k e, conns p' !! k = Some e -> owns_blocks e) ->
  (forall id k, connectionMapping p' !! id = Some k -> connectionMapping p !! id = Some k) ->
  (cp_recv p' = cp_recv p \/ at_connection (cp_recv p') = None) ->
  cp_inv p -> cp_inv p'.
Proof.
  intros Hc Ho Hm Hr [E M W].
  assert (forall k e id, conns p !! k = Some e -> GetConnectionID (ce_conn e) = id ->
    exists e', conns p' !! k = Some e' /\ GetConnectionID (ce_conn e') = id) as Hk.
  { intros k e id Hk <-. by apply Hc. }
  constructor; [done| |].
  - intros id k Hk'. destruct (M _ _ (Hm _ _ Hk')) as (e & He & Hid). by eapply Hk.
  - intros k blk Hk'. destruct Hr as [Hr|Hr]; rewrite Hr in Hk'; [|done].
    destruct (W _ _ Hk') as (e & He & Hid). by eapply Hk.
Qed.

(** A step of one connection that keeps its ID and its blocks. *)
Lemma cp_inv_update p k e e' :
  cp_inv p -> conns p !! k = Some e -> GetConnectionID (ce_conn e') = GetConnectionID (ce_conn e) ->
  owns_blocks e' -> cp_inv (set_conns (<[k := e']> (conns p)) p).
Proof.
  intros Hi Hk Hid Hown. apply (cp_inv_move p); [| |done|by left|done]; cbn [set_conns conns]; intros j e1 Hj;
    (destruct (decide (k = j)) as [<-|Hkj];
     [rewrite list_lookup_insert_eq in * by (by eapply lookup_lt_Some)|rewrite list_lookup_insert_ne in * by done]).
  - exists e'. split; [done|]. congruence.
  - by exists e1.
  - by injection Hj as <-.
  - by eapply (cp_entries _ Hi).
Qed.

Lemma cp_inv_same p p' :
  conns p' = conns p -> connectionMapping p' = connectionMapping p ->
  (cp_recv p' = cp_recv p \/ at_connection (cp_recv p') = None) -> cp_inv p -> cp_inv p'.
Proof.
  intros E1 E2 E3 Hi. apply (cp_inv_move p); rewrite ?E1, ?E2; try done; [by eauto|apply (cp_entries _ Hi)].
Qed.

Lemma kept_owns e c' :
  owns_blocks e -> recv_kept (conn_base (ce_conn e)) (conn_base c') ->
  GetConnectionID c' = GetConnectionID (ce_conn e) /\ owns_blocks (set_conn c' e).
Proof.
  intros [O1 O2 O3 O4] [K1 K2 K3 [pre K4]]. split; [exact K2|].
  assert (GetConnectionID c' = GetConnectionID (ce_conn e)) as Hid by exact K2.
  constructor; cbn [set_conn ce_conn ce_relay]; rewrite Hid.
  - by rewrite K3.
  - done.
  - apply (f_equal cache) in K1. cbn in K1. by rewrite K1.
  - rewrite K4 in O4. by apply Forall_app in O4 as [_ ?].
Qed.

Lemma fresh_owns c :
  ch_buf (recvQueue (conn_base c)) = [] -> cache (bc_processor (conn_base c)) = ∅ ->
  ch_buf (orderedRecvQueue (conn_base c)) = [] -> owns_blocks (mkCEntry c AtSelect true).
Proof.
  intros E1 E2 E3. constructor; cbn [ce_conn ce_relay]; rewrite ?E1, ?E2, ?E3; try constructor.
  by apply map_Forall_empty.
Qed.

Lemma addConnection_inv c p :
  cp_inv p -> owns_blocks (mkCEntry c AtSelect true) -> cp_inv (addConnection c p).
Proof.
  intros [E M W] Ho. constructor; cbn [addConnection set_connectionMapping set_conns conns connectionMapping cp_recv].
  - intros k e Hk. apply lookup_app_Some in Hk as [Hk|[_ Hk]]; [by eapply E|].
    by apply list_lookup_singleton_Some in Hk as [_ <-].
  - intros id k Hk. destruct (decide (GetConnectionID c = id)) as [<-|Hne].
    + rewrite lookup_insert_eq in Hk. injection Hk as <-. exists (mkCEntry c AtSelect true).
      by rewrite lookup_app_r, Nat.sub_diag by lia.
    + rewrite lookup_insert_ne in Hk by done. destruct (M _ _ Hk) as (e & He & Hid).
      exists e. split; [|done]. by apply lookup_app_l_Some.
  - intros k blk Hk. destruct (W _ _ Hk) as (e & He & Hid). exists e. split; [|done]. by apply lookup_app_l_Some.
Qed.

Lemma set_conn_base_base b c : conn_base (set_conn_base b c) = b.
Proof. by destruct c. Qed.

(** The relay's own step. *)
Lemma relay_owns l x pc id r :
  map_Forall (fun _ b => ConnectionID b = id) (cache x) ->
  Forall (fun b => ConnectionID b = id) (pc_blocks pc) ->
  (forall blk, l = LRecv blk -> ConnectionID blk = id) ->
  relay_step (mkRelay pc x) l = Some r ->
  map_Forall (fun _ b => ConnectionID b = id) (cache (rl_x r)) /\
  Forall (fun b => ConnectionID b = id) (pc_blocks (rl_pc r)) /\
  (forall blk, l = LSent blk -> ConnectionID blk = id).
Proof.
  intros Hc Hp Hr. unfold relay_step. cbn [rl_pc rl_x].
  assert (forall y, map_Forall (fun _ b => ConnectionID b = id) (cache y) ->
    map_Forall (fun _ b => ConnectionID b = id) (cache (rl_x (next_cached y))) /\
    Forall (fun b => ConnectionID b = id) (pc_blocks (rl_pc (next_cached y)))) as Hnext.
  { intros y Hy. unfold next_cached. destruct (cache y !! recvBlockID y) as [b|] eqn:E; cbn.
    - split; [done|]. constructor; [by eapply Hy|done].
    - by split. }
  destruct pc as [|b|b|], l as [blk| |blk|killed|]; cbn [pc_blocks] in Hp; try done;
    try (intros [= <-]; split; [done|split; [by constructor|by intros ? [=]]]).
  - intros [= <-]. specialize (Hr blk eq_refl). destruct (note_last_same blk x) as [_ Hcn].
    unfold on_block. case_decide; [|case_decide]; cbn [rl_x rl_pc pc_blocks set_cache cache]; rewrite ?Hcn.
    + split; [done|]. split; [by apply Forall_singleton|by intros ? [=]].
    + split; [done|]. split; [done|by intros ? [=]].
    + split; [by apply map_Forall_insert_2|]. split; [done|by intros ? [=]].
  - case_decide; [|done]. intros [= <-]. split; [done|]. split; [by constructor|by intros ? [=]].
  - case_decide; [|done]. intros [= <-]. apply Forall_cons in Hp as [Hp _]. subst blk.
    destruct (Hnext (set_recvBlockID (u32 (recvBlockID x + 1)) x)) as [? ?]; [done|].
    split; [done|]. split; [done|]. by intros ? [= <-].
  - case_decide; [|done]. intros [= <-]. apply Forall_cons in Hp as [Hp _]. subst blk.
    destruct (Hnext (set_recvBlockID (u32 (recvBlockID x + 1)) (set_cache (delete (recvBlockID x) (cache x)) x)))
      as [? ?]; [by apply map_Forall_delete|].
    split; [done|]. split; [done|]. by intros ? [= <-].
Qed.

Lemma OrderedRelay_owns l e e' :
  owns_blocks e -> OrderedRelay_step l e = Ret e' ->
  GetConnectionID (ce_conn e') = GetConnectionID (ce_conn e) /\ owns_blocks e'.
Proof.
  intros [O1 O2 O3 O4]. unfold OrderedRelay_step. set (b := conn_base (ce_conn e)) in *.
  destruct (relay_step _ l) as [r|] eqn:Er; [|done].
  assert (forall b', connectionID b' = connectionID b -> (forall blk, l = LRecv blk -> ConnectionID blk = GetConnectionID (ce_conn e)) ->
    Forall (fun b => ConnectionID b = GetConnectionID (ce_conn e)) (ch_buf (recvQueue b')) ->
    ((forall blk, l = LSent blk -> ConnectionID blk = GetConnectionID (ce_conn e)) ->
     Forall (fun b => ConnectionID b = GetConnectionID (ce_conn e)) (ch_buf (orderedRecvQueue b'))) ->
    e' = mkCEntry (set_conn_base (set_processor (rl_x r) b') (ce_conn e)) (rl_pc r) (ce_waiting e) ->
    GetConnectionID (ce_conn e') = GetConnectionID (ce_conn e) /\ owns_blocks e') as Hmk.
  { intros b' Hid Hl Hrq Hoq ->. destruct (relay_owns _ _ _ _ _ O3 O2 Hl Er) as (Hc & Hp & Hs).
    assert (GetConnectionID (set_conn_base (set_processor (rl_x r) b') (ce_conn e)) = GetConnectionID (ce_conn e))
      as Hid' by (unfold GetConnectionID; by rewrite set_conn_base_base).
    split; [exact Hid'|]. constructor; cbn [ce_conn ce_relay]; rewrite Hid', ?set_conn_base_base; auto. }
  destruct l as [blk| |blk|killed|].
  - destruct (chan_recv (recvQueue b)) as [blk' q| |] eqn:Eq; [|done..]. case_decide as Hb; [|done]. subst blk'.
    apply chan_recv_buf in Eq. rewrite Eq in O1. apply Forall_cons in O1 as [Hb O1].
    intros [= E]. apply (Hmk (set_recvQueue q b)); auto. by intros ? [= <-].
  - destruct (chan_recv (recvQueue b)); [done| |done]. intros [= E]. by apply (Hmk b).
  - unfold send_call. destruct (chan_send _ _) as [q| |] eqn:Eq; [|done..]. cbn. intros [= E].
    apply chan_send_buf in Eq. apply (Hmk (set_orderedRecvQueue q b)); auto; [done|].
    intros Hs. cbn. rewrite Eq. apply Forall_app. split; [done|]. constructor; [by apply Hs|done].
  - intros [= E]. apply (Hmk (if killed then Stop b else b)); auto; by destruct killed.
  - destruct (stopped b); [|done]. intros [= E]. by apply (Hmk b).
Qed.

(** Handing a block over puts it at the end of the connection's queue. *)
Lemma conn_RecvBlock_spec blk c c' :
  conn_RecvBlock blk c = Ret c' ->
  bc_processor (conn_base c') = bc_processor (conn_base c) /\ GetConnectionID c' = GetConnectionID c /\
  ch_buf (recvQueue (conn_base c')) = ch_buf (recvQueue (conn_base c)) ++ [blk] /\
  orderedRecvQueue (conn_base c') = orderedRecvQueue (conn_base c).
Proof.
  destruct c as [c|s]; cbn [conn_RecvBlock Outbound.oc_step]; unfold Outbound.RecvBlock, RecvBlock, send_call;
    (destruct (chan_send _ _) as [q| |] eqn:Eq; [|done..]); cbn; intros [= <-];
    apply chan_send_buf in Eq; cbn; rewrite Eq; done.
Qed.

Lemma conn_RecvBlock_owns blk e c' :
  owns_blocks e -> ConnectionID blk = GetConnectionID (ce_conn e) -> conn_RecvBlock blk (ce_conn e) = Ret c' ->
  GetConnectionID c' = GetConnectionID (ce_conn e) /\ owns_blocks (set_conn c' e).
Proof.
  intros [O1 O2 O3 O4] Hb H. apply conn_RecvBlock_spec in H as (E1 & E2 & E3 & E4). split; [done|].
  constructor; cbn [set_conn ce_conn ce_relay]; rewrite E2, ?E1, ?E3, ?E4; try done.
  apply Forall_app. by split; [|constructor].
Qed.

Lemma in_context_same p c :
  GetConnectionID (in_context p c) = GetConnectionID c /\
  (owns_blocks (mkCEntry c AtSelect true) -> owns_blocks (mkCEntry (in_context p c) AtSelect true)).
Proof.
  unfold in_context. destruct (cp_cancelled p); [|done]. unfold stopped_conn, GetConnectionID.
  rewrite set_conn_base_base. split; [done|]. intros [O1 O2 O3 O4].
  constructor; cbn [ce_conn ce_relay] in *; unfold GetConnectionID; rewrite set_conn_base_base; done.
Qed.

Lemma new_outbound_owns p id : owns_blocks (mkCEntry (in_context p (new_outbound id)) AtSelect true).
Proof. apply in_context_same. by apply fresh_owns. Qed.

Lemma new_inbound_owns p id now : owns_blocks (mkCEntry (in_context p (new_inbound id now)) AtSelect true).
Proof. apply in_context_same. by apply fresh_owns. Qed.

Lemma find_connection_spec blk p k p' :
  cp_inv p -> find_connection blk p = Some (k, p') ->
  cp_inv p' /\ connectionMapping p' !! ConnectionID blk = Some k /\
  (forall j e, conns p !! j = Some e -> conns p' !! j = Some e).
Proof.
  unfold find_connection. intros Hi. destruct (connectionMapping p !! ConnectionID blk) as [j|] eqn:Em.
  - intros [= <- <-]. auto.
  - destruct (acceptNewConnection p); [|done]. intros [= <- <-]. split; [|split].
    + apply addConnection_inv; [done|]. apply new_outbound_owns.
    + cbn [NewPooledOutboundConnection addConnection set_connectionMapping set_conns connectionMapping].
      destruct (in_context_same p (new_outbound (ConnectionID blk))) as [-> _]. by rewrite lookup_insert_eq.
    + intros j e Hj. cbn. by apply lookup_app_l_Some.
Qed.

Lemma recvRelay_take_inv p p' : cp_inv p -> recvRelay_take p = Ret p' -> cp_inv p'.
Proof.
  intros Hi. unfold recvRelay_take. destruct (cp_recv p) eqn:Er; try done.
  destruct (chan_recv (tunnel_recv p)) as [blk q| |]; [|intros [= <-]; by apply (cp_inv_same p); auto|done].
  assert (cp_inv (set_tunnel_recv q p)) as Hi0 by (by apply (cp_inv_same p); auto).
  destruct (find_connection blk (set_tunnel_recv q p)) as [[k p1]|] eqn:Ef; intros [= <-]; [|done].
  destruct (find_connection_spec _ _ _ _ Hi0 Ef) as (Hi1 & Hm & _). destruct Hi1 as [E M W].
  constructor; [done..|]. cbn [recv_goto cp_recv at_connection]. intros k' blk' [= <- <-]. exact (M _ _ Hm).
Qed.

Lemma recvRelay_check_inv p p' : cp_inv p -> recvRelay_check p = Ret p' -> cp_inv p'.
Proof.
  intros Hi. unfold recvRelay_check. destruct (cp_recv p) as [|k blk|k blk|] eqn:Er; try done. intros [= <-].
  destruct (cp_cancelled p); [by apply (cp_inv_same p); auto|]. destruct Hi as [E M W].
  constructor; [done..|]. intros k' blk' Hk. apply W. by rewrite Er.
Qed.

Lemma recvRelay_hand_spec p p' :
  cp_inv p -> recvRelay_hand p = Ret p' ->
  cp_inv p' /\ exists k blk e e', cp_recv p = RecvHanding k blk /\ conns p !! k = Some e /\
    conns p' = <[k := e']> (conns p) /\ cp_recv p' = RecvWaiting /\
    ch_buf (recvQueue (conn_base (ce_conn e'))) = ch_buf (recvQueue (conn_base (ce_conn e))) ++ [blk].
Proof.
  intros Hi. unfold recvRelay_hand. destruct (cp_recv p) as [|k blk|k blk|] eqn:Er; try done.
  destruct (conns p !! k) as [e|] eqn:Ek; [|done].
  destruct (conn_RecvBlock blk (ce_conn e)) as [c| |] eqn:Ec; [|done..]. cbn [mbind outcome_bind]. intros [= <-].
  destruct (cp_holding _ Hi k blk) as (e1 & He1 & Hid); [by rewrite Er|]. rewrite Ek in He1. injection He1 as <-.
  pose proof (conn_RecvBlock_spec _ _ _ Ec) as (_ & _ & Hq & _).
  apply conn_RecvBlock_owns in Ec as [E1 E2]; [|by apply (cp_entries _ Hi k)|done]. split.
  - apply (cp_inv_same (set_conns (<[k := set_conn c e]> (conns p)) p)); [done..|by right|].
    by apply (cp_inv_update _ _ _ _ Hi Ek).
  - by exists k, blk, e, (set_conn c e).
Qed.

Lemma Dial_inv id now a p p' : cp_inv p -> Dial id now a p = Ret p' -> cp_inv p'.
Proof.
  unfold Dial. intros Hi.
  assert (cp_inv (NewPooledInboundConnection id now p)) as Hi1
    by (apply addConnection_inv; [done|apply new_inbound_owns]).
  destruct (conns (NewPooledInboundConnection id now p) !! length (conns p)) as [e|] eqn:Ek; [|done].
  destruct (SendConnect now a (conn_base (ce_conn e))) as [bs b] eqn:Es.
  destruct (send_all _ _); [|done..]. cbn [mbind outcome_bind]. intros [= <-].
  apply SendConnect_kept in Es. destruct (kept_owns e (set_conn_base b (ce_conn e))) as [E1 E2];
    [exact (cp_entries _ Hi1 _ _ Ek)|by rewrite set_conn_base_base|].
  by eapply cp_inv_same; [..|eapply (cp_inv_update _ _ _ (set_conn (set_conn_base b (ce_conn e)) e) Hi1 Ek)]; auto.
Qed.

Lemma removeConnection_inv c p : cp_inv p -> cp_inv (removeConnection c p).
Proof.
  intros Hi. unfold removeConnection. destruct (connectionMapping p !! GetConnectionID c); [|done].
  apply (cp_inv_move p); cbn [set_connectionMapping conns connectionMapping]; [by eauto|apply (cp_entries _ Hi)| |by left|done].
  intros id k Hk. by apply lookup_delete_Some in Hk as [_ Hk].
Qed.

Lemma stop_conn_owns e :
  owns_blocks e -> GetConnectionID (ce_conn (stop_conn e)) = GetConnectionID (ce_conn e) /\ owns_blocks (stop_conn e).
Proof. intros Ho. unfold stop_conn. apply kept_owns; [done|]. unfold stopped_conn. by rewrite set_conn_base_base. Qed.

Lemma user_call_kept op : user_call op = true ->
  forall blk, op <> Inbound.OpRecvBlock blk /\ op <> Inbound.OpDeliver blk.
Proof. by destruct op. Qed.

Lemma own_step_kept l : own_step l = true ->
  forall blk, l <> Outbound.ORecvBlock blk /\ l <> Outbound.ODeliver blk.
Proof. by destruct l. Qed.

(** The relays that are not about one connection. *)
Lemma relays_inv p p' :
  cp_inv p ->
  recvRelay_done p = Ret p' \/ sendRelay_take p = Ret p' \/ sendRelay_put p = Ret p' \/ sendRelay_done p = Ret p' ->
  cp_inv p'.
Proof.
  intros Hi. unfold recvRelay_done, sendRelay_take, sendRelay_put, sendRelay_done.
  intros [H|[H|[H|H]]]; repeat case_match; try done.
  all: first [destruct (send_call _ _) as [q| |]; [|done..]; cbn [mbind outcome_bind] in H|idtac].
  all: injection H as <-; apply (cp_inv_same p); cbn; auto.
Qed.

Lemma stopRelay_inv p : cp_inv p -> cp_inv (stopRelay p).
Proof.
  intros Hi. apply (cp_inv_move p); cbn [stopRelay conns connectionMapping]; [| |done|by left|done];
    intros k e; rewrite list_lookup_fmap.
  - intros Hk. exists (stop_conn e). rewrite Hk. split; [done|]. by apply stop_conn_owns, (cp_entries _ Hi k).
  - destruct (conns p !! k) as [e0|] eqn:Ek; [|done]. intros [= <-]. by apply stop_conn_owns, (cp_entries _ Hi k).
Qed.

Lemma cp_step_inv p l p' : cp_inv p -> cp_step p l = Ret p' -> cp_inv p'.
Proof.
  intros Hi. destruct l as [id now a|blk| | | | | | | | | |k l|k op|k l|k|]; cbn [cp_step].
  - by apply Dial_inv.
  - destruct (send_call _ _); [|done..]. cbn. intros [= <-]. by apply (cp_inv_same p); auto.
  - destruct (chan_recv _); [|done..]. intros [= <-]. by apply (cp_inv_same p); auto.
  - unfold close_call. destruct (chan_close (tunnel_send p)), (chan_close (tunnel_recv p)); try done. cbn. intros [= <-].
    by apply (cp_inv_same p); auto.
  - by apply recvRelay_take_inv.
  - by apply recvRelay_check_inv.
  - intros H. by apply recvRelay_hand_spec in H as [? _].
  - intros H. apply (relays_inv p); auto.
  - intros H. apply (relays_inv p); auto.
  - intros H. apply (relays_inv p); auto.
  - intros H. apply (relays_inv p); auto.
  - destruct (conns p !! k) as [e|] eqn:Ek; [|done].
    destruct (OrderedRelay_step l e) as [e'| |] eqn:Er; [|done..]. cbn. intros [= <-].
    apply OrderedRelay_owns in Er as [E1 E2]; [|exact (cp_entries _ Hi _ _ Ek)]. by eapply cp_inv_update.
  - destruct (conns p !! k) as [e|] eqn:Ek; [|done]. destruct (ce_conn e) as [c|] eqn:Ec; [|done].
    destruct (user_call op) eqn:Eu; [|done].
    destruct (Inbound.ic_step ([], c) op) as [[bs c']|] eqn:Eop; [|done].
    destruct (send_all _ _); [|done..]. cbn. intros [= <-].
    apply Inbound.ic_step_kept in Eop; [|by apply user_call_kept].
    destruct (kept_owns e (InConn c')) as [E1 E2]; [exact (cp_entries _ Hi _ _ Ek)|by rewrite Ec|].
    eapply cp_inv_same; [..|eapply (cp_inv_update _ _ _ (set_conn (InConn c') e) Hi Ek)]; auto.
  - destruct (conns p !! k) as [e|] eqn:Ek; [|done]. destruct (ce_conn e) as [|s] eqn:Ec; [done|].
    destruct (own_step l) eqn:Eu; [|done].
    destruct (Outbound.oc_step s l) as [[bs s']| |] eqn:Eop; [|done..]. cbn.
    destruct (send_all _ _); [|done..]. cbn. intros [= <-].
    apply Outbound.oc_step_kept in Eop; [|by apply own_step_kept].
    destruct (kept_owns e (OutConn s')) as [E1 E2]; [exact (cp_entries _ Hi _ _ Ek)|by rewrite Ec|].
    eapply cp_inv_same; [..|eapply (cp_inv_update _ _ _ (set_conn (OutConn s') e) Hi Ek)]; auto.
  - destruct (conns p !! k) as [e|] eqn:Ek; [|done]. destruct (_ && _); [|done]. intros [= <-].
    apply removeConnection_inv. eapply cp_inv_update; [done..|]. by destruct (cp_entries _ Hi _ _ Ek).
  - intros [= <-]. by apply stopRelay_inv.
Qed.

(** Cancelling is for good; whether new connections are accepted does not change. *)
Lemma cp_step_flags p l p' :
  cp_step p l = Ret p' ->
  (cp_cancelled p = true -> cp_cancelled p' = true) /\ acceptNewConnection p' = acceptNewConnection p.
Proof.
  intros Hs. destruct l as [id now a|blk| | | | | | | | | |k l|k op|k l|k|]; cbn [cp_step] in Hs.
  - unfold Dial in Hs. destruct (conns _ !! _); [|done]. destruct (SendConnect _ _ _).
    destruct (send_all _ _); [|done..]. by injection Hs as <-.
  - destruct (send_call _ _); [|done..]. by injection Hs as <-.
  - destruct (chan_recv _); [|done..]. by injection Hs as <-.
  - unfold close_call in Hs. destruct (chan_close (tunnel_send p)), (chan_close (tunnel_recv p)); try done. by injection Hs as <-.
  - unfold recvRelay_take in Hs. destruct (cp_recv p); try done. destruct (chan_recv _); [|by injection Hs as <-|done].
    unfold find_connection in Hs. destruct (connectionMapping _ !! _); [by injection Hs as <-|].
    destruct (acceptNewConnection _) eqn:Ea; by injection Hs as <-.
  - unfold recvRelay_check in Hs. destruct (cp_recv p); try done. by injection Hs as <-.
  - unfold recvRelay_hand in Hs. destruct (cp_recv p); try done. destruct (conns p !! _); [|done].
    destruct (conn_RecvBlock _ _); [|done..]. by injection Hs as <-.
  - unfold recvRelay_done in Hs. destruct (cp_recv p), (cp_cancelled p) eqn:Hc; try done. by injection Hs as <-.
  - unfold sendRelay_take in Hs. destruct (cp_send p); try done. destruct (chan_recv _); try done; by injection Hs as <-.
  - unfold sendRelay_put in Hs. destruct (cp_send p); try done. destruct (send_call _ _); [|done..]. by injection Hs as <-.
  - unfold sendRelay_done in Hs. destruct (cp_send p), (cp_cancelled p) eqn:Hc; try done; by injection Hs as <-.
  - destruct (conns p !! k); [|done]. destruct (OrderedRelay_step _ _); [|done..]. by injection Hs as <-.
  - destruct (conns p !! k) as [e|]; [|done]. destruct (ce_conn e); [|done].
    destruct (if user_call op then _ else _) as [[]|]; [|done]. destruct (send_all _ _); [|done..]. by injection Hs as <-.
  - destruct (conns p !! k) as [e|]; [|done]. destruct (ce_conn e); [done|].
    destruct (if own_step l then _ else _) as [[]| |]; [|done..]. cbn in Hs. destruct (send_all _ _); [|done..].
    by injection Hs as <-.
  - destruct (conns p !! k) as [e|]; [|done]. destruct (_ && _); [|done]. injection Hs as <-.
    unfold removeConnection. by destruct (connectionMapping _ !! _).
  - by injection Hs as <-.
Qed.

(** ** Which side a connection is *)

Definition is_inbound (e : centry) : bool := match ce_conn e with InConn _ => true | OutConn _ => false end.

Lemma set_conn_base_inbound b c r w r' w' :
  is_inbound (mkCEntry (set_conn_base b c) r w) = is_inbound (mkCEntry c r' w').
Proof. by destruct c. Qed.

Lemma in_context_inbound p c r w : is_inbound (mkCEntry (in_context p c) r w) = is_inbound (mkCEntry c r w).
Proof. unfold in_context. destruct (cp_cancelled p); [apply set_conn_base_inbound|done]. Qed.

Lemma kinds_update (cs : list centry) (k : nat) e e' :
  cs !! k = Some e -> is_inbound e' = is_inbound e -> is_inbound <$> <[k := e']> cs = is_inbound <$> cs.
Proof. intros Hk E. rewrite list_fmap_insert, E. apply list_insert_id. by rewrite list_lookup_fmap, Hk. Qed.

(** A step keeps what its connections are, and may add one: an outbound one only in
    a pool that accepts connections. *)
Lemma step_kinds p l p' :
  cp_step p l = Ret p' ->
  exists new : list bool, is_inbound <$> conns p' = (is_inbound <$> conns p) ++ new /\
    (acceptNewConnection p = false -> Forall (fun b => b = true) new).
Proof.
  assert (forall q, is_inbound <$> conns q = is_inbound <$> conns p -> exists new : list bool,
    is_inbound <$> conns q = (is_inbound <$> conns p) ++ new /\
    (acceptNewConnection p = false -> Forall (fun b => b = true) new)) as Hsame.
  { intros q E. exists []. rewrite app_nil_r. split; [done|by constructor]. }
  destruct l as [id now a|blk| | | | | | | | | |k l|k op|k l|k|]; cbn [cp_step]; intros Hs.
  - unfold Dial in Hs. set (c := in_context p (new_inbound id now)) in *.
    assert (conns (NewPooledInboundConnection id now p) = conns p ++ [mkCEntry c AtSelect true]) as Ec by done.
    rewrite Ec, list_lookup_middle in Hs by done. cbn [ce_conn] in Hs. destruct (SendConnect _ _ _) as [bs b].
    destruct (send_all _ _) as [q| |]; [|done..]. injection Hs as <-. exists [true]. split; [|by repeat constructor].
    cbn [set_cp_sendQueue set_conns conns]. rewrite insert_app_r_alt, Nat.sub_diag, fmap_app by lia. f_equal. cbn.
    unfold set_conn. cbn [ce_conn ce_relay ce_waiting].
    rewrite (set_conn_base_inbound _ _ _ _ AtSelect true). unfold c. by rewrite in_context_inbound.
  - destruct (send_call _ _); [|done..]. injection Hs as <-. by apply Hsame.
  - destruct (chan_recv _); [|done..]. injection Hs as <-. by apply Hsame.
  - unfold close_call in Hs. destruct (chan_close (tunnel_send p)), (chan_close (tunnel_recv p)); try done.
    injection Hs as <-. by apply Hsame.
  - unfold recvRelay_take, find_connection in Hs. destruct (cp_recv p); try done.
    destruct (chan_recv _) as [blk q| |]; [|injection Hs as <-; by apply Hsame|done].
    destruct (connectionMapping _ !! _); [injection Hs as <-; by apply Hsame|].
    change (acceptNewConnection (set_tunnel_recv q p)) with (acceptNewConnection p) in Hs.
    destruct (acceptNewConnection p) eqn:Ea; injection Hs as <-; [|by apply Hsame].
    eexists. cbn. rewrite fmap_app. by split.
  - unfold recvRelay_check in Hs. destruct (cp_recv p); try done. injection Hs as <-. by apply Hsame.
  - unfold recvRelay_hand in Hs. destruct (cp_recv p) as [|k blk|k blk|]; try done.
    destruct (conns p !! k) as [e|] eqn:Ek; [|done].
    destruct (conn_RecvBlock blk (ce_conn e)) as [c| |] eqn:Ec; [|done..]. injection Hs as <-. apply Hsame.
    apply (kinds_update _ _ e); [done|]. destruct e as [[c0|s] r w]; cbn [ce_conn conn_RecvBlock] in Ec |- *.
    + destruct (RecvBlock _ _); [|done..]. by injection Ec as <-.
    + destruct (Outbound.oc_step _ _) as [[bs s']| |]; [|done..]. by injection Ec as <-.
  - apply Hsame. unfold recvRelay_done in Hs. destruct (cp_recv p), (cp_cancelled p); try done. by injection Hs as <-.
  - apply Hsame. unfold sendRelay_take in Hs. destruct (cp_send p); try done.
    destruct (chan_recv _); try done; by injection Hs as <-.
  - apply Hsame. unfold sendRelay_put in Hs. destruct (cp_send p); try done. destruct (send_call _ _); [|done..].
    by injection Hs as <-.
  - apply Hsame. unfold sendRelay_done in Hs. destruct (cp_send p), (cp_cancelled p); try done; by injection Hs as <-.
  - destruct (conns p !! k) as [e|] eqn:Ek; [|done]. destruct (OrderedRelay_step l e) as [e'| |] eqn:Er; [|done..].
    injection Hs as <-. apply Hsame, (kinds_update _ _ e); [done|]. unfold OrderedRelay_step in Er.
    destruct (relay_step _ _) as [r|]; [|done]. destruct e as [c pc w]. cbn [ce_conn] in *.
    destruct l; cbn in Er; repeat case_match; simplify_eq; try done;
      try (destruct (send_call _ _); [|done..]; injection Er as <-); apply set_conn_base_inbound.
  - destruct (conns p !! k) as [e|] eqn:Ek; [|done]. destruct e as [[c|s] r w]; [|done]. cbn [ce_conn] in Hs.
    destruct (if user_call op then _ else _) as [[bs c']|]; [|done]. destruct (send_all _ _); [|done..]. injection Hs as <-.
    by apply Hsame, (kinds_update _ _ (mkCEntry (InConn c) r w)).
  - destruct (conns p !! k) as [e|] eqn:Ek; [|done]. destruct e as [[c|s] r w]; [done|]. cbn [ce_conn] in Hs.
    destruct (if own_step l then _ else _) as [[bs s']| |]; [|done..]. cbn [mbind outcome_bind] in Hs.
    destruct (send_all _ _); [|done..]. injection Hs as <-. by apply Hsame, (kinds_update _ _ (mkCEntry (OutConn s) r w)).
  - destruct (conns p !! k) as [e|] eqn:Ek; [|done]. destruct (_ && _); [|done]. injection Hs as <-. apply Hsame.
    assert (forall q, conns (removeConnection (ce_conn e) q) = conns q) as -> by (intros q; unfold removeConnection; by case_match).
    by apply (kinds_update _ _ e).
  - injection Hs as <-. apply Hsame. cbn. rewrite <-list_fmap_compose. apply list_fmap_ext. intros i e _. cbn.
    destruct e as [c r w]. unfold stop_conn, set_conn. cbn. by apply set_conn_base_inbound.
Qed.

Definition cp_run_step (p : ConnectionPool) (l : cp_label) : option ConnectionPool :=
  match cp_step p l with Ret p' => Some p' | _ => None end.

Lemma cp_inv_init ts tr accept g : cp_inv (NewConnectionPool ts tr accept g).
Proof. constructor; cbn; intros ? ? H; [by rewrite lookup_nil in H|by rewrite lookup_empty in H|done]. Qed.

Lemma cp_run_inv p0 tr p : cp_inv p0 -> run cp_run_step p0 tr = Some p -> cp_inv p.
Proof.
  intros H0. apply (run_invariant cp_run_step (fun _ p => cp_inv p)); [done|].
  intros _ s l s' Hi. unfold cp_run_step. destruct (cp_step s l) eqn:E; [|done..]. intros [= <-].
  by eapply cp_step_inv.
Qed.

(** * Counting *)

(** The live gauge of both modes follows the mapping, as long as no new inbound
    connection draws the ID of a live one. *)
Definition fresh_label (p : ConnectionPool) (l : cp_label) : Prop :=
  match l with CDial id _ _ => connectionMapping p !! id = None | _ => True end.

#[export] Instance fresh_label_dec p l : Decision (fresh_label p l).
Proof. unfold fresh_label. destruct l; apply _. Defined.

Definition cp_fresh_step (p : ConnectionPool) (l : cp_label) : option ConnectionPool :=
  if decide (fresh_label p l) then cp_run_step p l else None.

Definition counts (c0 : Z) (p : ConnectionPool) : Prop :=
  connectionCount (ClientStats (cp_stats p)) = i32 (c0 + Z.of_nat (size (connectionMapping p))) /\
  connectionCount (ServerStats (cp_stats p)) = i32 (c0 + Z.of_nat (size (connectionMapping p))).

Lemma i32_add_l a b : i32 (i32 a + b) = i32 (a + b).
Proof.
  unfold i32. replace ((a + 2 ^ 31) mod 2 ^ 32 - 2 ^ 31 + b + 2 ^ 31) with ((a + 2 ^ 31) mod 2 ^ 32 + b) by lia.
  rewrite Z.add_mod_idemp_l by lia. do 2 f_equal. lia.
Qed.

Lemma counts_same c0 p p' :
  connectionMapping p' = connectionMapping p -> cp_stats p' = cp_stats p -> counts c0 p -> counts c0 p'.
Proof. unfold counts. by intros -> ->. Qed.

Lemma addConnection_counts c0 c p :
  connectionMapping p !! GetConnectionID c = None -> counts c0 p -> counts c0 (addConnection c p).
Proof.
  intros Hn [H1 H2]. unfold counts, addConnection.
  cbn [set_connectionMapping cp_stats connectionMapping on_both on_server on_client ClientStats ServerStats
    IncrementConnectionCount add_connections connectionCount].
  unfold IncrementConnectionCount. cbn [add_connections connectionCount].
  rewrite map_size_insert_None, H1, H2, !i32_add_l by done. split; f_equal; lia.
Qed.

Lemma removeConnection_counts c0 c p : counts c0 p -> counts c0 (removeConnection c p).
Proof.
  intros [H1 H2]. unfold removeConnection. destruct (connectionMapping p !! GetConnectionID c) as [k|] eqn:E; [|done].
  unfold counts. cbn [set_connectionMapping cp_stats connectionMapping on_both on_server on_client ClientStats ServerStats].
  unfold DecrementConnectionCount. cbn [add_connections connectionCount].
  rewrite map_size_delete, E. cbn. rewrite H1, H2, !i32_add_l.
  assert (size (connectionMapping p) <> 0%nat).
  { intros Hz. apply map_size_empty_inv in Hz. by rewrite Hz, lookup_empty in E. }
  split; f_equal; lia.
Qed.

Lemma NewPooledOutbound_counts c0 id p :
  connectionMapping p !! id = None -> counts c0 p -> counts c0 (NewPooledOutboundConnection id p).
Proof.
  intros Hn Hc. apply addConnection_counts; [|done]. by destruct (in_context_same p (new_outbound id)) as [-> _].
Qed.

Lemma NewPooledInbound_counts c0 id now p :
  connectionMapping p !! id = None -> counts c0 p -> counts c0 (NewPooledInboundConnection id now p).
Proof.
  intros Hn Hc. apply addConnection_counts; [|done]. by destruct (in_context_same p (new_inbound id now)) as [-> _].
Qed.

(** A relay step registers a new connection or leaves the mapping and the
    gauges alone. *)
Lemma recvRelay_counts c0 p p' :
  counts c0 p ->
  recvRelay_take p = Ret p' \/ recvRelay_check p = Ret p' \/ recvRelay_hand p = Ret p' \/ recvRelay_done p = Ret p' ->
  counts c0 p'.
Proof.
  intros Hc. unfold recvRelay_take, recvRelay_check, recvRelay_hand, recvRelay_done, find_connection.
  intros [H|[H|[H|H]]].
  - destruct (cp_recv p); try done. destruct (chan_recv _) as [blk q| |]; [|by injection H as <-|done].
    destruct (connectionMapping _ !! _) as [k|] eqn:Em; [by injection H as <-|].
    destruct (acceptNewConnection _); injection H as <-; [|done].
    by apply (NewPooledOutbound_counts c0 (ConnectionID blk) (set_tunnel_recv q p)).
  - destruct (cp_recv p); try done. by injection H as <-.
  - destruct (cp_recv p) as [| |k blk|]; try done. destruct (conns p !! k) as [e|]; [|done].
    destruct (conn_RecvBlock _ _); [|done..]. by injection H as <-.
  - destruct (cp_recv p), (cp_cancelled p); try done. by injection H as <-.
Qed.

Lemma sendRelay_counts c0 p p' :
  counts c0 p -> sendRelay_take p = Ret p' \/ sendRelay_put p = Ret p' \/ sendRelay_done p = Ret p' -> counts c0 p'.
Proof.
  intros Hc. unfold sendRelay_take, sendRelay_put, sendRelay_done. intros [H|[H|H]].
  - destruct (cp_send p); try done. destruct (chan_recv _); try done; by injection H as <-.
  - destruct (cp_send p); try done. destruct (send_call _ _); [|done..]. by injection H as <-.
  - destruct (cp_send p), (cp_cancelled p); try done; by injection H as <-.
Qed.

Lemma cp_step_counts c0 p l p' : fresh_label p l -> counts c0 p -> cp_step p l = Ret p' -> counts c0 p'.
Proof.
  intros Hf Hc. destruct l as [id now a|blk| | | | | | | | | |k l|k op|k l|k|]; cbn [cp_step].
  - unfold Dial. pose proof (NewPooledInbound_counts c0 id now p Hf Hc) as Hc1.
    destruct (conns _ !! _) as [e|]; [|done]. destruct (SendConnect _ _ _). destruct (send_all _ _); [|done..].
    cbn [mbind outcome_bind]. intros [= <-]. exact Hc1.
  - destruct (send_call _ _); [|done..]. by intros [= <-].
  - destruct (chan_recv _); [|done..]. by intros [= <-].
  - unfold close_call. destruct (chan_close (tunnel_send p)), (chan_close (tunnel_recv p)); try done. by intros [= <-].
  - intros H. apply (recvRelay_counts _ p); auto.
  - intros H. apply (recvRelay_counts _ p); auto.
  - intros H. apply (recvRelay_counts _ p); auto.
  - intros H. apply (recvRelay_counts _ p); auto.
  - intros H. apply (sendRelay_counts _ p); auto.
  - intros H. apply (sendRelay_counts _ p); auto.
  - intros H. apply (sendRelay_counts _ p); auto.
  - destruct (conns p !! k); [|done]. destruct (OrderedRelay_step _ _); [|done..]. by intros [= <-].
  - destruct (conns p !! k) as [e|]; [|done]. destruct (ce_conn e); [|done].
    destruct (if user_call op then _ else _) as [[]|]; [|done]. destruct (send_all _ _); [|done..]. by intros [= <-].
  - destruct (conns p !! k) as [e|]; [|done]. destruct (ce_conn e); [done|].
    destruct (if own_step l then _ else _) as [[]| |]; [|done..]. cbn. destruct (send_all _ _); [|done..]. by intros [= <-].
  - destruct (conns p !! k) as [e|]; [|done]. destruct (_ && _); [|done]. intros [= <-].
    apply removeConnection_counts. exact Hc.
  - by intros [= <-].
Qed.

(** * Properties *)

(** What [recvRelay] makes of the block [blk] it takes from [p]'s queue, of which [q]
    is left: the connection registered under the block's ID is called, and nothing
    else changes; for an ID that is not registered a pool that accepts connections
    makes one, of that ID, registers it and calls it; any other drops the block. *)
Record routed (accept : bool) (p : ConnectionPool) (blk : Block) (q : chan Block) (p' : ConnectionPool) : Prop := {
  rt_queue : tunnel_recv p' = q;
  rt_known k : connectionMapping p !! ConnectionID blk = Some k ->
    conns p' = conns p /\ connectionMapping p' = connectionMapping p /\ cp_recv p' = RecvFound k blk;
  rt_new : connectionMapping p !! ConnectionID blk = None -> accept = true ->
    exists e, conns p' = conns p ++ [e] /\ is_inbound e = false /\ GetConnectionID (ce_conn e) = ConnectionID blk /\
      connectionMapping p' = <[ConnectionID blk := length (conns p)]> (connectionMapping p) /\
      cp_recv p' = RecvFound (length (conns p)) blk;
  rt_dropped : connectionMapping p !! ConnectionID blk = None -> accept = false ->
    conns p' = conns p /\ connectionMapping p' = connectionMapping p /\ cp_recv p' = RecvWaiting;
}.

Lemma recvRelay_take_routed p blk q p' :
  chan_recv (tunnel_recv p) = Received blk q -> recvRelay_take p = Ret p' -> routed (acceptNewConnection p) p blk q p'.
Proof.
  intros Hq. unfold recvRelay_take, find_connection. destruct (cp_recv p) eqn:Er; try done. rewrite Hq.
  cbn [set_tunnel_recv set_tunnel_queues connectionMapping acceptNewConnection].
  destruct (connectionMapping p !! ConnectionID blk) as [k|] eqn:Em;
    [|destruct (acceptNewConnection p) eqn:Ea]; intros [= <-]; constructor; rewrite ?Em; try done.
  - by intros k' [= <-].
  - intros _ _. eexists. split; [done|]. unfold is_inbound. fold (new_outbound (ConnectionID blk)).
    destruct (in_context_same (set_tunnel_recv q p) (new_outbound (ConnectionID blk))) as [Hid _].
    split; [exact (in_context_inbound _ (new_outbound (ConnectionID blk)) AtSelect true)|]. split; [exact Hid|].
    cbn. split; [|done]. f_equal. exact Hid.
Qed.

(** What a pool is set up for does not change; one that does not accept connections
    has only inbound ones. *)
Definition pool_side (accept : bool) (p : ConnectionPool) : Prop :=
  acceptNewConnection p = accept /\ (accept = false -> Forall (fun b => b = true) (is_inbound <$> conns p)).

Lemma pool_side_run ts tr0 accept g tr p :
  run cp_run_step (NewConnectionPool ts tr0 accept g) tr = Some p -> pool_side accept p.
Proof.
  apply (run_invariant cp_run_step (fun _ p => pool_side accept p)); [split; [done|by constructor]|].
  intros _ s l s' [Ha Hk]. unfold cp_run_step. destruct (cp_step s l) as [s1| |] eqn:E; [|done..]. intros [= <-].
  destruct (cp_step_flags _ _ _ E) as [_ Hf], (step_kinds _ _ _ E) as (new & En & Hn). split; [congruence|].
  intros Hacc. rewrite En. apply Forall_app. split; [auto|]. apply Hn. congruence.
Qed.

(** C16: routing. In every reachable state all the blocks a connection holds
    carry its ID, and the connection [recvRelay] is about to call has the ID of
    its block; a client's pool has only connections that were dialled. A block that
    is taken goes to the connection registered under its ID and changes nothing; a
    block of an unknown ID makes a connection of that ID on the server, and is
    dropped and changes nothing on the client. The relay goes on to call the
    connection it has found, unless the pool has been cancelled; the call puts the
    block at the end of that connection's queue and touches no other. *)
Theorem pool_routes (ts tr0 : chan Block) (accept : bool) (g : global_stats) (tr : list cp_label)
    (p : ConnectionPool) :
  run cp_run_step (NewConnectionPool ts tr0 accept g) tr = Some p ->
  (forall k e, conns p !! k = Some e -> owns_blocks e) /\
  (forall k blk, at_connection (cp_recv p) = Some (k, blk) ->
    exists e, conns p !! k = Some e /\ GetConnectionID (ce_conn e) = ConnectionID blk) /\
  (accept = false -> forall k e, conns p !! k = Some e -> is_inbound e = true) /\
  (forall blk q p', chan_recv (tunnel_recv p) = Received blk q -> cp_step p CRecvTake = Ret p' -> routed accept p blk q p') /\
  (forall k blk p', cp_recv p = RecvFound k blk -> cp_step p CRecvCheck = Ret p' ->
    conns p' = conns p /\ cp_recv p' = if cp_cancelled p then RecvStopped else RecvHanding k blk) /\
  (forall p', cp_step p CRecvHand = Ret p' ->
    exists k blk e e', cp_recv p = RecvHanding k blk /\ conns p !! k = Some e /\
      conns p' = <[k := e']> (conns p) /\ cp_recv p' = RecvWaiting /\
      ch_buf (recvQueue (conn_base (ce_conn e'))) = ch_buf (recvQueue (conn_base (ce_conn e))) ++ [blk]).
Proof.
  intros Hrun. destruct (pool_side_run _ _ _ _ _ _ Hrun) as [Hacc Hin]. apply cp_run_inv in Hrun as Hi; [|apply cp_inv_init].
  split; [apply (cp_entries _ Hi)|]. split; [apply (cp_holding _ Hi)|]. split; [|split; [|split]].
  - intros Ha k e Hk. specialize (Hin Ha). rewrite Forall_fmap in Hin. exact (Forall_lookup_1 _ _ _ _ Hin Hk).
  - intros blk q p' Hq Hs. rewrite <-Hacc. by apply recvRelay_take_routed.
  - intros k blk p' Hr Hs. cbn [cp_step] in Hs. unfold recvRelay_check in Hs. rewrite Hr in Hs. by injection Hs as <-.
  - intros p' Hs. by apply (recvRelay_hand_spec p p' Hi).
Qed.

End Pool.

#[local] Existing Instance const_go.

(** A server-side pool that gets the blocks of two connections interleaved. *)
Definition example_server : ConnectionPool :=
  NewConnectionPool (make_chan 64) (make_chan 64) true (InitStats 10).

Definition relayed (blk : Block) : list cp_label := [CTunnelIn blk; CRecvTake; CRecvCheck; CRecvHand].

Definition example_trace : list cp_label :=
  relayed (NewConnectBlock 0 7 0 "t") ++ relayed (newDataBlock 0 8 0 [x01]) ++
  [CTunnelIn (newDataBlock 0 7 1 [x02]); COutbound 0 (Outbound.OConnect 0); COutbound 0 (Outbound.ODialed 0 1 true);
   COrderedRelay 0 (LRecv (NewConnectBlock 0 7 0 "t")); COrderedRelay 0 (LSent (NewConnectBlock 0 7 0 "t"))].

(** A client drops a block it does not know. *)
Definition example_stray : list cp_label := [CDial 7 0 "t"; CTunnelIn (newDataBlock 0 8 0 [x01])].

Lemma pool_routes_witness :
  (exists p, length (conns p) = 2%nat /\ forall k e, conns p !! k = Some e -> owns_blocks e) /\
  (exists p p', length (conns p) = 1%nat /\ cp_step p CRecvTake = Ret p' /\ conns p' = conns p /\
     cp_recv p' = RecvWaiting /\ ch_buf (tunnel_recv p') = []).
Proof.
  split.
  - destruct (run_succeeds (match run cp_run_step example_server example_trace with
      | Some p => if decide (length (conns p) = 2%nat) then Some p else None | None => None end))
      as [p E']; [vm_compute; reflexivity|].
    destruct (run cp_run_step example_server example_trace) as [p0|] eqn:E; [|done].
    case_decide as Hl; [|done]. injection E' as <-. exists p0. split; [exact Hl|].
    exact (proj1 (pool_routes (make_chan 64) (make_chan 64) true (InitStats 10) example_trace p0 E)).
  - destruct (run_succeeds (match run cp_run_step (NewConnectionPool (make_chan 64) (make_chan 64) false (InitStats 10)) example_stray with
      | Some p => match chan_recv (tunnel_recv p), cp_step p CRecvTake with
          | Received blk q, Ret p' =>
              if decide (length (conns p) = 1%nat /\ connectionMapping p !! ConnectionID blk = None /\ ch_buf q = [])
              then Some p else None
          | _, _ => None end
      | None => None end)) as [p E']; [vm_compute; reflexivity|].
    destruct (run cp_run_step _ example_stray) as [p0|] eqn:E; [|done].
    destruct (chan_recv (tunnel_recv p0)) as [blk q| |] eqn:Eq; [|done..].
    destruct (cp_step p0 CRecvTake) as [p'| |] eqn:Es; [|done..].
    case_decide as Hd; [|done]. destruct Hd as (H1 & H2 & H3). exists p0, p'. split; [exact H1|]. split; [exact Es|].
    destruct (pool_routes (make_chan 64) (make_chan 64) false (InitStats 10) example_stray p0 E) as (_ & _ & _ & Ht & _).
    destruct (Ht _ _ _ Eq Es) as [R1 _ _ R4]. destruct (R4 H2 eq_refl) as (R5 & _ & R6).
    split; [exact R5|]. split; [exact R6|]. rewrite R1. exact H3.
Defined.

(** As long as no new inbound connection draws the ID of a live one, the
    connection gauges of both modes equal the number of registered connections, as
    int32. *)
Theorem connection_count_exact `{V : ConnVars} (ts tr0 : chan Block) (accept : bool) (n : nat) (tr : list cp_label)
    (p : ConnectionPool) :
  run cp_fresh_step (NewConnectionPool ts tr0 accept (InitStats n)) tr = Some p ->
  connectionCount (ClientStats (cp_stats p)) = i32 (Z.of_nat (size (connectionMapping p))) /\
  connectionCount (ServerStats (cp_stats p)) = i32 (Z.of_nat (size (connectionMapping p))).
Proof.
  intros Hrun. enough (counts 0 p) by done.
  apply (run_invariant cp_fresh_step (fun _ p => counts 0 p)) with (3 := Hrun); [done|].
  intros _ s l s' Hc. unfold cp_fresh_step, cp_run_step. case_decide; [|done].
  destruct (cp_step s l) eqn:E; [|done..]. intros [= <-]. by eapply cp_step_counts.
Qed.

Lemma connection_count_exact_witness :
  exists p, size (connectionMapping p) = 2%nat /\
  connectionCount (ClientStats (cp_stats p)) = i32 (Z.of_nat (size (connectionMapping p))) /\
  connectionCount (ServerStats (cp_stats p)) = i32 (Z.of_nat (size (connectionMapping p))).
Proof.
  destruct (run_succeeds (match run cp_fresh_step example_server example_trace with
    | Some p => if decide (size (connectionMapping p) = 2%nat) then Some p else None | None => None end))
    as [p E']; [vm_compute; reflexivity|].
  destruct (run cp_fresh_step example_server example_trace) as [p0|] eqn:E; [|done].
  case_decide as Hl; [|done]. injection E' as <-. exists p0. split; [exact Hl|].
  exact (connection_count_exact (make_chan 64) (make_chan 64) true 10 example_trace p0 E).
Defined.

(** A block that arrives for a connection its user has just closed, before
    the goroutine that unregisters it has run, panics the relay and with it the
    process. *)
Theorem late_block_panics :
  exists tr p, run cp_run_step (NewConnectionPool (make_chan 64) (make_chan 64) false (InitStats 10)) tr = Some p /\
    cp_step p CRecvHand = Panic.
Proof.
  set (tr := [CDial 7 0 "t"; CInbound 0 (Inbound.OpClose 1); CTunnelIn (newDataBlock 0 7 0 [x01]);
    CRecvTake; CRecvCheck]).
  exists tr.
  destruct (run_succeeds (match run cp_run_step (NewConnectionPool (make_chan 64) (make_chan 64) false (InitStats 10)) tr with
    | Some p => match cp_step p CRecvHand with Panic => Some p | _ => None end
    | None => None end)) as [p E]; [vm_compute; reflexivity|].
  destruct (run cp_run_step _ _) as [q|]; [|done]. exists q. split; [done|].
  by destruct (cp_step q CRecvHand).
Qed.
