(* ===== verification/Delivery.v ===== *)
(** connection_pool/pool.go and connection/block_processor.go: the way of a block
    from the tunnel pool's queue to the reader of its connection.  [recvRelay] and
    the connections' [OrderedRelay]s spend a bounded number of steps on it, they
    stop only at a reader that is behind, and a connection that dies with a full
    queue stops them for ever. *)

From S2P Require Import Prelude GoIO Block Stats Processor Connection.
From S2P Require Inbound Outbound.
From S2P Require Import ConnPool.

Local Open Scope Z_scope.

(** The steps that move a block towards the reader of its connection. *)
Definition recv_move (l : cp_label) : bool :=
  match l with
  | CRecvTake | CRecvCheck | CRecvHand => true
  | COrderedRelay _ (LRecv _) | COrderedRelay _ (LSent _) => true
  | _ => false
  end.

Definition is_arrival (l : cp_label) : bool := match l with CTunnelIn _ => true | _ => false end.

Definition moves (tr : list cp_label) : nat := length (filter (fun l => recv_move l = true) tr).
Definition arrivals (tr : list cp_label) : nat := length (filter (fun l => is_arrival l = true) tr).

Definition full {A} (q : chan A) : Prop := (ch_cap q <= length (ch_buf q))%nat.

(** * What one step does to the connections *)

(** Whose connection it is. *)
Definition inbound (c : conn) : bool := match c with InConn _ => true | OutConn _ => false end.

Lemma set_conn_base_kind b c : inbound (set_conn_base b c) = inbound c.
Proof. by destruct c. Qed.

Lemma RecvBlock_kind blk c c' : conn_RecvBlock blk c = Ret c' -> inbound c' = inbound c.
Proof.
  destruct c as [c|s]; cbn [conn_RecvBlock].
  - destruct (RecvBlock _ _); [by intros [= <-]|done..].
  - destruct (Outbound.oc_step _ _) as [[bs s1]| |]; [by intros [= <-]|done..].
Qed.

Lemma OrderedRelay_kind l e e' : OrderedRelay_step l e = Ret e' -> inbound (ce_conn e') = inbound (ce_conn e).
Proof.
  unfold OrderedRelay_step. destruct (relay_step _ _) as [r|]; [|done]. intros Hs.
  destruct l as [blk| |blk|killed|]; cbn in Hs; repeat case_match; simplify_eq/=; try apply set_conn_base_kind;
    destruct (send_call _ _); simplify_eq/=; apply set_conn_base_kind.
Qed.

(** One connection. *)
Inductive entry_effect (e : centry) : cp_label -> centry -> Prop :=
  | EffKept l e' :
      recv_move l = false -> recv_kept (conn_base (ce_conn e)) (conn_base (ce_conn e')) ->
      ce_relay e' = ce_relay e -> inbound (ce_conn e') = inbound (ce_conn e) -> entry_effect e l e'
  | EffHand blk c : conn_RecvBlock blk (ce_conn e) = Ret c -> entry_effect e CRecvHand (set_conn c e)
  | EffRelay k l e' : OrderedRelay_step l e = Ret e' -> entry_effect e (COrderedRelay k l) e'.

(** A connection that has just been made. *)
Record new_entry `{V : ConnVars} (e : centry) : Prop := {
  ne_relay : ce_relay e = AtSelect;
  ne_recv : ch_buf (recvQueue (conn_base (ce_conn e))) = [];
  ne_cap : ch_cap (recvQueue (conn_base (ce_conn e))) = RecvQueueSize;
  ne_cache : cache (bc_processor (conn_base (ce_conn e))) = ∅;
}.

Inductive conns_effect `{V : ConnVars} (cs : list centry) (l : cp_label) : list centry -> Prop :=
  | EffSame : recv_move l = false \/ l = CRecvTake \/ l = CRecvCheck -> conns_effect cs l cs
  | EffOne k e e' : cs !! k = Some e -> entry_effect e l e' -> conns_effect cs l (<[k := e']> cs)
  | EffNew e : recv_move l = false \/ l = CRecvTake -> new_entry e -> conns_effect cs l (cs ++ [e])
  | EffStop : recv_move l = false -> conns_effect cs l (stop_conn <$> cs).

(** What it does to the queue of the tunnel pool and to [recvRelay]. *)
Inductive tunnel_effect (p p' : ConnectionPool) : cp_label -> Prop :=
  | TunSame l :
      ch_buf (tunnel_recv p') = ch_buf (tunnel_recv p) -> cp_recv p' = cp_recv p ->
      (l = CTunnelClose \/ tunnel_recv p' = tunnel_recv p) -> recv_move l = false \/ (exists k r, l = COrderedRelay k r) ->
      is_arrival l = false -> tunnel_effect p p' l
  | TunIn blk :
      ch_buf (tunnel_recv p') = ch_buf (tunnel_recv p) ++ [blk] -> cp_recv p' = cp_recv p ->
      ch_closed (tunnel_recv p) = false -> tunnel_effect p p' (CTunnelIn blk)
  | TunTake blk :
      ch_buf (tunnel_recv p) = blk :: ch_buf (tunnel_recv p') -> cp_recv p = RecvWaiting ->
      ch_closed (tunnel_recv p') = ch_closed (tunnel_recv p) ->
      (cp_recv p' = RecvWaiting \/ exists k, cp_recv p' = RecvFound k blk) -> tunnel_effect p p' CRecvTake
  | TunEnd l :
      tunnel_recv p' = tunnel_recv p -> cp_recv p' = RecvStopped ->
      l = CRecvTake /\ cp_recv p = RecvWaiting /\ ch_closed (tunnel_recv p) = true \/
      l = CRecvDone /\ cp_recv p = RecvWaiting /\ cp_cancelled p = true \/
      l = CRecvCheck /\ (exists k blk, cp_recv p = RecvFound k blk) /\ cp_cancelled p = true -> tunnel_effect p p' l
  | TunCheck k blk :
      tunnel_recv p' = tunnel_recv p -> cp_recv p = RecvFound k blk -> cp_recv p' = RecvHanding k blk ->
      tunnel_effect p p' CRecvCheck
  | TunHand k blk :
      tunnel_recv p' = tunnel_recv p -> cp_recv p = RecvHanding k blk -> cp_recv p' = RecvWaiting ->
      tunnel_effect p p' CRecvHand.

Section Effects.
Context `{V : ConnVars}.

Lemma insert_last {A} (l : list A) x y : <[length l := y]> (l ++ [x]) = l ++ [y].
Proof. rewrite <-(Nat.add_0_r (length l)). by rewrite insert_app_r. Qed.

Lemma in_context_new p c :
  new_entry (mkCEntry c AtSelect true) -> new_entry (mkCEntry (in_context p c) AtSelect true).
Proof.
  unfold in_context. destruct (cp_cancelled p); [|done]. unfold stopped_conn.
  intros [E1 E2 E3 E4]. cbn [ce_conn] in *. constructor; cbn [ce_conn ce_relay]; rewrite ?set_conn_base_base; done.
Qed.

Lemma Dial_effect id now a p p' :
  Dial id now a p = Ret p' ->
  exists e, new_entry e /\ conns p' = conns p ++ [e] /\ tunnel_recv p' = tunnel_recv p /\ cp_recv p' = cp_recv p /\
    inbound (ce_conn e) = true.
Proof.
  assert (inbound (in_context p (new_inbound id now)) = true) as Hi
    by (unfold in_context, stopped_conn; destruct (cp_cancelled p); [by rewrite set_conn_base_kind|done]).
  unfold Dial. assert (new_entry (mkCEntry (in_context p (new_inbound id now)) AtSelect true)) as Hn
    by (by apply in_context_new).
  cbn [NewPooledInboundConnection addConnection set_connectionMapping set_conns conns].
  rewrite lookup_app_r, Nat.sub_diag by lia. cbn [lookup list_lookup].
  destruct (SendConnect _ _ _) as [bs b] eqn:Es. apply SendConnect_kept in Es as [K1 K2 K3 K4 K5 K6 K7].
  destruct (send_all _ _); [|done..]. cbn [mbind outcome_bind]. intros [= <-].
  eexists. split; [|split; [by rewrite (insert_last (conns p))|]; cbn [set_conn ce_conn]; by rewrite set_conn_base_kind].
  destruct Hn as [E1 E2 E3 E4]. cbn [ce_conn] in *.
  constructor; cbn [set_conn ce_conn ce_relay]; rewrite ?set_conn_base_base; [done|congruence|congruence|].
  apply (f_equal cache) in K1. cbn in K1. by rewrite K1.
Qed.

Lemma take_effect p p' :
  recvRelay_take p = Ret p' -> conns_effect (conns p) CRecvTake (conns p') /\ tunnel_effect p p' CRecvTake.
Proof.
  unfold recvRelay_take. destruct (cp_recv p) eqn:Er; try done.
  destruct (chan_recv (tunnel_recv p)) as [blk q| |] eqn:Eq; [| |done].
  - pose proof (chan_recv_buf _ _ _ Eq) as Hb. pose proof (chan_recv_closed _ _ _ Eq) as Hc.
    unfold find_connection. cbn [set_tunnel_recv set_tunnel_queues connectionMapping acceptNewConnection].
    destruct (connectionMapping p !! ConnectionID blk) as [k|]; [|destruct (acceptNewConnection p)]; intros [= <-].
    + split; [apply EffSame; auto|]. by eapply (TunTake _ _ blk); [| | |right; exists k].
    + split; [apply EffNew; [by right|by apply in_context_new]|]. by eapply (TunTake _ _ blk); [| | |right; eexists].
    + split; [apply EffSame; auto|]. by eapply (TunTake _ _ blk); [| | |left].
  - intros [= <-]. split; [apply EffSame; auto|]. apply TunEnd; [done..|]. left. repeat split; [done|].
    unfold chan_recv in Eq. destruct (ch_buf (tunnel_recv p)); [|done]. by destruct (ch_closed (tunnel_recv p)).
Qed.

Lemma check_effect p p' :
  recvRelay_check p = Ret p' -> conns_effect (conns p) CRecvCheck (conns p') /\ tunnel_effect p p' CRecvCheck.
Proof.
  unfold recvRelay_check. destruct (cp_recv p) as [|k blk|k blk|] eqn:Er; try done. intros [= <-].
  split; [apply EffSame; auto|]. destruct (cp_cancelled p) eqn:Ec.
  - apply TunEnd; [done..|]. right. right. eauto.
  - by apply (TunCheck _ _ k blk).
Qed.

Lemma hand_effect p p' :
  recvRelay_hand p = Ret p' -> conns_effect (conns p) CRecvHand (conns p') /\ tunnel_effect p p' CRecvHand.
Proof.
  unfold recvRelay_hand. destruct (cp_recv p) as [|k blk|k blk|] eqn:Er; try done.
  destruct (conns p !! k) as [e|] eqn:Ek; [|done]. destruct (conn_RecvBlock blk (ce_conn e)) as [c| |] eqn:Ec; [|done..].
  cbn [mbind outcome_bind]. intros [= <-]. split; [|by apply (TunHand _ _ k blk)].
  apply EffOne with e; [done|]. by apply EffHand with blk.
Qed.

(** A step that leaves the tunnel pool's queue and [recvRelay] as they are. *)
Lemma step_aside cs p l p' :
  recv_move l = false -> is_arrival l = false -> conns_effect cs l (conns p') -> cs = conns p ->
  ch_buf (tunnel_recv p') = ch_buf (tunnel_recv p) -> cp_recv p' = cp_recv p ->
  (l = CTunnelClose \/ tunnel_recv p' = tunnel_recv p) ->
  conns_effect (conns p) l (conns p') /\ tunnel_effect p p' l.
Proof. intros H1 H2 H3 -> H4 H5 H6. split; [done|]. apply TunSame; auto. Qed.

(** The relays that are not about receiving. *)
Lemma sendRelay_effect p l p' :
  cp_step p l = Ret p' -> l = CSendTake \/ l = CSendPut \/ l = CSendDone ->
  conns_effect (conns p) l (conns p') /\ tunnel_effect p p' l.
Proof.
  intros Hs Hl. assert (recv_move l = false /\ is_arrival l = false) as [Hm Ha] by (by destruct Hl as [->|[->| ->]]).
  assert (conns p' = conns p /\ tunnel_recv p' = tunnel_recv p /\ cp_recv p' = cp_recv p) as (E1 & E2 & E3).
  { destruct Hl as [->|[->| ->]]; cbn [cp_step] in Hs; unfold sendRelay_take, sendRelay_put, sendRelay_done in Hs.
    - destruct (cp_send p); try done. destruct (chan_recv _); try done; by injection Hs as <-.
    - destruct (cp_send p); try done. destruct (send_call _ _); [|done..]. by injection Hs as <-.
    - destruct (cp_send p), (cp_cancelled p); try done; by injection Hs as <-. }
  apply (step_aside (conns p)); rewrite ?E1, ?E2; auto. apply EffSame. auto.
Qed.

(** The steps of one connection's own goroutines and of its user. *)
Lemma own_effect p k l p' :
  cp_step p l = Ret p' -> (exists op, l = CInbound k op) \/ (exists o, l = COutbound k o) \/ l = CRemove k ->
  conns_effect (conns p) l (conns p') /\ tunnel_effect p p' l.
Proof.
  intros Hs Hl. assert (recv_move l = false /\ is_arrival l = false) as [Hm Ha]
    by (by destruct Hl as [[op ->]|[[o ->]| ->]]).
  assert (exists e e', conns p !! k = Some e /\ conns p' = <[k := e']> (conns p) /\ tunnel_recv p' = tunnel_recv p /\
    cp_recv p' = cp_recv p /\ recv_kept (conn_base (ce_conn e)) (conn_base (ce_conn e')) /\ ce_relay e' = ce_relay e /\
    inbound (ce_conn e') = inbound (ce_conn e))
    as (e & e' & Ek & E1 & E2 & E3 & Hk & Hr & Hin).
  { destruct Hl as [[op ->]|[[o ->]| ->]]; cbn [cp_step] in Hs; (destruct (conns p !! k) as [e|] eqn:Ek; [|done]); exists e.
    - destruct (ce_conn e) as [c|] eqn:Ec; [|done]. destruct (user_call op) eqn:Eu; [|done].
      destruct (Inbound.ic_step ([], c) op) as [[bs c']|] eqn:Eop; [|done].
      destruct (send_all _ _); [|done..]. cbn in Hs. injection Hs as <-.
      apply Inbound.ic_step_kept in Eop; [|by apply user_call_kept]. by exists (set_conn (InConn c') e).
    - destruct (ce_conn e) as [|s] eqn:Ec; [done|]. destruct (own_step o) eqn:Eu; [|done].
      destruct (Outbound.oc_step s o) as [[bs s']| |] eqn:Eop; [|done..]. cbn in Hs.
      destruct (send_all _ _); [|done..]. cbn in Hs. injection Hs as <-.
      apply Outbound.oc_step_kept in Eop; [|by apply own_step_kept]. by exists (set_conn (OutConn s') e).
    - destruct (_ && _); [|done]. injection Hs as <-. exists (mkCEntry (ce_conn e) (ce_relay e) false).
      unfold removeConnection. by destruct (connectionMapping _ !! _). }
  apply (step_aside (conns p)); rewrite ?E1, ?E2; auto. apply EffOne with e; [done|]. by apply EffKept.
Qed.

Lemma cp_step_effect p l p' :
  cp_step p l = Ret p' -> conns_effect (conns p) l (conns p') /\ tunnel_effect p p' l.
Proof.
  intros Hs. destruct l as [id now a|blk| | | | | | | | | |k l|k op|k l|k|];
    try (apply sendRelay_effect; by auto); try (apply (own_effect _ k); by eauto); cbn [cp_step] in Hs.
  - apply Dial_effect in Hs as (e & He & E1 & E2 & E3 & _).
    apply (step_aside (conns p)); rewrite ?E1, ?E2; auto. apply EffNew; [by left|done].
  - unfold send_call in Hs. destruct (chan_send _ _) as [q| |] eqn:Eq; [|done..]. injection Hs as <-.
    split; [apply EffSame; auto|]. apply TunIn; [|done|]; cbn; [by apply chan_send_buf|by apply chan_send_closed in Eq as []].
  - destruct (chan_recv _); [|done..]. injection Hs as <-. apply (step_aside (conns p)); auto. apply EffSame; auto.
  - unfold close_call, chan_close in Hs. destruct (ch_closed (tunnel_send p)), (ch_closed (tunnel_recv p)); try done.
    cbn in Hs. injection Hs as <-. apply (step_aside (conns p)); auto. apply EffSame; auto.
  - by apply take_effect.
  - by apply check_effect.
  - by apply hand_effect.
  - unfold recvRelay_done in Hs. destruct (cp_recv p) eqn:Er, (cp_cancelled p) eqn:Ec; try done. injection Hs as <-.
    split; [apply EffSame; auto|]. apply TunEnd; [done..|]. right. left. auto.
  - destruct (conns p !! k) as [e|] eqn:Ek; [|done]. destruct (OrderedRelay_step l e) as [e'| |] eqn:Er; [|done..].
    cbn in Hs. injection Hs as <-. split; [|by apply TunSame; eauto].
    apply EffOne with e; [done|]. by apply EffRelay.
  - injection Hs as <-. apply (step_aside (conns p)); auto. by apply EffStop.
Qed.
End Effects.

(** * The invariant *)

(** A relay at its [select] has no block in order left in its cache, one that
    sends a cached block has not deleted it yet, and one that has returned was
    told to. *)
Record entry_ok `{V : ConnVars} (e : centry) : Prop := {
  eo_relay : match ce_relay e with
             | AtSelect => cache (bc_processor (conn_base (ce_conn e)))
                             !! recvBlockID (bc_processor (conn_base (ce_conn e))) = None
             | SendCached blk => cache (bc_processor (conn_base (ce_conn e)))
                             !! recvBlockID (bc_processor (conn_base (ce_conn e))) = Some blk
             | SendDirect _ => True
             | Stopped => stopped (conn_base (ce_conn e)) = true \/ ch_closed (recvQueue (conn_base (ce_conn e))) = true
             end;
  eo_cap : ch_cap (recvQueue (conn_base (ce_conn e))) = RecvQueueSize;
}.

(** What a step of the relay does to the connection's two queues. *)
Lemma relay_step_queues e l e' :
  OrderedRelay_step l e = Ret e' ->
  exists r, relay_step (mkRelay (ce_relay e) (bc_processor (conn_base (ce_conn e)))) l = Some r /\
    ce_relay e' = rl_pc r /\ bc_processor (conn_base (ce_conn e')) = rl_x r /\
    ch_cap (recvQueue (conn_base (ce_conn e'))) = ch_cap (recvQueue (conn_base (ce_conn e))) /\
    ch_closed (recvQueue (conn_base (ce_conn e'))) = ch_closed (recvQueue (conn_base (ce_conn e))) /\
    (stopped (conn_base (ce_conn e)) = true -> stopped (conn_base (ce_conn e')) = true) /\
    match l with
    | LRecv blk => ch_buf (recvQueue (conn_base (ce_conn e))) = blk :: ch_buf (recvQueue (conn_base (ce_conn e')))
    | _ => recvQueue (conn_base (ce_conn e')) = recvQueue (conn_base (ce_conn e))
    end /\
    match l with
    | LRecvClosed => ch_closed (recvQueue (conn_base (ce_conn e))) = true
    | LDone => stopped (conn_base (ce_conn e)) = true
    | _ => True
    end.
Proof.
  unfold OrderedRelay_step. destruct (relay_step _ l) as [r|] eqn:Er; [|done]. intros H. exists r. split; [done|].
  destruct l as [blk| |blk|killed|].
  - destruct (chan_recv _) as [blk' q| |] eqn:Eq; [|done..]. case_decide as Hb; [|done]. subst blk'.
    assert (ch_cap q = ch_cap (recvQueue (conn_base (ce_conn e)))) as Hcap by (unfold chan_recv in Eq; by split_guards).
    pose proof (chan_recv_buf _ _ _ Eq). pose proof (chan_recv_closed _ _ _ Eq). injection H as <-.
    cbn [ce_conn ce_relay]. rewrite set_conn_base_base. by repeat split.
  - destruct (chan_recv _) eqn:Eq; try done. injection H as <-. cbn [ce_conn ce_relay]. rewrite set_conn_base_base.
    repeat split; try done. unfold chan_recv in Eq. by split_guards.
  - destruct (send_call _ _) as [q| |]; [|done..]. injection H as <-. cbn [ce_conn ce_relay]. rewrite set_conn_base_base.
    by repeat split.
  - injection H as <-. cbn [ce_conn ce_relay]. rewrite set_conn_base_base. by destruct killed.
  - destruct (stopped (conn_base (ce_conn e))) eqn:Es; [|done]. injection H as <-.
    cbn [ce_conn ce_relay]. rewrite set_conn_base_base. by repeat split.
Qed.

Lemma next_cached_ok x :
  rl_x (next_cached x) = x /\
  match rl_pc (next_cached x) with
  | AtSelect => cache x !! recvBlockID x = None
  | SendCached blk => cache x !! recvBlockID x = Some blk
  | _ => False
  end.
Proof. unfold next_cached. by destruct (cache x !! recvBlockID x) eqn:E. Qed.

(** The relay keeps the invariant and pays for what it moves. *)
Definition relay_left (r : relay) : nat :=
  size (cache (rl_x r)) + match rl_pc r with SendDirect _ => 1 | _ => 0 end.

Definition relay_ok (r : relay) : Prop :=
  match rl_pc r with
  | AtSelect => cache (rl_x r) !! recvBlockID (rl_x r) = None
  | SendCached blk => cache (rl_x r) !! recvBlockID (rl_x r) = Some blk
  | _ => True
  end.

Lemma on_block_left blk x :
  cache x !! recvBlockID x = None ->
  relay_ok (on_block blk x) /\ (relay_left (on_block blk x) <= size (cache x) + 1)%nat.
Proof.
  intros Hn. destruct (note_last_same blk x) as [E1 E2]. unfold on_block, relay_ok, relay_left.
  case_decide as Hd; [|case_decide]; cbn [rl_pc rl_x set_cache cache recvBlockID]; rewrite ?E2.
  - by split.
  - rewrite E1. split; [done|lia].
  - rewrite E1 in *. split; [by rewrite lookup_insert_ne|].
    rewrite map_size_insert. destruct (cache x !! BlockID blk); cbn; lia.
Qed.

Lemma next_cached_left x : relay_ok (next_cached x) /\ relay_left (next_cached x) = size (cache x).
Proof.
  unfold relay_ok, relay_left. destruct (next_cached_ok x) as [-> H]. destruct (rl_pc (next_cached x)); try done; split; auto; lia.
Qed.

Lemma relay_step_left s l r :
  relay_ok s -> relay_step s l = Some r ->
  relay_ok r /\
  (relay_left r + match l with LSent _ => 1 | _ => 0 end <= relay_left s + match l with LRecv _ => 1 | _ => 0 end)%nat.
Proof.
  destruct s as [pc x]. intros Hok. unfold relay_step. cbn [rl_pc rl_x].
  destruct pc as [|b|b|], l as [blk| |blk|killed|]; try done;
    try (intros [= <-]; unfold relay_ok, relay_left; cbn; split; [done|lia]).
  - intros [= <-]. destruct (on_block_left blk x Hok) as [? ?]. split; [done|]. unfold relay_left at 2. cbn. lia.
  - case_decide; [|done]. intros [= <-]. split; [done|]. unfold relay_left. cbn. lia.
  - case_decide; [|done]. intros [= <-]. destruct (next_cached_left (set_recvBlockID (u32 (recvBlockID x + 1)) x)) as [? ->].
    split; [done|]. unfold relay_left. cbn. lia.
  - case_decide; [|done]. intros [= <-].
    destruct (next_cached_left (set_recvBlockID (u32 (recvBlockID x + 1)) (set_cache (delete (recvBlockID x) (cache x)) x)))
      as [? ->]. split; [done|]. unfold relay_left. cbn [rl_x rl_pc set_recvBlockID set_cache cache].
    unfold relay_ok in Hok. cbn [rl_pc rl_x] in Hok. rewrite map_size_delete, Hok. cbn.
    assert (size (cache x) <> 0%nat); [|lia]. intros Hz. apply map_size_empty_inv in Hz. by rewrite Hz, lookup_empty in Hok.
Qed.

Lemma relay_step_stopped s l r :
  relay_step s l = Some r -> rl_pc r = Stopped -> l = LRecvClosed \/ l = LDone.
Proof.
  assert (forall x, rl_pc (next_cached x) <> Stopped) as Hn by (intros x; unfold next_cached; by case_match).
  destruct s as [pc x]. unfold relay_step, on_block. cbn [rl_pc rl_x].
  destruct pc, l; try done; try (by left); try (by right);
    repeat case_decide; intros [= <-]; try done; intros Hs; by destruct (Hn _ Hs).
Qed.

Section Invariant.
Context `{V : ConnVars}.

(** The steps a connection, [recvRelay] and the pool can still take. *)
Definition entry_left (e : centry) : nat :=
  2 * length (ch_buf (recvQueue (conn_base (ce_conn e)))) +
  relay_left (mkRelay (ce_relay e) (bc_processor (conn_base (ce_conn e)))).

Definition recv_left (r : recv_at) : nat :=
  match r with RecvWaiting => 1 | RecvFound _ _ => 5 | RecvHanding _ _ => 4 | RecvStopped => 0 end.

Definition steps_left (p : ConnectionPool) : nat :=
  5 * length (ch_buf (tunnel_recv p)) + recv_left (cp_recv p) + sum_list (entry_left <$> conns p).

Lemma kept_entry e e' :
  recv_kept (conn_base (ce_conn e)) (conn_base (ce_conn e')) -> ce_relay e' = ce_relay e ->
  (entry_ok e -> entry_ok e') /\ entry_left e' = entry_left e.
Proof.
  intros [K1 K2 K3 K4 K5 K6 K7] Hr.
  assert (cache (bc_processor (conn_base (ce_conn e'))) = cache (bc_processor (conn_base (ce_conn e)))) as Hc
    by (apply (f_equal cache) in K1; exact K1).
  assert (recvBlockID (bc_processor (conn_base (ce_conn e'))) = recvBlockID (bc_processor (conn_base (ce_conn e)))) as Hi
    by (apply (f_equal recvBlockID) in K1; exact K1).
  split.
  - intros [E1 E2]. constructor; [|congruence]. rewrite Hr, Hc, Hi. destruct (ce_relay e); try done. destruct E1; auto.
  - unfold entry_left, relay_left. cbn [rl_x rl_pc]. by rewrite K3, Hr, Hc.
Qed.

Lemma relay_entry e k l e' :
  entry_ok e -> OrderedRelay_step l e = Ret e' ->
  entry_ok e' /\ (entry_left e' + (if recv_move (COrderedRelay k l) then 1 else 0) <= entry_left e)%nat.
Proof.
  intros [E1 E2] H. apply relay_step_queues in H as (r & Hr & P1 & P2 & P3 & P4 & P5 & P6 & P7).
  assert (relay_ok (mkRelay (ce_relay e) (bc_processor (conn_base (ce_conn e))))) as Hok
    by (unfold relay_ok; cbn; by destruct (ce_relay e)).
  destruct (relay_step_left _ _ _ Hok Hr) as [Hok' Hl]. split.
  - constructor; [|congruence]. unfold relay_ok in Hok'. rewrite P1, P2, P4. destruct (rl_pc r) eqn:Ep; try done.
    destruct (relay_step_stopped _ _ _ Hr Ep) as [-> | ->]; [by right|left; by apply P5].
  - unfold entry_left. destruct r as [pc x]. cbn [rl_pc rl_x] in *. subst pc x.
    destruct l; cbn [recv_move] in *; rewrite P6; cbn [length]; lia.
Qed.
End Invariant.

Section Bounded.
Context `{V : ConnVars}.

Definition conns_left (cs : list centry) : nat := sum_list (entry_left <$> cs).

Lemma conns_left_insert cs k e e' :
  cs !! k = Some e -> (conns_left (<[k := e']> cs) + entry_left e = conns_left cs + entry_left e')%nat.
Proof. apply sum_list_insert. Qed.

Lemma conns_left_stop cs : conns_left (stop_conn <$> cs) = conns_left cs.
Proof.
  unfold conns_left. rewrite <-list_fmap_compose. f_equal. apply list_fmap_ext. intros i e _. cbn.
  unfold entry_left, stop_conn, stopped_conn. cbn [set_conn ce_conn ce_relay]. by rewrite set_conn_base_base.
Qed.

Lemma stop_conn_ok e : entry_ok e -> entry_ok (stop_conn e).
Proof.
  intros [E1 E2]. constructor; cbn [stop_conn set_conn ce_conn ce_relay]; unfold stopped_conn; rewrite set_conn_base_base;
    [|done]. destruct (ce_relay e); try done. by left.
Qed.

Lemma hand_entry e blk c :
  conn_RecvBlock blk (ce_conn e) = Ret c ->
  (entry_ok e -> entry_ok (set_conn c e)) /\ entry_left (set_conn c e) = (entry_left e + 2)%nat.
Proof.
  intros H. assert (ch_cap (recvQueue (conn_base c)) = ch_cap (recvQueue (conn_base (ce_conn e))) /\
    (stopped (conn_base c) = stopped (conn_base (ce_conn e))) /\ ch_closed (recvQueue (conn_base (ce_conn e))) = false)
    as (H1 & H2 & H3).
  { destruct (ce_conn e) as [c0|s]; cbn [conn_RecvBlock Outbound.oc_step] in H;
      unfold Outbound.RecvBlock, RecvBlock, send_call, chan_send in H;
      (destruct (ch_closed _) eqn:Ec; [cbn in H; done|]); (destruct (decide (_ < _)%nat); cbn in H; [|done]);
      injection H as <-; repeat split; exact Ec. }
  apply conn_RecvBlock_spec in H as (P1 & _ & P3 & _). split.
  - intros [E1 E2]. constructor; cbn [set_conn ce_conn ce_relay]; [|congruence]. rewrite P1.
    destruct (ce_relay e); try done. destruct E1 as [E1|E1]; [left; congruence|congruence].
  - unfold entry_left. cbn [set_conn ce_conn ce_relay]. rewrite P1, P3, length_app. cbn. lia.
Qed.

Lemma conns_step cs l cs' :
  conns_effect cs l cs' -> Forall entry_ok cs ->
  Forall entry_ok cs' /\
  (conns_left cs' + (if recv_move l then 1 else 0) <=
   conns_left cs + match l with CRecvTake | CRecvCheck => 1 | CRecvHand => 3 | _ => 0 end)%nat.
Proof.
  intros He Hall. destruct He as [Hl|k e e' Hk He|e Hl He|Hl].
  - split; [done|]. destruct Hl as [->|[->| ->]]; cbn; lia.
  - pose proof (proj1 (Forall_lookup _ _) Hall _ _ Hk) as Hok. pose proof (conns_left_insert cs k e e' Hk) as Hs.
    destruct He as [l e' Hm Hkept Hr _|blk c Hc|j l e' Hr].
    + destruct (kept_entry _ _ Hkept Hr) as [H1 H2]. split; [apply Forall_insert; auto|]. rewrite Hm. lia.
    + destruct (hand_entry _ _ _ Hc) as [H1 H2]. split; [apply Forall_insert; auto|]. cbn. lia.
    + destruct (relay_entry _ j _ _ Hok Hr) as [H1 H2]. split; [by apply Forall_insert|]. lia.
  - destruct He as [E1 E2 E3 E4]. split.
    + apply Forall_app. split; [done|]. constructor; [|done]. constructor; [|done]. by rewrite E1, E4.
    + unfold conns_left. rewrite fmap_app, sum_list_with_app. cbn. unfold entry_left, relay_left. cbn [rl_x rl_pc].
      rewrite E1, E2, E4, map_size_empty. destruct Hl as [->| ->]; cbn; lia.
  - rewrite conns_left_stop, Hl. split; [|lia]. apply Forall_fmap. eapply Forall_impl; [exact Hall|apply stop_conn_ok].
Qed.

Record pool_ok (p : ConnectionPool) : Prop := {
  po_inv : cp_inv p;
  po_entries : Forall entry_ok (conns p);
  po_recv : cp_recv p = RecvStopped -> cp_cancelled p = true \/ ch_closed (tunnel_recv p) = true;
}.

Lemma cp_step_bounded p l p' :
  pool_ok p -> cp_step p l = Ret p' ->
  Forall entry_ok (conns p') /\
  (steps_left p' + (if recv_move l then 1 else 0) <= steps_left p + (if is_arrival l then 5 else 0))%nat.
Proof.
  intros [Hi He Hr] Hs. apply cp_step_effect in Hs as [Hc Ht]. destruct (conns_step _ _ _ Hc He) as [He' Hl].
  split; [done|]. unfold steps_left. fold (conns_left (conns p)) (conns_left (conns p')).
  destruct Ht as [l E1 E2 _ Hm Ha|blk E1 E2 _|blk E1 E2 _ E3|l E1 E2 E3|k blk E1 E2 E3|k blk E1 E2 E3].
  - rewrite E1, E2, Ha. destruct l; try done; try lia; destruct Hm as [Hm|(? & ? & Hm)]; done.
  - rewrite E1, E2, length_app. cbn in *. lia.
  - rewrite E1, E2. cbn in *. destruct E3 as [->|[k ->]]; cbn; lia.
  - rewrite E1, E2. cbn [recv_left]. destruct E3 as [(-> & -> & _)|[(-> & -> & _)|(-> & (k & blk & ->) & _)]]; cbn in *; lia.
  - rewrite E1, E2, E3. cbn in *. lia.
  - rewrite E1, E2, E3. cbn in *. lia.
Qed.

(** Cancelling and closing are for good. *)
Lemma cp_step_cancelled p l p' : cp_step p l = Ret p' -> cp_cancelled p = true -> cp_cancelled p' = true.
Proof. by intros [Hc _]%cp_step_flags. Qed.

Lemma tunnel_recv_closed p l p' :
  cp_step p l = Ret p' -> ch_closed (tunnel_recv p) = true -> ch_closed (tunnel_recv p') = true.
Proof.
  intros Hs Hc. pose proof (cp_step_effect _ _ _ Hs) as [_ Ht].
  destruct Ht as [l E1 E2 [->|E3] Hm Ha|blk E1 E2 E3|blk E1 E2 E3 E4|l E1 E2 E3|k blk E1 E2 E3|k blk E1 E2 E3];
    try congruence. cbn [cp_step] in Hs. unfold close_call, chan_close in Hs. rewrite Hc in Hs.
  by destruct (ch_closed (tunnel_send p)).
Qed.

Lemma cp_step_ok p l p' : pool_ok p -> cp_step p l = Ret p' -> pool_ok p'.
Proof.
  intros Hp Hs. pose proof Hp as [Hi He Hr]. constructor.
  - by eapply cp_step_inv.
  - by eapply (cp_step_bounded _ _ _ Hp) in Hs as [? _].
  - intros Hstop. assert (cp_recv p = RecvStopped \/ cp_cancelled p = true \/ ch_closed (tunnel_recv p) = true) as Hc.
    { pose proof (cp_step_effect _ _ _ Hs) as [_ Ht].
      destruct Ht as [l E1 E2 E3 Hm Ha|blk E1 E2 E3|blk E1 E2 E3 E4|l E1 E2 E3|k blk E1 E2 E3|k blk E1 E2 E3];
        [left; congruence|left; congruence| | |congruence|congruence].
      - destruct E4 as [E4|[k E4]]; congruence.
      - right. destruct E3 as [(_ & _ & ?)|[(_ & _ & ?)|(_ & _ & ?)]]; auto. }
    destruct Hc as [Hc|[Hc|Hc]]; [destruct (Hr Hc) as [Hc'|Hc']|..];
      [left; by eapply cp_step_cancelled|right; by eapply tunnel_recv_closed|
       left; by eapply cp_step_cancelled|right; by eapply tunnel_recv_closed].
Qed.

Lemma run_bounded p tr p' :
  pool_ok p -> run cp_run_step p tr = Some p' ->
  pool_ok p' /\ (steps_left p' + moves tr <= steps_left p + 5 * arrivals tr)%nat.
Proof.
  intros Hp. revert p Hp. induction tr as [|l tr IH]; intros p Hp; cbn [run].
  - intros [= <-]. split; [done|]. unfold moves, arrivals. cbn. lia.
  - unfold cp_run_step at 1. destruct (cp_step p l) as [p1| |] eqn:Es; [|done..]. intros Hrun.
    pose proof (cp_step_ok _ _ _ Hp Es) as Hp1. destruct (IH _ Hp1 Hrun) as [Hp' Hl]. split; [done|].
    destruct (cp_step_bounded _ _ _ Hp Es) as [_ Hb]. unfold moves, arrivals in *. rewrite !filter_cons.
    destruct (recv_move l), (is_arrival l); repeat case_decide; try done; cbn [length]; lia.
Qed.

Lemma new_pool_ok ts tr accept g : pool_ok (NewConnectionPool ts tr accept g).
Proof. constructor; [apply cp_inv_init|constructor|done]. Qed.
End Bounded.

(** * Where the steps end *)

(** All the connection has been handed is in order on its ordered queue. *)
Definition settled (e : centry) : Prop :=
  ce_relay e = AtSelect /\ ch_buf (recvQueue (conn_base (ce_conn e))) = [] /\
  cache (bc_processor (conn_base (ce_conn e))) !! recvBlockID (bc_processor (conn_base (ce_conn e))) = None.

(** The relay has a block for a reader whose queue is full. *)
Definition reader_behind (e : centry) : Prop :=
  (exists blk, ce_relay e = SendDirect blk \/ ce_relay e = SendCached blk) /\
  full (orderedRecvQueue (conn_base (ce_conn e))).

(** The connection has been stopped, or closed by its user. *)
Definition over (e : centry) : Prop :=
  stopped (conn_base (ce_conn e)) = true \/ ch_closed (recvQueue (conn_base (ce_conn e))) = true \/
  ch_closed (orderedRecvQueue (conn_base (ce_conn e))) = true.

Lemma send_call_cases {A} (a : A) (q : chan A) :
  (exists q', send_call a q = Ret q') \/ ch_closed q = true \/ full q.
Proof.
  unfold send_call, chan_send, full. destruct (ch_closed q); [auto|]. case_decide; [left; by eexists|]. right. right. lia.
Qed.

Section Stuck.
Context `{V : ConnVars}.

Lemma entry_stuck p k e :
  conns p !! k = Some e -> entry_ok e ->
  (forall l, recv_move (COrderedRelay k l) = true -> cp_run_step p (COrderedRelay k l) = None) ->
  settled e \/ reader_behind e \/ over e.
Proof.
  intros Hk [E1 E2] Hno.
  assert (forall l, recv_move (COrderedRelay k l) = true -> forall e', OrderedRelay_step l e <> Ret e') as Hno'.
  { intros l Hl e' He. specialize (Hno l Hl). unfold cp_run_step in Hno. cbn [cp_step] in Hno. by rewrite Hk, He in Hno. }
  assert (forall blk, (forall q, send_call blk (orderedRecvQueue (conn_base (ce_conn e))) <> Ret q) ->
    ch_closed (orderedRecvQueue (conn_base (ce_conn e))) = true \/ full (orderedRecvQueue (conn_base (ce_conn e)))) as Hsend.
  { intros blk Hq. destruct (send_call_cases blk (orderedRecvQueue (conn_base (ce_conn e)))) as [[q E]|?]; [|done].
    by destruct (Hq q). }
  destruct (ce_relay e) as [|blk|blk|] eqn:Er.
  - destruct (ch_buf (recvQueue (conn_base (ce_conn e)))) as [|blk rest] eqn:Eb; [left; by repeat split|].
    exfalso. unfold OrderedRelay_step in Hno'. specialize (Hno' (LRecv blk) eq_refl). rewrite Er in Hno'. cbn in Hno'.
    unfold chan_recv in Hno'. rewrite Eb in Hno'. rewrite decide_True in Hno' by done. by eapply Hno'.
  - destruct (Hsend blk) as [Hq|Hq]; [|right; right; right; by right|right; left; split; eauto].
    intros q Hq. specialize (Hno' (LSent blk) eq_refl). unfold OrderedRelay_step in Hno'. rewrite Er in Hno'.
    unfold relay_step in Hno'. cbn [rl_pc] in Hno'. rewrite decide_True, Hq in Hno' by done. by eapply Hno'.
  - destruct (Hsend blk) as [Hq|Hq]; [|right; right; right; by right|right; left; split; eauto].
    intros q Hq. specialize (Hno' (LSent blk) eq_refl). unfold OrderedRelay_step in Hno'. rewrite Er in Hno'.
    unfold relay_step in Hno'. cbn [rl_pc] in Hno'. rewrite decide_True, Hq in Hno' by done. by eapply Hno'.
  - right. right. destruct E1; [by left|right; by left].
Qed.

Lemma conn_RecvBlock_cases blk c :
  (exists c', conn_RecvBlock blk c = Ret c') \/
  ch_closed (recvQueue (conn_base c)) = true \/ full (recvQueue (conn_base c)).
Proof.
  destruct (send_call_cases blk (recvQueue (conn_base c))) as [[q Hq]|Hq]; [left|by right].
  destruct c as [c|s]; cbn [conn_base] in Hq; cbn [conn_RecvBlock Outbound.oc_step];
    unfold Outbound.RecvBlock, RecvBlock; rewrite Hq; by eexists.
Qed.

Lemma stuck_pool p :
  pool_ok p -> RecvQueueSize <> 0%nat -> (forall l, recv_move l = true -> cp_run_step p l = None) ->
  (forall k e, conns p !! k = Some e -> settled e \/ reader_behind e \/ over e) /\
  match cp_recv p with
  | RecvWaiting => ch_buf (tunnel_recv p) = []
  | RecvFound _ _ => False
  | RecvHanding k _ => exists e, conns p !! k = Some e /\
      (full (recvQueue (conn_base (ce_conn e))) /\ reader_behind e \/ over e)
  | RecvStopped => cp_cancelled p = true \/ ch_closed (tunnel_recv p) = true
  end.
Proof.
  intros [Hi He Hr] Hcap Hno.
  assert (forall k e, conns p !! k = Some e -> entry_ok e) as He' by (by apply Forall_lookup).
  assert (forall k e, conns p !! k = Some e -> settled e \/ reader_behind e \/ over e) as Hall.
  { intros k e Hk. apply (entry_stuck p k); [done|by eapply He'|]. intros l Hl. by apply Hno. }
  split; [done|]. destruct (cp_recv p) as [|k blk|k blk|] eqn:Er; [| | |auto].
  - specialize (Hno CRecvTake eq_refl). unfold cp_run_step in Hno. cbn [cp_step] in Hno.
    unfold recvRelay_take, chan_recv in Hno. rewrite Er in Hno.
    destruct (ch_buf (tunnel_recv p)) as [|blk rest]; [done|]. by destruct (find_connection _ _) as [[]|].
  - specialize (Hno CRecvCheck eq_refl). unfold cp_run_step in Hno. cbn [cp_step] in Hno.
    unfold recvRelay_check in Hno. by rewrite Er in Hno.
  - destruct (cp_holding _ Hi k blk) as (e & Hk & _); [by rewrite Er|]. exists e. split; [done|].
    specialize (Hno CRecvHand eq_refl). unfold cp_run_step in Hno. cbn [cp_step] in Hno.
    unfold recvRelay_hand in Hno. rewrite Er, Hk in Hno.
    destruct (conn_RecvBlock_cases blk (ce_conn e)) as [[c Hc]|[Hc|Hc]]; [by rewrite Hc in Hno|right; right; by left|].
    destruct (Hall _ _ Hk) as [(_ & Hb & _)|[?|?]]; [|by left|by right].
    unfold full in Hc. rewrite Hb, (eo_cap _ (He' _ _ Hk)) in Hc. cbn in Hc. lia.
Qed.
End Stuck.

(** * A connection that dies with a full queue *)

(** [recvRelay] is handing a block to connection [k], whose queue is full and whose
    [OrderedRelay] has returned. *)
Definition wedged (k : nat) (blk : Block) (p : ConnectionPool) : Prop :=
  cp_recv p = RecvHanding k blk /\
  exists e, conns p !! k = Some e /\ ce_relay e = Stopped /\ full (recvQueue (conn_base (ce_conn e))).

(** Nothing more has reached the connections. *)
Definition no_delivery (p p' : ConnectionPool) : Prop :=
  ch_buf (tunnel_recv p) `prefix_of` ch_buf (tunnel_recv p') /\
  forall j e, conns p !! j = Some e -> exists e', conns p' !! j = Some e' /\
    ch_buf (recvQueue (conn_base (ce_conn e'))) `suffix_of` ch_buf (recvQueue (conn_base (ce_conn e))).

#[export] Instance no_delivery_preorder : PreOrder no_delivery.
Proof.
  split.
  - intros p. split; [done|]. intros j e He. by exists e.
  - intros p1 p2 p3 [H1 C1] [H2 C2]. split; [by etrans|]. intros j e He.
    destruct (C1 _ _ He) as (e2 & He2 & Hs2). destruct (C2 _ _ He2) as (e3 & He3 & Hs3).
    exists e3. split; [done|]. by etrans.
Qed.

Section Wedged.
Context `{V : ConnVars}.

(** The full queue takes nothing. *)
Lemma full_RecvBlock blk c c' : full (recvQueue (conn_base c)) -> conn_RecvBlock blk c <> Ret c'.
Proof.
  intros Hf H. apply conn_RecvBlock_spec in H as Hb. destruct Hb as (_ & _ & Hb & _).
  assert (forall q, send_call blk (recvQueue (conn_base c)) <> Ret q) as Hno.
  { intros q. unfold send_call, chan_send. destruct (ch_closed _); [done|]. rewrite decide_False; [done|].
    unfold full in Hf. lia. }
  destruct c as [c|s]; cbn [conn_RecvBlock Outbound.oc_step conn_base] in *;
    unfold Outbound.RecvBlock, RecvBlock in H; (destruct (send_call _ _) as [q| |]; [by eapply Hno|done..]).
Qed.

Lemma entry_no_delivery e l e' :
  entry_effect e l e' -> l <> CRecvHand ->
  ch_buf (recvQueue (conn_base (ce_conn e'))) `suffix_of` ch_buf (recvQueue (conn_base (ce_conn e))) /\
  (ce_relay e = Stopped -> full (recvQueue (conn_base (ce_conn e))) ->
   ce_relay e' = Stopped /\ full (recvQueue (conn_base (ce_conn e')))).
Proof.
  intros [l' e1 Hm [K1 K2 K3 K4 K5 K6 K7] Hr|blk c Hc|j l' e1 Hr] Hl; [|done|].
  - rewrite K3. split; [done|]. unfold full. rewrite K3, K5. intros. by split; [congruence|].
  - apply relay_step_queues in Hr as (r & Hr & P1 & P2 & P3 & P4 & P5 & P6 & _). split.
    + destruct l'; try (by rewrite P6). rewrite P6. by apply suffix_cons_r.
    + intros Hs. rewrite Hs in Hr. by destruct l'.
Qed.

Lemma wedged_step k blk p l p' :
  wedged k blk p -> cp_step p l = Ret p' -> wedged k blk p' /\ no_delivery p p'.
Proof.
  intros [Hr (e & Hk & Hs & Hf)] Hstep.
  assert (l <> CRecvHand) as Hl.
  { intros ->. cbn [cp_step] in Hstep. unfold recvRelay_hand in Hstep. rewrite Hr, Hk in Hstep.
    destruct (conn_RecvBlock blk (ce_conn e)) as [c| |] eqn:Ec; [|done..]. by apply full_RecvBlock in Ec. }
  apply cp_step_effect in Hstep as [Hc Ht].
  assert (cp_recv p' = RecvHanding k blk /\ ch_buf (tunnel_recv p) `prefix_of` ch_buf (tunnel_recv p')) as [Hr' Hp].
  { destruct Ht as [l E1 E2 _ _ _|b E1 E2 _|b E1 E2 _ _|l E1 E2 E3|k' b E1 E2 E3|k' b E1 E2 E3]; try congruence.
    - rewrite E1. by split; [congruence|].
    - rewrite E1. split; [congruence|]. by apply prefix_app_r.
    - destruct E3 as [(_ & ? & _)|[(_ & ? & _)|(_ & (? & ? & ?) & _)]]; congruence. }
  enough ((forall j e, conns p !! j = Some e -> exists e', conns p' !! j = Some e' /\
    ch_buf (recvQueue (conn_base (ce_conn e'))) `suffix_of` ch_buf (recvQueue (conn_base (ce_conn e))) /\
    (ce_relay e = Stopped -> full (recvQueue (conn_base (ce_conn e))) ->
     ce_relay e' = Stopped /\ full (recvQueue (conn_base (ce_conn e'))))) ) as Hall.
  { destruct (Hall _ _ Hk) as (e' & Hk' & _ & Hd). destruct (Hd Hs Hf) as [? ?].
    split; [split; [done|by exists e']|]. split; [done|]. intros j e1 Hj.
    destruct (Hall _ _ Hj) as (e2 & ? & ? & _). by exists e2. }
  intros j e1 Hj. destruct Hc as [_|k' e0 e0' Hk' He|e0 _ _|_].
  - by exists e1.
  - destruct (decide (k' = j)) as [->|Hne].
    + exists e0'. rewrite list_lookup_insert_eq by (by eapply lookup_lt_Some). split; [done|].
      rewrite Hk' in Hj. injection Hj as <-. by apply entry_no_delivery with l.
    + exists e1. by rewrite list_lookup_insert_ne.
  - exists e1. split; [by apply lookup_app_l_Some|done].
  - exists (stop_conn e1). rewrite list_lookup_fmap, Hj. split; [done|]. unfold stop_conn, stopped_conn.
    cbn [set_conn ce_conn ce_relay]. by rewrite set_conn_base_base.
Qed.
End Wedged.

(** The converse of [stuck_pool] for a pool that has delivered everything. *)
Lemma delivered_rests `{V : ConnVars} p :
  Forall settled (conns p) -> cp_recv p = RecvWaiting -> ch_buf (tunnel_recv p) = [] -> ch_closed (tunnel_recv p) = false ->
  forall l, recv_move l = true -> cp_run_step p l = None.
Proof.
  intros Hall Hr Hb Hc l Hl. unfold cp_run_step.
  destruct l as [| | | | | | | | | | |k l| | | |]; try done; cbn [cp_step].
  - unfold recvRelay_take, chan_recv. by rewrite Hr, Hb, Hc.
  - unfold recvRelay_check. by rewrite Hr.
  - unfold recvRelay_hand. by rewrite Hr.
  - destruct (conns p !! k) as [e|] eqn:Ek; [|done].
    destruct (proj1 (Forall_lookup _ _) Hall _ _ Ek) as (E1 & E2 & _). unfold OrderedRelay_step. rewrite E1.
    destruct l as [blk| |blk| |]; try done. cbn. unfold chan_recv. rewrite E2. by destruct (ch_closed (recvQueue _)).
Qed.

(** * Executions *)

(** One in which nothing arrives after a point comes to rest. *)
Lemma execution_rests `{V : ConnVars} (s : nat -> ConnectionPool) (l : nat -> option cp_label) n :
  execution cp_run_step s l -> fair cp_run_step recv_move s l -> pool_ok (s n) ->
  (forall j, (n <= j)%nat -> ~ moving is_arrival (l j)) ->
  exists m, (n <= m)%nat /\ pool_ok (s m) /\ at_rest cp_run_step recv_move (s m).
Proof.
  intros Hexec Hf Hn Ha.
  assert (forall m, (n <= m)%nat -> pool_ok (s m)) as Hok.
  { intros m Hm. eapply (execution_invariant cp_run_step pool_ok); [|exact Hexec|exact Hm|done].
    intros p r p' Hp. unfold cp_run_step. destruct (cp_step p r) eqn:E; [|done..]. intros [= <-]. by eapply cp_step_ok. }
  destruct (fair_rests cp_run_step recv_move steps_left s l n Hexec Hf) as (m & Hm & Hr); [|by eauto].
  intros j r Hj El. pose proof (Hexec j) as Hs. specialize (Ha j Hj). rewrite El in Hs, Ha. cbn in Ha.
  unfold cp_run_step in Hs. destruct (cp_step (s j) r) as [p| |] eqn:E; [|done..]. injection Hs as ->.
  destruct (cp_step_bounded _ _ _ (Hok j Hj) E) as [_ Hb]. destruct (is_arrival r); [done|]. lia.
Qed.

(** * Properties *)

(** Blocks get through. However the steps of a pool and its connections
    interleave, the relays that receive take at most five for each block the tunnels
    have delivered, and one. Where none of them can take another, every connection
    that has not been stopped or closed either has all it was handed, as far as it is
    in order, on the queue of its reader, or waits for that reader with the queue
    full; and [recvRelay] has emptied the tunnel pool's queue, unless the pool was
    cancelled or the queue closed, or it waits for one such connection, whose own
    queue is full too. *)
Theorem pool_delivers `{V : ConnVars} (ts tr0 : chan Block) (accept : bool) (g : global_stats) (tr : list cp_label)
    (p : ConnectionPool) :
  run cp_run_step (NewConnectionPool ts tr0 accept g) tr = Some p -> RecvQueueSize <> 0%nat ->
  (moves tr <= 5 * (length (ch_buf tr0) + arrivals tr) + 1)%nat /\
  ((forall l, recv_move l = true -> cp_run_step p l = None) ->
   (forall k e, conns p !! k = Some e -> settled e \/ reader_behind e \/ over e) /\
   match cp_recv p with
   | RecvWaiting => ch_buf (tunnel_recv p) = []
   | RecvFound _ _ => False
   | RecvHanding k _ => exists e, conns p !! k = Some e /\
       (full (recvQueue (conn_base (ce_conn e))) /\ reader_behind e \/ over e)
   | RecvStopped => cp_cancelled p = true \/ ch_closed (tunnel_recv p) = true
   end).
Proof.
  intros Hrun Hcap. destruct (run_bounded _ _ _ (new_pool_ok ts tr0 accept g) Hrun) as [Hp Hl]. split.
  - unfold steps_left in Hl. cbn [NewConnectionPool tunnel_recv cp_recv conns recv_left] in Hl. cbn in Hl. lia.
  - by apply stuck_pool.
Qed.

(** Delivery happens. In every execution that is fair to the relays that
    receive, once the tunnels deliver no more, there are for ever points at which
    what has arrived has been delivered: every connection that has not been stopped
    or closed has all it was handed, as far as it is in order, on the queue of its
    reader or waits for that reader with the queue full, and the tunnel pool's queue
    is empty, unless [recvRelay] waits for one such connection or has ended. *)
Theorem delivery_happens `{V : ConnVars} (ts tr0 : chan Block) (accept : bool) (g : global_stats)
    (s : nat -> ConnectionPool) (l : nat -> option cp_label) (last : nat) :
  s 0%nat = NewConnectionPool ts tr0 accept g -> execution cp_run_step s l -> fair cp_run_step recv_move s l ->
  (forall n, (last <= n)%nat -> ~ moving is_arrival (l n)) -> RecvQueueSize <> 0%nat ->
  forall n, exists m, (n <= m)%nat /\
    (forall k e, conns (s m) !! k = Some e -> settled e \/ reader_behind e \/ over e) /\
    (ch_buf (tunnel_recv (s m)) = [] \/ cp_cancelled (s m) = true \/ ch_closed (tunnel_recv (s m)) = true \/
     exists k blk e, cp_recv (s m) = RecvHanding k blk /\ conns (s m) !! k = Some e /\
       (full (recvQueue (conn_base (ce_conn e))) /\ reader_behind e \/ over e)).
Proof.
  intros H0 Hexec Hf Hlast Hcap n.
  assert (pool_ok (s (Nat.max n last))) as Hok.
  { eapply (execution_invariant cp_run_step pool_ok); [|exact Hexec|apply Nat.le_0_l|rewrite H0; apply new_pool_ok].
    intros p r p' Hp. unfold cp_run_step. destruct (cp_step p r) eqn:E; [|done..]. intros [= <-]. by eapply cp_step_ok. }
  destruct (execution_rests s l (Nat.max n last) Hexec Hf Hok) as (m & Hm & Hokm & Hr); [intros j Hj; apply Hlast; lia|].
  exists m. split; [lia|]. destruct (stuck_pool (s m) Hokm Hcap Hr) as [Hall Hrecv]. split; [done|].
  destruct (cp_recv (s m)) as [|k blk|k blk|] eqn:Er; [by left|done| |destruct Hrecv; auto].
  destruct Hrecv as (e & Hk & He). right. right. right. by exists k, blk, e.
Qed.

(** C9: a dead connection can stop the whole peer. Once [recvRelay] is handing a
    block to a connection whose queue is full and whose [OrderedRelay] has returned,
    it stays there: whatever is done afterwards, removing the connection and
    cancelling the pool included, no connection of the peer is handed another block
    and none is taken from the tunnels' queue. *)
Theorem dead_connection_stalls_peer `{V : ConnVars} (k : nat) (blk : Block) (p p' : ConnectionPool) (tr : list cp_label) :
  wedged k blk p -> run cp_run_step p tr = Some p' -> wedged k blk p' /\ no_delivery p p'.
Proof.
  revert p. induction tr as [|l tr IH]; intros p Hw; cbn [run].
  - intros [= <-]. done.
  - unfold cp_run_step at 1. destruct (cp_step p l) as [p1| |] eqn:Es; [|done..]. intros Hrun.
    destruct (wedged_step _ _ _ _ _ Hw Es) as [Hw1 H1]. destruct (IH _ Hw1 Hrun) as [Hw2 H2].
    split; [done|]. by etrans.
Qed.

#[local] Existing Instance const_go.

(** The target of the first connection has got nothing yet; the second connection
    is handed the second block of its stream only. *)
Definition delivered_trace : list cp_label :=
  relayed (NewConnectBlock 0 7 0 "t") ++
  [COrderedRelay 0 (LRecv (NewConnectBlock 0 7 0 "t")); COrderedRelay 0 (LSent (NewConnectBlock 0 7 0 "t"))] ++
  relayed (newDataBlock 0 8 1 [x01]) ++ [COrderedRelay 1 (LRecv (newDataBlock 0 8 1 [x01]))].

Lemma delivered_end :
  exists p, run cp_run_step example_server delivered_trace = Some p /\ at_rest cp_run_step recv_move p /\ ch_buf (tunnel_recv p) = [].
Proof.
  destruct (run_succeeds (match run cp_run_step example_server delivered_trace with
    | Some p => if decide (Forall (fun e => ce_relay e = AtSelect /\ ch_buf (recvQueue (conn_base (ce_conn e))) = [] /\
                   match cache (bc_processor (conn_base (ce_conn e))) !! recvBlockID (bc_processor (conn_base (ce_conn e))) with
                   | None => true | _ => false end = true) (conns p) /\
                   match cp_recv p with RecvWaiting => true | _ => false end = true /\
                   ch_buf (tunnel_recv p) = [] /\ ch_closed (tunnel_recv p) = false)
                then Some p else None
    | None => None end)) as [p E']; [vm_compute; reflexivity|].
  destruct (run cp_run_step example_server delivered_trace) as [p0|] eqn:E; [|done].
  case_decide as Hd; [|done]. clear E E'. destruct Hd as (H1 & H2 & H3 & H4). exists p0. split; [done|]. split; [|done].
  intros l. apply delivered_rests; [|by destruct (cp_recv p0)|done|done].
  eapply Forall_impl; [exact H1|]. intros e (P1 & P2 & P3). split; [done|]. split; [done|]. by destruct (cache _ !! _).
Qed.

Lemma pool_delivers_witness :
  exists p, run cp_run_step example_server delivered_trace = Some p /\ moves delivered_trace = 9%nat /\
    forall k e, conns p !! k = Some e -> settled e \/ reader_behind e \/ over e.
Proof.
  destruct delivered_end as (p & E & Hno & _). exists p. split; [exact E|]. split; [vm_compute; reflexivity|].
  refine (proj1 (proj2 (pool_delivers (make_chan 64) (make_chan 64) true (InitStats 10) delivered_trace p E _) Hno)).
  discriminate.
Defined.

Lemma delivery_happens_witness :
  exists (s : nat -> ConnectionPool) l, execution cp_run_step s l /\ fair cp_run_step recv_move s l /\
    exists m, (14 <= m)%nat /\ forall k e, conns (s m) !! k = Some e -> settled e \/ reader_behind e \/ over e.
Proof.
  destruct delivered_end as (p & E & Hno & _).
  pose proof (traced_execution _ _ _ _ E) as Hexec. pose proof (traced_fair _ recv_move _ _ _ E Hno) as Hf.
  exists (traced cp_run_step example_server delivered_trace), (fun n => delivered_trace !! n). split; [exact Hexec|].
  split; [exact Hf|].
  destruct (delivery_happens (make_chan 64) (make_chan 64) true (InitStats 10) _ (fun n => delivered_trace !! n) 14 eq_refl
    Hexec Hf) with (n := 14%nat) as (m & Hm & Hall & _); [|discriminate|by exists m].
  intros n Hn. assert (delivered_trace !! n = None) as -> by (apply lookup_ge_None; cbn; lia). intros [].
Defined.

(** A target that reads nothing while the user sends 66 blocks, and is then gone. *)
Definition stalled_block (i : nat) : Block := newDataBlock 0 7 (Z.of_nat i) [x00].

Definition stalled_trace : list cp_label :=
  relayed (NewConnectBlock 0 7 0 "t") ++
  [COutbound 0 (Outbound.OConnect 0); COutbound 0 (Outbound.ODialed 0 1 true);
   COrderedRelay 0 (LRecv (NewConnectBlock 0 7 0 "t")); COrderedRelay 0 (LSent (NewConnectBlock 0 7 0 "t"))] ++
  concat ((fun i => relayed (stalled_block i) ++
    [COrderedRelay 0 (LRecv (stalled_block i)); COrderedRelay 0 (LSent (stalled_block i))]) <$> seq 1 31) ++
  relayed (stalled_block 32) ++ [COrderedRelay 0 (LRecv (stalled_block 32))] ++
  concat ((fun i => relayed (stalled_block i)) <$> seq 33 32) ++
  [CTunnelIn (stalled_block 65); CRecvTake; CRecvCheck;
   COutbound 0 (Outbound.ORecvCheck 0); COutbound 0 (Outbound.ORecvRead 0 (fun _ => 1) (Err EOF));
   COrderedRelay 0 LDone].

(** The connection is then removed from the pool, another connection's block arrives,
    the peer is stopped. *)
Definition after_stall : list cp_label := [CRemove 0; CTunnelIn (newDataBlock 0 8 0 [x01]); CStop].

Lemma dead_connection_stalls_peer_witness :
  exists p p', run cp_run_step example_server stalled_trace = Some p /\
    run cp_run_step p after_stall = Some p' /\ length (ch_buf (tunnel_recv p')) = 1%nat /\
    wedged 0 (stalled_block 65) p' /\ no_delivery p p'.
Proof.
  destruct (run_succeeds (match run cp_run_step example_server stalled_trace with
    | Some p =>
        match conns p !! 0%nat, cp_recv p, run cp_run_step p after_stall with
        | Some e, RecvHanding k blk, Some p' =>
            if decide (k = 0%nat /\ blk = stalled_block 65 /\ ce_relay e = Stopped /\
              (ch_cap (recvQueue (conn_base (ce_conn e))) <= length (ch_buf (recvQueue (conn_base (ce_conn e)))))%nat /\
              length (ch_buf (tunnel_recv p')) = 1%nat)
            then Some tt else None
        | _, _, _ => None end
    | None => None end)) as [u E']; [vm_compute; reflexivity|].
  destruct (run cp_run_step example_server stalled_trace) as [p|] eqn:E; [|discriminate E'].
  destruct (conns p !! 0%nat) as [e|] eqn:Ek; [|discriminate E'].
  destruct (cp_recv p) as [|k blk|k blk|] eqn:Er; [discriminate E'..| |discriminate E'].
  destruct (run cp_run_step p after_stall) as [p'|] eqn:E2; [|discriminate E'].
  case_decide as Hd; [|discriminate E']. clear E'.
  destruct Hd as (-> & -> & H1 & H2 & H3). exists p, p'. split; [reflexivity|]. split; [exact E2|]. split; [exact H3|].
  apply (dead_connection_stalls_peer 0 (stalled_block 65) p p' after_stall); [|exact E2].
  split; [exact Er|]. exists e. split; [exact Ek|]. split; [exact H1|exact H2].
Defined.
