(* ===== verification/EndToEnd.v ===== *)
(** The two ends of a connection: what the user of an inbound connection writes
    is what the target of the outbound connection with its ID is sent, and the
    other way round, through the pools at both ends and whatever the tunnels
    between them do. *)

From S2P Require Import Prelude GoIO Block Stats Processor Connection ConnPool.
From S2P Require Inbound Outbound.

Local Open Scope Z_scope.

(** * Histories

    What a connection of the pool has been through: the blocks it sent and the
    bytes its local side gave for them (written by the user, or read from the
    target), the blocks [recvRelay] handed to it, the steps of its [OrderedRelay],
    the bytes its user was given, and the steps of its goroutines and the blocks
    they took. *)
Record chist : Type := mkCHist {
  ct_sent : list Block;
  ct_in : list byte;
  ct_handed : list Block;
  ct_relay : list relay_label;
  ct_out : list byte;
  ct_taken : list Block;
  ct_calls : list Outbound.oc_label;
}.

Definition no_hist : chist := mkCHist [] [] [] [] [] [] [].

Definition add_sent (bs : list Block) (t : chist) : chist :=
  mkCHist (ct_sent t ++ bs) (ct_in t) (ct_handed t) (ct_relay t) (ct_out t) (ct_taken t) (ct_calls t).
Definition add_handed (blk : Block) (t : chist) : chist :=
  mkCHist (ct_sent t) (ct_in t) (ct_handed t ++ [blk]) (ct_relay t) (ct_out t) (ct_taken t)
    (ct_calls t ++ [Outbound.ORecvBlock blk]).
Definition add_relay (l : relay_label) (t : chist) : chist :=
  mkCHist (ct_sent t) (ct_in t) (ct_handed t) (ct_relay t ++ [l]) (ct_out t) (ct_taken t) (ct_calls t).

(** A call of the user of [c], a step of the goroutines of [s]. *)
Definition add_user (c : Inbound.InboundConnection) (op : Inbound.ic_op) (t : chist) : chist :=
  mkCHist (ct_sent t ++ from_option fst [] (Inbound.ic_step ([], c) op)) (ct_in t ++ Inbound.written_by c op)
    (ct_handed t) (ct_relay t) (ct_out t ++ Inbound.read_by c op) (ct_taken t) (ct_calls t).
Definition sent_by (s : Outbound.oc_state) (l : Outbound.oc_label) : list Block :=
  match Outbound.oc_step s l with Ret (bs, _) => bs | _ => [] end.
Definition add_own (s : Outbound.oc_state) (l : Outbound.oc_label) (t : chist) : chist :=
  mkCHist (ct_sent t ++ sent_by s l) (ct_in t ++ Outbound.reads_of s l) (ct_handed t) (ct_relay t) (ct_out t)
    (ct_taken t ++ Outbound.takes_of s l) (ct_calls t ++ [l]).

(** What a step of the pool adds to the histories of its connections. *)
Definition note `{V : ConnVars} (p : ConnectionPool) (l : cp_label) (ts : list chist) : list chist :=
  match l with
  | CDial id now address =>
      alter (add_sent (SendConnect now address (conn_base (in_context p (new_inbound id now)))).1) (length (conns p)) ts
  | CRecvHand => match cp_recv p with RecvHanding k blk => alter (add_handed blk) k ts | _ => ts end
  | COrderedRelay k l => alter (add_relay l) k ts
  | CInbound k op =>
      match ce_conn <$> conns p !! k with Some (InConn c) => alter (add_user c op) k ts | _ => ts end
  | COutbound k l =>
      match ce_conn <$> conns p !! k with Some (OutConn s) => alter (add_own s l) k ts | _ => ts end
  | _ => ts
  end.

(** A pool with the histories of its connections, the blocks the tunnel pool
    brought it and those it passed to the tunnel pool. *)
Record phist : Type := mkPHist {
  ph_pool : ConnectionPool;
  ph_conns : list chist;
  ph_in : list Block;
  ph_out : list Block;
}.

Definition brought (l : cp_label) : list Block := match l with CTunnelIn blk => [blk] | _ => [] end.
Definition passed (p : ConnectionPool) (l : cp_label) : list Block :=
  match l with
  | CTunnelOut => match chan_recv (tunnel_send p) with Received blk _ => [blk] | _ => [] end
  | _ => []
  end.

Definition cp_hstep `{V : ConnVars} (h : phist) (l : cp_label) : option phist :=
  match cp_step (ph_pool h) l with
  | Ret p =>
      Some (mkPHist p
        (note (ph_pool h) l (ph_conns h ++ replicate (length (conns p) - length (conns (ph_pool h))) no_hist))
        (ph_in h ++ brought l) (ph_out h ++ passed (ph_pool h) l))
  | _ => None
  end.

Definition ph_init (accept : bool) (tsize rsize : nat) (g : global_stats) : phist :=
  mkPHist (NewConnectionPool (make_chan tsize) (make_chan rsize) accept g) [] [] [].

(** * One connection *)

(** The local side: what the connection sent carries what it was given, and what
    it gave away is the data [OrderedRelay] delivered. *)
Definition in_side (c : Inbound.InboundConnection) (t : chist) : Prop :=
  (exists c0, Inbound.fresh c0 /\ sendBlockID (bc_processor (Inbound.ic_base c0)) = 0 /\
     Inbound.calls_inv c0 (ct_sent t, c)) /\
  concat (data_of <$> ct_sent t) = ct_in t /\
  Inbound.in_wf c /\ Inbound.is_u64 (Inbound.received_bytes c) /\
  ct_out t ++ Inbound.unread c = concat (data_of <$> sent (ct_relay t)).

Definition out_side (s : Outbound.oc_state) (t : chist) : Prop :=
  (exists id rs os, Outbound.oc_inv (Outbound.oc_init id rs os) (ct_calls t)
     (Outbound.mkHistory (ct_sent t) (ct_in t) (ct_taken t) s)) /\
  sent (ct_relay t) = ct_taken t ++ ch_buf (orderedRecvQueue (Outbound.oc_base (Outbound.os_conn s))).

(** The addresses a connection has been told and not yet dialled, or is dialling. *)
Definition dials (c : conn) : list (list byte) :=
  match c with InConn _ => [] | OutConn s => Outbound.os_spawned s ++ Outbound.os_dialing s end.

(** A CONNECT block that was handed over has told [a]. *)
Definition told (t : chist) (a : list byte) : Prop :=
  exists b, b ∈ ct_handed t /\ Type_ b = TypeConnect /\ BlockData b = a.

Lemma dials_base b c : dials (set_conn_base b c) = dials c.
Proof. by destruct c. Qed.

Lemma told_mono t t' a : ct_handed t `prefix_of` ct_handed t' -> told t a -> told t' a.
Proof. intros [l E] (b & Hb & H). exists b. rewrite E. split; [apply elem_of_app; by left|done]. Qed.

(** Only a CONNECT block adds an address. *)
Lemma oc_step_dials (P : list byte -> Prop) s l bs s' :
  Outbound.oc_step s l = Ret (bs, s') ->
  (forall blk, l = Outbound.ORecvBlock blk -> Type_ blk = TypeConnect -> P (BlockData blk)) ->
  Forall P (dials (OutConn s)) -> Forall P (dials (OutConn s')).
Proof.
  intros Hs Hl Hp. cbn [dials] in *. apply Forall_app in Hp as [P1 P2].
  assert (Outbound.os_spawned s' = Outbound.os_spawned s -> Outbound.os_dialing s' = Outbound.os_dialing s ->
    Forall P (Outbound.os_spawned s' ++ Outbound.os_dialing s')) as Hsame
    by (intros -> ->; by apply Forall_app).
  destruct l as [blk|blk| |i|i now ok|i|i now net|i now net|i now b]; cbn [Outbound.oc_step] in Hs.
  - unfold Outbound.RecvBlock in Hs. destruct (Connection.RecvBlock _ _) as [b| |]; [|done..]. cbn in Hs. injection Hs as <- <-.
    cbn. case_decide as Ht; [|by apply Forall_app]. rewrite !Forall_app. split_and!; [done| |done].
    by apply Forall_singleton, (Hl blk).
  - destruct (send_call _ _) as [q| |]; [|done..]. cbn in Hs. injection Hs as <- <-. by apply Hsame.
  - injection Hs as <- <-. by apply Hsame.
  - destruct (Outbound.os_spawned s !! i) as [a|] eqn:Ea; [|done]. injection Hs as <- <-. cbn.
    pose proof (Forall_lookup_1 _ _ _ _ P1 Ea) as Hpa. apply Forall_app. split; [by apply Forall_delete|].
    destruct (Outbound.connect_check _); [|done]. apply Forall_app. split; [done|]. by apply Forall_singleton.
  - destruct (Outbound.os_dialing s !! i) as [a|]; [|done]. destruct (Outbound.connect_dialed _ _ _) as [[bs1 st] oc].
    injection Hs as <- <-. cbn. apply Forall_app. split; [done|by apply Forall_delete].
  - destruct (Outbound.os_recv s !! i) as [[]|]; try done; injection Hs as <- <-; by apply Hsame.
  - destruct (Outbound.os_recv s !! i) as [[]|]; try done; destruct (Outbound.tcp_read_of _ _) as [res| |]; try done; cbn in Hs.
    + destruct (Outbound.RecvRelay_read _ _ _) as [[[bs1 pc] oc]| |]; [|done..]. cbn in Hs. injection Hs as <- <-. by apply Hsame.
    + destruct (Outbound.RecvRelay_drain _ _ _ _) as [[bs1 pc] oc]. injection Hs as <- <-. by apply Hsame.
  - destruct (Outbound.os_send s !! i) as [[]|]; try done. destruct (chan_recv _) as [blk q| |]; [| |done].
    + destruct (Outbound.SendRelay_block _ _ _ _) as [[bs1 oc]| |]; [|done..]. cbn in Hs. injection Hs as <- <-. by apply Hsame.
    + injection Hs as <- <-. by apply Hsame.
  - destruct (Outbound.os_send s !! i) as [[]|]; try done. destruct (stopped _); [|done]. destruct b.
    + destruct (Outbound.closeThenCancelWithOnceSend _ _) as [[bs1 oc]| |]; [|done..]. cbn in Hs. injection Hs as <- <-. by apply Hsame.
    + injection Hs as <- <-. by apply Hsame.
Qed.

Record conn_inv (e : centry) (t : chist) : Prop := {
  cv_handed : ct_handed t = recvd (ct_relay t) ++ ch_buf (recvQueue (conn_base (ce_conn e)));
  cv_owner : Forall (fun b => ConnectionID b = GetConnectionID (ce_conn e)) (ct_handed t);
  cv_relay f : Forall (of_stream f) (ct_handed t) ->
    relay_inv f (ct_relay t) (mkRelay (ce_relay e) (bc_processor (conn_base (ce_conn e))));
  cv_side : match ce_conn e with InConn c => in_side c t | OutConn s => out_side s t end;
  cv_dials : Forall (told t) (dials (ce_conn e));
}.

(** ** Steps of one connection *)

(** A base that differs from another one in the receiving half and the clock. *)
Record same_send (b b' : baseConnection) : Prop := {
  sb_send : sendBlockID (bc_processor b') = sendBlockID (bc_processor b);
  sb_id : connectionID b' = connectionID b;
  sb_closed : closed b' = closed b;
  sb_recv : ch_closed (recvQueue b') = ch_closed (recvQueue b);
  sb_ordered : ch_closed (orderedRecvQueue b') = ch_closed (orderedRecvQueue b);
  sb_bytes : RecvBytes b' = RecvBytes b;
}.

Lemma calls_inv_base c0 log c b :
  Inbound.calls_inv c0 (log, c) -> same_send (Inbound.ic_base c) b ->
  Inbound.calls_inv c0 (log, Inbound.set_base b c).
Proof.
  intros [(N & S1 & I1) U O Sh] [E1 E2 E3 E4 E5 _]. cbn [fst snd] in *.
  constructor; cbn [fst snd Inbound.set_base Inbound.ic_base].
  - split; [done|]. split; congruence.
  - congruence.
  - by rewrite E3, E4, E5.
  - by rewrite E3.
Qed.

(** The local side under a step of the receiving half; [d] is what it delivers. *)
Lemma in_side_base c t t' b d :
  in_side c t -> same_send (Inbound.ic_base c) b ->
  ch_buf (orderedRecvQueue b) = ch_buf (orderedRecvQueue (Inbound.ic_base c)) ++ d ->
  ct_sent t' = ct_sent t -> ct_in t' = ct_in t -> ct_out t' = ct_out t ->
  sent (ct_relay t') = sent (ct_relay t) ++ d -> in_side (Inbound.set_base b c) t'.
Proof.
  intros ((c0 & F & Z0 & Hc) & D & W & U & R) Hb Hq E1 E2 E3 E4.
  split; [exists c0; rewrite E1; split; [done|]; split; [done|]; by apply calls_inv_base|].
  rewrite E1, E2, E3, E4. split; [done|]. split; [done|].
  split; [unfold Inbound.received_bytes; cbn; by rewrite (sb_bytes _ _ Hb)|].
  rewrite fmap_app, concat_app, <-R. unfold Inbound.unread, Inbound.queued.
  cbn [Inbound.set_base Inbound.ic_base Inbound.dataBuffer]. by rewrite Hq, fmap_app, concat_app, !app_assoc.
Qed.

Lemma out_side_base s t t' b d :
  out_side s t -> same_send (Outbound.oc_base (Outbound.os_conn s)) b ->
  ch_buf (orderedRecvQueue b) = ch_buf (orderedRecvQueue (Outbound.oc_base (Outbound.os_conn s))) ++ d ->
  ct_sent t' = ct_sent t -> ct_in t' = ct_in t -> ct_taken t' = ct_taken t -> ct_calls t' = ct_calls t ->
  sent (ct_relay t') = sent (ct_relay t) ++ d ->
  out_side (Outbound.with_conn (Outbound.set_oc_base b (Outbound.os_conn s)) s) t'.
Proof.
  intros ((id & rs & os & Hi) & R) [B1 B2 B3 B4 B5 _] Hq E1 E2 E3 E4 E5. split.
  - exists id, rs, os. rewrite E1, E2, E3, E4. by apply Outbound.oc_inv_base.
  - rewrite E3, E5, R. cbn. by rewrite Hq, app_assoc.
Qed.

(** Either kind of connection. *)
Definition side (c : conn) (t : chist) : Prop :=
  match c with InConn c => in_side c t | OutConn s => out_side s t end.

Lemma side_base c t t' b d :
  side c t -> same_send (conn_base c) b ->
  ch_buf (orderedRecvQueue b) = ch_buf (orderedRecvQueue (conn_base c)) ++ d ->
  ct_sent t' = ct_sent t -> ct_in t' = ct_in t -> ct_out t' = ct_out t -> ct_taken t' = ct_taken t ->
  ct_calls t' = ct_calls t ->
  sent (ct_relay t') = sent (ct_relay t) ++ d -> side (set_conn_base b c) t'.
Proof. destruct c; cbn [side set_conn_base conn_base]; intros; [by eapply in_side_base|by eapply out_side_base]. Qed.

(** Cancelling a connection. *)
Lemma stop_inv e t : conn_inv e t -> conn_inv (stop_conn e) t.
Proof.
  intros [H1 H2 H3 H4 H5]. unfold stop_conn, stopped_conn.
  constructor; cbn [set_conn ce_conn ce_relay]; unfold GetConnectionID; rewrite ?set_conn_base_base, ?dials_base; try done.
  apply (side_base _ t t _ []); rewrite ?app_nil_r; try done.
Qed.

Lemma waiting_inv e t b : conn_inv e t -> conn_inv (mkCEntry (ce_conn e) (ce_relay e) b) t.
Proof. by intros []. Qed.

(** A block handed over. *)
Lemma hand_inv e t blk c :
  conn_inv e t -> ConnectionID blk = GetConnectionID (ce_conn e) -> conn_RecvBlock blk (ce_conn e) = Ret c ->
  conn_inv (set_conn c e) (add_handed blk t).
Proof.
  intros [H1 H2 H3 H4 H5] Hb Hr. pose proof (conn_RecvBlock_spec _ _ _ Hr) as (R1 & R2 & R3 & R4).
  constructor; cbn [set_conn ce_conn ce_relay ct_handed ct_relay add_handed].
  - by rewrite R3, H1, app_assoc.
  - rewrite R2. apply Forall_app. by split; [|constructor].
  - rewrite R1. intros f [Hf _]%Forall_app. auto.
  - destruct (ce_conn e) as [ci|s]; cbn [conn_RecvBlock] in Hr.
    + unfold RecvBlock, send_call in Hr. destruct (chan_send _ _) as [q| |] eqn:Eq; [|done..]. injection Hr as <-.
      apply chan_send_closed in Eq as [Q1 Q2].
      eapply (in_side_base ci t _ (set_recvQueue q (Inbound.ic_base ci)) []); rewrite ?app_nil_r; try done.
      constructor; try done. cbn. congruence.
    + destruct (Outbound.oc_step s (Outbound.ORecvBlock blk)) as [[bs s']| |] eqn:Eo; [|done..].
      injection Hr as <-. destruct H4 as ((id & rs & os & Hi) & R). split.
      * exists id, rs, os. assert (bs = []) as ->.
        { cbn [Outbound.oc_step] in Eo. destruct (Outbound.RecvBlock _ _) as [[]| |]; [|done..]. cbn in Eo. by simplify_eq. }
        eapply Outbound.oc_inv_step in Hi; [|unfold Outbound.oc_hstep; cbn [Outbound.h_state]; by rewrite Eo].
        cbn [Outbound.h_sent Outbound.h_read Outbound.h_taken Outbound.reads_of Outbound.takes_of] in Hi.
        by rewrite !app_nil_r in Hi.
      * cbn [conn_base] in R4. by rewrite R4.
  - assert (Forall (told (add_handed blk t)) (dials (ce_conn e))) as H6
      by (eapply Forall_impl; [exact H5|]; intros a; apply told_mono; by exists [blk]).
    destruct (ce_conn e) as [ci|s]; cbn [conn_RecvBlock] in Hr.
    + destruct (RecvBlock _ _); [|done..]. by injection Hr as <-.
    + destruct (Outbound.oc_step s (Outbound.ORecvBlock blk)) as [[bs s']| |] eqn:Eo; [|done..]. injection Hr as <-.
      eapply oc_step_dials; [exact Eo| |exact H6]. intros blk' [= <-] Ht. exists blk.
      split; [apply elem_of_app; right; by apply list_elem_of_singleton|done].
Qed.

(** A step of [OrderedRelay]. *)
Lemma relay_step_sender s l s' : relay_step s l = Some s' -> sendBlockID (rl_x s') = sendBlockID (rl_x s).
Proof.
  destruct s as [pc x]. unfold relay_step, on_block, note_last, next_cached. cbn [rl_pc rl_x].
  destruct pc, l; try done; intros; repeat case_match; by simplify_eq/=.
Qed.

Lemma relay_inv_one e t l r f :
  conn_inv e t -> relay_step (mkRelay (ce_relay e) (bc_processor (conn_base (ce_conn e)))) l = Some r ->
  (forall blk, l = LRecv blk -> exists q, ch_buf (recvQueue (conn_base (ce_conn e))) = blk :: q) ->
  Forall (of_stream f) (ct_handed t) -> relay_inv f (ct_relay t ++ [l]) (mkRelay (rl_pc r) (rl_x r)).
Proof.
  intros [H1 H2 H3 H4 _] Hr Hl Hf. apply (relay_inv_step f _ (mkRelay (ce_relay e) (bc_processor (conn_base (ce_conn e)))));
    [by apply H3| |by destruct r].
  intros blk ->. destruct (Hl blk eq_refl) as [q Hq]. rewrite H1, Hq in Hf.
  apply Forall_app in Hf as [_ Hf]. by apply Forall_cons in Hf as [? _].
Qed.

(** What a step of [OrderedRelay] leaves: its new processor, and a base that
    differs from the old one in the queues. *)
Lemma relayed_inv e t l r b d :
  conn_inv e t -> relay_step (mkRelay (ce_relay e) (bc_processor (conn_base (ce_conn e)))) l = Some r ->
  recvd [l] ++ ch_buf (recvQueue b) = ch_buf (recvQueue (conn_base (ce_conn e))) ->
  same_send (conn_base (ce_conn e)) b ->
  ch_buf (orderedRecvQueue b) = ch_buf (orderedRecvQueue (conn_base (ce_conn e))) ++ d -> sent [l] = d ->
  conn_inv (mkCEntry (set_conn_base (set_processor (rl_x r) b) (ce_conn e)) (rl_pc r) (ce_waiting e)) (add_relay l t).
Proof.
  intros Hi Hr Hq [B1 B2 B3 B4 B5 B6] Hd Hs. pose proof Hi as [H1 H2 H3 H4 H5].
  constructor; cbn [ce_conn ce_relay ct_handed ct_relay add_relay]; unfold GetConnectionID;
    rewrite ?set_conn_base_base, ?dials_base; cbn [set_processor recvQueue bc_processor connectionID].
  - by rewrite recvd_app, H1, <-Hq, app_assoc.
  - by rewrite B2.
  - intros f Hf. eapply relay_inv_one; [done|done| |done]. intros blk ->. by exists (ch_buf (recvQueue b)).
  - apply (side_base _ t _ _ d); try done; [|by rewrite <-Hs; apply sent_app].
    apply relay_step_sender in Hr. cbn in Hr. by constructor.
  - exact H5.
Qed.

Lemma same_send_refl b : same_send b b.
Proof. by constructor. Qed.

Lemma OrderedRelay_inv e t l e' :
  conn_inv e t -> OrderedRelay_step l e = Ret e' -> conn_inv e' (add_relay l t).
Proof.
  intros Hi. unfold OrderedRelay_step. destruct (relay_step _ l) as [r|] eqn:Er; [|done].
  destruct l as [blk| |blk|killed|].
  - destruct (chan_recv _) as [blk' q| |] eqn:Eq; [|done..]. case_decide as Hb; [|done]. subst blk'. intros [= <-].
    pose proof (chan_recv_closed _ _ _ Eq). apply chan_recv_buf in Eq.
    apply (relayed_inv _ _ _ _ _ []); rewrite ?app_nil_r; try done.
  - destruct (chan_recv _); [done| |done]. intros [= <-].
    apply (relayed_inv _ _ _ _ _ []); rewrite ?app_nil_r; try done.
  - unfold send_call. destruct (chan_send _ _) as [q| |] eqn:Eq; [|done..]. cbn [mbind outcome_bind]. intros [= <-].
    pose proof (chan_send_closed _ _ _ Eq) as [C1 C2]. apply chan_send_buf in Eq.
    apply (relayed_inv _ _ _ _ _ [blk]); try done. constructor; try done. cbn. congruence.
  - intros [= <-]. apply (relayed_inv _ _ _ _ _ []); destruct killed; rewrite ?app_nil_r; try done.
  - destruct (stopped _); [|done]. intros [= <-].
    apply (relayed_inv _ _ _ _ _ []); rewrite ?app_nil_r; try done.
Qed.

(** A call of the user. *)
Lemma kept_relay b b' f tr pc :
  recv_kept b b' -> relay_inv f tr (mkRelay pc (bc_processor b)) -> relay_inv f tr (mkRelay pc (bc_processor b')).
Proof. intros [E _ _ _]. by apply relay_inv_sender. Qed.

Lemma user_inv e t c op bs c' :
  conn_inv e t -> ce_conn e = InConn c -> user_call op = true -> Inbound.ic_step ([], c) op = Some (bs, c') ->
  conn_inv (set_conn (InConn c') e) (add_user c op t).
Proof.
  intros [H1 H2 H3 H4 H5] Ec Hu Hs. rewrite Ec in *. cbn [side conn_base] in *.
  pose proof (Inbound.ic_step_kept _ _ _ _ _ (user_call_kept op Hu) Hs) as Hk.
  constructor; cbn [set_conn ce_conn ce_relay conn_base ct_handed ct_relay add_user].
  - by rewrite (rk_recv _ _ Hk).
  - unfold GetConnectionID. cbn [conn_base]. by rewrite (rk_id _ _ Hk).
  - intros f Hf. eapply kept_relay; [done|auto].
  - destruct H4 as ((c0 & F & Z0 & Hc) & D & W & U & R).
    destruct (Inbound.ic_step_io _ _ _ _ _ W U (Inbound.ci_u32 _ _ Hc) Hs) as (bs' & Eb & Hd & Ho & W' & U').
    cbn in Eb. subst bs'.
    split_and!; cbn [ct_sent ct_in ct_out ct_relay add_user]; rewrite ?Hs; cbn [from_option fst]; try done.
    + exists c0. split; [done|]. split; [done|]. eapply Inbound.calls_inv_step; [exact Hc|].
      by rewrite Inbound.ic_step_log, Hs.
    + by rewrite fmap_app, concat_app, D, Hd.
    + rewrite <-app_assoc, Ho. destruct op; try done; cbn [Inbound.delivered_by]; by rewrite app_nil_r.
  - apply Forall_nil_2.
Qed.

(** A step of the connection's own goroutines. *)
Lemma own_inv e t s l bs s' :
  conn_inv e t -> ce_conn e = OutConn s -> own_step l = true -> Outbound.oc_step s l = Ret (bs, s') ->
  conn_inv (set_conn (OutConn s') e) (add_own s l t).
Proof.
  intros [H1 H2 H3 H4 H5] Ec Hu Hs. rewrite Ec in *. cbn [side conn_base] in *.
  pose proof (Outbound.oc_step_kept _ _ _ _ (own_step_kept l Hu) Hs) as Hk.
  pose proof (Outbound.oc_step_takes _ _ _ _ (own_step_kept l Hu) Hs) as Ht.
  constructor; cbn [set_conn ce_conn ce_relay conn_base ct_handed ct_relay add_own].
  - by rewrite (rk_recv _ _ Hk).
  - unfold GetConnectionID. cbn [conn_base]. by rewrite (rk_id _ _ Hk).
  - intros f Hf. eapply kept_relay; [done|auto].
  - destruct H4 as ((id & rs & os & Hi) & R). split; cbn [ct_relay ct_taken add_own].
    + exists id, rs, os. cbn [ct_calls ct_sent ct_in ct_taken add_own]. unfold sent_by. rewrite Hs.
      eapply Outbound.oc_inv_step; [exact Hi|]. unfold Outbound.oc_hstep. cbn [Outbound.h_state]. by rewrite Hs.
    + by rewrite R, Ht, app_assoc.
  - eapply oc_step_dials; [exact Hs| |exact H5]. intros blk ->. done.
Qed.

(** ** New connections *)

Lemma new_conn_inv e : ct_handed no_hist = ch_buf (recvQueue (conn_base (ce_conn e))) ->
  mkRelay (ce_relay e) (bc_processor (conn_base (ce_conn e))) = relay_init -> side (ce_conn e) no_hist ->
  dials (ce_conn e) = [] -> conn_inv e no_hist.
Proof.
  intros E1 E2 Hs Ed. constructor; [done|by constructor| |done|rewrite Ed; apply Forall_nil_2]. intros f _. rewrite E2. apply relay_inv_init.
Qed.

Lemma in_context_conn_inv p c t :
  conn_inv (mkCEntry c AtSelect true) t -> conn_inv (mkCEntry (in_context p c) AtSelect true) t.
Proof.
  unfold in_context. destruct (cp_cancelled p); [|done].
  intros H. by apply (stop_inv (mkCEntry c AtSelect true)).
Qed.

Lemma new_outbound_conn_inv `{V : ConnVars} p id :
  conn_inv (mkCEntry (in_context p (new_outbound id)) AtSelect true) no_hist.
Proof.
  apply in_context_conn_inv, new_conn_inv; [done|done| |done]. split; [|done].
  exists id, RecvQueueSize, OrderedRecvQueueSize. apply Outbound.oc_inv_init.
Qed.

Lemma fresh_inbound id rs os now : Inbound.fresh (Inbound.NewInboundConnection id rs os now).
Proof. done. Qed.

Lemma new_inbound_conn_inv `{V : ConnVars} p id now :
  conn_inv (mkCEntry (in_context p (new_inbound id now)) AtSelect true) no_hist.
Proof.
  apply in_context_conn_inv, new_conn_inv; [done|done| |done].
  set (c0 := Inbound.NewInboundConnection id RecvQueueSize OrderedRecvQueueSize now).
  split; [exists c0; split; [done|]; split; [done|]; by apply Inbound.fresh_calls_inv|].
  split; [done|]. split; [apply RingBuffer.NewByteRingBuffer_wf|]. done.
Qed.

(** The CONNECT of a dial. *)
Lemma connect_inv e t c now a bs b :
  conn_inv e t -> ce_conn e = InConn c -> SendConnect now a (conn_base (ce_conn e)) = (bs, b) ->
  conn_inv (set_conn (set_conn_base b (ce_conn e)) e) (add_sent bs t).
Proof.
  intros [H1 H2 H3 H4 _] Ec Hs. rewrite Ec in *. cbn [side conn_base set_conn_base] in *.
  pose proof (SendConnect_kept _ _ _ _ _ Hs) as Hk.
  constructor; cbn [set_conn ce_conn ce_relay conn_base ct_handed ct_relay add_sent Inbound.set_base Inbound.ic_base].
  - by rewrite (rk_recv _ _ Hk).
  - unfold GetConnectionID. cbn. by rewrite (rk_id _ _ Hk).
  - intros f Hf. eapply kept_relay; [done|auto].
  - destruct H4 as ((c0 & F & Z0 & Hc) & D & W & U & R).
    pose proof (SendConnect_numbered _ _ _ _ _ (Inbound.ci_u32 _ _ Hc) Hs) as Hn.
    split_and!; cbn [ct_sent ct_in ct_out ct_relay add_sent].
    + exists c0. split; [done|]. split; [done|].
      eapply Inbound.calls_inv_send; [exact Hc|exact Hn|..]; injection Hs as <- <-; [done|].
      replace (shutdowns _) with 0%nat by reflexivity. cbn. destruct (closed (Inbound.ic_base c)); lia.
    + injection Hs as <- _. by rewrite fmap_app, concat_app, D, app_nil_r.
    + done.
    + by injection Hs as _ <-.
    + by injection Hs as _ <-.
  - apply Forall_nil_2.
Qed.

(** * The pool *)

Definition conns_inv : list centry -> list chist -> Prop := Forall2 conn_inv.

Lemma conns_inv_alter cs ts k e e' f :
  conns_inv cs ts -> cs !! k = Some e -> (forall t, conn_inv e t -> conn_inv e' (f t)) ->
  conns_inv (<[k := e']> cs) (alter f k ts).
Proof.
  intros Hi Hk Hf. unfold conns_inv in *. rewrite Forall2_same_length_lookup in *.
  destruct Hi as [Hl Hi]. rewrite length_insert, length_alter. split; [done|]. intros j e1 t1.
  destruct (decide (k = j)) as [<-|Hkj].
  - rewrite list_lookup_insert_eq by (by eapply lookup_lt_Some). rewrite list_lookup_alter_eq.
    intros [= <-] (t & Ht & ->)%fmap_Some. eauto.
  - rewrite list_lookup_insert_ne, list_lookup_alter_ne by done. apply Hi.
Qed.

Lemma conns_inv_snoc cs ts e : conns_inv cs ts -> conn_inv e no_hist -> conns_inv (cs ++ [e]) (ts ++ [no_hist]).
Proof. intros. apply Forall2_app; [done|]. by constructor. Qed.

Lemma conns_inv_stop cs ts : conns_inv cs ts -> conns_inv (stop_conn <$> cs) ts.
Proof. intros H. apply Forall2_fmap_l. eapply Forall2_impl; [exact H|]. intros. by apply stop_inv. Qed.

Section Pool.
Context `{V : ConnVars}.

(** The histories after a step, with room for a new connection. *)
Definition noted (p : ConnectionPool) (l : cp_label) (p' : ConnectionPool) (ts : list chist) : list chist :=
  note p l (ts ++ replicate (length (conns p') - length (conns p)) no_hist).

Lemma noted_same p l p' ts : length (conns p') = length (conns p) -> noted p l p' ts = note p l ts.
Proof. intros E. unfold noted. by rewrite E, Nat.sub_diag, app_nil_r. Qed.

Lemma noted_update p l p' ts k e' :
  conns p' = <[k := e']> (conns p) -> noted p l p' ts = note p l ts.
Proof. intros E. apply noted_same. by rewrite E, length_insert. Qed.

Lemma noted_new p l p' ts e : conns p' = conns p ++ [e] -> noted p l p' ts = note p l (ts ++ [no_hist]).
Proof. intros E. unfold noted. by rewrite E, length_app, Nat.add_comm, Nat.add_sub. Qed.

Lemma noted_quiet p l p' ts :
  conns p' = conns p -> note p l ts = ts -> conns_inv (conns p) ts -> conns_inv (conns p') (noted p l p' ts).
Proof. intros E1 E2 Hi. rewrite noted_same, E2, E1; [done|]. by rewrite E1. Qed.

Lemma Dial_conns p ts id now a p' :
  conns_inv (conns p) ts -> Dial id now a p = Ret p' -> conns_inv (conns p') (noted p (CDial id now a) p' ts).
Proof.
  intros Hi. unfold Dial. set (c := in_context p (new_inbound id now)).
  assert (conns (NewPooledInboundConnection id now p) = conns p ++ [mkCEntry c AtSelect true]) as Ec by done.
  rewrite Ec, list_lookup_middle by done. cbn [ce_conn].
  destruct (SendConnect now a (conn_base c)) as [bs b] eqn:Es. destruct (send_all _ _); [|done..].
  cbn [mbind outcome_bind]. intros [= <-]. cbn [set_cp_sendQueue set_conns conns].
  pose proof (conns_inv_snoc _ _ _ Hi (new_inbound_conn_inv p id now)) as Hi1. fold c in Hi1.
  assert (length ts = length (conns p)) as Hl by (symmetry; by eapply Forall2_length).
  unfold noted. cbn [set_cp_sendQueue set_conns conns]. rewrite length_insert, length_app, Nat.add_comm, Nat.add_sub.
  cbn [replicate note]. fold c. rewrite Es. cbn [fst].
  eapply conns_inv_alter; [exact Hi1|by rewrite list_lookup_middle|]. intros t Ht.
  assert (exists ci, c = InConn ci) as [ci Hci] by (unfold c, in_context; destruct (cp_cancelled p); cbn; eauto).
  by eapply (connect_inv (mkCEntry c AtSelect true)).
Qed.

Lemma recvRelay_take_conns p ts p' :
  conns_inv (conns p) ts -> recvRelay_take p = Ret p' -> conns_inv (conns p') (noted p CRecvTake p' ts).
Proof.
  intros Hi. unfold recvRelay_take, find_connection. destruct (cp_recv p); try done.
  destruct (chan_recv _) as [blk q| |]; [|intros [= <-]; by rewrite noted_same|done].
  destruct (connectionMapping _ !! _) as [k|]; [intros [= <-]; by rewrite noted_same|].
  destruct (acceptNewConnection _); intros [= <-]; [|by rewrite noted_same].
  erewrite noted_new by done. apply conns_inv_snoc; [done|].
  apply (new_outbound_conn_inv (set_tunnel_recv q p)).
Qed.

Lemma recvRelay_hand_conns p ts p' :
  cp_inv p -> conns_inv (conns p) ts -> recvRelay_hand p = Ret p' -> conns_inv (conns p') (noted p CRecvHand p' ts).
Proof.
  intros Hp Hi. unfold recvRelay_hand. destruct (cp_recv p) as [|k blk|k blk|] eqn:Er; try done.
  destruct (conns p !! k) as [e|] eqn:Ek; [|done].
  destruct (conn_RecvBlock _ _) as [c| |] eqn:Ec; [|done..]. cbn [mbind outcome_bind]. intros [= <-].
  erewrite noted_update by done. cbn [note recv_goto set_conns conns]. rewrite Er.
  eapply conns_inv_alter; [done|exact Ek|]. intros t Ht. apply hand_inv; [done| |done].
  destruct (cp_holding _ Hp k blk) as (e1 & He1 & Hid); [by rewrite Er|]. rewrite Ek in He1. by injection He1 as <-.
Qed.

Lemma relays_conns p p' :
  recvRelay_check p = Ret p' \/ recvRelay_done p = Ret p' \/ sendRelay_take p = Ret p' \/ sendRelay_put p = Ret p' \/
  sendRelay_done p = Ret p' -> conns p' = conns p.
Proof.
  unfold recvRelay_check, recvRelay_done, sendRelay_take, sendRelay_put, sendRelay_done.
  intros [H|[H|[H|[H|H]]]]; repeat case_match; try done.
  all: first [destruct (send_call _ _) as [q| |]; [|done..]; cbn [mbind outcome_bind] in H|idtac].
  all: by injection H as <-.
Qed.

Lemma step_conns p ts l p' :
  cp_inv p -> conns_inv (conns p) ts -> cp_step p l = Ret p' -> conns_inv (conns p') (noted p l p' ts).
Proof.
  intros Hp Hi. destruct l as [id now a|blk| | | | | | | | | |k l|k op|k l|k|]; cbn [cp_step].
  - by apply Dial_conns.
  - destruct (send_call _ _); [|done..]. cbn [mbind outcome_bind]. intros [= <-]. by rewrite noted_same.
  - destruct (chan_recv _); [|done..]. intros [= <-]. by rewrite noted_same.
  - unfold close_call. destruct (chan_close (tunnel_send p)), (chan_close (tunnel_recv p)); try done. cbn [mbind outcome_bind].
    intros [= <-]. by rewrite noted_same.
  - by apply recvRelay_take_conns.
  - intros H. by apply noted_quiet; [apply relays_conns; auto 10|..].
  - by apply recvRelay_hand_conns.
  - intros H. by apply noted_quiet; [apply relays_conns; auto 10|..].
  - intros H. by apply noted_quiet; [apply relays_conns; auto 10|..].
  - intros H. by apply noted_quiet; [apply relays_conns; auto 10|..].
  - intros H. by apply noted_quiet; [apply relays_conns; auto 10|..].
  - destruct (conns p !! k) as [e|] eqn:Ek; [|done]. destruct (OrderedRelay_step l e) as [e'| |] eqn:Er; [|done..].
    cbn [mbind outcome_bind]. intros [= <-]. erewrite noted_update by done. eapply conns_inv_alter; [done|exact Ek|].
    intros t Ht. by eapply OrderedRelay_inv.
  - destruct (conns p !! k) as [e|] eqn:Ek; [|done]. destruct (ce_conn e) as [c|] eqn:Ec; [|done].
    destruct (user_call op) eqn:Eu; [|done]. destruct (Inbound.ic_step ([], c) op) as [[bs c']|] eqn:Eop; [|done].
    destruct (send_all _ _); [|done..]. cbn [mbind outcome_bind]. intros [= <-]. erewrite noted_update by done.
    cbn [note set_cp_sendQueue set_conns conns]. rewrite Ek. cbn [fmap option_fmap option_map]. rewrite Ec.
    eapply conns_inv_alter; [done|exact Ek|]. intros t Ht. by eapply user_inv.
  - destruct (conns p !! k) as [e|] eqn:Ek; [|done]. destruct (ce_conn e) as [|s] eqn:Ec; [done|].
    destruct (own_step l) eqn:Eu; [|done]. destruct (Outbound.oc_step s l) as [[bs s']| |] eqn:Eop; [|done..]. cbn [mbind outcome_bind].
    destruct (send_all _ _); [|done..]. cbn [mbind outcome_bind]. intros [= <-]. erewrite noted_update by done.
    cbn [note set_cp_sendQueue set_conns conns]. rewrite Ek. cbn [fmap option_fmap option_map]. rewrite Ec.
    eapply conns_inv_alter; [done|exact Ek|]. intros t Ht. by eapply own_inv.
  - destruct (conns p !! k) as [e|] eqn:Ek; [|done]. destruct (_ && _); [|done]. intros [= <-].
    assert (conns (removeConnection (ce_conn e) (set_conns (<[k:=mkCEntry (ce_conn e) (ce_relay e) false]> (conns p)) p))
      = <[k:=mkCEntry (ce_conn e) (ce_relay e) false]> (conns p)) as E by (unfold removeConnection; by case_match).
    erewrite noted_update by exact E. rewrite E. cbn [note].
    rewrite <-(list_alter_id (fun t => t) ts k) by done.
    eapply conns_inv_alter; [done|exact Ek|]. intros t. apply waiting_inv.
  - intros [= <-]. rewrite noted_same by (cbn; by rewrite length_fmap). by apply conns_inv_stop.
Qed.

(** ** Where the blocks come from *)

(** What [noted] adds to a history never removes anything, and a property of
    histories that every addition keeps holds of all of them. *)
Lemma noted_Forall (P : chist -> Prop) p l p' ts :
  P no_hist -> (forall bs t, P t -> P (add_sent bs t)) ->
  (forall k blk t, cp_recv p = RecvHanding k blk -> P t -> P (add_handed blk t)) ->
  (forall r t, P t -> P (add_relay r t)) -> (forall c op t, P t -> P (add_user c op t)) ->
  (forall s o t, P t -> P (add_own s o t)) -> Forall P ts -> Forall P (noted p l p' ts).
Proof.
  intros P0 P1 P2 P3 P4 P5 Hts. unfold noted.
  assert (Forall P (ts ++ replicate (length (conns p') - length (conns p)) no_hist)) as H
    by (apply Forall_app; split; [done|by apply Forall_replicate]).
  destruct l; cbn [note]; try exact H; try (apply Forall_alter; auto).
  - destruct (cp_recv p) eqn:E; try exact H. apply Forall_alter; eauto.
  - destruct (ce_conn <$> conns p !! k) as [[]|]; try exact H. apply Forall_alter; auto.
  - destruct (ce_conn <$> conns p !! k) as [[]|]; try exact H. apply Forall_alter; auto.
Qed.

(** Whatever every addition extends. *)
Lemma noted_extends (R : chist -> chist -> Prop) `{!Reflexive R} p l p' ts j t :
  (forall bs t, R t (add_sent bs t)) -> (forall blk t, R t (add_handed blk t)) -> (forall r t, R t (add_relay r t)) ->
  (forall c op t, R t (add_user c op t)) -> (forall s o t, R t (add_own s o t)) -> ts !! j = Some t ->
  exists t', noted p l p' ts !! j = Some t' /\ R t t'.
Proof.
  intros R1 R2 R3 R4 R5 Ht. unfold noted.
  assert ((ts ++ replicate (length (conns p') - length (conns p)) no_hist) !! j = Some t) as H
    by (by apply lookup_app_l_Some).
  revert H. generalize (ts ++ replicate (length (conns p') - length (conns p)) no_hist). clear ts Ht. intros ts Ht.
  assert (forall f k, (forall t, R t (f t)) -> exists t', alter f k ts !! j = Some t' /\ R t t') as Ha.
  { intros f k Hf. destruct (decide (k = j)) as [<-|Hk].
    - rewrite list_lookup_alter_eq, Ht. cbn. eauto.
    - rewrite list_lookup_alter_ne by done. by exists t. }
  destruct l; cbn [note]; try (by exists t); try (destruct (cp_recv p); try (by exists t));
    try (destruct (ce_conn <$> conns p !! _) as [[]|]; try (by exists t)); by apply Ha.
Qed.

Definition more_sent (t t' : chist) : Prop := ct_sent t `prefix_of` ct_sent t'.

Lemma noted_more_sent p l p' ts j t :
  ts !! j = Some t -> exists t', noted p l p' ts !! j = Some t' /\ more_sent t t'.
Proof.
  intros Ht. assert (Reflexive more_sent) by (intros ?; by unfold more_sent).
  apply (noted_extends more_sent) with (ts := ts); [intros; unfold more_sent; cbn; by (apply prefix_app_r || done)..|exact Ht].
Qed.

(** The blocks on their way to the tunnel pool. *)
Definition outgoing (p : ConnectionPool) : list Block :=
  ch_buf (tunnel_send p) ++ match cp_send p with SendHolding b => [b] | _ => [] end ++ ch_buf (cp_sendQueue p).

Lemma send_all_buf bs q q' : send_all bs q = Ret q' -> ch_buf q' = ch_buf q ++ bs.
Proof.
  revert q. induction bs as [|b bs IH]; cbn [send_all]; intros q.
  - intros [= <-]. by rewrite app_nil_r.
  - unfold send_call. destruct (chan_send b q) as [q1| |] eqn:E; [|done..]. cbn. intros H.
    apply chan_send_buf in E. apply IH in H. by rewrite H, E, <-app_assoc.
Qed.

(** What a step puts on the pool's queue has been noted as sent. *)
Definition newly_sent p l p' ts (bs : list Block) : Prop :=
  Forall (fun b => exists k t, noted p l p' ts !! k = Some t /\ b ∈ ct_sent t) bs.

Lemma newly_sent_alter p l p' ts k t f bs :
  noted p l p' ts = alter f k (ts ++ replicate (length (conns p') - length (conns p)) no_hist) ->
  (ts ++ replicate (length (conns p') - length (conns p)) no_hist) !! k = Some t ->
  ct_sent (f t) = ct_sent t ++ bs -> newly_sent p l p' ts bs.
Proof.
  intros E Hk Hf. apply Forall_forall. intros b Hb. exists k, (f t). rewrite E, list_lookup_alter_eq, Hk. split; [done|].
  rewrite Hf. apply elem_of_app. by right.
Qed.
(** Steps that do not touch what is on its way. *)
Lemma relays_outgoing p p' :
  recvRelay_take p = Ret p' \/ recvRelay_check p = Ret p' \/ recvRelay_hand p = Ret p' \/ recvRelay_done p = Ret p' ->
  outgoing p' = outgoing p.
Proof.
  unfold recvRelay_take, recvRelay_check, recvRelay_hand, recvRelay_done, find_connection.
  intros [H|[H|[H|H]]]; destruct (cp_recv p); try done.
  - destruct (chan_recv _); [|by injection H as <-|done]. repeat case_match; by simplify_eq.
  - by injection H as <-.
  - destruct (conns p !! k); [|done]. destruct (conn_RecvBlock _ _); [|done..]. by injection H as <-.
  - destruct (cp_cancelled p); [|done]. by injection H as <-.
Qed.

(** The relay of the sending side moves blocks on. *)
Lemma sendRelay_outgoing p p' :
  sendRelay_take p = Ret p' \/ sendRelay_put p = Ret p' \/ sendRelay_done p = Ret p' ->
  forall b, b ∈ outgoing p' -> b ∈ outgoing p.
Proof.
  unfold sendRelay_take, sendRelay_put, sendRelay_done, outgoing. intros H b. destruct H as [H|[H|H]]; destruct (cp_send p) as [|blk|]; try done.
  - destruct (chan_recv _) as [blk q| |] eqn:E; [|injection H as <-; cbn; in_app|done].
    apply chan_recv_buf in E. injection H as <-. cbn. rewrite E. in_app.
  - unfold send_call in H. destruct (chan_send _ _) as [q| |] eqn:E; [|done..]. injection H as <-.
    apply chan_send_buf in E. cbn. rewrite E. in_app.
  - destruct (cp_cancelled p); [|done]. injection H as <-. cbn. in_app.
  - destruct (cp_cancelled p); [|done]. injection H as <-. cbn. in_app.
Qed.

Lemma send_all_outgoing p bs q cs :
  send_all bs (cp_sendQueue p) = Ret q ->
  outgoing (set_cp_sendQueue q (set_conns cs p)) = outgoing p ++ bs.
Proof. intros E%send_all_buf. unfold outgoing. cbn. by rewrite E, !app_assoc. Qed.

(** Steps in which no connection sends anything. *)
Definition silent (l : cp_label) : bool :=
  match l with CDial _ _ _ | CInbound _ _ | COutbound _ _ => false | _ => true end.

Lemma silent_outgoing p l p' :
  silent l = true -> cp_step p l = Ret p' -> forall b, b ∈ passed p l ++ outgoing p' -> b ∈ outgoing p.
Proof.
  intros Hl Hs.
  destruct l as [|blk| | | | | | | | | |k l| | |k|]; try done; clear Hl; cbn [cp_step passed app] in *;
    try (by rewrite (relays_outgoing p p') by auto); try (apply sendRelay_outgoing; by auto).
  - destruct (send_call _ _) as [q| |]; [|done..]. by injection Hs as <-.
  - destruct (chan_recv _) as [blk q| |] eqn:E; [|done..]. injection Hs as <-. apply chan_recv_buf in E.
    unfold outgoing. cbn. rewrite E. in_app.
  - unfold close_call, chan_close in Hs. destruct (ch_closed (tunnel_send p)), (ch_closed (tunnel_recv p)); try done.
    by injection Hs as <-.
  - destruct (conns p !! k); [|done]. destruct (OrderedRelay_step _ _); [|done..]. by injection Hs as <-.
  - destruct (conns p !! k) as [e|]; [|done]. destruct (_ && _); [|done]. injection Hs as <-.
    unfold removeConnection. by case_match.
  - by injection Hs as <-.
Qed.

(** Steps in which one does: what it sends is in its history and on its way. *)
Definition sends (p : ConnectionPool) (l : cp_label) (p' : ConnectionPool) (ts : list chist) : Prop :=
  exists bs, newly_sent p l p' ts bs /\ forall b, b ∈ passed p l ++ outgoing p' -> b ∈ outgoing p ++ bs.

Lemma dial_outgoing p ts id now a p' :
  length ts = length (conns p) -> cp_step p (CDial id now a) = Ret p' -> sends p (CDial id now a) p' ts.
Proof.
  cbn [cp_step]. intros Hl Hs. unfold Dial in Hs. set (c := in_context p (new_inbound id now)) in *.
  assert (conns (NewPooledInboundConnection id now p) = conns p ++ [mkCEntry c AtSelect true]) as Ec by done.
  rewrite Ec, list_lookup_middle in Hs by done. cbn [ce_conn] in Hs.
  destruct (SendConnect now a (conn_base c)) as [bs b] eqn:Es. destruct (send_all _ _) as [q| |] eqn:Ea; [|done..].
  cbn [mbind outcome_bind] in Hs. injection Hs as <-. exists bs. split.
  - eapply newly_sent_alter; [unfold noted, note; done| |fold c; by rewrite Es].
    cbn [set_cp_sendQueue set_conns conns]. rewrite length_insert, length_app, Nat.add_comm, Nat.add_sub.
    by rewrite lookup_app_r, Hl, Nat.sub_diag by lia.
  - intros b' Hb'. cbn [passed app] in Hb'. by rewrite (send_all_outgoing _ _ _ _ Ea) in Hb'.
Qed.

Lemma inbound_outgoing p ts k op p' :
  length ts = length (conns p) -> cp_step p (CInbound k op) = Ret p' -> sends p (CInbound k op) p' ts.
Proof.
  cbn [cp_step]. intros Hl Hs.
  destruct (conns p !! k) as [e|] eqn:Ek; [|done]. destruct (ce_conn e) as [c|] eqn:Ec; [|done].
  destruct (user_call op); [|done]. destruct (Inbound.ic_step ([], c) op) as [[bs c']|] eqn:Eop; [|done].
  destruct (send_all _ _) as [q| |] eqn:Ea; [|done..]. cbn [mbind outcome_bind] in Hs. injection Hs as <-.
  destruct (lookup_lt_is_Some_2 ts k) as [t Ht]; [rewrite Hl; by eapply lookup_lt_Some|]. exists bs. split.
  - eapply newly_sent_alter; [unfold noted; cbn [note]; rewrite Ek; cbn [fmap option_fmap option_map]; by rewrite Ec| |].
    + by apply lookup_app_l_Some.
    + cbn [ct_sent add_user]. by rewrite Eop.
  - intros b' Hb'. cbn [passed app] in Hb'. by rewrite (send_all_outgoing _ _ _ _ Ea) in Hb'.
Qed.

Lemma outbound_outgoing p ts k l p' :
  length ts = length (conns p) -> cp_step p (COutbound k l) = Ret p' -> sends p (COutbound k l) p' ts.
Proof.
  cbn [cp_step]. intros Hl Hs.
  destruct (conns p !! k) as [e|] eqn:Ek; [|done]. destruct (ce_conn e) as [|s] eqn:Ec; [done|].
  destruct (own_step l); [|done]. destruct (Outbound.oc_step s l) as [[bs s']| |] eqn:Eop; [|done..].
  cbn [mbind outcome_bind] in Hs.
  destruct (send_all _ _) as [q| |] eqn:Ea; [|done..]. cbn [mbind outcome_bind] in Hs. injection Hs as <-.
  destruct (lookup_lt_is_Some_2 ts k) as [t Ht]; [rewrite Hl; by eapply lookup_lt_Some|]. exists bs. split.
  - eapply newly_sent_alter; [unfold noted; cbn [note]; rewrite Ek; cbn [fmap option_fmap option_map]; by rewrite Ec| |].
    + by apply lookup_app_l_Some.
    + cbn [ct_sent add_own]. unfold sent_by. by rewrite Eop.
  - intros b' Hb'. cbn [passed app] in Hb'. by rewrite (send_all_outgoing _ _ _ _ Ea) in Hb'.
Qed.

Lemma step_outgoing p ts l p' : conns_inv (conns p) ts -> cp_step p l = Ret p' -> sends p l p' ts.
Proof.
  intros Hi Hs.
  assert (length ts = length (conns p)) as Hl by (symmetry; by eapply Forall2_length).
  destruct (silent l) eqn:El.
  - exists []. split; [by constructor|]. rewrite app_nil_r. by apply silent_outgoing.
  - destruct l; try done; [by apply dial_outgoing|by apply inbound_outgoing|by apply outbound_outgoing].
Qed.

(** The blocks brought and not handed to a connection yet. *)
Definition incoming (p : ConnectionPool) : list Block :=
  ch_buf (tunnel_recv p) ++ from_option (fun kb => [kb.2]) [] (at_connection (cp_recv p)).

Lemma step_incoming p l p' :
  cp_step p l = Ret p' -> forall b, b ∈ incoming p' -> b ∈ incoming p ++ brought l.
Proof.
  intros Hs b Hb. apply elem_of_app.
  assert (tunnel_recv p' = tunnel_recv p -> cp_recv p' = cp_recv p \/ at_connection (cp_recv p') = None ->
    b ∈ incoming p \/ b ∈ brought l) as Hq.
  { intros E1 E2. left. unfold incoming in *. rewrite E1 in Hb. destruct E2 as [E2|E2]; rewrite E2 in Hb; [done|].
    cbn in Hb. in_app. }
  destruct l as [id now a|blk| | | | | | | | | |k l|k op|k l|k|]; cbn [cp_step brought] in *.
  - unfold Dial in Hs. destruct (conns _ !! _); [|done]. destruct (SendConnect _ _ _). destruct (send_all _ _); [|done..].
    cbn [mbind outcome_bind] in Hs. injection Hs as <-. apply Hq; auto.
  - unfold send_call in Hs. destruct (chan_send _ _) as [q| |] eqn:E; [|done..]. injection Hs as <-.
    apply chan_send_buf in E. unfold incoming in *. cbn in Hb. rewrite E in Hb. in_app.
  - destruct (chan_recv _); [|done..]. injection Hs as <-. apply Hq; auto.
  - unfold close_call, chan_close in Hs. destruct (ch_closed (tunnel_send p)), (ch_closed (tunnel_recv p)); try done.
    injection Hs as <-. left. exact Hb.
  - unfold recvRelay_take, find_connection in Hs. destruct (cp_recv p) eqn:Er; try done. left. unfold incoming in *. rewrite Er.
    destruct (chan_recv _) as [blk q| |] eqn:E; [|injection Hs as <-; exact Hb|done]. apply chan_recv_buf in E.
    rewrite E. repeat case_match; simplify_eq; cbn in Hb |- *; rewrite ?Er in Hb; cbn in Hb; in_app.
  - unfold recvRelay_check in Hs. destruct (cp_recv p) eqn:Er; try done. injection Hs as <-. left.
    unfold incoming in *. rewrite Er. cbn in Hb |- *. destruct (cp_cancelled p); cbn in Hb; in_app.
  - unfold recvRelay_hand in Hs. destruct (cp_recv p) eqn:Er; try done. destruct (conns p !! k); [|done].
    destruct (conn_RecvBlock _ _); [|done..]. injection Hs as <-. apply Hq; auto.
  - unfold recvRelay_done in Hs. destruct (cp_recv p), (cp_cancelled p); try done. injection Hs as <-. apply Hq; auto.
  - unfold sendRelay_take in Hs. destruct (cp_send p); try done. destruct (chan_recv _); try done; injection Hs as <-; apply Hq; auto.
  - unfold sendRelay_put in Hs. destruct (cp_send p); try done. destruct (send_call _ _); [|done..]. injection Hs as <-. apply Hq; auto.
  - unfold sendRelay_done in Hs. destruct (cp_send p), (cp_cancelled p); try done; injection Hs as <-; apply Hq; auto.
  - destruct (conns p !! k); [|done]. destruct (OrderedRelay_step _ _); [|done..]. injection Hs as <-. apply Hq; auto.
  - destruct (conns p !! k) as [e|]; [|done]. destruct (ce_conn e); [|done].
    destruct (if user_call op then _ else _) as [[]|]; [|done]. destruct (send_all _ _); [|done..]. injection Hs as <-. apply Hq; auto.
  - destruct (conns p !! k) as [e|]; [|done]. destruct (ce_conn e); [done|].
    destruct (if own_step l then _ else _) as [[]| |]; [|done..]. cbn [mbind outcome_bind] in Hs.
    destruct (send_all _ _); [|done..]. injection Hs as <-. apply Hq; auto.
  - destruct (conns p !! k) as [e|]; [|done]. destruct (_ && _); [|done]. injection Hs as <-.
    unfold removeConnection in *. case_match; apply Hq; auto.
  - injection Hs as <-. apply Hq; auto.
Qed.
End Pool.

(** * Runs *)

Record hist_inv (h : phist) : Prop := {
  hi_pool : cp_inv (ph_pool h);
  hi_conns : conns_inv (conns (ph_pool h)) (ph_conns h);
  hi_brought b : b ∈ incoming (ph_pool h) -> b ∈ ph_in h;
  hi_handed : Forall (fun t => Forall (fun b => b ∈ ph_in h) (ct_handed t)) (ph_conns h);
  hi_passed b : b ∈ ph_out h ++ outgoing (ph_pool h) ->
    exists k t, ph_conns h !! k = Some t /\ b ∈ ct_sent t;
}.

Section Runs.
Context `{V : ConnVars}.

Lemma hist_inv_init accept ts rs g : hist_inv (ph_init accept ts rs g).
Proof.
  constructor; cbn; [apply cp_inv_init|by constructor| |by constructor|]; intros b Hb; by apply elem_of_nil in Hb.
Qed.

Lemma hist_inv_step h l h' : hist_inv h -> cp_hstep h l = Some h' -> hist_inv h'.
Proof.
  intros [Hp Hc Hb Hh Ho]. unfold cp_hstep. destruct (cp_step (ph_pool h) l) as [p'| |] eqn:Es; [|done..].
  intros [= <-]. fold (noted (ph_pool h) l p' (ph_conns h)).
  constructor; cbn [ph_pool ph_conns ph_in ph_out].
  - by eapply cp_step_inv.
  - by eapply step_conns.
  - intros b Hb'. apply (step_incoming _ _ _ Es) in Hb'. apply elem_of_app in Hb' as [?|?]; apply elem_of_app; auto.
  - assert (Forall (fun t => Forall (fun b => b ∈ ph_in h ++ brought l) (ct_handed t)) (ph_conns h)) as Hh'.
    { eapply Forall_impl; [exact Hh|]. intros t Ht. eapply Forall_impl; [exact Ht|]. intros. apply elem_of_app. by left. }
    apply (noted_Forall (fun t => Forall (fun b => b ∈ ph_in h ++ brought l) (ct_handed t))); try done.
    intros k blk t Er Ht. cbn. apply Forall_app. split; [done|]. constructor; [|done]. apply elem_of_app. left.
    apply Hb. unfold incoming. rewrite Er. apply elem_of_app. right. cbn. by left.
  - intros b Hb'. destruct (step_outgoing _ _ _ _ Hc Es) as (bs & Hn & Hs).
    assert (b ∈ ph_out h ++ outgoing (ph_pool h) \/ b ∈ bs) as [Hold|Hnew].
    { rewrite <-app_assoc in Hb'. apply elem_of_app in Hb' as [?|Hb']; [left; apply elem_of_app; by left|].
      apply Hs in Hb'. in_app. }
    + destruct (Ho b Hold) as (k & t & Ht & Hin).
      destruct (noted_more_sent (ph_pool h) l p' _ _ _ Ht) as (t' & Ht' & [more E]).
      exists k, t'. split; [done|]. rewrite E. apply elem_of_app. by left.
    + eapply Forall_forall in Hn; [|exact Hnew]. done.
Qed.

Lemma hist_run_inv accept ts rs g tr h :
  run cp_hstep (ph_init accept ts rs g) tr = Some h -> hist_inv h.
Proof.
  intros H. eapply (run_invariant cp_hstep (fun _ h => hist_inv h)); [apply hist_inv_init| |exact H].
  intros _ s l s'. apply hist_inv_step.
Qed.
End Runs.

(** ** The blocks of a connection as a stream *)

(** What a connection sent, by block ID. *)
Definition stream_of (bs : list Block) (i : Z) : Block := forwarded (bs !!! Z.to_nat i).

Lemma numbered_of_stream cid bs b :
  numbered cid 0 bs -> Z.of_nat (length bs) < 2 ^ 32 - 1 -> b ∈ bs -> of_stream (stream_of bs) (forwarded b).
Proof.
  intros Hn Hl Hb. apply list_elem_of_lookup in Hb as [i Hi]. destruct (Hn _ _ Hi) as [_ Hid].
  apply lookup_lt_Some in Hi as Hlt. rewrite Z.add_0_l, u32_small in Hid by (unfold is_u32; lia).
  unfold of_stream, stream_of. change (BlockID (forwarded b)) with (BlockID b). rewrite Hid, Nat2Z.id.
  rewrite (list_lookup_total_correct _ _ _ Hi). split; [done|lia].
Qed.

Lemma forwarded_data b : data_of (forwarded b) = data_of b.
Proof. done. Qed.

Lemma stream_of_prefix bs n :
  0 <= n <= Z.of_nat (length bs) -> stream_of bs <$> seqZ 0 n = forwarded <$> take (Z.to_nat n) bs.
Proof.
  intros Hn. apply list_eq. intros i. rewrite !list_lookup_fmap.
  destruct (decide (i < Z.to_nat n)%nat) as [Hi|Hi].
  - rewrite lookup_seqZ_lt by lia. rewrite lookup_take_lt by lia.
    destruct (lookup_lt_is_Some_2 bs i) as [b Hb]; [lia|]. rewrite Hb. cbn. unfold stream_of.
    rewrite Z.add_0_l, Nat2Z.id. by rewrite (list_lookup_total_correct _ _ _ Hb).
  - rewrite lookup_seqZ_ge by lia. by rewrite lookup_take_ge by lia.
Qed.

Lemma stream_data bs n :
  0 <= n <= Z.of_nat (length bs) ->
  concat (data_of <$> (stream_of bs <$> seqZ 0 n)) = concat (data_of <$> take (Z.to_nat n) bs).
Proof. intros Hn. rewrite stream_of_prefix by done. by rewrite <-list_fmap_compose. Qed.

Lemma conn_inv_numbered e t : conn_inv e t -> numbered (GetConnectionID (ce_conn e)) 0 (ct_sent t).
Proof.
  intros [_ _ _ H]. unfold GetConnectionID. destruct (ce_conn e) as [c|s]; cbn [side conn_base] in *.
  - destruct H as ((c0 & _ & Z0 & Hc) & _). destruct (Inbound.ci_numbered _ _ Hc) as (N & _ & I).
    cbn [fst snd] in *. by rewrite I, <-Z0.
  - destruct H as ((id & rs & os & Hi) & _). destruct (Outbound.oi_num _ _ _ Hi) as (N & _ & I).
    cbn [Outbound.h_state Outbound.h_sent] in *. by rewrite I.
Qed.

Lemma conn_inv_data e t : conn_inv e t -> concat (data_of <$> ct_sent t) = ct_in t.
Proof.
  intros [_ _ _ H]. destruct (ce_conn e) as [c|s]; cbn [side] in *; [by destruct H as (_ & ? & _)|].
  destruct H as ((id & rs & os & Hi) & _). exact (Outbound.oi_read _ _ _ Hi).
Qed.

(** * From one pool to another

    What the tunnels are asked for: they bring a pool only blocks the other pool
    has passed on, as the tunnels forward them. They may reorder, repeat and
    withhold them. *)
Definition arrives (h1 h2 : phist) : Prop :=
  forall b, b ∈ ph_in h2 -> exists b', b' ∈ ph_out h1 /\ b = forwarded b'.

(** Connection [j] of the pool, with its history, is the only one of its ID that
    has sent anything. *)
Definition sole_sender (h : phist) (j : nat) (e : centry) (t : chist) : Prop :=
  conns (ph_pool h) !! j = Some e /\ ph_conns h !! j = Some t /\
  forall j' e' t', conns (ph_pool h) !! j' = Some e' -> ph_conns h !! j' = Some t' ->
    GetConnectionID (ce_conn e') = GetConnectionID (ce_conn e) -> j' <> j -> ct_sent t' = [].

(** Everything [OrderedRelay] has for its connection has been put on its queue. *)
Definition settled (e : centry) : Prop :=
  ce_relay e = AtSelect /\ ch_buf (recvQueue (conn_base (ce_conn e))) = [].

Definition delivered (t : chist) : list byte := concat (data_of <$> sent (ct_relay t)).

Section Ends.
Context (h1 h2 : phist) (H1 : hist_inv h1) (H2 : hist_inv h2) (Harr : arrives h1 h2).
Context (j k : nat) (e1 e2 : centry) (t1 t2 : chist).
Context (Hj : sole_sender h1 j e1 t1).
Context (Hk : conns (ph_pool h2) !! k = Some e2) (Ht : ph_conns h2 !! k = Some t2).
Context (Hid : GetConnectionID (ce_conn e2) = GetConnectionID (ce_conn e1)).
Context (Hlen : Z.of_nat (length (ct_sent t1)) < 2 ^ 32 - 1).

Lemma ends_inv : conn_inv e1 t1 /\ conn_inv e2 t2.
Proof.
  destruct Hj as (J1 & J2 & _). split.
  - by eapply Forall2_lookup_lr; [apply (hi_conns _ H1)|..].
  - by eapply Forall2_lookup_lr; [apply (hi_conns _ H2)|..].
Qed.

(** A block handed to the receiver was sent by the sender. *)
Lemma handed_was_sent b : b ∈ ct_handed t2 -> exists b', b' ∈ ct_sent t1 /\ b = forwarded b'.
Proof.
  intros Hb. destruct ends_inv as [I1 I2]. destruct Hj as (J1 & J2 & J3).
  pose proof (Forall_lookup_1 _ _ _ _ (hi_handed _ H2) Ht) as Hin. rewrite Forall_forall in Hin.
  destruct (Harr b (Hin b Hb)) as (b' & Hout & ->). exists b'. split; [|done].
  destruct (hi_passed _ H1 b') as (i & t & Hi & Hsent); [apply elem_of_app; by left|].
  destruct (Forall2_lookup_r _ _ _ _ _ (hi_conns _ H1) Hi) as (e & He & Iet).
  pose proof (cv_owner _ _ I2) as Ho. rewrite Forall_forall in Ho. specialize (Ho _ Hb).
  apply list_elem_of_lookup in Hsent as Hsl. destruct Hsl as [n Hn].
  destruct (conn_inv_numbered _ _ Iet _ _ Hn) as [Hc _]. cbn in Ho.
  destruct (decide (i = j)) as [->|Hij]; [congruence|].
  rewrite (J3 i e t He Hi) in Hsent; [by apply elem_of_nil in Hsent|congruence|done].
Qed.

Lemma handed_of_stream : Forall (of_stream (stream_of (ct_sent t1))) (ct_handed t2).
Proof.
  apply Forall_forall. intros b Hb. destruct (handed_was_sent b Hb) as (b' & Hs & ->).
  destruct ends_inv as [I1 _]. eapply numbered_of_stream; [by apply conn_inv_numbered|done|done].
Qed.

(** What [OrderedRelay] has delivered: the first [n] blocks of the sender. *)
Lemma delivered_take :
  exists n, 0 <= n <= Z.of_nat (length (ct_sent t1)) /\
    delivered t2 = concat (data_of <$> take (Z.to_nat n) (ct_sent t1)) /\
    (settled e2 -> (forall b, b ∈ ct_sent t1 -> forwarded b ∈ ct_handed t2) -> n = Z.of_nat (length (ct_sent t1))).
Proof.
  destruct ends_inv as [I1 I2].
  destruct (cv_relay _ _ I2 _ handed_of_stream) as [Hr Hs Hb Hc Hp Hkp Hids _]. cbn [rl_pc rl_x] in *.
  set (n := recvBlockID (bc_processor (conn_base (ce_conn e2)))) in *.
  assert (forall i, i ∈ ids (ct_relay t2) -> i < Z.of_nat (length (ct_sent t1))) as Hlt.
  { intros i Hi. apply list_elem_of_fmap in Hi as (b & -> & Hb').
    assert (b ∈ ct_handed t2) as Hh by (rewrite (cv_handed _ _ I2); apply elem_of_app; by left).
    destruct (handed_was_sent b Hh) as (b' & Hs' & ->).
    apply list_elem_of_lookup in Hs' as [m Hm]. destruct (conn_inv_numbered _ _ I1 _ _ Hm) as [_ Hbid].
    apply lookup_lt_Some in Hm. cbn. rewrite Hbid, Z.add_0_l, u32_small by (unfold is_u32; lia). lia. }
  assert (0 <= n <= Z.of_nat (length (ct_sent t1))) as Hn.
  { split; [lia|]. destruct (decide (n <= 0)) as [|Hn]; [lia|]. specialize (Hlt (n - 1) (Hb (n - 1) ltac:(lia))). lia. }
  exists n. split; [done|]. split; [unfold delivered; rewrite Hs; by apply stream_data|].
  intros [Hpc Hq] Hall. destruct (decide (n = Z.of_nat (length (ct_sent t1)))) as [|Hne]; [done|exfalso].
  destruct (lookup_lt_is_Some_2 (ct_sent t1) (Z.to_nat n)) as [b Hbn]; [lia|].
  destruct (conn_inv_numbered _ _ I1 _ _ Hbn) as [_ Hbid].
  rewrite Z.add_0_l, Z2Nat.id, u32_small in Hbid by (unfold is_u32; lia).
  assert (n ∈ ids (ct_relay t2)) as Hin.
  { rewrite <-Hbid. change (BlockID b) with (BlockID (forwarded b)). apply list_elem_of_fmap. exists (forwarded b). split; [done|].
    pose proof (Hall b (list_elem_of_lookup_2 _ _ _ Hbn)) as Hh. rewrite (cv_handed _ _ I2), Hq, app_nil_r in Hh. done. }
  rewrite Hpc in *. destruct (Hkp n ltac:(done) Hin) as [?|[[b' Hb']|[_ [b' ?]]]]; [lia| |done].
  by rewrite Hp in Hb'.
Qed.

Lemma delivered_prefix : delivered t2 `prefix_of` ct_in t1.
Proof.
  destruct delivered_take as (n & _ & -> & _). destruct ends_inv as [I1 _]. rewrite <-(conn_inv_data _ _ I1).
  rewrite <-(take_drop (Z.to_nat n) (ct_sent t1)) at 2. rewrite fmap_app, concat_app. by apply prefix_app_r.
Qed.

Lemma delivered_all :
  settled e2 -> (forall b, b ∈ ct_sent t1 -> forwarded b ∈ ct_handed t2) -> delivered t2 = ct_in t1.
Proof.
  intros Hs Hall. destruct delivered_take as (n & Hn & -> & Hall'). rewrite (Hall' Hs Hall).
  destruct ends_inv as [I1 _]. rewrite <-(conn_inv_data _ _ I1), Nat2Z.id. by rewrite firstn_all.
Qed.

(** Whatever the receiver dials, the sender has asked for. *)
Lemma dials_asked a :
  a ∈ dials (ce_conn e2) -> exists b, b ∈ ct_sent t1 /\ Type_ b = TypeConnect /\ BlockData b = a.
Proof.
  intros Ha. destruct ends_inv as [_ I2]. pose proof (cv_dials _ _ I2) as Hd. rewrite Forall_forall in Hd.
  destruct (Hd a Ha) as (b & (b' & Hs & ->)%handed_was_sent & Hty & Hb). exists b'.
  destruct (forwarded_fields b') as (E1 & _ & _ & E2). split; [done|]. split; congruence.
Qed.

(** The target's side of an upstream connection. *)
Lemma target_sent s t :
  ce_conn e2 = OutConn s -> (Outbound.established (ct_calls t2) <= 1)%nat ->
  Outbound.HalfOpenConn (Outbound.os_conn s) = Some t ->
  Outbound.tcp_out t `prefix_of` ct_in t1 /\
  (settled e2 -> ch_buf (orderedRecvQueue (conn_base (OutConn s))) = [] ->
   Outbound.tcp_closed t = false -> Outbound.tcp_wclosed t = false ->
   (forall b, b ∈ ct_sent t1 -> forwarded b ∈ ct_handed t2) -> Outbound.tcp_out t = ct_in t1).
Proof.
  intros Ec He Hconn. destruct ends_inv as [_ [_ _ _ Hs]]. rewrite Ec in Hs. cbn [side] in Hs.
  destruct Hs as ((id & rs & os & Hi) & R). pose proof (Outbound.oi_out _ _ _ Hi He) as Ho.
  cbn [Outbound.h_state Outbound.h_taken] in Ho. rewrite Hconn in Ho. destruct Ho as [Hp Hall].
  assert (concat (data_of <$> ct_taken t2) `prefix_of` delivered t2) as Htk
    by (unfold delivered; rewrite R, fmap_app, concat_app; by apply prefix_app_r).
  split.
  - etrans; [exact Hp|]. etrans; [exact Htk|]. exact delivered_prefix.
  - intros Hse Hq Hc Hw Hh. rewrite (Hall Hc Hw), <-(delivered_all Hse Hh).
    unfold delivered. rewrite R. cbn [conn_base] in Hq. by rewrite Hq, app_nil_r.
Qed.

(** The user's side of a downstream connection. *)
Lemma user_given c :
  ce_conn e2 = InConn c ->
  ct_out t2 `prefix_of` ct_in t1 /\
  (settled e2 -> (forall b, b ∈ ct_sent t1 -> forwarded b ∈ ct_handed t2) -> ct_out t2 ++ Inbound.unread c = ct_in t1).
Proof.
  intros Ec. destruct ends_inv as [_ [_ _ _ Hs]]. rewrite Ec in Hs. destruct Hs as (_ & _ & _ & _ & Ho). split.
  - etrans; [|exact delivered_prefix]. unfold delivered. rewrite <-Ho. by apply prefix_app_r.
  - intros Hse Hh. rewrite Ho. exact (delivered_all Hse Hh).
Qed.
End Ends.

(** * Properties *)

(** Client to target, end to end. Let a client's pool and a server's pool run
    in any way, and let the server get only blocks the client passed on, in any
    order, any number of times, or never. When one connection of the client has
    used an ID, the target dialled for that ID has at every moment been sent a
    prefix of the bytes the client's user wrote; and when all its blocks have
    arrived, the queues are empty and the socket is open, all of them. *)
Theorem upstream_end_to_end (V1 V2 : ConnVars) (tsize1 rsize1 tsize2 rsize2 : nat) (g1 g2 : global_stats)
    (tr1 tr2 : list cp_label) (h1 h2 : phist) (j k : nat) (e1 : centry) (t1 t2 : chist)
    (s : Outbound.oc_state) (pc : relay_pc) (w : bool) (t : Outbound.tcp) :
  run (cp_hstep (V := V1)) (ph_init false tsize1 rsize1 g1) tr1 = Some h1 ->
  run (cp_hstep (V := V2)) (ph_init true tsize2 rsize2 g2) tr2 = Some h2 ->
  arrives h1 h2 -> sole_sender h1 j e1 t1 -> Z.of_nat (length (ct_sent t1)) < 2 ^ 32 - 1 ->
  conns (ph_pool h2) !! k = Some (mkCEntry (OutConn s) pc w) -> ph_conns h2 !! k = Some t2 ->
  GetConnectionID (OutConn s) = GetConnectionID (ce_conn e1) ->
  (Outbound.established (ct_calls t2) <= 1)%nat -> Outbound.HalfOpenConn (Outbound.os_conn s) = Some t ->
  Outbound.tcp_out t `prefix_of` ct_in t1 /\
  (settled (mkCEntry (OutConn s) pc w) -> ch_buf (orderedRecvQueue (conn_base (OutConn s))) = [] ->
   Outbound.tcp_closed t = false -> Outbound.tcp_wclosed t = false ->
   (forall b, b ∈ ct_sent t1 -> forwarded b ∈ ct_handed t2) -> Outbound.tcp_out t = ct_in t1).
Proof.
  intros R1%hist_run_inv R2%hist_run_inv Harr Hj Hlen Hk Ht Hid He Hconn.
  by apply (target_sent h1 h2 R1 R2 Harr j k e1 _ t1 t2 Hj Hk Ht Hid Hlen).
Qed.

(** Target to client, end to end. The same the other way round: when one
    connection of the server with the ID has sent anything, the user of the
    client's connection has at every moment been given a prefix of the bytes read
    from the target; and when all its blocks have arrived and been delivered, what
    the user has been given and what the next reads will give are all of them. *)
Theorem downstream_end_to_end (V1 V2 : ConnVars) (tsize1 rsize1 tsize2 rsize2 : nat) (g1 g2 : global_stats)
    (tr1 tr2 : list cp_label) (h1 h2 : phist) (j k : nat) (e1 : centry) (t1 t2 : chist)
    (c : Inbound.InboundConnection) (pc : relay_pc) (w : bool) :
  run (cp_hstep (V := V1)) (ph_init true tsize1 rsize1 g1) tr1 = Some h1 ->
  run (cp_hstep (V := V2)) (ph_init false tsize2 rsize2 g2) tr2 = Some h2 ->
  arrives h1 h2 -> sole_sender h1 j e1 t1 -> Z.of_nat (length (ct_sent t1)) < 2 ^ 32 - 1 ->
  conns (ph_pool h2) !! k = Some (mkCEntry (InConn c) pc w) -> ph_conns h2 !! k = Some t2 ->
  GetConnectionID (InConn c) = GetConnectionID (ce_conn e1) ->
  ct_out t2 `prefix_of` ct_in t1 /\
  (settled (mkCEntry (InConn c) pc w) -> (forall b, b ∈ ct_sent t1 -> forwarded b ∈ ct_handed t2) ->
   ct_out t2 ++ Inbound.unread c = ct_in t1).
Proof.
  intros R1%hist_run_inv R2%hist_run_inv Harr Hj Hlen Hk Ht Hid.
  by apply (user_given h1 h2 R1 R2 Harr j k e1 _ t1 t2 Hj Hk Ht Hid Hlen).
Qed.

(** ** An exchange

    A user dials, writes three bytes and reads the answer of the target. *)
Definition client_up : list cp_label :=
  [CDial 7 0 "t"; CInbound 0 (Inbound.OpWrite (fun _ => 1) [x01; x02; x03]); CSendTake; CSendPut; CSendTake; CSendPut;
   CTunnelOut; CTunnelOut].

Definition block_0 : Block := forwarded (NewConnectBlock 0 7 0 "t").
Definition block_1 : Block := forwarded (newDataBlock 1 7 1 [x01; x02; x03]).
Definition answer : Block := forwarded (newDataBlock 5 7 0 [x0a; x0b]).

(** The data block arrives first, and twice. *)
Definition server_run : list cp_label :=
  relayed block_1 ++ relayed block_0 ++ relayed block_1 ++
  [COrderedRelay 0 (LRecv block_1); COrderedRelay 0 (LRecv block_0); COrderedRelay 0 (LSent block_0);
   COrderedRelay 0 (LSent block_1); COrderedRelay 0 (LRecv block_1);
   COutbound 0 (Outbound.OConnect 0); COutbound 0 (Outbound.ODialed 0 4 true);
   COutbound 0 (Outbound.OSend 0 5 None); COutbound 0 (Outbound.OSend 0 5 None);
   COutbound 0 (Outbound.ORecvCheck 0); COutbound 0 (Outbound.ORecvRead 0 (fun _ => 5) (Ok [x0a; x0b]));
   CSendTake; CSendPut; CTunnelOut].

Definition client_down : list cp_label :=
  client_up ++ relayed answer ++
  [COrderedRelay 0 (LRecv answer); COrderedRelay 0 (LSent answer);
   CInbound 0 (Inbound.OpRead (fun _ => 6) (fun _ => false) 1)].

Definition client_start : phist := ph_init false 64 64 (InitStats 10).
Definition server_start : phist := ph_init true 64 64 (InitStats 10).

#[local] Existing Instance const_go.

Lemma arrives_in h1 h2 : Forall (fun b => b ∈ forwarded <$> ph_out h1) (ph_in h2) -> arrives h1 h2.
Proof.
  intros H b Hb. rewrite Forall_forall in H. apply H in Hb. apply list_elem_of_fmap in Hb as (b' & -> & Hb'). eauto.
Qed.

Lemma sole_of_one h e t :
  length (conns (ph_pool h)) = 1%nat -> conns (ph_pool h) !! 0%nat = Some e -> ph_conns h !! 0%nat = Some t ->
  sole_sender h 0 e t.
Proof.
  intros Hl He Ht. split; [done|]. split; [done|]. intros j' e' t' He' _ _ Hj. apply lookup_lt_Some in He'. lia.
Qed.

(** What the witnesses evaluate: the first connections of two runs. *)
Definition exchange (start1 start2 : phist) (tr1 tr2 : list cp_label)
    : option (phist * phist * centry * chist * centry * chist) :=
  match run cp_hstep start1 tr1, run cp_hstep start2 tr2 with
  | Some h1, Some h2 =>
      match conns (ph_pool h1) !! 0%nat, ph_conns h1 !! 0%nat, conns (ph_pool h2) !! 0%nat, ph_conns h2 !! 0%nat with
      | Some e1, Some t1, Some e2, Some t2 =>
          if decide (Forall (fun b => b ∈ forwarded <$> ph_out h1) (ph_in h2) /\ length (conns (ph_pool h1)) = 1%nat /\
                     (length (ct_sent t1) < 10)%nat /\ GetConnectionID (ce_conn e2) = GetConnectionID (ce_conn e1))
          then Some (h1, h2, e1, t1, e2, t2) else None
      | _, _, _, _ => None
      end
  | _, _ => None
  end.

Lemma exchange_spec start1 start2 tr1 tr2 h1 h2 e1 t1 e2 t2 :
  exchange start1 start2 tr1 tr2 = Some (h1, h2, e1, t1, e2, t2) ->
  run cp_hstep start1 tr1 = Some h1 /\ run cp_hstep start2 tr2 = Some h2 /\ arrives h1 h2 /\
  sole_sender h1 0 e1 t1 /\ Z.of_nat (length (ct_sent t1)) < 2 ^ 32 - 1 /\
  conns (ph_pool h2) !! 0%nat = Some e2 /\ ph_conns h2 !! 0%nat = Some t2 /\
  GetConnectionID (ce_conn e2) = GetConnectionID (ce_conn e1).
Proof.
  unfold exchange. destruct (run cp_hstep start1 tr1) as [h1'|]; [|done].
  destruct (run cp_hstep start2 tr2) as [h2'|]; [|done].
  destruct (conns (ph_pool h1') !! 0%nat) as [e1'|] eqn:E1; [|done].
  destruct (ph_conns h1' !! 0%nat) as [t1'|] eqn:E2; [|done].
  destruct (conns (ph_pool h2') !! 0%nat) as [e2'|] eqn:E3; [|done].
  destruct (ph_conns h2' !! 0%nat) as [t2'|] eqn:E4; [|done].
  case_decide as H; [|done]. destruct H as (Ha & Hl & Hs & Hid). intros [= <- <- <- <- <- <-].
  split_and!; try done; [by apply arrives_in|by apply sole_of_one|lia].
Qed.

Lemma upstream_end_to_end_witness :
  exists t t1, Outbound.tcp_out t = [x01; x02; x03] /\ Outbound.tcp_out t `prefix_of` ct_in t1.
Proof.
  destruct (run_succeeds (match exchange client_start server_start client_up server_run with
    | Some (h1, h2, e1, t1, mkCEntry (OutConn s) pc w, t2) =>
        match Outbound.HalfOpenConn (Outbound.os_conn s) with
        | Some t => if decide ((Outbound.established (ct_calls t2) <= 1)%nat /\ Outbound.tcp_out t = [x01; x02; x03])
                    then Some (h1, h2, e1, t1, s, pc, w, t2, t) else None
        | None => None
        end
    | _ => None
    end)) as [[[[[[[[[h1 h2] e1] t1] s] pc] w] t2] t] E]; [vm_compute; reflexivity|].
  destruct (exchange _ _ _ _) as [[[[[[h1' h2'] e1'] t1'] [[|s'] pc' w']] t2']|] eqn:Ex;
    [discriminate E| |discriminate E].
  destruct (Outbound.HalfOpenConn (Outbound.os_conn s')) as [t'|] eqn:Ec; [|discriminate E].
  case_decide as Hd; [|discriminate E]. destruct Hd as [Hest Hout]. exists t', t1'. split; [exact Hout|].
  apply exchange_spec in Ex as (R1 & R2 & Ha & Hj & Hl & Hk & Ht & Hid).
  refine (proj1 (upstream_end_to_end const_go const_go 64 64 64 64 (InitStats 10) (InitStats 10)
    client_up server_run h1' h2' 0 0 e1' t1' t2' s' pc' w' t' R1 R2 Ha Hj Hl Hk Ht Hid Hest Ec)).
Defined.

Lemma downstream_end_to_end_witness :
  exists t1 t2, ct_in t1 = [x0a; x0b] /\ ct_out t2 = [x0a] /\ ct_out t2 `prefix_of` ct_in t1.
Proof.
  destruct (run_succeeds (match exchange server_start client_start server_run client_down with
    | Some (h1, h2, e1, t1, mkCEntry (InConn c) pc w, t2) =>
        if decide (ct_in t1 = [x0a; x0b] /\ ct_out t2 = [x0a]) then Some (h1, h2, e1, t1, c, pc, w, t2) else None
    | _ => None
    end)) as [[[[[[[[h1 h2] e1] t1] c] pc] w] t2] E]; [vm_compute; reflexivity|].
  destruct (exchange _ _ _ _) as [[[[[[h1' h2'] e1'] t1'] [[c'|] pc' w']] t2']|] eqn:Ex;
    [|discriminate E..].
  case_decide as Hd; [|discriminate E]. destruct Hd as [Hin Hout]. exists t1', t2'. split; [exact Hin|]. split; [exact Hout|].
  apply exchange_spec in Ex as (R1 & R2 & Ha & Hj & Hl & Hk & Ht & Hid).
  refine (proj1 (downstream_end_to_end const_go const_go 64 64 64 64 (InitStats 10) (InitStats 10)
    server_run client_down h1' h2' 0 0 e1' t1' t2' c' pc' w' R1 R2 Ha Hj Hl Hk Ht Hid)).
Defined.
