(* ===== verification/Sendable.v ===== *)
(** The blocks the connections of a pool send can be laid out by [Pack] and read
    back by the parser: their numbers, lengths and time stamps are in range. *)

From S2P Require Import Prelude GoIO Block Stats Processor Connection ConnPool EndToEnd.
From S2P Require Inbound Outbound.

Local Open Scope Z_scope.

(** What the environment gives a step: random IDs are uint32s, clock readings are
    int64s, addresses are shorter than 4 GB. *)
Definition cl_ok (l : cp_label) : Prop :=
  match l with
  | CDial id now address =>
      is_u32 id /\ is_i64 now /\ Z.of_nat (length (String.list_byte_of_string address)) < 2 ^ 32
  | CInbound _ op => Inbound.op_ok op
  | COutbound _ l => Outbound.clock_ok l
  | _ => True
  end.

(** * The IDs of the connections *)

Definition ids (cs : list centry) : list Z := (fun e => GetConnectionID (ce_conn e)) <$> cs.

Lemma ids_update cs k e e' :
  cs !! k = Some e -> GetConnectionID (ce_conn e') = GetConnectionID (ce_conn e) -> ids (<[k := e']> cs) = ids cs.
Proof.
  intros Hk Hid. unfold ids. rewrite list_fmap_insert, Hid. apply list_insert_id. by rewrite list_lookup_fmap, Hk.
Qed.

Section Ids.
Context `{V : ConnVars}.

(** A step keeps the connections and their IDs, and may add one: a dialled one, or
    one for a block that was brought. *)
Definition may_add (p : ConnectionPool) (l : cp_label) (new : list Z) : Prop :=
  Forall (fun id => (exists now a, l = CDial id now a) \/
                    exists b, b ∈ ch_buf (tunnel_recv p) /\ ConnectionID b = id) new.

Lemma may_add_none p l : may_add p l [].
Proof. apply Forall_nil_2. Qed.

Lemma ids_same p l p' : ids (conns p') = ids (conns p) -> exists new, ids (conns p') = ids (conns p) ++ new /\ may_add p l new.
Proof. intros E. exists []. rewrite app_nil_r. split; [done|apply may_add_none]. Qed.

Lemma Dial_ids p id now a p' : Dial id now a p = Ret p' -> ids (conns p') = ids (conns p) ++ [id].
Proof.
  unfold Dial. set (c := in_context p (new_inbound id now)).
  assert (conns (NewPooledInboundConnection id now p) = conns p ++ [mkCEntry c AtSelect true]) as Ec by done.
  rewrite Ec, list_lookup_middle by done. cbn [ce_conn].
  destruct (SendConnect now a (conn_base c)) as [bs b] eqn:Es. destruct (send_all _ _); [|done..].
  cbn [mbind outcome_bind]. intros [= <-]. cbn [set_cp_sendQueue set_conns conns].
  rewrite (ids_update _ _ (mkCEntry c AtSelect true)); [|by rewrite list_lookup_middle|].
  - unfold ids. rewrite fmap_app. cbn. do 2 f_equal. apply (in_context_same p (new_inbound id now)).
  - cbn. unfold GetConnectionID. rewrite set_conn_base_base. by apply SendConnect_kept in Es as [_ -> _ _].
Qed.

Lemma recvRelay_take_ids p p' :
  recvRelay_take p = Ret p' -> exists new, ids (conns p') = ids (conns p) ++ new /\ may_add p CRecvTake new.
Proof.
  unfold recvRelay_take, find_connection. destruct (cp_recv p); try done.
  destruct (chan_recv _) as [blk q| |] eqn:Eq; [|intros [= <-]; by apply ids_same|done]. apply chan_recv_buf in Eq.
  destruct (connectionMapping _ !! _); [intros [= <-]; by apply ids_same|].
  destruct (acceptNewConnection _); intros [= <-]; [|by apply ids_same].
  exists [ConnectionID blk]. split.
  - cbn. unfold ids. rewrite fmap_app. cbn. do 2 f_equal.
    apply (in_context_same (set_tunnel_recv q p) (new_outbound (ConnectionID blk))).
  - apply Forall_singleton. right. exists blk. rewrite Eq. split; [by left|done].
Qed.

Lemma recvRelay_hand_ids p p' : recvRelay_hand p = Ret p' -> ids (conns p') = ids (conns p).
Proof.
  unfold recvRelay_hand. destruct (cp_recv p) as [|k blk|k blk|]; try done.
  destruct (conns p !! k) as [e|] eqn:Ek; [|done].
  destruct (conn_RecvBlock _ _) as [c| |] eqn:Ec; [|done..]. intros [= <-]. cbn.
  apply conn_RecvBlock_spec in Ec as (_ & E & _ & _). by rewrite (ids_update _ _ e).
Qed.

Lemma step_ids p l p' :
  cp_inv p -> cp_step p l = Ret p' -> exists new, ids (conns p') = ids (conns p) ++ new /\ may_add p l new.
Proof.
  intros Hp. destruct l as [id now a|blk| | | | | | | | | |k l|k op|k l|k|]; cbn [cp_step].
  - intros Hs%Dial_ids. exists [id]. split; [done|]. apply Forall_singleton. left. eauto.
  - destruct (send_call _ _); [|done..]. intros [= <-]. by apply ids_same.
  - destruct (chan_recv _); [|done..]. intros [= <-]. by apply ids_same.
  - unfold close_call. destruct (chan_close (tunnel_send p)), (chan_close (tunnel_recv p)); try done. intros [= <-]. by apply ids_same.
  - by apply recvRelay_take_ids.
  - intros H. apply ids_same. by rewrite (relays_conns p p') by auto.
  - intros H. by apply ids_same, recvRelay_hand_ids.
  - intros H. apply ids_same. by rewrite (relays_conns p p') by auto.
  - intros H. apply ids_same. by rewrite (relays_conns p p') by auto.
  - intros H. apply ids_same. by rewrite (relays_conns p p') by auto.
  - intros H. apply ids_same. by rewrite (relays_conns p p') by auto 10.
  - destruct (conns p !! k) as [e|] eqn:Ek; [|done]. destruct (OrderedRelay_step l e) as [e'| |] eqn:Er; [|done..].
    intros [= <-]. apply ids_same, (ids_update _ _ e); [done|].
    by eapply OrderedRelay_owns in Er as [? _]; [|by eapply cp_entries].
  - destruct (conns p !! k) as [e|] eqn:Ek; [|done]. destruct (ce_conn e) as [c|] eqn:Ec; [|done].
    destruct (user_call op) eqn:Eu; [|done]. destruct (Inbound.ic_step ([], c) op) as [[bs c']|] eqn:Eop; [|done].
    destruct (send_all _ _); [|done..]. intros [= <-]. apply ids_same, (ids_update _ _ e); [done|].
    rewrite Ec. exact (rk_id _ _ (Inbound.ic_step_kept _ _ _ _ _ (user_call_kept op Eu) Eop)).
  - destruct (conns p !! k) as [e|] eqn:Ek; [|done]. destruct (ce_conn e) as [|s] eqn:Ec; [done|].
    destruct (own_step l) eqn:Eu; [|done]. destruct (Outbound.oc_step s l) as [[bs s']| |] eqn:Eop; [|done..]. cbn [mbind outcome_bind].
    destruct (send_all _ _); [|done..]. intros [= <-]. apply ids_same, (ids_update _ _ e); [done|].
    rewrite Ec. exact (rk_id _ _ (Outbound.oc_step_kept _ _ _ _ (own_step_kept l Eu) Eop)).
  - destruct (conns p !! k) as [e|] eqn:Ek; [|done]. destruct (_ && _); [|done]. intros [= <-]. apply ids_same.
    assert (forall q, conns (removeConnection (ce_conn e) q) = conns q) as -> by (intros q; unfold removeConnection; by case_match).
    by apply (ids_update _ _ e).
  - intros [= <-]. apply ids_same. cbn. unfold ids. rewrite <-list_fmap_compose. apply list_fmap_ext. intros i e He. cbn.
    unfold GetConnectionID, stopped_conn. by rewrite set_conn_base_base.
Qed.
End Ids.

(** * What the connections have sent *)

Lemma conn_inv_range e t : conn_inv e t -> is_u32 (GetConnectionID (ce_conn e)) -> in_range (conn_base (ce_conn e)).
Proof.
  intros [_ _ _ H] Hid. split; [exact Hid|]. destruct (ce_conn e) as [c|s]; cbn [side conn_base] in *.
  - destruct H as ((c0 & _ & _ & Hc) & _). by apply Inbound.ci_u32 in Hc.
  - destruct H as ((id & rs & os & Hi) & _). destruct (Outbound.oi_num _ _ _ Hi) as (_ & E & _).
    cbn [Outbound.h_state] in E. rewrite E. apply u32_range.
Qed.

Definition sent_ok (t : chist) : Prop := Forall sendable (ct_sent t).

Section Sent.
Context `{V : ConnVars}.

Lemma alter_sent_ok (f : chist -> chist) k ts :
  (forall t, ts !! k = Some t -> sent_ok t -> sent_ok (f t)) -> Forall sent_ok ts -> Forall sent_ok (alter f k ts).
Proof.
  intros Hf Hts. apply Forall_lookup_2. intros i t. destruct (decide (k = i)) as [<-|Hk].
  - rewrite list_lookup_alter_eq. intros (t0 & Ht & ->)%fmap_Some. apply Hf; [done|]. by eapply Forall_lookup_1.
  - rewrite list_lookup_alter_ne by done. by apply Forall_lookup_1.
Qed.

Lemma add_sent_ok bs t : Forall sendable bs -> sent_ok t -> sent_ok (add_sent bs t).
Proof. intros. by apply Forall_app. Qed.

Lemma step_sent p ts l p' :
  conns_inv (conns p) ts -> Forall is_u32 (ids (conns p)) -> cl_ok l -> Forall sent_ok ts -> cp_step p l = Ret p' ->
  Forall sent_ok (noted p l p' ts).
Proof.
  intros Hi Hids Hl Hts Hs.
  assert (forall n, Forall sent_ok (ts ++ replicate n no_hist)) as H0
    by (intros n; apply Forall_app; split; [done|apply Forall_replicate, Forall_nil_2]).
  assert (forall k e t, conns p !! k = Some e -> ts !! k = Some t -> in_range (conn_base (ce_conn e))) as Hr.
  { intros k e t Hk Ht. eapply conn_inv_range; [by eapply Forall2_lookup_lr|]. eapply Forall_lookup_1; [exact Hids|].
    unfold ids. by rewrite list_lookup_fmap, Hk. }
  unfold noted. set (ts' := ts ++ _). assert (Forall sent_ok ts') as Hts' by apply H0.
  assert (forall k e, conns p !! k = Some e -> exists t, ts !! k = Some t) as Hlk
    by (intros k e Hk; destruct (Forall2_lookup_l _ _ _ _ _ Hi Hk) as (t & ? & _); eauto).
  destruct l as [id now a|blk| | | | | | | | | |k l|k op|k l|k|]; cbn [note cl_ok] in *; try exact Hts'.
  - apply alter_sent_ok; [|done]. intros t _. apply add_sent_ok. destruct Hl as (Hid & Hn & Ha).
    destruct (SendConnect now a (conn_base (in_context p (new_inbound id now)))) as [bs b] eqn:E. cbn [fst].
    eapply SendConnect_sendable; [|exact Hn|exact Ha|exact E]. split.
    + change (is_u32 (GetConnectionID (in_context p (new_inbound id now)))). by rewrite (proj1 (in_context_same _ _)).
    + unfold in_context. by destruct (cp_cancelled p).
  - destruct (cp_recv p); try exact Hts'. by apply alter_sent_ok.
  - by apply alter_sent_ok.
  - destruct (conns p !! k) as [e|] eqn:Ek; cbn [fmap option_fmap option_map]; [|exact Hts'].
    destruct (ce_conn e) as [c|] eqn:Ec; [|exact Hts']. apply alter_sent_ok; [|done]. intros t _ Ht.
    apply Forall_app. split; [exact Ht|]. destruct (Inbound.ic_step ([], c) op) as [[bs c']|] eqn:Eop; [|apply Forall_nil_2].
    cbn [from_option fst]. destruct (Hlk k e Ek) as [t0 Ht0]. eapply Inbound.ic_step_sendable; [|exact Hl|exact Eop].
    specialize (Hr k e t0 Ek Ht0). by rewrite Ec in Hr.
  - destruct (conns p !! k) as [e|] eqn:Ek; cbn [fmap option_fmap option_map]; [|exact Hts'].
    destruct (ce_conn e) as [|s] eqn:Ec; [exact Hts'|]. apply alter_sent_ok; [|done]. intros t _ Ht.
    apply Forall_app. split; [exact Ht|]. unfold sent_by. destruct (Outbound.oc_step s l) as [[bs s']| |] eqn:Eop; try apply Forall_nil_2.
    destruct (Hlk k e Ek) as [t0 Ht0]. eapply Outbound.oc_step_sendable; [|exact Hl|exact Eop].
    specialize (Hr k e t0 Ek Ht0). by rewrite Ec in Hr.
Qed.
End Sent.
