(* ===== verification/Wire.v ===== *)
(** Between two tunnel pools: the bytes the tunnels of one pool put on their
    connections are whole blocks, and the pool that reads them forwards blocks
    the first one accepted and nothing else. *)

From S2P Require Import Prelude GoIO Block Stats Tunnel TunnelPool.

Local Open Scope Z_scope.

(** * The bytes of a tunnel *)

(** Blocks with different layouts are not prefixes of each other. *)
Lemma encode_prefix_free a b x y :
  block_wf a -> block_wf b -> encode a ++ x = encode b ++ y -> received a = received b /\ x = y.
Proof.
  intros Ha Hb E.
  assert (delivers (Buffer (encode a ++ x)) (encode a ++ x) (Some EOF)) as Da by done.
  assert (delivers (Buffer (encode a ++ x)) (encode b ++ y) (Some EOF)) as Db by (by split).
  destruct (parse_encode _ _ _ _ Ha Da) as (r1 & P1 & D1).
  destruct (parse_encode _ _ _ _ Hb Db) as (r2 & P2 & D2).
  rewrite P1 in P2. assert (received a = received b /\ r1 = r2) as [Er <-] by (split; congruence). split; [done|].
  destruct D1 as [D1 _], D2 as [D2 _]. congruence.
Qed.

Section Bytes.
Context (acc : list Block).
Implicit Types (bs : list byte) (b : Block).

(** A block a tunnel may send: one of its own, with a number in it, or one of those
    accepted. *)
Definition on_wire b : Prop :=
  block_wf b /\ packed b = None /\ (keepalive b /\ length (BlockData b) = 8%nat \/ b ∈ acc /\ ~ keepalive b).

(** Whole blocks, and perhaps the beginning of one more. *)
Definition carries bs : Prop :=
  exists L tail, bs = concat (encode <$> L) ++ tail /\ Forall on_wire L /\
    (tail = [] \/ exists b, on_wire b /\ tail `prefix_of` encode b).

Lemma carries_nil : carries [].
Proof. exists [], []. split; [done|]. split; [by constructor|by left]. Qed.

Lemma carries_prefix bs bs' : bs' `prefix_of` bs -> carries bs -> carries bs'.
Proof.
  intros Hp (L & tail & -> & HL & Ht). revert bs' Hp. induction HL as [|b L Hb HL IH];
    cbn [fmap list_fmap concat app]; intros bs' Hp.
  - exists [], bs'. split; [done|]. split; [by constructor|].
    destruct Ht as [->|(b & Hb & Ht)]; [left; by apply prefix_nil_inv|]. right. exists b. split; [done|]. by etrans.
  - rewrite <-app_assoc in Hp.
    destruct (decide (length bs' <= length (encode b))%nat) as [Hl|Hl].
    + exists [], bs'. split; [done|]. split; [by constructor|]. right. exists b. split; [done|].
      destruct Hp as [k Hk]. exists (drop (length bs') (encode b)).
      rewrite <-(take_drop (length bs') (encode b)) at 1. f_equal.
      apply (f_equal (take (length bs'))) in Hk. by rewrite (take_app_le (encode b)), (take_app_length bs') in Hk by lia.
    + destruct Hp as [k Hk]. assert (bs' = encode b ++ drop (length (encode b)) bs') as E.
      { rewrite <-(take_drop (length (encode b)) bs') at 1. f_equal.
        apply (f_equal (take (length (encode b)))) in Hk. by rewrite (take_app_length (encode b)), (take_app_le bs') in Hk by lia. }
      destruct (IH (drop (length (encode b)) bs')) as (L' & tail' & E' & HL' & Ht').
      { exists k. rewrite E in Hk. rewrite <-app_assoc in Hk. by apply app_inv_head in Hk. }
      exists (b :: L'), tail'. rewrite E, E'. cbn [fmap list_fmap concat]. rewrite <-app_assoc. split; [done|]. split; [by constructor|done].
Qed.

(** The parser takes one block off such a stream. *)
Lemma carries_parse {R} `{LawfulReader R} (r r' : R) bs oe b :
  delivers r bs oe -> carries bs -> NewBlockFromReader r = Some (Ok b, r') ->
  on_wire b /\ exists bs', delivers r' bs' oe /\ carries bs'.
Proof.
  intros Hd (L & tail & Hbs & HL & Ht) Hp.
  destruct (parse_inv _ _ _ _ _ Hd Hp) as (Hwf & Hpk & rest & E & Hd').
  assert (forall b0 x y, on_wire b0 -> encode b0 ++ x = encode b ++ y -> b0 = b /\ x = y) as Huniq.
  { intros b0 x y (Hw & Hn & _) Ek. destruct (encode_prefix_free _ _ _ _ Hw Hwf Ek) as [Er ->]. split; [|done].
    destruct b0, b. cbn in *. unfold received, set_packed in Er. cbn in Er. by simplify_eq. }
  rewrite E in Hbs. destruct L as [|b0 L]; cbn [fmap list_fmap concat app] in Hbs.
  - destruct Ht as [->|(b0 & Hb0 & [k Hk])].
    + exfalso. rewrite encode_header in Hbs. discriminate Hbs.
    + subst tail. destruct (Huniq b0 [] (rest ++ k) Hb0) as [-> Hr]; [by rewrite app_nil_r, app_assoc|].
      split; [done|]. exists rest. split; [done|]. symmetry in Hr. apply app_nil in Hr as [-> _]. apply carries_nil.
  - apply Forall_cons in HL as [Hb0 HL]. rewrite <-app_assoc in Hbs.
    destruct (Huniq b0 _ _ Hb0 (eq_sym Hbs)) as [-> <-]. split; [done|].
    eexists. split; [exact Hd'|]. by exists L, tail.
Qed.

Lemma on_wire_wf b : on_wire b -> block_wf b.
Proof. by intros []. Qed.

(** What a step may do to a tunnel: it puts blocks on the connection, and part of
    one only if it closes the tunnel; a closed tunnel sends nothing. *)
Section Sender.
Context {C : Type} `{LawfulReader C} `{!Writer C, !LawfulWriter C}.
Implicit Types (t : Tunnel C) (g : global_stats).

Record wire_ok t t' : Prop := {
  wo_id : tunnelID t' = tunnelID t;
  wo_closed : tn_closed t = true -> tn_closed t' = true /\ emitted (Conn t') = emitted (Conn t);
  wo_bytes : exists L tail, emitted (Conn t') = emitted (Conn t) ++ concat (encode <$> L) ++ tail /\
    Forall on_wire L /\
    (tail = [] \/ tn_closed t' = true /\ exists b, on_wire b /\ tail `prefix_of` encode b);
}.

Lemma wire_ok_quiet t t' :
  tunnelID t' = tunnelID t -> emitted (Conn t') = emitted (Conn t) ->
  (tn_closed t = true -> tn_closed t' = true) -> wire_ok t t'.
Proof.
  intros E1 E2 E3. constructor; [done|auto|]. exists [], []. rewrite E2, app_nil_r.
  split; [done|]. split; [by constructor|by left].
Qed.

Lemma wire_ok_refl t : wire_ok t t.
Proof. by apply wire_ok_quiet. Qed.

Lemma wire_ok_trans t1 t2 t3 : wire_ok t1 t2 -> wire_ok t2 t3 -> wire_ok t1 t3.
Proof.
  intros [I1 C1 (L1 & T1 & E1 & F1 & P1)] [I2 C2 (L2 & T2 & E2 & F2 & P2)]. constructor.
  - congruence.
  - intros Hc. destruct (C1 Hc) as [Hc2 Q1]. destruct (C2 Hc2) as [Hc3 Q2]. split; congruence.
  - destruct P1 as [->|[Hc P1]].
    + exists (L1 ++ L2), T2. rewrite E2, E1, fmap_app, concat_app, app_nil_r, <-!app_assoc.
      split; [done|]. split; [by apply Forall_app|done].
    + destruct (C2 Hc) as [Hc' E2']. exists L1, T1. rewrite E2', E1. split; [done|]. split; [done|]. by right.
Qed.

(** The bytes after those of the beginning are carried. *)
Lemma wire_ok_carries t t' bs : wire_ok t t' -> emitted (Conn t) ++ bs `prefix_of` emitted (Conn t') -> carries bs.
Proof.
  intros [_ _ (L & tail & E & HL & Ht)] Hp. rewrite E in Hp. apply prefix_app_inv in Hp.
  eapply carries_prefix; [exact Hp|]. exists L, tail. split; [done|]. split; [done|].
  destruct Ht as [?|[_ ?]]; auto.
Qed.

(** [packThenSend] on any branch leaves the ID alone, and a closed tunnel silent. *)
Lemma packThenSend_same blk retry g t rb g' t' :
  packThenSend blk retry g t = (rb, g', t') ->
  tunnelID t' = tunnelID t /\
  (tn_closed t = true -> tn_closed t' = true /\ emitted (Conn t') = emitted (Conn t)).
Proof.
  unfold packThenSend. destruct (Pack blk) as [data blk']. unfold conn_write.
  destruct (tn_closed t) eqn:Ec.
  - rewrite bool_decide_eq_false_2 by (by intros [? _]). destruct retry; intros; by simplify_eq/=.
  - destruct (copy_bytes data (Conn t)) as [[n oe] c]. case_bool_decide; destruct retry; cbn;
      intros; simplify_eq/=; (split; [done|]); intros; congruence.
Qed.

(** A block of the queues: whole, or the tunnel is closed. *)
Lemma relay_wire blk g t rb g' t' :
  packed_ok blk -> on_wire (received blk) -> packThenSend blk true g t = (rb, g', t') -> wire_ok t t'.
Proof.
  intros Hp Hw E. destruct (packThenSend_same _ _ _ _ _ _ _ E) as [Hid Hc].
  constructor; [done|done|].
  destruct (packThenSend_spec _ _ _ _ _ _ _ Hp E) as [(_ & _ & He & _)|(n & _ & He & _ & _ & _ & Hcl & _)].
  - exists [received blk], []. rewrite He, app_nil_r. cbn [fmap list_fmap concat]. rewrite app_nil_r, encode_received.
    split; [done|]. split; [by constructor|by left].
  - exists [], (take n (encode blk)). rewrite He. split; [done|]. split; [by constructor|]. right. split; [done|].
    exists (received blk). rewrite encode_received. split; [done|]. exists (drop n (encode blk)). by rewrite take_drop.
Qed.

(** A keep-alive that went out whole, or not at all. *)
Definition whole (n : nat) (t t' : Tunnel C) : Prop :=
  length (emitted (Conn t')) = length (emitted (Conn t)) \/
  length (emitted (Conn t')) = (length (emitted (Conn t)) + n)%nat.

Lemma keepalive_wire blk g t rb g' t' :
  packed blk = None -> block_wf blk -> keepalive blk /\ length (BlockData blk) = 8%nat -> packThenSend blk false g t = (rb, g', t') ->
  whole (length (encode blk)) t t' -> wire_ok t t'.
Proof.
  intros Hp Hb Hk E Hwh. destruct (packThenSend_same _ _ _ _ _ _ _ E) as [Hid Hc].
  constructor; [done|done|].
  assert (emitted (Conn t') = emitted (Conn t) ++ encode blk \/ emitted (Conn t') = emitted (Conn t)) as [He|He].
  { destruct (packThenSend_spec _ _ _ _ _ _ _ (or_introl Hp) E) as [(_ & _ & He & _)|(n & Hn & He & _)]; [by left|].
    unfold whole in Hwh. rewrite He, length_app, length_take_le in Hwh by done. destruct Hwh as [Hwh|Hwh].
    - right. rewrite He. replace n with 0%nat by lia. by rewrite app_nil_r.
    - left. rewrite He. by rewrite take_ge by lia. }
  - exists [blk], []. rewrite He. cbn [fmap list_fmap concat]. rewrite !app_nil_r.
    split; [done|]. split; [|by left]. constructor; [|by constructor]. split; [done|]. split; [done|by left].
  - exists [], []. rewrite He, app_nil_r. split; [done|]. split; [by constructor|by left].
Qed.
End Sender.
End Bytes.

(** * The sending pool *)

Section Pool.
Context `{V : TunnelVars} {M C : Type} `{Manager M} `{Duplex C}.
Implicit Types (p : TunnelPool M C) (e : entry C) (t : Tunnel C).

Definition tunnels p : list (Tunnel C) := e_tunnel <$> entries p.

Definition joined (l : pool_label C) : list (Tunnel C) :=
  match l with PAddTunnel t => [t] | _ => [] end.

(** The blocks in the pool's hands. *)
Definition queued p : list Block := ch_buf (sendQueue p) ++ ch_buf (sendRetryQueue p) ++ (retrying p).*2.

(** What the environment gives a step: blocks that can be laid out, IDs and clock
    readings in range. *)
Definition label_ok (l : pool_label C) : Prop :=
  match l with
  | PSend blk => sendable blk
  | PAddTunnel t => is_u32 (tunnelID t)
  | PIn _ now | PTick _ now => forall k, is_i64 (now k)
  | _ => True
  end.

(** A ping or a pong of this step is put on the connection whole or not at all. *)
Definition keepalive_whole p (l : pool_label C) p' : Prop :=
  match l with
  | PIn i _ | PTick i _ =>
      match entries p !! i, entries p' !! i with
      | Some e, Some e' => whole 29 (e_tunnel e) (e_tunnel e')
      | _, _ => True
      end
  | _ => True
  end.

Record send_inv (acc : list Block) (ts : list (Tunnel C)) p : Prop := {
  si_packed : Forall packed_ok (queued p);
  si_queued : Forall (fun b => block_wf b /\ ~ keepalive b /\ received b ∈ acc) (queued p);
  si_ids : Forall (fun t => is_u32 (tunnelID t)) ts;
  si_wire : Forall2 (wire_ok acc) ts (tunnels p);
}.

Lemma on_wire_mono (acc acc' : list Block) b : (forall b, b ∈ acc -> b ∈ acc') -> on_wire acc b -> on_wire acc' b.
Proof. intros Ha (? & ? & [?|[? ?]]); (split; [done|]); (split; [done|]); [by left|right; auto]. Qed.

Lemma wire_ok_mono (acc acc' : list Block) t t' :
  (forall b, b ∈ acc -> b ∈ acc') -> wire_ok acc t t' -> wire_ok acc' t t'.
Proof.
  intros Ha [I K (L & tail & E & F & T)]. constructor; [done|done|]. exists L, tail. split; [done|]. split.
  - eapply Forall_impl; [exact F|]. intros b. by apply on_wire_mono.
  - destruct T as [?|(? & b & Hb & ?)]; [by left|]. right. split; [done|]. exists b. split; [|done]. by eapply on_wire_mono.
Qed.

(** ** One step and the tunnels *)

(** Tunnels that take a step each. *)
Definition moves (acc : list Block) (ts ts' : list (Tunnel C)) : Prop := Forall2 (wire_ok acc) ts ts'.

Lemma moves_refl acc (ts : list (Tunnel C)) : moves acc ts ts.
Proof. apply Forall_Forall2_diag, Forall_forall. intros t _. apply wire_ok_refl. Qed.

Lemma moves_trans acc (ts1 ts2 ts3 : list (Tunnel C)) : moves acc ts1 ts2 -> moves acc ts2 ts3 -> moves acc ts1 ts3.
Proof.
  unfold moves. intros Hm. revert ts3. induction Hm; intros ts3 Hn; inversion Hn; subst; constructor; [|auto].
  by eapply wire_ok_trans.
Qed.

Lemma moves_update acc (es : list (entry C)) i e e' :
  es !! i = Some e -> wire_ok acc (e_tunnel e) (e_tunnel e') -> moves acc (e_tunnel <$> es) (e_tunnel <$> <[i := e']> es).
Proof.
  intros Hi Hw. apply Forall2_same_length_lookup. rewrite !length_fmap, length_insert. split; [done|].
  intros j x y. rewrite !list_lookup_fmap. destruct (decide (i = j)) as [<-|Hne].
  - rewrite list_lookup_insert_eq by (by eapply lookup_lt_Some). rewrite Hi. intros [= <-] [= <-]. done.
  - rewrite list_lookup_insert_ne by done. intros E1 E2. rewrite E1 in E2. injection E2 as <-. apply wire_ok_refl.
Qed.

Lemma queued_in p b q : chan_recv (sendQueue p) = Received b q \/ chan_recv (sendRetryQueue p) = Received b q -> b ∈ queued p.
Proof. unfold queued. intros [E|E]; apply chan_recv_buf in E; rewrite E; in_app. Qed.

Lemma relay_send_moves acc i e blk next p evs p' :
  entries p !! i = Some e -> packed_ok blk -> on_wire acc (received blk) ->
  relay_send i e blk next p = (evs, p') -> moves acc (tunnels p) (tunnels p').
Proof.
  intros Hi Hp Hw. unfold relay_send. destruct (packThenSend _ _ _ _) as [[rb g] t] eqn:E.
  intros Hr. assert (tunnels p' = e_tunnel <$> <[i := mkEntry t next (e_in e) (e_waiting e)]> (entries p)) as ->
    by (destruct rb; by simplify_eq/=).
  eapply moves_update; [done|]. cbn. by eapply relay_wire.
Qed.

Lemma set_entry_moves acc i e t o ic w p p' :
  entries p !! i = Some e -> entries p' = <[i := mkEntry t o ic w]> (entries p) -> wire_ok acc (e_tunnel e) t ->
  moves acc (tunnels p) (tunnels p').
Proof. intros Hi E Hw. unfold tunnels. rewrite E. by eapply moves_update. Qed.

Lemma same_entry_moves acc i e o ic w p p' :
  entries p !! i = Some e -> entries p' = <[i := mkEntry (e_tunnel e) o ic w]> (entries p) ->
  moves acc (tunnels p) (tunnels p').
Proof. intros Hi E. eapply set_entry_moves; [done..|]. apply wire_ok_refl. Qed.

(** *** Keep-alives *)

Lemma ping_wf now id lat : is_i64 now -> is_u32 id -> block_wf (NewPingBlock now id 0 lat).
Proof. intros. constructor; cbn [NewPingBlock Type_ ConnectionID TimeStamp BlockID BlockLength BlockData]; done. Qed.

Lemma pong_wf now ts : is_i64 now -> block_wf (NewPongBlock now 0 0 ts).
Proof. intros. constructor; cbn [NewPongBlock Type_ ConnectionID TimeStamp BlockID BlockLength BlockData]; done. Qed.

Lemma NewBlockFromReader_emitted (c c' : C) r : NewBlockFromReader c = Some (r, c') -> emitted c' = emitted c.
Proof.
  unfold NewBlockFromReader. destruct (ReadFull _ c) as [[[hd [err|]] c1]|] eqn:E1; [| |done]; apply ReadFull_emitted in E1.
  - by intros [= <- <-].
  - case_decide; [|by intros [= <- <-]].
    destruct (ReadFull _ c1) as [[[d [err|]] c2]|] eqn:E2; [| |done]; apply ReadFull_emitted in E2;
      intros [= <- <-]; congruence.
Qed.

Lemma InboundRelay_block_wire acc now blk g t fwd g' t' :
  (forall k, is_i64 (now k)) -> InboundRelay_block now blk g t = Ret (fwd, g', t') -> whole 29 t t' ->
  wire_ok acc t t'.
Proof.
  intros Hnow. unfold InboundRelay_block. destruct (Pack blk) as [d b].
  case_decide; [destruct (Uint64 _) as [v|]; [|done]|case_decide; [destruct (Uint64 _) as [v|]; [|done]|]].
  - set (t1 := SetLatencyNano _ _). destruct (packThenSend _ false _ t1) as [[rb g1] t2] eqn:E. intros [= <- <- <-] Hw.
    eapply wire_ok_trans; [apply (wire_ok_quiet acc t t1); done|].
    eapply keepalive_wire; [| | |exact E|exact Hw]; [done|by apply pong_wf|split; [by right|done]].
  - intros [= <- <- <-] _. by apply wire_ok_quiet.
  - intros [= <- <- <-] _. by apply wire_ok_quiet.
Qed.

Lemma InboundRelay_read_wire acc now g t fwd g' t' :
  (forall k, is_i64 (now k)) -> InboundRelay_read now g t = Ret (fwd, g', t') -> whole 29 t t' -> wire_ok acc t t'.
Proof.
  intros Hnow. unfold InboundRelay_read. destruct (tn_closed t) eqn:Ec.
  { intros [= <- <- <-] _. by apply wire_ok_quiet. }
  destruct (NewBlockFromReader (Conn t)) as [[[blk|err] c]|] eqn:E; [| |done]; apply NewBlockFromReader_emitted in E.
  - intros Hb Hw. eapply wire_ok_trans; [apply (wire_ok_quiet acc t (set_Conn c t)); done|].
    eapply InboundRelay_block_wire; [done|exact Hb|]. unfold whole in *. cbn. by rewrite E.
  - intros [= <- <- <-] _. by apply wire_ok_quiet.
Qed.

Lemma PingPong_tick_wire acc now g t g' t' :
  (forall k, is_i64 (now k)) -> is_u32 (tunnelID t) -> PingPong_tick now g t = (g', t') -> whole 29 t t' ->
  wire_ok acc t t'.
Proof.
  intros Hnow Hid. unfold PingPong_tick.
  set (sent := if decide (PingInterval < _) then _ else _). destruct sent as [g1 t1] eqn:Es. subst sent.
  intros Ht Hw.
  assert (wire_ok acc t1 t' /\ emitted (Conn t') = emitted (Conn t1)) as [Hm He]
    by (case_decide; simplify_eq; (split; [by apply wire_ok_quiet|done])).
  eapply wire_ok_trans; [|exact Hm]. clear Ht.
  destruct (decide (PingInterval < idle_seconds (now 0%nat) t)).
  - destruct (packThenSend _ false g t) as [[rb g2] t2] eqn:E. injection Es as -> ->.
    eapply keepalive_wire; [| | |exact E|]; [done|by apply ping_wf|split; [by left|done]|].
    unfold whole in *. by rewrite <-He.
  - injection Es as -> ->. apply wire_ok_refl.
Qed.

(** *** The steps *)

Lemma queued_on_wire acc ts p b :
  send_inv acc ts p -> b ∈ queued p -> packed_ok b /\ on_wire acc (received b).
Proof.
  intros [Hp Hq _ _] Hb. rewrite Forall_forall in Hp, Hq. destruct (Hq b Hb) as (Hw & Hk & Ha).
  split; [auto|]. split; [by apply block_wf_received|]. split; [done|by right].
Qed.

Lemma take_moves acc ts i e next p evs p' :
  send_inv acc ts p -> entries p !! i = Some e ->
  take_retry i e next p = Ret (evs, p') \/ take_normal i e next p = Ret (evs, p') ->
  moves acc (tunnels p) (tunnels p').
Proof.
  intros Hi He. unfold take_retry, take_normal. intros [Hs|Hs].
  - destruct (chan_recv (sendRetryQueue p)) as [blk q| |] eqn:Eq; [|injection Hs as <- <-|done].
    + destruct (queued_on_wire _ _ _ blk Hi) as [Hp Hw]; [by eapply queued_in; right|].
      injection Hs as Hs. by eapply (relay_send_moves acc i e blk next (set_retryQueue q p)).
    + by eapply same_entry_moves.
  - destruct (chan_recv (sendQueue p)) as [blk q| |] eqn:Eq; [|injection Hs as <- <-|done].
    + destruct (queued_on_wire _ _ _ blk Hi) as [Hp Hw]; [by eapply queued_in; left|].
      injection Hs as Hs. by eapply (relay_send_moves acc i e blk next (set_sendQueue q p)).
    + by eapply same_entry_moves.
Qed.

Lemma OutboundRelay_moves acc ts i e ch p evs p' :
  send_inv acc ts p -> entries p !! i = Some e -> OutboundRelay_step i e ch p = Ret (evs, p') ->
  moves acc (tunnels p) (tunnels p').
Proof.
  intros Hi He. unfold OutboundRelay_step, end_out, goto_out.
  destruct (e_out e), ch; try done; try (intros Hs; eapply take_moves; by eauto);
    repeat case_match; intros; simplify_eq; by eapply same_entry_moves.
Qed.

Lemma entries_goto_in i e t pc g p : entries p !! i = Some e ->
  entries (goto_in i e t pc g p) !! i = Some (mkEntry t (e_out e) pc (e_waiting e)).
Proof. intros Hi. cbn. apply list_lookup_insert_eq. by eapply lookup_lt_Some. Qed.

Lemma InboundRelay_moves acc i now e p evs p' :
  entries p !! i = Some e -> (forall k, is_i64 (now k)) -> InboundRelay_step i now e p = Ret (evs, p') ->
  keepalive_whole p (PIn i now) p' -> moves acc (tunnels p) (tunnels p').
Proof.
  intros Hi Hnow. unfold InboundRelay_step. destruct (e_in e) eqn:Ein; [|done..].
  destruct (tn_cancelled (e_tunnel e)).
  - intros Hs _. unfold InboundRelay_last in Hs. destruct (tn_closed (e_tunnel e)) eqn:Ec.
    { injection Hs as <- <-. by eapply same_entry_moves. }
    destruct (NewBlockFromReader _) as [[[b|err] c]|] eqn:E; [| |done]; apply NewBlockFromReader_emitted in E.
    + destruct (Pack b) as [d b']. destruct (chan_send b' _); [| |done]; injection Hs as <- <-;
        (eapply set_entry_moves; [done..|by apply wire_ok_quiet]).
    + injection Hs as <- <-. eapply set_entry_moves; [done..|by apply wire_ok_quiet].
  - destruct (InboundRelay_read _ _ _) as [[[fwd g] t]| |] eqn:E; [|done..]. cbn [mbind outcome_bind].
    intros [= <- <-]. unfold keepalive_whole. rewrite Hi, entries_goto_in by done. cbn [e_tunnel]. intros Hw.
    eapply set_entry_moves; [done..|]. cbn [e_tunnel]. by eapply InboundRelay_read_wire.
Qed.

Lemma Close_moves acc p p' : TunnelPool.Close p = Ret p' -> moves acc (tunnels p) (tunnels p').
Proof.
  intros Hc%Close_spec. unfold tunnels. rewrite (cl_entries _ _ Hc).
  apply Forall2_same_length_lookup. rewrite !length_fmap, length_imap. split; [done|].
  intros j x y. rewrite !list_lookup_fmap, list_lookup_imap. destruct (entries p !! j) as [e|]; [|done]. cbn.
  intros [= <-] [= <-]. case_decide; [by apply wire_ok_quiet|apply wire_ok_refl].
Qed.

Lemma tunnel_id_ok acc ts p i e : send_inv acc ts p -> entries p !! i = Some e -> is_u32 (tunnelID (e_tunnel e)).
Proof.
  intros [_ _ Hids Hw] Hi.
  assert (tunnels p !! i = Some (e_tunnel e)) as Ht by (unfold tunnels; by rewrite list_lookup_fmap, Hi).
  destruct (Forall2_lookup_r _ _ _ _ _ Hw Ht) as (t0 & Ht0 & [-> _ _]). by eapply Forall_lookup_1 in Hids.
Qed.

Lemma step_moves acc ts p l evs p' :
  send_inv acc ts p -> label_ok l -> keepalive_whole p l p' -> pool_step p l = Ret (evs, p') ->
  moves acc (tunnels p ++ joined l) (tunnels p').
Proof.
  intros Hi Hl Hk.
  destruct l as [blk| |t|i ch|k|k|i now|i|i|i now|i|]; cbn [pool_step joined label_ok] in *; rewrite ?app_nil_r.
  - destruct (send_call _ _) as [q| |]; [|done..]. intros [= <- <-]. apply moves_refl.
  - destruct (chan_recv _); [|done..]. intros [= <- <-]. apply moves_refl.
  - intros [= <- <-]. unfold tunnels, AddTunnel. cbn. rewrite fmap_app. apply moves_refl.
  - destruct (entries p !! i) as [e|] eqn:Ei; [|done]. by eapply OutboundRelay_moves.
  - destruct (retrying p !! k) as [[i blk]|]; [|done]. destruct (send_call _ _) as [q| |]; [|done..].
    intros [= <- <-]. apply moves_refl.
  - destruct (retrying p !! k) as [[i blk]|]; [|done]. destruct (entries p !! i); [|done].
    destruct (tn_cancelled _); [|done]. intros [= <- <-]. apply moves_refl.
  - destruct (entries p !! i) as [e|] eqn:Ei; [|done]. intros Hs. by eapply InboundRelay_moves.
  - destruct (entries p !! i) as [e|] eqn:Ei; [|done]. destruct (e_in e); [done| |done].
    destruct (send_call _ _) as [q| |]; [|done..]. intros [= <- <-]. by eapply same_entry_moves.
  - destruct (entries p !! i) as [e|] eqn:Ei; [|done]. destruct (e_in e), (tn_cancelled (e_tunnel e)); try done.
    intros [= <- <-]. by eapply same_entry_moves.
  - destruct (entries p !! i) as [e|] eqn:Ei; [|done]. case_decide; [|done].
    destruct (PingPong_tick _ _ _) as [g t] eqn:E. intros [= <- <-].
    unfold keepalive_whole in Hk. rewrite Ei, entries_goto_in in Hk by done.
    eapply set_entry_moves; [done..|]. cbn [e_tunnel]. eapply PingPong_tick_wire; [done|by eapply tunnel_id_ok|done|done].
  - destruct (entries p !! i) as [e|] eqn:Ei; [|done]. destruct (_ && _); [|done]. intros [= <- <-].
    assert (forall q, tunnels (RemoveTunnel (e_tunnel e) q) = tunnels q) as ->
      by (intros q; unfold RemoveTunnel; by case_match).
    by eapply same_entry_moves.
  - destruct (TunnelPool.Close p) as [q| |] eqn:E; [|done..]. intros [= <- <-]. by eapply Close_moves.
Qed.

(** ** The invariant of the sending pool *)

(** Where a block in the pool's hands was one step before. *)
Definition comes_from p (l : pool_label C) (b : Block) : Prop :=
  exists b0, (b0 ∈ queued p \/ l = PSend b0) /\ (b = b0 \/ b = (Pack b0).2).

Lemma comes_from_same p l b : b ∈ queued p -> comes_from p l b.
Proof. intros. exists b. auto. Qed.

Ltac same_queue := let Hb := fresh in intros Hb; apply comes_from_same; exact Hb.

Lemma relay_send_queued i e blk next p evs p' b :
  relay_send i e blk next p = (evs, p') -> b ∈ queued p' -> b ∈ queued p \/ b = (Pack blk).2.
Proof.
  unfold relay_send, packThenSend. destruct (Pack blk) as [d blk']. destruct (conn_write d _) as [[n oe] t].
  destruct (bool_decide _); cbn; intros [= <- <-]; unfold queued; cbn; [auto|].
  rewrite fmap_app. cbn [fmap list_fmap snd]. in_app.
Qed.

Lemma take_queued i e next p evs p' l b :
  take_retry i e next p = Ret (evs, p') \/ take_normal i e next p = Ret (evs, p') ->
  b ∈ queued p' -> comes_from p l b.
Proof.
  unfold take_retry, take_normal. intros [Hs|Hs].
  - destruct (chan_recv (sendRetryQueue p)) as [blk q| |] eqn:Eq; [|injection Hs as <- <-; same_queue|done].
    injection Hs as Hs. intros Hb. eapply relay_send_queued in Hb; [|done].
    apply chan_recv_buf in Eq. destruct Hb as [Hb| ->].
    + apply comes_from_same. unfold queued in *. cbn in Hb. rewrite Eq. in_app.
    + exists blk. split; [left|by right]. unfold queued. rewrite Eq. in_app.
  - destruct (chan_recv (sendQueue p)) as [blk q| |] eqn:Eq; [|injection Hs as <- <-; same_queue|done].
    injection Hs as Hs. intros Hb. eapply relay_send_queued in Hb; [|done].
    apply chan_recv_buf in Eq. destruct Hb as [Hb| ->].
    + apply comes_from_same. unfold queued in *. cbn in Hb. rewrite Eq. in_app.
    + exists blk. split; [left|by right]. unfold queued. rewrite Eq. in_app.
Qed.

Lemma delete_subset {A} (k : nat) (l : list A) x : x ∈ delete k l -> x ∈ l.
Proof. intros Hx. eapply elem_of_submseteq; [exact Hx|]. apply sublist_submseteq, sublist_delete. Qed.

Lemma step_queued p l evs p' b : pool_step p l = Ret (evs, p') -> b ∈ queued p' -> comes_from p l b.
Proof.
  destruct l as [blk| |t|i ch|k|k|i now|i|i|i now|i|]; cbn [pool_step].
  - unfold send_call. destruct (chan_send _ _) as [q| |] eqn:Eq; [|done..]. intros [= <- <-].
    apply chan_send_buf in Eq. unfold queued at 1. cbn. rewrite Eq, !elem_of_app, list_elem_of_singleton.
    intros [[?| ->]|[?|?]]; [| |apply comes_from_same; unfold queued; in_app..].
    + apply comes_from_same. unfold queued. in_app.
    + exists blk. auto.
  - destruct (chan_recv _); [|done..]. intros [= <- <-]. same_queue.
  - intros [= <- <-]. same_queue.
  - destruct (entries p !! i) as [e|]; [|done]. unfold OutboundRelay_step, end_out, goto_out.
    destruct (e_out e), ch; try done; try (intros Hs; eapply take_queued; by eauto);
      repeat case_match; intros Hs; simplify_eq; same_queue.
  - destruct (retrying p !! k) as [[i blk]|] eqn:Ek; [|done]. unfold send_call.
    destruct (chan_send _ _) as [q| |] eqn:Eq; [|done..]. intros [= <- <-]. apply chan_send_buf in Eq.
    intros Hb. apply comes_from_same. unfold queued in *. cbn in Hb. rewrite Eq, !elem_of_app, list_elem_of_singleton in Hb.
    rewrite !elem_of_app. destruct Hb as [?|[[?| ->]|Hb]]; auto; right; right.
    + apply list_elem_of_fmap. exists (i, blk). split; [done|]. by eapply list_elem_of_lookup_2.
    + apply list_elem_of_fmap in Hb as (x & -> & Hx%delete_subset). apply list_elem_of_fmap. by exists x.
  - destruct (retrying p !! k) as [[i blk]|] eqn:Ek; [|done]. destruct (entries p !! i); [|done].
    destruct (tn_cancelled _); [|done]. intros [= <- <-]. intros Hb. apply comes_from_same. unfold queued in *. cbn in Hb.
    rewrite !elem_of_app in *. destruct Hb as [?|[?|Hb]]; auto; right; right.
    apply list_elem_of_fmap in Hb as (x & -> & Hx%delete_subset). apply list_elem_of_fmap. by exists x.
  - destruct (entries p !! i) as [e|]; [|done]. unfold InboundRelay_step, InboundRelay_last.
    destruct (e_in e); [|done..]. destruct (tn_cancelled _).
    + repeat case_match; intros Hs; simplify_eq; same_queue.
    + destruct (InboundRelay_read _ _ _) as [[[fwd g] t]| |]; [|done..]. intros [= <- <-]. same_queue.
  - destruct (entries p !! i) as [e|]; [|done]. destruct (e_in e); [done| |done].
    destruct (send_call _ _); [|done..]. intros [= <- <-]. same_queue.
  - destruct (entries p !! i) as [e|]; [|done]. destruct (e_in e), (tn_cancelled (e_tunnel e)); try done.
    intros [= <- <-]. same_queue.
  - destruct (entries p !! i) as [e|]; [|done]. case_decide; [|done]. destruct (PingPong_tick _ _ _).
    intros [= <- <-]. same_queue.
  - destruct (entries p !! i) as [e|]; [|done]. destruct (_ && _); [|done]. intros [= <- <-].
    unfold RemoveTunnel. case_match; same_queue.
  - destruct (TunnelPool.Close p) as [q| |] eqn:E; [|done..]. intros [= <- <-].
    intros Hb. apply comes_from_same. apply Close_spec in E as [_ E1 E2 _ E3]. unfold queued in *.
    by rewrite E1, E2, E3 in Hb.
Qed.

(** Every block in the pool's hands was accepted. *)
Definition accepted_of (l : pool_label C) : list Block := match l with PSend blk => [received blk] | _ => [] end.

Lemma Pack_wf b : block_wf b -> block_wf (Pack b).2.
Proof. intros Hb. by rewrite <-block_wf_received, Pack_received, block_wf_received. Qed.

Lemma keepalive_Pack b : keepalive (Pack b).2 <-> keepalive b.
Proof. unfold keepalive, Pack. by case_match. Qed.

Lemma joined_ids l : label_ok l -> Forall (fun t => is_u32 (tunnelID t)) (joined l).
Proof. destruct l; intros Hl; try apply Forall_nil_2. apply Forall_cons_2; [exact Hl|apply Forall_nil_2]. Qed.

Lemma send_inv_init peer (mgr : M) g : send_inv [] [] (NewTunnelPool peer mgr g).
Proof. constructor; by constructor. Qed.

Lemma send_inv_step acc ts p l evs p' :
  send_inv acc ts p -> label_ok l -> keepalive_whole p l p' -> pool_step p l = Ret (evs, p') ->
  send_inv (acc ++ accepted_of l) (ts ++ joined l) p'.
Proof.
  intros Hi Hl Hk Hs.
  assert (forall b, b ∈ queued p' -> packed_ok b /\ block_wf b /\ ~ keepalive b /\ received b ∈ acc ++ accepted_of l) as Hq.
  { intros b Hb. destruct (step_queued _ _ _ _ _ Hs Hb) as (b0 & Hb0 & Hb').
    assert (packed_ok b0 /\ block_wf b0 /\ ~ keepalive b0 /\ received b0 ∈ acc ++ accepted_of l) as (P1 & P2 & P4 & P3).
    { destruct Hb0 as [Hb0| ->].
      - destruct Hi as [Hp Hq _ _]. rewrite Forall_forall in Hp, Hq. destruct (Hq b0 Hb0) as (? & ? & ?).
        split; [auto|]. split; [done|]. split; [done|]. apply elem_of_app. by left.
      - destruct Hl as (Hw & Hp & Hka). split; [done|]. split; [done|]. split; [done|]. apply elem_of_app. right. by left. }
    destruct Hb' as [->| ->]; [done|]. rewrite Pack_received. split; [by apply Pack_packed_ok|]. split; [by apply Pack_wf|]. split; [by rewrite keepalive_Pack|done]. }
  constructor.
  - apply Forall_forall. intros b Hb. by apply Hq.
  - apply Forall_forall. intros b Hb. by apply Hq.
  - apply Forall_app. split; [by destruct Hi|]. by apply joined_ids.
  - eapply moves_trans; [|].
    + apply Forall2_app; [|apply moves_refl]. eapply Forall2_impl; [exact (si_wire _ _ _ Hi)|].
      intros t t'. apply wire_ok_mono. intros b. in_app.
    + eapply Forall2_impl; [by eapply step_moves|]. intros t t'. apply wire_ok_mono. intros b. in_app.
Qed.
End Pool.

(** * The receiving pool *)

Definition delivered (evs : list pool_event) : list Block :=
  omap (fun ev => match ev with Delivered b => Some b | _ => None end) evs.

(** A receiver is judged by what it may read: [good] streams of bytes, from which
    the parser takes only blocks that satisfy [ok]. *)
Class GoodStream (C : Type) `{LawfulReader C} (ok : Block -> Prop) (good : list byte -> Prop) : Prop :=
  good_parse c c' bs oe b : delivers c bs oe -> good bs -> NewBlockFromReader c = Some (Ok b, c') ->
    ok b /\ exists bs', delivers c' bs' oe /\ good bs'.

(** Any stream: the parser makes well-formed blocks only. *)
#[export] Instance any_stream (C : Type) `{LawfulReader C} :
  GoodStream C (fun b => block_wf b /\ packed b = None) (fun _ => True).
Proof.
  intros c c' bs oe b Hd _ Hp. destruct (parse_inv _ _ _ _ _ Hd Hp) as (Hw & Hn & rest & _ & Hd'). eauto.
Qed.

#[export] Instance wire_stream (C : Type) `{LawfulReader C} (acc : list Block) : GoodStream C (on_wire acc) (carries acc).
Proof. intros c c' bs oe b. apply carries_parse. Qed.

Section Receiver.
Context `{V : TunnelVars} {M C : Type} `{Manager M} `{Duplex C}.
Context (ok : Block -> Prop) (good : list byte -> Prop) `{!GoodStream C ok good}.
Implicit Types (p : TunnelPool M C) (e : entry C) (t : Tunnel C).

(** What the pool forwards. *)
Definition came (b : Block) : Prop := exists b0, ok b0 /\ ~ keepalive b0 /\ b = (Pack b0).2.

(** A tunnel that will only read what is good. *)
Record conn_ok t : Prop := {
  ck_cancel : tn_cancelled t = true -> tn_closed t = true;
  ck_bytes : tn_closed t = true \/ exists bs oe, delivers (Conn t) bs oe /\ good bs;
}.

Record entry_ok e : Prop := {
  eo_conn : conn_ok (e_tunnel e);
  eo_held : match e_in e with InForward b => came b | _ => True end;
}.

Record recv_inv p : Prop := {
  ri_entries : Forall entry_ok (entries p);
  ri_queue : Forall (came) (ch_buf (recvQueue p));
}.

Lemma conn_ok_same t t' :
  Conn t' = Conn t -> tn_closed t' = tn_closed t -> tn_cancelled t' = tn_cancelled t -> conn_ok t -> conn_ok t'.
Proof. intros E1 E2 E3 []. constructor; rewrite ?E1, ?E2, ?E3; done. Qed.

Lemma conn_ok_closed t : tn_closed t = true -> conn_ok t.
Proof. by constructor; [|left]. Qed.

Lemma packThenSend_conn_ok blk retry g t rb g' t' :
  packThenSend blk retry g t = (rb, g', t') -> conn_ok t -> conn_ok t'.
Proof.
  unfold packThenSend. destruct (Pack blk) as [d b]. unfold conn_write. intros E [Hc Hb].
  assert (forall t1, Conn t1 = Conn t \/ (exists n oe, copy_bytes d (Conn t) = (n, oe, Conn t1)) ->
    tn_closed t1 = tn_closed t -> tn_cancelled t1 = tn_cancelled t -> conn_ok t1) as Hok.
  { intros t1 Hw E1 E2. constructor; rewrite ?E1, ?E2; [done|]. destruct Hb as [?|(bs & oe & Hd & Hcar)]; [by left|].
    right. exists bs, oe. split; [|done]. destruct Hw as [->|(n & oe' & Hw)]; [done|]. by eapply copy_bytes_delivers. }
  destruct (tn_closed t) eqn:Ec.
  - rewrite bool_decide_eq_false_2 in E by (by intros [? _]). destruct retry; simplify_eq/=; [by apply conn_ok_closed|].
    apply Hok; auto.
  - destruct (copy_bytes d (Conn t)) as [[n oe] c] eqn:Ew.
    case_bool_decide; destruct retry; simplify_eq/=; try (by apply conn_ok_closed); apply Hok; cbn; eauto.
Qed.

(** The parser on a good tunnel. *)
Lemma conn_ok_parse t r c :
  conn_ok t -> tn_closed t = false -> NewBlockFromReader (Conn t) = Some (Ok r, c) ->
  ok r /\ conn_ok (set_Conn c t).
Proof.
  intros [Hc Hb] Hcl Hp. destruct Hb as [Hb|(bs & oe & Hd & Hcar)]; [congruence|].
  destruct (good_parse _ _ _ _ _ Hd Hcar Hp) as (Hw & bs' & Hd' & Hcar'). split; [done|].
  constructor; cbn; [done|]. right. by exists bs', oe.
Qed.

Lemma InboundRelay_block_ok now blk g t fwd g' t' :
  ok blk -> conn_ok t -> InboundRelay_block now blk g t = Ret (fwd, g', t') ->
  conn_ok t' /\ from_option (came) True fwd.
Proof.
  intros Hw Ht. unfold InboundRelay_block. destruct (Pack blk) as [d b] eqn:Epk.
  assert (Type_ b = Type_ blk) as Ety by (change (Type_ b) with (Type_ (d, b).2); by rewrite <-Epk; unfold Pack; case_match).
  assert (forall t1, Conn t1 = Conn t -> tn_closed t1 = tn_closed t -> tn_cancelled t1 = tn_cancelled t -> conn_ok t1) as Hs
    by (intros; by eapply conn_ok_same).
  rewrite Ety. case_decide as E1; [destruct (Uint64 _); [|done]|case_decide as E2; [destruct (Uint64 _); [|done]|]].
  - destruct (packThenSend _ false _ _) as [[rb g1] t2] eqn:E. intros [= <- <- <-]. split; [|done].
    eapply packThenSend_conn_ok; [exact E|]. by apply Hs.
  - intros [= <- <- <-]. split; [by apply Hs|done].
  - intros [= <- <- <-]. split; [by apply Hs|]. cbn. exists blk. rewrite Epk. unfold keepalive. tauto.
Qed.

Lemma InboundRelay_read_ok now g t fwd g' t' :
  conn_ok t -> InboundRelay_read now g t = Ret (fwd, g', t') -> conn_ok t' /\ from_option (came) True fwd.
Proof.
  intros Ht. unfold InboundRelay_read. destruct (tn_closed t) eqn:Ec.
  { intros [= <- <- <-]. split; [by apply conn_ok_closed|done]. }
  destruct (NewBlockFromReader (Conn t)) as [[[blk|err] c]|] eqn:E; [| |done].
  - destruct (conn_ok_parse _ _ _ Ht Ec E) as [Hw Hok]. by apply InboundRelay_block_ok.
  - intros [= <- <- <-]. split; [by apply conn_ok_closed|done].
Qed.

Lemma PingPong_tick_ok now g t g' t' : PingPong_tick now g t = (g', t') -> conn_ok t -> conn_ok t'.
Proof.
  unfold PingPong_tick. set (sent := if decide (PingInterval < _) then _ else _). destruct sent as [g1 t1] eqn:Es. subst sent.
  intros Ht Hok. assert (conn_ok t1) as H1'.
  { clear Ht. destruct (decide (PingInterval < idle_seconds (now 0%nat) t)); [|by injection Es as -> ->].
    destruct (packThenSend _ false g t) as [[rb g2] t2] eqn:E. injection Es as -> ->. by eapply packThenSend_conn_ok. }
  case_decide; simplify_eq; [by apply conn_ok_closed|done].
Qed.

(** ** Steps of the receiving pool *)

Definition recv_step_ok (evs : list pool_event) p' : Prop := recv_inv p' /\ Forall (came) (delivered evs).

(** A step that replaces one tunnel and leaves the queue. *)
Lemma recv_update p p' i t o ic w evs :
  recv_inv p -> entries p' = <[i := mkEntry t o ic w]> (entries p) ->
  ch_buf (recvQueue p') = ch_buf (recvQueue p) -> delivered evs = [] ->
  conn_ok t -> match ic with InForward b => came b | _ => True end -> recv_step_ok evs p'.
Proof.
  intros [He Hq] E1 E2 E3 Ht Hc. split; [|rewrite E3; by constructor].
  constructor; rewrite ?E1, ?E2; [|done]. by apply Forall_insert.
Qed.

Lemma recv_same p p' evs :
  recv_inv p -> entries p' = entries p -> ch_buf (recvQueue p') = ch_buf (recvQueue p) -> delivered evs = [] ->
  recv_step_ok evs p'.
Proof. intros [He Hq] E1 E2 E3. split; [|rewrite E3; by constructor]. constructor; by rewrite ?E1, ?E2. Qed.

Lemma recv_entry p i e : recv_inv p -> entries p !! i = Some e -> entry_ok e.
Proof. intros [He _] Hi. by eapply Forall_lookup_1 in He. Qed.

Lemma relay_send_recv i e blk next p evs p' :
  recv_inv p -> entry_ok e -> relay_send i e blk next p = (evs, p') -> recv_step_ok evs p'.
Proof.
  intros Hi [Hc Hh]. unfold relay_send. destruct (packThenSend _ _ _ _) as [[rb g] t] eqn:E.
  apply packThenSend_conn_ok in E; [|done]. destruct rb; intros [= <- <-]; by eapply recv_update.
Qed.

Lemma OutboundRelay_recv i e ch p evs p' :
  recv_inv p -> entry_ok e -> OutboundRelay_step i e ch p = Ret (evs, p') -> recv_step_ok evs p'.
Proof.
  intros Hi He. pose proof He as [Hc Hh].
  unfold OutboundRelay_step, take_retry, take_normal, end_out, goto_out.
  destruct (e_out e), ch; try done; repeat case_match; intros Hs; simplify_eq;
    try (by eapply recv_update); (eapply relay_send_recv; [|exact He|eassumption]);
    destruct Hi; by constructor.
Qed.

Lemma InboundRelay_recv i now e p evs p' :
  recv_inv p -> entry_ok e -> InboundRelay_step i now e p = Ret (evs, p') -> recv_step_ok evs p'.
Proof.
  intros Hi [Hc Hh]. unfold InboundRelay_step. destruct (e_in e); [|done..].
  destruct (tn_cancelled (e_tunnel e)) eqn:Eca.
  - unfold InboundRelay_last. rewrite (ck_cancel _ Hc Eca). intros [= <- <-]. by eapply recv_update.
  - destruct (InboundRelay_read _ _ _) as [[[fwd g] t]| |] eqn:E; [|done..]. cbn [mbind outcome_bind].
    apply InboundRelay_read_ok in E as [Ht Hf]; [|done]. intros [= <- <-].
    eapply recv_update; try done. by destruct fwd.
Qed.

Lemma Close_recv p p' : recv_inv p -> TunnelPool.Close p = Ret p' -> recv_step_ok [] p'.
Proof.
  intros [He Hq] Hc%Close_spec. split; [|by constructor]. constructor.
  - rewrite (cl_entries _ _ Hc). apply Forall_lookup_2. intros j x. rewrite list_lookup_imap.
    destruct (entries p !! j) as [e|] eqn:Ej; [|done]. cbn. intros [= <-].
    pose proof (Forall_lookup_1 _ _ _ _ He Ej) as Hej. case_decide; [|done].
    destruct Hej as [_ Hh]. constructor; [by apply conn_ok_closed|exact Hh].
  - by rewrite (cl_recv _ _ Hc).
Qed.

Lemma recv_step p l evs p' :
  recv_inv p -> Forall conn_ok (joined l) -> pool_step p l = Ret (evs, p') -> recv_step_ok evs p'.
Proof.
  intros Hi Hj. destruct l as [blk| |t|i ch|k|k|i now|i|i|i now|i|]; cbn [pool_step joined] in *;
    try (destruct (entries p !! i) as [e|] eqn:Ei; [|done]; pose proof (recv_entry _ _ _ Hi Ei) as He).
  - destruct (send_call _ _) as [q| |]; [|done..]. intros [= <- <-]. by eapply recv_same.
  - destruct (chan_recv _) as [b q| |] eqn:Eq; [|done..]. intros [= <- <-]. apply chan_recv_buf in Eq.
    destruct Hi as [He Hq]. rewrite Eq in Hq. apply Forall_cons in Hq as [Hb Hq].
    split; [by constructor|]. by apply Forall_cons_2.
  - intros [= <- <-]. destruct Hi as [He Hq]. split; [|by constructor]. constructor; [|exact Hq].
    cbn. apply Forall_app. split; [done|]. apply Forall_cons in Hj as [Ht _].
    apply Forall_cons_2; [by constructor|by constructor].
  - by apply OutboundRelay_recv.
  - destruct (retrying p !! k) as [[i blk]|]; [|done]. destruct (send_call _ _) as [q| |]; [|done..].
    intros [= <- <-]. by eapply recv_same.
  - destruct (retrying p !! k) as [[i blk]|]; [|done]. destruct (entries p !! i); [|done].
    destruct (tn_cancelled _); [|done]. intros [= <- <-]. by eapply recv_same.
  - by apply InboundRelay_recv.
  - destruct He as [Hc Hh]. destruct (e_in e) as [|b|]; [done| |done]. unfold send_call.
    destruct (chan_send _ _) as [q| |] eqn:Eq; [|done..]. intros [= <- <-]. apply chan_send_buf in Eq.
    destruct Hi as [He Hq]. split; [|by constructor]. constructor; cbn; [by apply Forall_insert|].
    rewrite Eq. apply Forall_app. split; [done|]. apply Forall_cons_2; [done|by constructor].
  - destruct He as [Hc Hh]. destruct (e_in e), (tn_cancelled (e_tunnel e)); try done. intros [= <- <-].
    by eapply recv_update.
  - destruct He as [Hc Hh]. case_decide; [|done]. destruct (PingPong_tick _ _ _) as [g t] eqn:E. intros [= <- <-].
    apply PingPong_tick_ok in E; [|done]. by eapply recv_update.
  - destruct He as [Hc Hh]. destruct (_ && _); [|done]. intros [= <- <-].
    destruct (RemoveTunnel_keeps (e_tunnel e) (set_entry i (mkEntry (e_tunnel e) (e_out e) (e_in e) false) p)) as (E1 & _ & _ & E2 & _).
    eapply (recv_update _ _ i (e_tunnel e) (e_out e) (e_in e) false); try done. by rewrite E2.
  - destruct (TunnelPool.Close p) as [q| |] eqn:E; [|done..]. intros [= <- <-]. by eapply Close_recv.
Qed.

Lemma recv_inv_init peer (mgr : M) g : recv_inv (NewTunnelPool peer mgr g).
Proof. constructor; by constructor. Qed.
End Receiver.
