(* ===== verification/Ledger.v ===== *)
(** tunnel_pool/pool.go, tunnel_pool/tunnel.go: the blocks a pool says it has put on
    its tunnels against the bytes on the tunnels' connections. *)

From S2P Require Import Prelude GoIO Block Stats Tunnel TunnelPool Wire.

Local Open Scope Z_scope.

(** * What has been put on a tunnel *)

(** The blocks of the queues put on tunnel [i], in the order they were. *)
Definition sent_at (i : nat) (evs : list pool_event) : list Block :=
  omap (fun ev => match ev with SentOn j b => if decide (j = i) then Some (received b) else None | _ => None end) evs.

Lemma sent_at_app i e1 e2 : sent_at i (e1 ++ e2) = sent_at i e1 ++ sent_at i e2.
Proof. apply omap_app. Qed.

Lemma sent_at_none i evs : (forall b, SentOn i b ∉ evs) -> sent_at i evs = [].
Proof.
  intros Hn. induction evs as [|ev evs IH]; [done|].
  assert (sent_at i evs = []) as E by (apply IH; intros b Hb; by destruct (Hn b); right).
  cbn. destruct ev as [|j b| | |]; try exact E. case_decide as Hj; [|exact E]. subst j. by destruct (Hn b); left.
Qed.

(** All that was sent was sent on some tunnel. *)
Lemma concat_fmap_app {A B} (f g : A -> list B) (l : list A) :
  concat ((fun x => f x ++ g x) <$> l) ≡ₚ concat (f <$> l) ++ concat (g <$> l).
Proof.
  induction l as [|x l IH]; [done|]. cbn. rewrite IH, <-!app_assoc. apply Permutation_app_head.
  rewrite !app_assoc. apply Permutation_app_tail, Permutation_app_comm.
Qed.

Lemma concat_single {B} (b : B) (j k n : nat) :
  (k <= j < k + n)%nat -> concat ((fun i => if decide (j = i) then [b] else []) <$> seq k n) = [b].
Proof.
  revert k. induction n as [|n IH]; intros k Hj; [lia|]. cbn. destruct (decide (j = k)) as [->|Hne].
  - cbn. f_equal. clear IH Hj. assert (forall m, (k < m)%nat -> concat ((fun i => if decide (k = i) then [b] else []) <$> seq m n) = []) as Hz.
    { induction n as [|n IH]; intros m Hm; [done|]. cbn. rewrite decide_False by lia. apply IH. lia. }
    apply Hz. lia.
  - cbn. apply IH. lia.
Qed.

Lemma sent_on_split n evs :
  (forall i b, SentOn i b ∈ evs -> (i < n)%nat) -> sent_on evs ≡ₚ concat ((fun i => sent_at i evs) <$> seq 0 n).
Proof.
  induction evs as [|ev evs IH]; intros Hn.
  - assert (forall k, concat ((fun i => sent_at i []) <$> seq k n) = []) as ->; [|done]. clear Hn.
    induction n as [|n IH]; intros k; [done|]. apply IH.
  - assert (forall i b, SentOn i b ∈ evs -> (i < n)%nat) as Hn' by (intros i b Hb; apply (Hn i b); by right).
    specialize (IH Hn'). destruct ev as [|j b| | |]; try exact IH. cbn. rewrite IH.
    trans ([received b] ++ concat ((fun i => sent_at i evs) <$> seq 0 n)); [done|].
    rewrite <-(concat_single (received b) j 0 n) at 1 by (specialize (Hn j b); split; [lia|]; apply Hn; by left).
    rewrite <-concat_fmap_app. match goal with |- ?a ≡ₚ ?b => assert (a = b) as -> by (f_equal; apply list_fmap_ext; intros _ i _; by case_decide) end. done.
Qed.

(** The bytes are the blocks [bs], each whole, once and in this order, with
    keep-alives between them, which may be broken off. *)
Inductive put_on : list Block -> list byte -> Prop :=
  | put_nothing : put_on [] []
  | put_block bs bytes b : put_on bs bytes -> put_on (bs ++ [b]) (bytes ++ encode b)
  | put_keepalive bs bytes k n : put_on bs bytes -> keepalive k -> put_on bs (bytes ++ take n (encode k)).

Lemma put_on_one b : put_on [b] (encode b).
Proof. exact (put_block [] [] b put_nothing). Qed.

Lemma put_on_keepalive k n : keepalive k -> put_on [] (take n (encode k)).
Proof. exact (put_keepalive [] [] k n put_nothing). Qed.

Lemma put_on_app bs1 l1 bs2 l2 : put_on bs1 l1 -> put_on bs2 l2 -> put_on (bs1 ++ bs2) (l1 ++ l2).
Proof.
  intros H1. induction 1 as [|bs bytes b _ IH|bs bytes k n _ IH Hk]; [by rewrite !app_nil_r|..]; rewrite !app_assoc;
    by constructor.
Qed.

Section Entries.
Context {C : Type} `{LawfulReader C} `{!Writer C, !LawfulWriter C}.
Implicit Types (t : Tunnel C) (g : global_stats) (bs : list Block).

(** From [t] to [t'] the tunnel has put [bs] on its connection; what is behind them is
    the beginning of a block with which it failed and was closed.  A closed tunnel puts
    nothing on its connection, and a cancelled one stays so. *)
Record ledger_step bs t t' : Prop := {
  ls_bytes : exists body tail, emitted (Conn t') = emitted (Conn t) ++ body ++ tail /\ put_on bs body /\
    (tail = [] \/ tn_closed t' = true /\ exists b, tail `prefix_of` encode b);
  ls_closed : tn_closed t = true -> tn_closed t' = true /\ emitted (Conn t') = emitted (Conn t) /\ bs = [];
  ls_cancelled : tn_cancelled t = true -> tn_cancelled t' = true;
}.

Lemma ledger_quiet t t' :
  emitted (Conn t') = emitted (Conn t) -> (tn_closed t = true -> tn_closed t' = true) ->
  (tn_cancelled t = true -> tn_cancelled t' = true) -> ledger_step [] t t'.
Proof.
  intros E Hc Hx. constructor; [|auto|done]. exists [], []. rewrite E, app_nil_r. split; [done|].
  split; [constructor|by left].
Qed.

Lemma ledger_refl t : ledger_step [] t t.
Proof. by apply ledger_quiet. Qed.

Lemma ledger_trans bs1 bs2 t1 t2 t3 :
  ledger_step bs1 t1 t2 -> ledger_step bs2 t2 t3 -> ledger_step (bs1 ++ bs2) t1 t3.
Proof.
  intros [(B1 & T1 & E1 & P1 & Q1) C1 X1] [(B2 & T2 & E2 & P2 & Q2) C2 X2]. constructor; [| |auto].
  - destruct Q1 as [->|[Hc Q1]].
    + exists (B1 ++ B2), T2. rewrite E2, E1, app_nil_r, <-!app_assoc. split; [done|]. split; [by apply put_on_app|done].
    + destruct (C2 Hc) as (Hc' & E' & ->). exists B1, T1. rewrite E', E1, app_nil_r. split; [done|]. split; [done|]. by right.
  - intros Hc. destruct (C1 Hc) as (Hc2 & E1' & ->). destruct (C2 Hc2) as (Hc3 & E2' & ->). split; [done|]. split; [congruence|done].
Qed.

(** [packThenSend] on a block of the queues: it has been sent, or is to be retried. *)
Lemma packThenSend_ledger blk g t rb g' t' :
  packed_ok blk -> packThenSend blk true g t = (rb, g', t') ->
  ledger_step (match rb with None => [received blk] | Some _ => [] end) t t'.
Proof.
  intros Hp E. destruct (packThenSend_same _ _ _ _ _ _ _ E) as [_ Hc].
  destruct (packThenSend_spec _ _ _ _ _ _ _ Hp E) as [(-> & Ho & He & _ & _ & Hs)|(n & _ & He & _ & _ & -> & Hcl & Hx)].
  - constructor; [|congruence|by rewrite (st_cancelled _ _ Hs)]. exists (encode blk), []. rewrite He, app_nil_r. split; [done|].
    split; [exact (put_on_one (received blk))|by left].
  - constructor; [|by intros [? ?]%Hc|done]. exists [], (take n (encode blk)). split; [exact He|]. split; [constructor|]. right.
    split; [done|]. exists blk, (drop n (encode blk)). by rewrite take_drop.
Qed.

(** On a keep-alive. *)
Lemma keepalive_ledger k g t rb g' t' :
  packed_ok k -> keepalive k -> packThenSend k false g t = (rb, g', t') -> ledger_step [] t t'.
Proof.
  intros Hp Hk E. destruct (packThenSend_same _ _ _ _ _ _ _ E) as [_ Hc].
  destruct (packThenSend_spec _ _ _ _ _ _ _ Hp E) as [(-> & Ho & He & _ & _ & Hs)|(n & _ & He & _ & _ & -> & Hs)];
    (constructor; [|intros Hcl; by destruct (Hc Hcl)|by rewrite (st_cancelled _ _ Hs)]).
  - exists (take (length (encode k)) (encode k)), []. split; [by rewrite He, firstn_all, app_nil_r|]. split; [|by left].
    by apply put_on_keepalive.
  - exists (take n (encode k)), []. rewrite He, app_nil_r. split; [done|]. split; [|by left].
    by apply put_on_keepalive.
Qed.
End Entries.

Section Reads.
Context {C : Type} `{Duplex C}.
Implicit Types (t : Tunnel C) (g : global_stats).

Lemma InboundRelay_block_ledger now blk g t fwd g' t' :
  InboundRelay_block now blk g t = Ret (fwd, g', t') -> ledger_step [] t t'.
Proof.
  unfold InboundRelay_block. destruct (Pack blk) as [d b].
  case_decide; [destruct (Uint64 _) as [v|]; [|done]|case_decide; [destruct (Uint64 _) as [v|]; [|done]|]].
  - set (t1 := SetLatencyNano _ _). destruct (packThenSend _ false _ t1) as [[rb g1] t2] eqn:E. intros [= _ _ <-].
    apply (ledger_trans [] [] t t1); [by apply ledger_quiet|]. eapply keepalive_ledger; [..|exact E]; [by left|by right].
  - intros [= _ _ <-]. by apply ledger_quiet.
  - intros [= _ _ <-]. by apply ledger_quiet.
Qed.

Lemma InboundRelay_read_ledger now g t fwd g' t' :
  InboundRelay_read now g t = Ret (fwd, g', t') -> ledger_step [] t t'.
Proof.
  unfold InboundRelay_read. destruct (tn_closed t) eqn:Ec; [intros [= _ _ <-]; by apply ledger_quiet|].
  destruct (NewBlockFromReader (Conn t)) as [[[blk|err] c]|] eqn:E; [| |done]; apply NewBlockFromReader_emitted in E.
  - intros Hb. apply (ledger_trans [] [] t (set_Conn c t)); [by apply ledger_quiet|]. by eapply InboundRelay_block_ledger.
  - intros [= _ _ <-]. by apply ledger_quiet.
Qed.

Lemma PingPong_tick_ledger `{V : TunnelVars} now g t g' t' : PingPong_tick now g t = (g', t') -> ledger_step [] t t'.
Proof.
  unfold PingPong_tick. set (sent := if decide (PingInterval < _) then _ else _). destruct sent as [g1 t1] eqn:Es. subst sent.
  intros Ht. apply (ledger_trans [] [] t t1).
  - destruct (decide (PingInterval < _)); [|injection Es as _ <-; apply ledger_refl].
    destruct (packThenSend _ false g t) as [[rb g2] t2] eqn:E. injection Es as _ <-.
    eapply keepalive_ledger; [..|exact E]; by left.
  - case_decide; injection Ht as _ <-; by apply ledger_quiet.
Qed.
End Reads.

(** * A step of the pool *)

Section Pool.
Context `{V : TunnelVars} {M C : Type} `{Manager M} `{Duplex C}.
Implicit Types (p : TunnelPool M C) (e : entry C) (t : Tunnel C).

(** Every tunnel goes on with what the events say was put on it. *)
Definition advances (evs : list pool_event) (ts ts' : list (Tunnel C)) : Prop :=
  length ts' = length ts /\
  (forall i t, ts !! i = Some t -> exists t', ts' !! i = Some t' /\ ledger_step (sent_at i evs) t t') /\
  forall i b, SentOn i b ∈ evs -> (i < length ts)%nat.

Lemma advances_quiet evs (ts : list (Tunnel C)) : (forall i b, SentOn i b ∉ evs) -> advances evs ts ts.
Proof.
  intros Hn. split; [done|]. split; [|by intros i b Hb%Hn]. intros i t Hi. exists t. split; [done|].
  rewrite sent_at_none; [apply ledger_refl|]. by intros b Hb%Hn.
Qed.

(** One tunnel moves. *)
Lemma advances_update evs (es es' : list (entry C)) i e e' :
  es !! i = Some e -> es' = <[i := e']> es -> Forall (fun ev => forall j b, ev = SentOn j b -> j = i) evs ->
  ledger_step (sent_at i evs) (e_tunnel e) (e_tunnel e') -> advances evs (e_tunnel <$> es) (e_tunnel <$> es').
Proof.
  intros Hi -> Hev Hl. split; [by rewrite !length_fmap, length_insert|]. split.
  - intros j t Hj. rewrite list_fmap_insert. rewrite list_lookup_fmap in Hj.
    destruct (decide (i = j)) as [<-|Hne].
    + rewrite Hi in Hj. injection Hj as <-. exists (e_tunnel e'). split; [|done]. apply list_lookup_insert_eq.
      rewrite length_fmap. by eapply lookup_lt_Some.
    + exists t. rewrite list_lookup_insert_ne by done. split; [by rewrite list_lookup_fmap|].
      rewrite sent_at_none; [apply ledger_refl|]. intros b Hb. rewrite Forall_forall in Hev. by rewrite (Hev _ Hb j b eq_refl) in Hne.
  - intros j b Hb. rewrite Forall_forall in Hev. rewrite (Hev _ Hb j b eq_refl), length_fmap. by eapply lookup_lt_Some.
Qed.

Lemma relay_send_advances i e blk next p evs p' :
  entries p !! i = Some e -> packed_ok blk -> relay_send i e blk next p = (evs, p') -> advances evs (tunnels p) (tunnels p').
Proof.
  intros Hi Hp. unfold relay_send. destruct (packThenSend _ _ _ _) as [[rb g] t] eqn:E.
  apply packThenSend_ledger in E; [|done]. destruct rb as [rb|]; intros [= <- <-];
    (eapply advances_update; [exact Hi|done| |]).
  - by constructor.
  - exact E.
  - apply Forall_singleton. by intros j b [= <- _].
  - cbn. rewrite decide_True by done. exact E.
Qed.

Lemma advances_goto i e pc p : entries p !! i = Some e -> advances [] (tunnels p) (tunnels (goto_out i e pc p)).
Proof. intros Hi. eapply advances_update; [exact Hi|done|by constructor|apply ledger_refl]. Qed.

Lemma OutboundRelay_advances i e ch p evs p' :
  Forall packed_ok (queued p) -> entries p !! i = Some e -> OutboundRelay_step i e ch p = Ret (evs, p') ->
  advances evs (tunnels p) (tunnels p').
Proof.
  intros Hq Hi. rewrite Forall_forall in Hq. pose proof (fun pc => advances_goto i e pc p Hi) as Hgo.
  unfold OutboundRelay_step, take_retry, take_normal, end_out. fold (goto_out i e OutEnded p).
  destruct (e_out e), ch; try done; try (repeat case_match; intros; simplify_eq; by apply Hgo);
    match goal with |- context [chan_recv ?q] => destruct (chan_recv q) as [blk q1| |] eqn:Eq end;
    try done; try (intros [= <- <-]; by apply Hgo); intros [= Hs].
  - eapply (relay_send_advances i e blk _ (set_retryQueue q1 p)); [exact Hi|apply Hq; eapply queued_in; eauto|exact Hs].
  - eapply (relay_send_advances i e blk _ (set_retryQueue q1 p)); [exact Hi|apply Hq; eapply queued_in; eauto|exact Hs].
  - eapply (relay_send_advances i e blk _ (set_sendQueue q1 p)); [exact Hi|apply Hq; eapply queued_in; eauto|exact Hs].
Qed.

(** A step of another goroutine of the tunnel. *)
Lemma advances_in i e t o ic w evs p p' :
  entries p !! i = Some e -> entries p' = <[i := mkEntry t o ic w]> (entries p) -> (forall j b, SentOn j b ∉ evs) ->
  ledger_step [] (e_tunnel e) t -> advances evs (tunnels p) (tunnels p').
Proof.
  intros Hi E Hn Hl. assert (Forall (fun ev => forall j b, ev = SentOn j b -> j = i) evs) as Hev
    by (apply Forall_forall; intros ev Hin j b ->; by destruct (Hn j b)).
  eapply advances_update; [exact Hi|exact E|exact Hev|]. by rewrite sent_at_none.
Qed.

Ltac no_sends := let Hin := fresh in intros ? ? Hin; rewrite ?list_elem_of_singleton in Hin; by (apply elem_of_nil in Hin || discriminate Hin).

Lemma InboundRelay_advances i now e p evs p' :
  entries p !! i = Some e -> InboundRelay_step i now e p = Ret (evs, p') -> advances evs (tunnels p) (tunnels p').
Proof.
  intros Hi. unfold InboundRelay_step, InboundRelay_last. destruct (e_in e); [|done..].
  destruct (tn_cancelled (e_tunnel e)).
  - destruct (tn_closed (e_tunnel e)); [intros [= <- <-]; eapply advances_in; [exact Hi|done|no_sends|apply ledger_refl]|].
    destruct (NewBlockFromReader _) as [[[b|err] c]|] eqn:E; [| |done]; apply NewBlockFromReader_emitted in E.
    + destruct (Pack b) as [d b']. destruct (chan_send b' _); [| |done]; intros [= <- <-];
        (eapply advances_in; [exact Hi|done|no_sends|by apply ledger_quiet]).
    + intros [= <- <-]. eapply advances_in; [exact Hi|done|no_sends|by apply ledger_quiet].
  - destruct (InboundRelay_read _ _ _) as [[[fwd g] t]| |] eqn:E; [|done..]. cbn [mbind outcome_bind]. intros [= <- <-].
    eapply advances_in; [exact Hi|done|no_sends|by eapply InboundRelay_read_ledger].
Qed.

Lemma Close_advances p p' : TunnelPool.Close p = Ret p' -> advances [] (tunnels p) (tunnels p').
Proof.
  intros Hc%Close_spec. unfold tunnels. rewrite (cl_entries _ _ Hc).
  split; [by rewrite !length_fmap, length_imap|]. split; [|by intros ? ? ?%elem_of_nil]. intros i t.
  rewrite !list_lookup_fmap, list_lookup_imap. destruct (entries p !! i) as [e|]; [|done]. cbn.
  intros [= <-]. eexists. split; [done|]. case_decide; [by apply ledger_quiet|apply ledger_refl].
Qed.

Lemma step_advances p l evs p' :
  Forall packed_ok (queued p) -> pool_step p l = Ret (evs, p') -> advances evs (tunnels p ++ joined l) (tunnels p').
Proof.
  intros Hq. destruct l as [blk| |t|i ch|k|k|i now|i|i|i now|i|]; cbn [pool_step joined]; rewrite ?app_nil_r.
  - destruct (send_call _ _) as [q| |]; [|done..]. intros [= <- <-]. apply advances_quiet. no_sends.
  - destruct (chan_recv _); [|done..]. intros [= <- <-]. apply advances_quiet. no_sends.
  - intros [= <- <-]. unfold tunnels, AddTunnel. cbn. rewrite fmap_app. apply advances_quiet. no_sends.
  - destruct (entries p !! i) as [e|] eqn:Ei; [|done]. by apply OutboundRelay_advances.
  - destruct (retrying p !! k) as [[i blk]|]; [|done]. destruct (send_call _ _) as [q| |]; [|done..].
    intros [= <- <-]. apply advances_quiet. no_sends.
  - destruct (retrying p !! k) as [[i blk]|]; [|done]. destruct (entries p !! i); [|done].
    destruct (tn_cancelled _); [|done]. intros [= <- <-]. apply advances_quiet. no_sends.
  - destruct (entries p !! i) as [e|] eqn:Ei; [|done]. by apply InboundRelay_advances.
  - destruct (entries p !! i) as [e|] eqn:Ei; [|done]. destruct (e_in e); [done| |done].
    destruct (send_call _ _) as [q| |]; [|done..]. intros [= <- <-].
    eapply advances_in; [exact Ei|done|no_sends|apply ledger_refl].
  - destruct (entries p !! i) as [e|] eqn:Ei; [|done]. destruct (e_in e), (tn_cancelled (e_tunnel e)); try done.
    intros [= <- <-]. eapply advances_in; [exact Ei|done|no_sends|apply ledger_refl].
  - destruct (entries p !! i) as [e|] eqn:Ei; [|done]. case_decide; [|done].
    destruct (PingPong_tick _ _ _) as [g t] eqn:E. intros [= <- <-].
    eapply advances_in; [exact Ei|done|no_sends|by eapply PingPong_tick_ledger].
  - destruct (entries p !! i) as [e|] eqn:Ei; [|done]. destruct (_ && _); [|done]. intros [= <- <-].
    eapply (advances_in i e); [exact Ei|by rewrite (proj1 (RemoveTunnel_keeps _ _))|no_sends|apply ledger_refl].
  - destruct (TunnelPool.Close p) as [q| |] eqn:E; [|done..]. intros [= <- <-]. by apply Close_advances.
Qed.

(** A block is given up only where some tunnel has been cancelled. *)
Lemma step_dropped p l evs p' :
  pool_step p l = Ret (evs, p') -> dropped evs <> [] -> Exists (fun t => tn_cancelled t = true) (tunnels p).
Proof.
  assert (forall i e blk next q, relay_send i e blk next q = (evs, p') -> dropped evs = []) as Hsend.
  { intros i e blk next q. unfold relay_send. destruct (packThenSend _ _ _ _) as [[[b|] g] t]; by intros [= <- _]. }
  destruct l as [blk| |t|i ch|k|k|i now|i|i|i now|i|]; cbn [pool_step].
  - destruct (send_call _ _); [|done..]. by intros [= <- _].
  - destruct (chan_recv _); [|done..]. by intros [= <- _].
  - by intros [= <- _].
  - destruct (entries p !! i) as [e|]; [|done]. unfold OutboundRelay_step, take_retry, take_normal.
    destruct (e_out e), ch; try done; repeat case_match; try done; first [by intros [= <- _]|by intros [= ->%Hsend]].
  - destruct (retrying p !! k) as [[i blk]|]; [|done]. destruct (send_call _ _); [|done..]. by intros [= <- _].
  - destruct (retrying p !! k) as [[i blk]|]; [|done]. destruct (entries p !! i) as [e|] eqn:Ei; [|done].
    destruct (tn_cancelled (e_tunnel e)) eqn:Ec; [|done]. intros _ _. apply Exists_exists. exists (e_tunnel e).
    split; [|done]. apply list_elem_of_fmap_2. by eapply list_elem_of_lookup_2.
  - destruct (entries p !! i) as [e|]; [|done]. unfold InboundRelay_step, InboundRelay_last.
    destruct (e_in e); try done. destruct (tn_cancelled _).
    + repeat case_match; try done; by intros [= <- _].
    + destruct (InboundRelay_read _ _ _) as [[[fwd g] t]| |]; [|done..]. by intros [= <- _].
  - destruct (entries p !! i) as [e|]; [|done]. destruct (e_in e); try done. destruct (send_call _ _); [|done..]. by intros [= <- _].
  - destruct (entries p !! i) as [e|]; [|done]. destruct (e_in e); try done. destruct (tn_cancelled _); [|done]. by intros [= <- _].
  - destruct (entries p !! i) as [e|]; [|done]. case_decide; [|done]. destruct (PingPong_tick _ _ _). by intros [= <- _].
  - destruct (entries p !! i) as [e|]; [|done]. destruct (_ && _); [|done]. by intros [= <- _].
  - destruct (TunnelPool.Close p); [|done..]. by intros [= <- _].
Qed.

(** * The ledger of a run *)

(** Of a pool to which the tunnels [ts] have been added and of which [evs] is told. *)
Record ledger (ts : list (Tunnel C)) (evs : list pool_event) p : Prop := {
  lg_queued : Forall packed_ok (queued p);
  lg_advances : advances evs ts (tunnels p);
  lg_dropped : dropped evs <> [] -> Exists (fun t => tn_cancelled t = true) (tunnels p);
}.

(** The environment gives blocks whose cached layout, if there is one, is theirs. *)
Definition gives_packed (l : pool_label C) : Prop := match l with PSend blk => packed_ok blk | _ => True end.

Lemma ledger_init peer (mgr : M) g : ledger [] [] (NewTunnelPool peer mgr g).
Proof. constructor; [by constructor|apply advances_quiet; by intros ? ? ?%elem_of_nil|done]. Qed.

Lemma queued_step p l evs p' :
  Forall packed_ok (queued p) -> gives_packed l -> pool_step p l = Ret (evs, p') -> Forall packed_ok (queued p').
Proof.
  rewrite !Forall_forall. intros Hq Hl Hs b Hb. destruct (step_queued _ _ _ _ _ Hs Hb) as (b0 & Hb0 & Hb').
  assert (packed_ok b0) as Hp by (destruct Hb0 as [?| ->]; [auto|exact Hl]). destruct Hb' as [->| ->]; [done|by apply Pack_packed_ok].
Qed.

Lemma advances_cancelled evs (ts ts' : list (Tunnel C)) :
  advances evs ts ts' -> Exists (fun t => tn_cancelled t = true) ts -> Exists (fun t => tn_cancelled t = true) ts'.
Proof.
  intros (_ & Ha & _). rewrite !Exists_exists. intros (t & [i Hi]%list_elem_of_lookup & Hc).
  destruct (Ha i t Hi) as (t' & Hi' & [_ _ Hx]). exists t'. split; [by eapply list_elem_of_lookup_2|auto].
Qed.

Lemma advances_trans (evs1 evs2 : list pool_event) (ts1 ts2 ts3 more : list (Tunnel C)) :
  advances evs1 ts1 ts2 -> advances evs2 (ts2 ++ more) ts3 -> advances (evs1 ++ evs2) (ts1 ++ more) ts3.
Proof.
  intros (L1 & A1 & N1) (L2 & A2 & N2). rewrite length_app in *. split; [rewrite L2, length_app; lia|]. split.
  - intros i t Hi. rewrite sent_at_app. apply lookup_app_Some in Hi as [Hi|[Hge Hi]].
    + destruct (A1 i t Hi) as (t2 & Hi2 & S1). destruct (A2 i t2) as (t3 & Hi3 & S2); [by apply lookup_app_l_Some|].
      exists t3. split; [done|]. by eapply ledger_trans.
    + rewrite sent_at_none; [|intros b Hb; specialize (N1 i b Hb); lia]. apply A2. rewrite lookup_app_r by lia. by rewrite L1.
  - intros i b [Hb|Hb]%elem_of_app; [specialize (N1 i b Hb)|specialize (N2 i b Hb)]; rewrite ?length_app in *; lia.
Qed.

Lemma ledger_next ts hist p l evs p' :
  ledger ts hist p -> gives_packed l -> pool_step p l = Ret (evs, p') -> ledger (ts ++ joined l) (hist ++ evs) p'.
Proof.
  intros [Q A D] Hl Hs. pose proof (step_advances _ _ _ _ Q Hs) as Ha.
  constructor; [by eapply queued_step|by eapply advances_trans|]. rewrite dropped_app. intros Hd.
  eapply advances_cancelled; [exact Ha|]. apply Exists_app. left.
  destruct (decide (dropped hist = [])) as [E|E]; [|by apply D]. rewrite E in Hd. by eapply step_dropped.
Qed.

(** The tunnels added in a run. *)
Definition added (tr : list (pool_label C)) : list (Tunnel C) := concat (joined <$> tr).

Lemma ledger_run peer (mgr : M) g tr evs p :
  Forall gives_packed tr -> run pool_hstep ([], NewTunnelPool peer mgr g) tr = Some (evs, p) -> ledger (added tr) evs p.
Proof.
  intros Hl Hrun. revert Hl. change (Forall gives_packed tr -> ledger (added tr) (evs, p).1 (evs, p).2).
  apply (run_invariant pool_hstep (fun tr s => Forall gives_packed tr -> ledger (added tr) s.1 s.2)) with (3 := Hrun).
  - intros _. apply ledger_init.
  - intros tr1 [evs1 p1] l [evs2 p2] IH. unfold pool_hstep. cbn [fst snd] in *.
    destruct (pool_step p1 l) as [[ev q]| |] eqn:E; [|done..]. intros [= <- <-] [Ht [Hl _]%Forall_cons]%Forall_app.
    unfold added. rewrite fmap_app, concat_app. cbn. rewrite app_nil_r. eapply ledger_next; [by apply IH|exact Hl|exact E].
Qed.

(** Of a tunnel that was added as [t0]: the blocks [bs] have been put on its connection
    since, each whole, once and in this order, and nothing else of the queues but, if it
    has been closed, the beginning of one block. *)
Definition carries_sent (bs : list Block) (t0 : Tunnel C) p (i : nat) : Prop :=
  exists t body tail, tunnels p !! i = Some t /\ emitted (Conn t) = emitted (Conn t0) ++ body ++ tail /\ put_on bs body /\
    (tail = [] \/ tn_closed t = true /\ exists b, tail `prefix_of` encode b).

Lemma ledger_carries ts evs p i t0 :
  ledger ts evs p -> ts !! i = Some t0 -> carries_sent (sent_at i evs) t0 p i.
Proof.
  intros [_ (_ & A & _) _] Hi. destruct (A i t0 Hi) as (t & Ht & [(body & tail & E & Hp & Hq) _ _]). by exists t, body, tail.
Qed.

Lemma ledger_sent ts evs p : ledger ts evs p -> sent_on evs ≡ₚ concat ((fun i => sent_at i evs) <$> seq 0 (length ts)).
Proof. intros [_ (_ & _ & N) _]. by apply sent_on_split. Qed.
End Pool.

(** * Properties *)

(** C6: no block is lost or doubled by the tunnels' failures and retries. In any run of
    the pool, whatever tunnels come, fail and go, the blocks accepted from the
    connections are, each exactly once, still held by the pool (in one of its queues or
    by a retrying goroutine), sent on one tunnel, or given up by a retrying goroutine,
    which happens only when a tunnel has been cancelled. What has been sent on a tunnel
    is on its connection: of the bytes since the tunnel was added each of these blocks
    is a part of its own, whole and in the order of sending, there is nothing between
    them but keep-alives, and nothing behind them but the beginning of a block that
    failed and closed the tunnel. *)
Theorem pool_conserves_blocks {M C} `{V : TunnelVars, Manager M, Duplex C} (peer : Z) (mgr : M)
    (g : global_stats) (tr : list (pool_label C)) (evs : list pool_event)
    (p : TunnelPool M C) :
  Forall gives_packed tr -> run pool_hstep ([], NewTunnelPool peer mgr g) tr = Some (evs, p) ->
  accepted evs ≡ₚ held p ++ sent_on evs ++ dropped evs /\
  (dropped evs <> [] -> Exists (fun t => tn_cancelled t = true) (tunnels p)) /\
  sent_on evs ≡ₚ concat ((fun i => sent_at i evs) <$> seq 0 (length (added tr))) /\
  (forall i t0, added tr !! i = Some t0 -> carries_sent (sent_at i evs) t0 p i).
Proof.
  intros Hl Hrun. pose proof (ledger_run _ _ _ _ _ _ Hl Hrun) as Hled. pose proof Hrun as Hc. apply pool_run_conserves in Hc; [|done].
  split; [exact Hc|]. split; [exact (lg_dropped _ _ _ Hled)|]. split; [by eapply ledger_sent|].
  intros i t0. by apply ledger_carries.
Qed.

#[local] Existing Instance const_go.

#[local] Existing Instance TunnelPool.unit_manager.

(** Two blocks, the first of which breaks its tunnel and goes out on another. *)
Definition retry_run : list (pool_label (duplex stream sink)) :=
  [PSend block_a; PSend block_b; PAddTunnel (example_tunnel (Some 5%nat)); PAddTunnel (example_tunnel None);
   POut 0 ChooseDefault; POut 0 ChooseDefault; POut 0 ChooseNormal; PRetryPut 0; PRemove 0;
   POut 1 ChooseDefault; POut 1 ChooseRetry; POut 1 ChooseNormal].

Lemma pool_conserves_blocks_witness :
  exists evs (p : TunnelPool unit (duplex stream sink)), sent_on evs = [received block_a; received block_b] /\
  accepted evs ≡ₚ held p ++ sent_on evs ++ dropped evs /\ sent_at 0 evs = [] /\
  carries_sent [] (example_tunnel (Some 5%nat)) p 0 /\
  carries_sent [received block_a; received block_b] (example_tunnel None) p 1.
Proof.
  destruct (run_succeeds (match run pool_hstep ([], example_pool) retry_run with
    | Some (evs, p) =>
        if decide (sent_on evs = [received block_a; received block_b] /\ sent_at 0 evs = [] /\
          sent_at 1 evs = [received block_a; received block_b]) then Some (evs, p) else None
    | None => None end)) as [[evs p] E']; [vm_compute; reflexivity|].
  destruct (run pool_hstep ([], example_pool) retry_run) as [[evs0 p0]|] eqn:E; [|done].
  case_decide as Hs; [|done]. injection E' as <- <-. destruct Hs as (S1 & S2 & S3). exists evs0, p0.
  destruct (pool_conserves_blocks 77 tt (InitStats 10) retry_run evs0 p0) as (P1 & _ & _ & P4).
  - repeat first [apply Forall_nil_2|apply Forall_cons_2; [exact I || (right; reflexivity)|]].
  - exact E.
  - split; [exact S1|]. split; [exact P1|]. split; [exact S2|]. split.
    + rewrite <-S2. by apply P4.
    + rewrite <-S3. by apply P4.
Defined.
