(* ===== verification/PoolCopy.v ===== *)
(** peer/client.go, peer/peer_group.go: a peer keeps copies of its pools.  The maps of
    a copy are those of the original; its mutex is not.  What the pools' methods do
    to a map under the mutex, and when the runtime stops the process over it. *)

From S2P Require Import Prelude GoIO.

(** The pool that [NewConnectionPool] or [NewTunnelPool] made, on which its goroutines
    run, and the one in the [Peer]. *)
Inductive pool_value : Type := Original | Copied.

#[export] Instance pool_value_eq_dec : EqDecision pool_value.
Proof. solve_decision. Defined.

Inductive access : Type := MapRead | MapWrite.

#[export] Instance access_eq_dec : EqDecision access.
Proof. solve_decision. Defined.

(** A call of a method: the pool it is called on, whether it takes the mutex for
    itself ([Lock]) or with other readers ([RLock]), and what it does to the map
    while it has it. Of [len] on a map the runtime keeps no watch. *)
Record call : Type := mkCall { cl_on : pool_value; cl_lock : bool; cl_does : list access }.

Definition addConnection_call (o : pool_value) : call := mkCall o true [MapWrite].
Definition removeConnection_call (o : pool_value) : call := mkCall o true [MapRead; MapWrite].
Definition recvRelay_lookup (o : pool_value) : call := mkCall o false [MapRead].
Definition GetConnectionsInfo_call (o : pool_value) : call := mkCall o false [MapRead].
Definition AddTunnel_call (o : pool_value) : call := mkCall o true [MapWrite].
Definition RemoveTunnel_call (o : pool_value) : call := mkCall o true [MapRead; MapWrite].
Definition GetTunnelConnsInfo_call (o : pool_value) : call := mkCall o true [MapRead].
Definition Close_call (o : pool_value) : call := mkCall o true [MapRead].

(** The connection pool of a client: [Dial], and the goroutine that removes its
    connection, are called on the copy, the status page reads it; the relay runs on
    the original. *)
Definition client_connection_calls : list call :=
  [addConnection_call Copied; removeConnection_call Copied; GetConnectionsInfo_call Copied; recvRelay_lookup Original].

(** That of a server: its connections are made by the relay. *)
Definition server_connection_calls : list call :=
  [recvRelay_lookup Original; addConnection_call Original; removeConnection_call Original; GetConnectionsInfo_call Copied].

(** The tunnel pool of a client is filled by its manager, which has the original, as has
    the connection pool, through which the status page reads it; the peer stops the copy. *)
Definition client_tunnel_calls : list call :=
  [AddTunnel_call Original; RemoveTunnel_call Original; GetTunnelConnsInfo_call Original; Close_call Copied].

(** That of a server is only ever called through the peer: the group adds the tunnels that
    come in, each of which is removed where it was added, and the status page reads the
    peer's. *)
Definition server_tunnel_calls : list call :=
  [AddTunnel_call Copied; RemoveTunnel_call Copied; GetTunnelConnsInfo_call Copied; Close_call Copied].

(** All of them, on one pool. *)
Definition calls_on (o : pool_value) : list call :=
  [addConnection_call o; removeConnection_call o; recvRelay_lookup o; GetConnectionsInfo_call o;
   AddTunnel_call o; RemoveTunnel_call o; GetTunnelConnsInfo_call o; Close_call o].

(** * Interleavings

    Where a call is: before its lock; with the lock and these accesses to go; inside a
    write; returned. *)
Inductive call_at : Type :=
  | BeforeLock
  | Holding (rest : list access)
  | Writing (rest : list access)
  | Returned.

Definition holds (pc : call_at) : bool := match pc with Holding _ | Writing _ => true | _ => false end.
Definition is_writing (pc : call_at) : bool := match pc with Writing _ => true | _ => false end.

(** Mutual exclusion on one mutex: a call that holds it keeps out those that lock, and
    one that has locked keeps out all. *)
Definition guards (c c' : call) : bool := bool_decide (cl_on c' = cl_on c) && (cl_lock c || cl_lock c').
Definition keeps_out (c c' : call) (pc' : call_at) : bool := holds pc' && guards c c'.

Lemma guards_sym c c' : guards c c' = guards c' c.
Proof.
  unfold guards. rewrite orb_comm. f_equal. by apply bool_decide_ext.
Qed.

(** The first writes, the second accesses the map as well, and no mutex keeps them apart. *)
Definition races (c c' : call) : bool :=
  bool_decide (MapWrite ∈ cl_does c) && bool_decide (cl_does c' <> []) && negb (guards c c').

Section Calls.
Context (calls : list call).

Definition can_lock (c : call) (pcs : list call_at) : bool :=
  forallb (fun '(c', pc') => negb (keeps_out c c' pc')) (zip calls pcs).

(** The map's own mark that a write is going on. *)
Definition map_writing (pcs : list call_at) : bool := existsb is_writing pcs.

(** A step of call [i].  [Panic]: "fatal error: concurrent map read and map write". *)
Definition call_step (pcs : list call_at) (i : nat) : outcome (list call_at) :=
  match calls !! i, pcs !! i with
  | Some c, Some BeforeLock => if can_lock c pcs then Ret (<[i := Holding (cl_does c)]> pcs) else Blocks
  | Some c, Some (Holding []) => Ret (<[i := Returned]> pcs)
  | Some c, Some (Holding (a :: rest)) =>
      if map_writing pcs then Panic
      else Ret (<[i := match a with MapRead => Holding rest | MapWrite => Writing rest end]> pcs)
  | Some c, Some (Writing rest) => Ret (<[i := Holding rest]> pcs)
  | _, _ => Blocks
  end.

Definition call_run_step (pcs : list call_at) (i : nat) : option (list call_at) :=
  match call_step pcs i with Ret pcs => Some pcs | _ => None end.

Definition calls_start : list call_at := replicate (length calls) BeforeLock.

(** Some interleaving stops the process. *)
Definition can_crash : Prop :=
  exists tr pcs i, run call_run_step calls_start tr = Some pcs /\ call_step pcs i = Panic.

(** Two of the calls race. *)
Definition unguarded : Prop :=
  exists i j c c', i <> j /\ calls !! i = Some c /\ calls !! j = Some c' /\ races c c' = true.

(** * Facts *)

Record map_inv (pcs : list call_at) : Prop := {
  ci_length : length pcs = length calls;
  ci_rest i c pc rest : calls !! i = Some c -> pcs !! i = Some pc -> pc = Holding rest \/ pc = Writing rest ->
    rest `suffix_of` cl_does c;
  ci_writing i c rest : calls !! i = Some c -> pcs !! i = Some (Writing rest) -> MapWrite ∈ cl_does c;
  ci_excluded i j c c' pc pc' : i <> j -> calls !! i = Some c -> calls !! j = Some c' ->
    pcs !! i = Some pc -> pcs !! j = Some pc' -> holds pc = true -> holds pc' = true -> guards c c' = false;
}.

Lemma map_inv_start : map_inv calls_start.
Proof.
  assert (forall i pc, calls_start !! i = Some pc -> pc = BeforeLock) as Hs.
  { intros i pc Hi. by apply lookup_replicate in Hi as [-> _]. }
  constructor.
  - apply length_replicate.
  - intros i c pc rest _ Hp [->| ->]; by apply Hs in Hp.
  - intros i c rest _ Hp. by apply Hs in Hp.
  - intros i j c c' pc pc' _ _ _ Hp _ Hh. apply Hs in Hp as ->. done.
Qed.

Lemma can_lock_spec c pcs j c' pc' :
  can_lock c pcs = true -> calls !! j = Some c' -> pcs !! j = Some pc' -> keeps_out c c' pc' = false.
Proof.
  unfold can_lock. rewrite forallb_forall. intros H Hc Hp. specialize (H (c', pc')).
  apply negb_true_iff, H. apply list_elem_of_In, list_elem_of_lookup. exists j. rewrite lookup_zip_with, Hc. cbn. by rewrite Hp.
Qed.

(** A step of a call that keeps or gives up its lock. *)
Lemma map_inv_keep pcs i c pc pc' :
  map_inv pcs -> calls !! i = Some c -> pcs !! i = Some pc -> holds pc = true ->
  (forall rest, pc' = Holding rest \/ pc' = Writing rest -> rest `suffix_of` cl_does c) ->
  (forall rest, pc' = Writing rest -> MapWrite ∈ cl_does c) -> map_inv (<[i := pc']> pcs).
Proof.
  intros [I1 I2 I3 I4] Hc Hp Hh Hs Hw. pose proof (lookup_lt_Some _ _ _ Hp) as Hi.
  constructor.
  - by rewrite length_insert.
  - intros j c1 pc1 rest Hc1 Hp1 Hr. destruct (decide (i = j)) as [<-|Hne].
    + rewrite list_lookup_insert_eq in Hp1 by done. simplify_eq. by apply Hs.
    + rewrite list_lookup_insert_ne in Hp1 by done. by eapply I2.
  - intros j c1 rest Hc1 Hp1. destruct (decide (i = j)) as [<-|Hne].
    + rewrite list_lookup_insert_eq in Hp1 by done. simplify_eq. by eapply Hw.
    + rewrite list_lookup_insert_ne in Hp1 by done. by eapply I3.
  - intros j k c1 c2 pc1 pc2 Hjk Hc1 Hc2 Hp1 Hp2 Hh1 Hh2.
    destruct (decide (i = j)) as [<-|Hj].
    + rewrite list_lookup_insert_ne in Hp2 by done. rewrite Hc in Hc1. injection Hc1 as <-.
      exact (I4 i k c c2 pc pc2 Hjk Hc Hc2 Hp Hp2 Hh Hh2).
    + rewrite list_lookup_insert_ne in Hp1 by done. destruct (decide (i = k)) as [<-|Hk].
      * rewrite Hc in Hc2. injection Hc2 as <-. exact (I4 j i c1 c pc1 pc Hjk Hc1 Hc Hp1 Hp Hh1 Hh).
      * rewrite list_lookup_insert_ne in Hp2 by done. exact (I4 j k c1 c2 pc1 pc2 Hjk Hc1 Hc2 Hp1 Hp2 Hh1 Hh2).
Qed.

Lemma map_inv_step pcs i pcs' : map_inv pcs -> call_step pcs i = Ret pcs' -> map_inv pcs'.
Proof.
  intros Hi. unfold call_step. destruct (calls !! i) as [c|] eqn:Hc; [|done].
  destruct (pcs !! i) as [[|[|a rest]|rest|]|] eqn:Hp; try done.
  - destruct (can_lock c pcs) eqn:El; [|done]. intros [= <-]. pose proof Hi as [I1 I2 I3 I4].
    pose proof (lookup_lt_Some _ _ _ Hp) as Hlt. constructor.
    + by rewrite length_insert.
    + intros j c1 pc1 rest Hc1 Hp1 Hr. destruct (decide (i = j)) as [<-|Hne].
      * rewrite list_lookup_insert_eq in Hp1 by done. simplify_eq. by destruct Hr as [[= <-]|].
      * rewrite list_lookup_insert_ne in Hp1 by done. by eapply I2.
    + intros j c1 rest Hc1 Hp1. destruct (decide (i = j)) as [<-|Hne].
      * by rewrite list_lookup_insert_eq in Hp1 by done.
      * rewrite list_lookup_insert_ne in Hp1 by done. by eapply I3.
    + assert (forall j c1 pc1, i <> j -> calls !! j = Some c1 -> pcs !! j = Some pc1 -> holds pc1 = true ->
        guards c c1 = false) as Hout.
      { intros j c1 pc1 Hj Hc1 Hp1 Hh1. pose proof (can_lock_spec _ _ _ _ _ El Hc1 Hp1) as Hk.
        unfold keeps_out in Hk. by rewrite Hh1 in Hk. }
      intros j k c1 c2 pc1 pc2 Hjk Hc1 Hc2 Hp1 Hp2 Hh1 Hh2.
      destruct (decide (i = j)) as [<-|Hj].
      * rewrite list_lookup_insert_ne in Hp2 by done. rewrite Hc in Hc1. injection Hc1 as <-.
        by apply (Hout k c2 pc2).
      * rewrite list_lookup_insert_ne in Hp1 by done. destruct (decide (i = k)) as [<-|Hk].
        { rewrite Hc in Hc2. injection Hc2 as <-. rewrite guards_sym. by apply (Hout j c1 pc1). }
        rewrite list_lookup_insert_ne in Hp2 by done. exact (I4 j k c1 c2 pc1 pc2 Hjk Hc1 Hc2 Hp1 Hp2 Hh1 Hh2).
  - intros [= <-]. eapply map_inv_keep; [done..| |done]. by intros ? [?|?].
  - destruct (map_writing pcs); [done|]. intros [= <-].
    assert ((a :: rest) `suffix_of` cl_does c) as Hs by (eapply (ci_rest _ Hi i); [done|exact Hp|by left]).
    destruct a; (eapply map_inv_keep; [done..| |]).
    + intros r [[= <-]|]; [|done]. etrans; [|exact Hs]. by apply suffix_cons_r.
    + done.
    + intros r [|[= <-]]; [done|]. etrans; [|exact Hs]. by apply suffix_cons_r.
    + intros _ _. destruct Hs as [l ->]. rewrite elem_of_app. right. by left.
  - intros [= <-]. eapply map_inv_keep; [done..| |done]. intros r [[= <-]|]; [|done].
    eapply (ci_rest _ Hi i); [done|exact Hp|by right].
Qed.

(** A crash is a write and another access at once: their mutexes differ. *)
Lemma crash_unguarded pcs i : map_inv pcs -> call_step pcs i = Panic -> unguarded.
Proof.
  intros Hi. unfold call_step. destruct (calls !! i) as [c|] eqn:Hc; [|done].
  destruct (pcs !! i) as [[|[|a rest]|rest|]|] eqn:Hp; try done; [by destruct (can_lock c pcs)|].
  destruct (map_writing pcs) eqn:Ew; [|done]. intros _.
  unfold map_writing in Ew. apply existsb_exists in Ew as (pc' & Hin & Hw). apply list_elem_of_In, list_elem_of_lookup in Hin as [j Hj].
  destruct pc' as [| |rest'|]; try done. assert (j <> i) as Hne by congruence.
  pose proof (lookup_lt_Some _ _ _ Hj) as Hlt. rewrite (ci_length _ Hi) in Hlt. apply lookup_lt_is_Some in Hlt as [c' Hc'].
  pose proof (ci_writing _ Hi _ _ _ Hc' Hj) as Hmw. exists j, i, c', c. split_and!; try done.
  unfold races. rewrite (ci_excluded _ Hi j i c' c _ _ Hne Hc' Hc Hj Hp) by done. rewrite !bool_decide_true; [done| |done].
  assert ((a :: rest) `suffix_of` cl_does c) as [l ->] by (eapply (ci_rest _ Hi i); [done|exact Hp|by left]).
  intros E. by apply app_eq_nil in E as [_ ?].
Qed.
End Calls.

Section Crash.
Context (calls : list call).

Lemma can_lock_intro c pcs :
  (forall j c' pc', calls !! j = Some c' -> pcs !! j = Some pc' -> keeps_out c c' pc' = false) -> can_lock calls c pcs = true.
Proof.
  intros H. unfold can_lock. apply forallb_forall. intros [c' pc'] Hin.
  apply list_elem_of_In, list_elem_of_lookup in Hin as [j Hj]. rewrite lookup_zip_with in Hj.
  destruct (calls !! j) as [c1|] eqn:Hc; [|done]. cbn in Hj. destruct (pcs !! j) as [pc1|] eqn:Hp; [|done].
  injection Hj as <- <-. by rewrite (H j c1 pc1 Hc Hp).
Qed.

Lemma map_writing_iff pcs : map_writing pcs = true <-> exists j rest, pcs !! j = Some (Writing rest).
Proof.
  unfold map_writing. rewrite existsb_exists. split.
  - intros (pc & Hin & Hw). apply list_elem_of_In, list_elem_of_lookup in Hin as [j Hj].
    destruct pc as [| |rest|]; try done. by exists j, rest.
  - intros (j & rest & Hj). exists (Writing rest). split; [|done]. apply list_elem_of_In. by eapply list_elem_of_lookup_2.
Qed.

(** All but call [i] have yet to begin. *)
Definition only (i : nat) (pc : call_at) : list call_at := <[i := pc]> (calls_start calls).

Lemma only_lookup i pc j pc' : only i pc !! j = Some pc' -> j = i /\ pc' = pc \/ j <> i /\ pc' = BeforeLock.
Proof.
  unfold only. intros Hj. destruct (decide (i = j)) as [<-|Hne].
  - apply lookup_lt_Some in Hj as Hlt. rewrite length_insert in Hlt. rewrite list_lookup_insert_eq in Hj by done.
    injection Hj as <-. by left.
  - rewrite list_lookup_insert_ne in Hj by done. unfold calls_start in Hj. apply lookup_replicate in Hj as [-> _]. by right.
Qed.

Lemma only_at i c pc : calls !! i = Some c -> only i pc !! i = Some pc.
Proof.
  intros Hc. unfold only. apply list_lookup_insert_eq. unfold calls_start. rewrite length_replicate. by eapply lookup_lt_Some.
Qed.

Lemma only_begins i c : calls !! i = Some c -> call_run_step calls (calls_start calls) i = Some (only i (Holding (cl_does c))).
Proof.
  intros Hc. unfold call_run_step, call_step. rewrite Hc. unfold calls_start at 1.
  rewrite lookup_replicate_2 by (by eapply lookup_lt_Some). rewrite can_lock_intro; [done|].
  intros j c' pc' _ Hp. apply lookup_replicate in Hp as [-> _]. done.
Qed.

Lemma only_accesses i c a rest :
  calls !! i = Some c ->
  call_run_step calls (only i (Holding (a :: rest))) i =
    Some (only i match a with MapRead => Holding rest | MapWrite => Writing rest end).
Proof.
  intros Hc. unfold call_run_step, call_step. rewrite Hc, (only_at _ _ _ Hc).
  destruct (map_writing _) eqn:Ew.
  - apply map_writing_iff in Ew as (j & r & Hj). by apply only_lookup in Hj as [[_ [=]]|[_ [=]]].
  - f_equal. unfold only. by rewrite list_insert_insert_eq.
Qed.

(** Up to the first write. *)
Lemma only_reaches_write i c (l : list access) :
  calls !! i = Some c -> MapWrite ∈ l ->
  exists n rest, run (call_run_step calls) (only i (Holding l)) (replicate n i) = Some (only i (Writing rest)).
Proof.
  intros Hc. induction l as [|a l IH]; intros Hin; [by apply elem_of_nil in Hin|].
  destruct a.
  - apply elem_of_cons in Hin as [[=]|Hin]. destruct (IH Hin) as (n & rest & Hr). exists (S n), rest.
    cbn [replicate run]. by rewrite (only_accesses _ _ _ _ Hc).
  - exists 1%nat, l. cbn [replicate run]. by rewrite (only_accesses _ _ _ _ Hc).
Qed.

Lemma unguarded_crash : unguarded calls -> can_crash calls.
Proof.
  intros (i & j & c & c' & Hij & Hc & Hc' & [[Hw%bool_decide_eq_true_1 Hd%bool_decide_eq_true_1]%andb_prop Ho%negb_true_iff]%andb_prop).
  destruct (only_reaches_write i c (cl_does c) Hc Hw) as (n & rest & Hrun).
  assert (only i (Writing rest) !! j = Some BeforeLock) as Hj.
  { destruct (only i (Writing rest) !! j) as [pc|] eqn:E.
    - apply only_lookup in E as [[-> _]|[_ ->]]; done.
    - apply lookup_ge_None in E. apply lookup_lt_Some in Hc'. unfold only, calls_start in E.
      rewrite length_insert, length_replicate in E. lia. }
  assert (call_run_step calls (only i (Writing rest)) j = Some (<[j := Holding (cl_does c')]> (only i (Writing rest)))) as Hl.
  { unfold call_run_step, call_step. rewrite Hc', Hj. rewrite can_lock_intro; [done|].
    intros k c1 pc1 Hc1 Hp1. unfold keeps_out. apply only_lookup in Hp1 as [[-> ->]|[_ ->]]; [|done].
    rewrite Hc in Hc1. injection Hc1 as <-. by rewrite guards_sym, Ho. }
  exists (i :: replicate n i ++ [j]), (<[j := Holding (cl_does c')]> (only i (Writing rest))), j. split.
  - cbn [run]. rewrite (only_begins _ _ Hc), run_app, Hrun. cbn [run]. by rewrite Hl.
  - unfold call_step. rewrite Hc', list_lookup_insert_eq by (by eapply lookup_lt_Some).
    destruct (cl_does c') as [|a r]; [done|].
    assert (map_writing (<[j := Holding (a :: r)]> (only i (Writing rest))) = true) as ->; [|done].
    apply map_writing_iff. exists i, rest. rewrite list_lookup_insert_ne by done. by apply (only_at i c).
Qed.
End Crash.

(** * Properties *)

(** Some interleaving of calls makes the runtime stop the process over the map exactly when
    two of the calls, one of which writes, are kept apart by no mutex. *)
Theorem map_crash_iff (calls : list call) : can_crash calls <-> unguarded calls.
Proof.
  split; [|apply unguarded_crash]. intros (tr & pcs & i & Hrun & Hp). eapply crash_unguarded; [|exact Hp].
  apply (run_invariant (call_run_step calls) (fun _ pcs => map_inv calls pcs)) with (3 := Hrun); [apply map_inv_start|].
  intros _ s l s' Hi. unfold call_run_step. destruct (call_step calls s l) eqn:E; [|done..]. intros [= <-].
  by eapply map_inv_step.
Qed.

(** Any number of calls of some kinds, none of which races with its own kind. *)
Lemma drawn_crash (kinds calls : list call) :
  Forall (.∈ kinds) calls -> Forall (fun c => races c c = false) kinds ->
  can_crash calls <-> exists c c', c ∈ kinds /\ c' ∈ kinds /\ races c c' = true /\ c ∈ calls /\ c' ∈ calls.
Proof.
  rewrite !Forall_forall. intros Hk Hs. rewrite map_crash_iff. split.
  - intros (i & j & c & c' & _ & Hc%list_elem_of_lookup_2 & Hc'%list_elem_of_lookup_2 & Hr). exists c, c'. auto 6.
  - intros (c & c' & Hc & _ & Hr & [i Hi]%list_elem_of_lookup & [j Hj]%list_elem_of_lookup). exists i, j, c, c'.
    split; [|done]. intros ->. simplify_eq. by rewrite Hs in Hr.
Qed.

(** Of all pairs of kinds, those that race. *)
Ltac racing_pairs Hc Hc' Hr :=
  repeat (apply elem_of_cons in Hc as [->|Hc]); try (by apply elem_of_nil in Hc);
  repeat (apply elem_of_cons in Hc' as [->|Hc']); try (by apply elem_of_nil in Hc');
  try (vm_compute in Hr; discriminate Hr).

(** A kind of the list. *)
Ltac a_kind := repeat (first [left; reflexivity|right]).

(** C21: peers copy their pools, mutexes included, and the copies let the runtime stop
    the process ("concurrent map read and map write"). Whatever calls there are at once,
    of the kinds the code makes and in any number: the connection pool of a client can be
    hit exactly when a connection is registered or removed while the relay looks one up,
    that of a server exactly when one is registered or removed while the status page
    reads, the tunnel pool of a client exactly when a tunnel is added or removed while
    the peer is stopped, and the tunnel pool of a server, all of whose calls are made on
    the copy, never. Where all the calls are made on one pool, as they would be with a
    pointer to it in the peer, no interleaving does any harm. *)
Theorem copied_pools_crash :
  (forall calls, Forall (.∈ client_connection_calls) calls ->
    can_crash calls <->
      (addConnection_call Copied ∈ calls \/ removeConnection_call Copied ∈ calls) /\ recvRelay_lookup Original ∈ calls) /\
  (forall calls, Forall (.∈ server_connection_calls) calls ->
    can_crash calls <->
      (addConnection_call Original ∈ calls \/ removeConnection_call Original ∈ calls) /\ GetConnectionsInfo_call Copied ∈ calls) /\
  (forall calls, Forall (.∈ client_tunnel_calls) calls ->
    can_crash calls <->
      (AddTunnel_call Original ∈ calls \/ RemoveTunnel_call Original ∈ calls) /\ Close_call Copied ∈ calls) /\
  (forall calls, Forall (.∈ server_tunnel_calls) calls -> ~ can_crash calls) /\
  (forall o calls, Forall (.∈ calls_on o) calls -> ~ can_crash calls).
Proof.
  split_and!.
  - intros calls Hk. rewrite (drawn_crash _ _ Hk) by (repeat constructor). split.
    + intros (c & c' & Hc & Hc' & Hr & Hi). racing_pairs Hc Hc' Hr; tauto.
    + intros [[?|?] ?]; [exists (addConnection_call Copied), (recvRelay_lookup Original)|exists (removeConnection_call Copied), (recvRelay_lookup Original)]; (split_and!; [a_kind|a_kind|done..]).
  - intros calls Hk. rewrite (drawn_crash _ _ Hk) by (repeat constructor). split.
    + intros (c & c' & Hc & Hc' & Hr & Hi). racing_pairs Hc Hc' Hr; tauto.
    + intros [[?|?] ?]; [exists (addConnection_call Original), (GetConnectionsInfo_call Copied)|exists (removeConnection_call Original), (GetConnectionsInfo_call Copied)]; (split_and!; [a_kind|a_kind|done..]).
  - intros calls Hk. rewrite (drawn_crash _ _ Hk) by (repeat constructor). split.
    + intros (c & c' & Hc & Hc' & Hr & Hi). racing_pairs Hc Hc' Hr; tauto.
    + intros [[?|?] ?]; [exists (AddTunnel_call Original), (Close_call Copied)|exists (RemoveTunnel_call Original), (Close_call Copied)]; (split_and!; [a_kind|a_kind|done..]).
  - intros calls Hk. rewrite (drawn_crash _ _ Hk) by (repeat constructor).
    intros (c & c' & Hc & Hc' & Hr & _). racing_pairs Hc Hc' Hr.
  - intros o calls Hk. rewrite (drawn_crash _ _ Hk) by (destruct o; repeat constructor).
    intros (c & c' & Hc & Hc' & Hr & _). destruct o; racing_pairs Hc Hc' Hr.
Qed.

(** Two applications and a block that arrives are enough. *)
Lemma copied_pools_crash_witness :
  can_crash [addConnection_call Copied; addConnection_call Copied; recvRelay_lookup Original] /\
  ~ can_crash [AddTunnel_call Copied; AddTunnel_call Copied; GetTunnelConnsInfo_call Copied].
Proof.
  destruct copied_pools_crash as (P1 & _ & _ & P4 & _). split.
  - apply P1; [repeat constructor; set_solver|]. split; [left|]; set_solver.
  - apply P4. repeat constructor; set_solver.
Defined.
