(* ===== verification/Peer.v ===== *)
(** peer/peer.go, peer/client.go and peer/server.go: a peer, one connection pool
    and one tunnel pool over the same two queues, with everything their goroutines
    do as one transition system. *)

From S2P Require Import Prelude GoIO Block Stats Tunnel TunnelPool PoolManager ConnPool.

Local Open Scope Z_scope.

(** What a manager does of its own accord: its steps, and whether one calls
    [removePeerFunc], the cancellation of the peer's context. *)
Class ManagerRun (M : Type) : Type := manager_step : M -> sm_label -> option (M * bool).

#[export] Instance ServerManager_run : ManagerRun ServerManager := fun sm l =>
  match l with
  | SNotify _ => None
  | SExpired _ => (fun sm => (sm, true)) <$> sm_step sm l
  | SStopped _ => (fun sm => (sm, false)) <$> sm_step sm l
  end.

(** The client's manager only adds tunnels, which are steps of the tunnel pool. *)
#[export] Instance ClientManager_run : ManagerRun ClientManager := fun _ _ => None.

(** [peerID] is the tunnel pool's; [pr_cancelled]: the peer's context is. *)
Record Peer (M C : Type) : Type := mkPeer {
  connectionPool : ConnectionPool;
  tunnelPool : TunnelPool M C;
  pr_cancelled : bool;
}.
Arguments mkPeer {M C} _ _ _.
Arguments connectionPool {M C} _.
Arguments tunnelPool {M C} _.
Arguments pr_cancelled {M C} _.

Inductive peer_label (C : Type) : Type :=
  | YConn (l : cp_label)           (** a step of the connection pool *)
  | YTunnel (l : pool_label C)     (** a step of the tunnel pool *)
  | YManager (l : sm_label)
  | YCounts (g : global_stats)     (** another peer of the process counts *)
  | YStop.
Arguments YConn {C} _.
Arguments YTunnel {C} _.
Arguments YManager {C} _.
Arguments YCounts {C} _.
Arguments YStop {C}.

Section Peer.
Context `{TV : TunnelVars} `{CV : ConnVars} {M C : Type} `{Manager M, ManagerRun M, Reader C, Writer C}.
Implicit Types (p : Peer M C) (cp : ConnectionPool) (tp : TunnelPool M C).

(** The two queues and the counters are the same objects for both pools. *)
Definition set_cp_stats (g : global_stats) cp : ConnectionPool :=
  set_connectionMapping (connectionMapping cp) g cp.
Definition with_conns cp p : Peer M C :=
  mkPeer cp
    (set_stats (cp_stats cp) (TunnelPool.set_recvQueue (tunnel_recv cp) (set_sendQueue (tunnel_send cp) (tunnelPool p))))
    (pr_cancelled p).
Definition with_tunnels tp p : Peer M C :=
  mkPeer (set_cp_stats (tp_stats tp) (set_tunnel_queues (TunnelPool.sendQueue tp) (TunnelPool.recvQueue tp) (connectionPool p)))
    tp (pr_cancelled p).

(** The counters are the process's: all its peers see the same. *)
Definition with_counts (g : global_stats) p : Peer M C :=
  mkPeer (set_cp_stats g (connectionPool p)) (set_stats g (tunnelPool p)) (pr_cancelled p).

Definition new_peer (peerID : Z) (mgr : M) (accept : bool) (g : global_stats) : Peer M C :=
  let tp := NewTunnelPool peerID mgr g in
  mkPeer (NewConnectionPool (TunnelPool.sendQueue tp) (TunnelPool.recvQueue tp) accept g) tp false.

(** The peer's [cancel]: both pools' contexts descend from the peer's. *)
Definition peer_cancel p : Peer M C :=
  mkPeer (stopRelay (connectionPool p)) (cancel_pool (tunnelPool p)) true.

(** [p.Stop()]. *)
Definition Stop p : outcome (Peer M C) :=
  let p := peer_cancel p in
  tp ← TunnelPool.Close (tunnelPool p);
  Ret (with_tunnels tp p).

(** The steps that belong to one pool: what crosses between them goes through the
    queues they share, and they are closed by the peer only. *)
Definition own_conn (l : cp_label) : bool :=
  match l with CTunnelIn _ | CTunnelOut | CTunnelClose | CStop => false | _ => true end.
Definition own_tunnel (l : pool_label C) : bool :=
  match l with PSend _ | PRecv | PClose => false | _ => true end.

Definition peer_step p (l : peer_label C) : outcome (list pool_event * Peer M C) :=
  match l with
  | YConn l =>
      cp ← (if own_conn l then cp_step (connectionPool p) l else Blocks);
      Ret ([], with_conns cp p)
  | YTunnel l =>
      '(evs, tp) ← (if own_tunnel l then pool_step (tunnelPool p) l else Blocks);
      Ret (evs, with_tunnels tp p)
  | YManager l =>
      match manager_step (manager (tunnelPool p)) l with
      | Some (mgr, removed) =>
          let p := mkPeer (connectionPool p) (set_mapping (tunnelMapping (tunnelPool p)) mgr (tunnelPool p)) (pr_cancelled p) in
          Ret ([], if removed then peer_cancel p else p)
      | None => Blocks
      end
  | YCounts g => Ret ([], with_counts g p)
  | YStop => p ← Stop p; Ret ([], p)
  end.
End Peer.

(** [newClientPeerWithID] and [NewServerPeerWithID]. *)
Definition newClientPeerWithID `{TV : TunnelVars} {C} (peerID tunnelNum : Z) (endpoints : list string) (retryfailed : bool)
    (g : global_stats) : Peer ClientManager C :=
  new_peer peerID (NewClientManager tunnelNum endpoints retryfailed) false g.
Definition NewServerPeerWithID `{TV : TunnelVars} {C} (peerID : Z) (g : global_stats) : Peer ServerManager C :=
  new_peer peerID NewServerManager true g.

(** * The pools of a peer share their queues *)

Section Linked.
Context `{TV : TunnelVars} `{CV : ConnVars} {M C : Type} `{Manager M, ManagerRun M, Reader C, Writer C}.
Implicit Types (p : Peer M C).

Record linked p : Prop := {
  lk_send : tunnel_send (connectionPool p) = TunnelPool.sendQueue (tunnelPool p);
  lk_recv : tunnel_recv (connectionPool p) = TunnelPool.recvQueue (tunnelPool p);
  lk_stats : cp_stats (connectionPool p) = tp_stats (tunnelPool p);
}.

Lemma linked_new id mgr accept g : linked (new_peer id mgr accept g).
Proof. by constructor. Qed.

Lemma linked_step p l evs p' : linked p -> peer_step p l = Ret (evs, p') -> linked p'.
Proof.
  intros [L1 L2 L3]. destruct l as [l|l|l|g|]; cbn [peer_step].
  - destruct (if own_conn l then _ else _) as [cp| |]; [|done..]. intros [= <- <-]. by constructor.
  - destruct (if own_tunnel l then _ else _) as [[es tp]| |]; [|done..]. intros [= <- <-]. by constructor.
  - destruct (manager_step _ _) as [[mgr removed]|]; [|done]. intros [= <- <-]. destruct removed; by constructor.
  - intros [= <- <-]. by constructor.
  - unfold Stop. destruct (TunnelPool.Close _) as [tp| |]; [|done..]. intros [= <- <-]. by constructor.
Qed.
End Linked.
