(* ===== verification/PeerGroup.v ===== *)
(** peer/peer_group.go and the accept loop of server/server.go: the server's peers,
    one per client ID, and how a new tunnel finds its peer. *)

From S2P Require Import Prelude GoIO Block Stats Tunnel TunnelPool PoolManager ConnPool Peer.

Local Open Scope Z_scope.

(** [pg_peers]: every peer ever created; [peerMapping] points into it.
    [pg_found]: calls of [AddTunnel] that have released the lock and not yet given
    the tunnel to the peer they found.  [pg_waiting]: the goroutines that wait for
    the end of a peer to unregister it. *)
Record PeerGroup (C : Type) : Type := mkGroup {
  pg_peers : list (Peer ServerManager C);
  peerMapping : gmap Z nat;
  pg_found : list (nat * Tunnel C);
  pg_waiting : list (Z * nat);
  pg_stats : global_stats;
}.
Arguments mkGroup {C} _ _ _ _ _.
Arguments pg_peers {C} _.
Arguments peerMapping {C} _.
Arguments pg_found {C} _.
Arguments pg_waiting {C} _.
Arguments pg_stats {C} _.

Inductive group_label (C : Type) : Type :=
  | GAccept (r : result error C) (tunnelID : Z)   (** the accept loop; the ID is drawn *)
  | GAttach (i : nat)                             (** a call of [AddTunnel] goes on *)
  | GPeer (k : nat) (l : peer_label C)            (** a step of a peer of its own *)
  | GRemove (i : nat)                             (** a waiting goroutine goes on *)
  | GStop.
Arguments GAccept {C} _ _.
Arguments GAttach {C} _.
Arguments GPeer {C} _ _.
Arguments GRemove {C} _.
Arguments GStop {C}.

Section Group.
Context `{TV : TunnelVars} `{CV : ConnVars} {C : Type} `{Reader C, Writer C}.
Implicit Types (pg : PeerGroup C) (p : Peer ServerManager C) (t : Tunnel C).

Definition peer_id p : Z := tp_peerID (tunnelPool p).

Definition NewPeerGroup (g : global_stats) : PeerGroup C := mkGroup [] ∅ [] [] g.

(** [pg.AddTunnel(tunnel)] up to the release of the lock. *)
Definition find_peer t pg : PeerGroup C :=
  let id := GetPeerID t in
  match peerMapping pg !! id with
  | Some k => mkGroup (pg_peers pg) (peerMapping pg) (pg_found pg ++ [(k, t)]) (pg_waiting pg) (pg_stats pg)
  | None =>
      let k := length (pg_peers pg) in
      mkGroup (pg_peers pg ++ [NewServerPeerWithID id (pg_stats pg)]) (<[id := k]> (peerMapping pg))
        (pg_found pg ++ [(k, t)]) (pg_waiting pg ++ [(id, k)]) (pg_stats pg)
  end.

(** [pg.AddTunnelFromConn(conn)], [c] being the connection under the group's
    cipher; one that fails the exchange is closed and forgotten. *)
Definition AddTunnelFromConn (c : C) (tunnelID : Z) pg : option error * PeerGroup C :=
  match NewPassiveTunnel c tunnelID with
  | (Some e, _) => (Some e, pg)
  | (None, t) => (None, find_peer t pg)
  end.

(** One pass of the loop of [s.ServeThread]. *)
Definition ServeThread_pass (r : result error C) (tunnelID : Z) pg : PeerGroup C :=
  match r with
  | Ok c => (AddTunnelFromConn c tunnelID pg).2
  | Err _ => pg
  end.

(** A step of peer [k], which sees the counters of the process. *)
Definition set_peer (k : nat) p pg : PeerGroup C :=
  mkGroup (<[k := p]> (pg_peers pg)) (peerMapping pg) (pg_found pg) (pg_waiting pg) (tp_stats (tunnelPool p)).

Definition on_peer (k : nat) (l : peer_label C) pg : outcome (PeerGroup C) :=
  match pg_peers pg !! k with
  | Some p => '(_, p) ← peer_step (with_counts (pg_stats pg) p) l; Ret (set_peer k p pg)
  | None => Blocks
  end.

(** The rest of [pg.AddTunnel(tunnel)]: [peer.tunnelPool.AddTunnel(tunnel)]. *)
Definition attach (i : nat) pg : outcome (PeerGroup C) :=
  match pg_found pg !! i with
  | Some (k, t) =>
      on_peer k (YTunnel (PAddTunnel t))
        (mkGroup (pg_peers pg) (peerMapping pg) (delete i (pg_found pg)) (pg_waiting pg) (pg_stats pg))
  | None => Blocks
  end.

(** [pg.RemovePeer(peerID)] by the goroutine [i], once the peer's context is over. *)
Definition RemovePeer (i : nat) pg : outcome (PeerGroup C) :=
  match pg_waiting pg !! i with
  | Some (id, k) =>
      match pg_peers pg !! k with
      | Some p =>
          if pr_cancelled p then
            Ret (mkGroup (pg_peers pg) (delete id (peerMapping pg)) (pg_found pg) (delete i (pg_waiting pg)) (pg_stats pg))
          else Blocks
      | None => Blocks
      end
  | None => Blocks
  end.

(** [pg.Stop()], the registered peers [ks] one after the other. *)
Fixpoint stop_peers (ks : list nat) pg : outcome (PeerGroup C) :=
  match ks with
  | [] => Ret pg
  | k :: ks => pg ← on_peer k YStop pg; stop_peers ks pg
  end.

Definition registered pg : list nat := (map_to_list (peerMapping pg)).*2.

Definition Stop pg : outcome (PeerGroup C) := stop_peers (registered pg) pg.

(** What a peer does without the group: all but getting tunnels and being stopped. *)
Definition own_peer (l : peer_label C) : bool :=
  match l with YTunnel (PAddTunnel _) | YCounts _ | YStop => false | _ => true end.

Definition group_step pg (l : group_label C) : outcome (PeerGroup C) :=
  match l with
  | GAccept r id => Ret (ServeThread_pass r id pg)
  | GAttach i => attach i pg
  | GPeer k l => if own_peer l then on_peer k l pg else Blocks
  | GRemove i => RemovePeer i pg
  | GStop => Stop pg
  end.

Definition group_run_step pg l : option (PeerGroup C) :=
  match group_step pg l with Ret pg => Some pg | _ => None end.
Definition peer_run_step p (l : peer_label C) : option (Peer ServerManager C) :=
  match peer_step p l with Ret (_, p) => Some p | _ => None end.
End Group.

(** * What a step leaves of a peer *)

Section Keeps.
Context `{TV : TunnelVars} `{CV : ConnVars} {M C : Type} `{Manager M, ManagerRun M, Reader C, Writer C}.
Implicit Types (p : Peer M C) (tp : TunnelPool M C).

Lemma RemoveTunnel_peerID t tp : tp_peerID (RemoveTunnel t tp) = tp_peerID tp.
Proof. unfold RemoveTunnel. by destruct (_ !! _). Qed.

Lemma relay_send_peerID i e blk next tp evs tp' : relay_send i e blk next tp = (evs, tp') -> tp_peerID tp' = tp_peerID tp.
Proof. unfold relay_send. destruct (packThenSend _ _ _ _) as [[[rb|] g] t]; by intros [= <- <-]. Qed.

Lemma pool_step_peerID tp l evs tp' : pool_step tp l = Ret (evs, tp') -> tp_peerID tp' = tp_peerID tp.
Proof.
  destruct l as [blk| |t|i ch|k|k|i now|i|i|i now|i|]; cbn [pool_step];
    try (destruct (entries tp !! i) as [e|]; [|done]); try (destruct (retrying tp !! k) as [[i blk]|]; [|done]).
  - destruct (send_call _ _); [|done..]. by intros [= <- <-].
  - destruct (chan_recv _); [|done..]. by intros [= <- <-].
  - by intros [= <- <-].
  - unfold OutboundRelay_step, take_retry, take_normal. intros Hs.
    repeat case_match; simplify_eq; try done;
      match goal with E : relay_send _ _ _ _ _ = _ |- _ => by apply relay_send_peerID in E end.
  - destruct (send_call _ _); [|done..]. by intros [= <- <-].
  - destruct (entries tp !! i); [|done]. destruct (tn_cancelled _); [|done]. by intros [= <- <-].
  - unfold InboundRelay_step, InboundRelay_last. destruct (e_in e); [|done..]. destruct (tn_cancelled _).
    + destruct (tn_closed _); [by intros [= <- <-]|].
      destruct (NewBlockFromReader _) as [[[b|err] c]|]; [|by intros [= <- <-]|done].
      destruct (Pack b) as [d b']. destruct (chan_send _ _); by intros [= <- <-].
    + destruct (InboundRelay_read _ _ _) as [[[fwd g] t]| |]; [|done..]. by intros [= <- <-].
  - destruct (e_in e); [done| |done]. destruct (send_call _ _); [|done..]. by intros [= <- <-].
  - destruct (e_in e), (tn_cancelled (e_tunnel e)); try done. by intros [= <- <-].
  - case_decide; [|done]. destruct (PingPong_tick _ _ _). by intros [= <- <-].
  - destruct (_ && _); [|done]. intros [= <- <-]. by rewrite RemoveTunnel_peerID.
  - unfold TunnelPool.Close. destruct (close_call (sendQueue _)); [|done..].
    destruct (close_call (sendRetryQueue _)); [|done..]. destruct (close_call (TunnelPool.recvQueue _)); [|done..].
    by intros [= <- <-].
Qed.

Lemma peer_step_keeps p l evs p' : peer_step p l = Ret (evs, p') ->
  tp_peerID (tunnelPool p') = tp_peerID (tunnelPool p) /\ (pr_cancelled p = true -> pr_cancelled p' = true).
Proof.
  destruct l as [l|l|l|g|]; cbn [peer_step].
  - destruct (if own_conn l then _ else _) as [cp| |]; [|done..]. by intros [= <- <-].
  - destruct (own_tunnel l); [|done]. destruct (pool_step _ l) as [[es tp]| |] eqn:E; [|done..].
    intros [= <- <-]. split; [|done]. by apply pool_step_peerID in E.
  - destruct (manager_step _ _) as [[mgr removed]|]; [|done]. intros [= <- <-]. by destruct removed.
  - by intros [= <- <-].
  - unfold Peer.Stop. destruct (TunnelPool.Close _) as [tp| |] eqn:E; [|done..]. intros [= <- <-]. split; [|done].
    assert (pool_step (tunnelPool (peer_cancel p)) PClose = Ret ([], tp)) as Hs by (cbn [pool_step]; by rewrite E).
    by apply pool_step_peerID in Hs.
Qed.
End Keeps.

(** * The invariant of the group *)

Section Inv.
Context `{TV : TunnelVars} `{CV : ConnVars} {C : Type} `{Reader C, Writer C}.
Implicit Types (pg : PeerGroup C) (p : Peer ServerManager C) (t : Tunnel C).

(** A peer gets tunnels of its own client only. *)
Definition for_peer (id : Z) (l : peer_label C) : Prop :=
  match l with YTunnel (PAddTunnel t) => peerID t = id | _ => True end.

(** What a peer has been through, on its own. *)
Definition alone p : Prop :=
  exists g tr, run peer_run_step (NewServerPeerWithID (peer_id p) g) tr = Some p /\ Forall (for_peer (peer_id p)) tr.

Record group_inv pg : Prop := {
  gi_alone : Forall alone (pg_peers pg);
  gi_mapped id k : peerMapping pg !! id = Some k <-> (id, k) ∈ pg_waiting pg;
  gi_once : NoDup (pg_waiting pg);
  gi_ids id k : (id, k) ∈ pg_waiting pg -> exists p, pg_peers pg !! k = Some p /\ peer_id p = id;
  gi_live k p : pg_peers pg !! k = Some p -> pr_cancelled p = false -> peerMapping pg !! peer_id p = Some k;
  gi_found k t : (k, t) ∈ pg_found pg -> exists p, pg_peers pg !! k = Some p /\ peer_id p = peerID t;
}.

Lemma group_inv_init g : group_inv (NewPeerGroup g).
Proof.
  constructor; cbn [NewPeerGroup pg_peers peerMapping pg_waiting pg_found]; try done.
  - intros id k. rewrite lookup_empty. split; [done|]. by intros ?%elem_of_nil.
  - constructor.
  - intros id k ?%elem_of_nil. done.
  - intros k t ?%elem_of_nil. done.
Qed.

Lemma alone_step p l evs p' g : alone p -> for_peer (peer_id p) l -> peer_step (with_counts g p) l = Ret (evs, p') -> alone p'.
Proof.
  intros (g0 & tr & Hrun & Hf) Hl Hs. destruct (peer_step_keeps _ _ _ _ Hs) as [Hid _].
  assert (peer_id p' = peer_id p) as E by exact Hid.
  exists g0, (tr ++ [YCounts g; l]). rewrite E. split.
  - rewrite run_app, Hrun. cbn [run]. unfold peer_run_step at 1. cbn [peer_step]. unfold peer_run_step. by rewrite Hs.
  - apply Forall_app. split; [done|]. by repeat apply Forall_cons_2; [..|apply Forall_nil_2].
Qed.

(** Replacing a peer by what becomes of it. *)
Lemma group_inv_peer pg k p p' :
  group_inv pg -> pg_peers pg !! k = Some p -> alone p' -> peer_id p' = peer_id p ->
  (pr_cancelled p = true -> pr_cancelled p' = true) -> group_inv (set_peer k p' pg).
Proof.
  intros [G1 G2 G3 G4 G5 G6] Hk Ha Hid Hc.
  assert (forall j q, pg_peers pg !! j = Some q ->
    exists q', <[k := p']> (pg_peers pg) !! j = Some q' /\ peer_id q' = peer_id q) as Hsame.
  { intros j q Hj. destruct (decide (k = j)) as [<-|Hne].
    - exists p'. rewrite list_lookup_insert_eq by (by eapply lookup_lt_Some). split; [done|]. congruence.
    - exists q. by rewrite list_lookup_insert_ne. }
  constructor; cbn [set_peer pg_peers peerMapping pg_waiting pg_found]; try done.
  - by apply Forall_insert.
  - intros id j Hj. destruct (G4 _ _ Hj) as (q & Hq & <-). destruct (Hsame _ _ Hq) as (q' & ? & ?). eauto.
  - intros j q. destruct (decide (k = j)) as [<-|Hne].
    + rewrite list_lookup_insert_eq by (by eapply lookup_lt_Some). intros [= <-] Hl. rewrite Hid.
      apply G5; [done|]. destruct (pr_cancelled p); [|done]. by rewrite Hc in Hl.
    + rewrite list_lookup_insert_ne by done. apply G5.
  - intros j t Hj. destruct (G6 _ _ Hj) as (q & Hq & <-). destruct (Hsame _ _ Hq) as (q' & ? & ?). eauto.
Qed.

Lemma on_peer_inv pg k l pg' :
  group_inv pg -> (forall p, pg_peers pg !! k = Some p -> for_peer (peer_id p) l) -> on_peer k l pg = Ret pg' -> group_inv pg'.
Proof.
  intros Hi Hl. unfold on_peer. destruct (pg_peers pg !! k) as [p|] eqn:Ek; [|done].
  destruct (peer_step _ l) as [[evs p']| |] eqn:Es; [|done..]. cbn [mbind outcome_bind]. intros [= <-].
  destruct (peer_step_keeps _ _ _ _ Es) as [Hid Hc]. eapply group_inv_peer; [done|exact Ek| |exact Hid|exact Hc].
  eapply alone_step; [|by apply Hl|exact Es]. exact (Forall_lookup_1 _ _ _ _ (gi_alone _ Hi) Ek).
Qed.

Lemma find_peer_inv t pg : group_inv pg -> group_inv (find_peer t pg).
Proof.
  intros Hi. pose proof Hi as [G1 G2 G3 G4 G5 G6]. unfold find_peer, GetPeerID. destruct (peerMapping pg !! peerID t) as [k|] eqn:Ek.
  - constructor; try done. cbn [pg_found pg_peers]. intros k' t' [Hf|[= -> ->]%list_elem_of_singleton]%elem_of_app; [by apply G6|].
    by apply G4, G2.
  - set (p0 := NewServerPeerWithID (peerID t) (pg_stats pg)).
    assert (forall j p, pg_peers pg !! j = Some p -> (pg_peers pg ++ [p0]) !! j = Some p) as Hold
      by (intros; by apply lookup_app_l_Some).
    assert ((pg_peers pg ++ [p0]) !! length (pg_peers pg) = Some p0) as Hnew
      by (by rewrite lookup_app_r, Nat.sub_diag).
    assert ((peerID t, length (pg_peers pg)) ∉ pg_waiting pg) as Hfresh by (intros Hw%G2; congruence).
    constructor; cbn [pg_peers peerMapping pg_waiting pg_found].
    + apply Forall_app. split; [done|]. apply Forall_singleton. exists (pg_stats pg), []. split; [done|apply Forall_nil_2].
    + intros id k. rewrite elem_of_app, list_elem_of_singleton, <-G2. destruct (decide (id = peerID t)) as [->|Hne].
      * rewrite lookup_insert_eq, Ek. split; [intros [= <-]; by right|]. intros [?|[= ->]]; done.
      * rewrite lookup_insert_ne by done. split; [by left|]. intros [?|[= -> _]]; done.
    + apply NoDup_app. split; [done|]. split; [|apply NoDup_singleton]. intros x Hx ->%list_elem_of_singleton. done.
    + intros id k [Hw|[= -> ->]%list_elem_of_singleton]%elem_of_app; [|eauto].
      destruct (G4 _ _ Hw) as (p & ? & ?). eauto.
    + intros k p [Hp|[Hle Hp]]%lookup_app_Some Hl.
      * pose proof (G5 _ _ Hp Hl) as Hm. rewrite lookup_insert_ne; [done|]. intros E. congruence.
      * apply list_lookup_singleton_Some in Hp as [E <-]. change (peer_id p0) with (peerID t). rewrite lookup_insert_eq. f_equal. lia.
    + intros k t' [Hf|[= -> ->]%list_elem_of_singleton]%elem_of_app; [|eauto].
      destruct (G6 _ _ Hf) as (p & ? & ?). eauto.
Qed.

Lemma RemovePeer_inv i pg pg' : group_inv pg -> RemovePeer i pg = Ret pg' -> group_inv pg'.
Proof.
  intros [G1 G2 G3 G4 G5 G6]. unfold RemovePeer. destruct (pg_waiting pg !! i) as [[id k]|] eqn:Ei; [|done].
  destruct (pg_peers pg !! k) as [p|] eqn:Ek; [|done]. destruct (pr_cancelled p) eqn:Ec; [|done]. intros [= <-].
  set (w := delete i (pg_waiting pg)).
  assert (pg_waiting pg ≡ₚ (id, k) :: w) as Hperm by (by apply delete_Permutation).
  assert (NoDup ((id, k) :: w)) as [Hout Hw]%NoDup_cons by (by rewrite <-Hperm).
  assert (forall x, x ∈ pg_waiting pg <-> x = (id, k) \/ x ∈ w) as Hel by (intros x; by rewrite Hperm, elem_of_cons).
  assert (peerMapping pg !! id = Some k) as Hm by (apply G2, Hel; by left).
  constructor; cbn [pg_peers peerMapping pg_waiting pg_found]; try done.
  - intros id' k'. destruct (decide (id = id')) as [<-|Hne].
    + rewrite lookup_delete_eq. split; [done|]. intros Hin.
      assert (peerMapping pg !! id = Some k') as E by (apply G2, Hel; by right).
      rewrite E in Hm. injection Hm as ->. done.
    + rewrite lookup_delete_ne by done. rewrite G2, Hel. split; [|by right]. intros [[= -> _]|?]; done.
  - intros id' k' Hin. apply G4, Hel. by right.
  - intros k' p' Hp Hl. pose proof (G5 _ _ Hp Hl) as Hm'. rewrite lookup_delete_ne; [done|]. intros E.
    rewrite <-E, Hm in Hm'. congruence.
Qed.

Lemma stop_peers_inv ks pg pg' : group_inv pg -> stop_peers ks pg = Ret pg' -> group_inv pg'.
Proof.
  revert pg. induction ks as [|k ks IH]; intros pg Hi; cbn [stop_peers]; [by intros [= <-]|].
  destruct (on_peer k YStop pg) as [pg1| |] eqn:E; [|done..]. cbn [mbind outcome_bind]. apply IH.
  eapply on_peer_inv; [exact Hi| |exact E]. done.
Qed.

Lemma group_inv_step pg l pg' : group_inv pg -> group_step pg l = Ret pg' -> group_inv pg'.
Proof.
  intros Hi. destruct l as [[c|e] id|i|k l|i|]; cbn [group_step ServeThread_pass].
  - unfold AddTunnelFromConn. destruct (NewPassiveTunnel c id) as [[e|] t]; intros [= <-]; [done|]. by apply find_peer_inv.
  - by intros [= <-].
  - unfold attach. destruct (pg_found pg !! i) as [[k t]|] eqn:Ei; [|done]. apply on_peer_inv.
    + destruct Hi as [G1 G2 G3 G4 G5 G6]. constructor; try done. cbn [pg_found pg_peers]. intros k' t' Hin.
      apply G6. rewrite (delete_Permutation _ _ _ Ei). by right.
    + cbn [pg_peers]. intros p Hp. destruct (gi_found _ Hi k t) as (p' & Hp' & E); [by eapply list_elem_of_lookup_2|].
      cbn [for_peer]. congruence.
  - destruct (own_peer l) eqn:Eo; [|done]. apply on_peer_inv; [done|]. intros p _. destruct l as [l|[]|l|g|]; done.
  - by apply RemovePeer_inv.
  - by apply stop_peers_inv.
Qed.

Lemma group_run_inv g tr pg : run group_run_step (NewPeerGroup g) tr = Some pg -> group_inv pg.
Proof.
  apply (run_invariant group_run_step (fun _ pg => group_inv pg)); [apply group_inv_init|].
  intros _ s l s' Hi. unfold group_run_step. destruct (group_step s l) eqn:E; [|done..]. intros [= <-]. by eapply group_inv_step.
Qed.
End Inv.

(** * From a connection to a tunnel of its peer *)

Section Add.
Context `{TV : TunnelVars} `{CV : ConnVars} {C : Type} `{Reader C, Writer C}.
Implicit Types (pg : PeerGroup C) (t : Tunnel C).

(** The peer found: the registered one if there is one, a new one otherwise. *)
Record found_peer pg t pg' (k : nat) (q : Peer ServerManager C) : Prop := {
  fp_found : pg_found pg' = pg_found pg ++ [(k, t)];
  fp_peer : pg_peers pg' !! k = Some q;
  fp_id : peer_id q = peerID t;
  fp_mapped : peerMapping pg' !! peerID t = Some k;
  fp_peers : pg_peers pg' = pg_peers pg \/
    peerMapping pg !! peerID t = None /\ k = length (pg_peers pg) /\ pg_peers pg' = pg_peers pg ++ [q];
}.

Lemma find_peer_spec pg t : group_inv pg -> exists k q, found_peer pg t (find_peer t pg) k q.
Proof.
  intros Hi. unfold find_peer, GetPeerID. destruct (peerMapping pg !! peerID t) as [k|] eqn:Ek.
  - pose proof Ek as Hw. rewrite (gi_mapped _ Hi) in Hw. destruct (gi_ids _ Hi _ _ Hw) as (q & Hq & Hid).
    exists k, q. constructor; try done. by left.
  - exists (length (pg_peers pg)), (NewServerPeerWithID (peerID t) (pg_stats pg)).
    constructor; try done; cbn [pg_peers peerMapping]; [by rewrite lookup_app_r, Nat.sub_diag|by rewrite lookup_insert_eq|].
    by right.
Qed.

(** The tunnel becomes the last of the peer, whose goroutines start on it. *)
Lemma attach_spec pg l k t q :
  pg_found pg = l ++ [(k, t)] -> pg_peers pg !! k = Some q ->
  exists q', attach (length l) pg = Ret (mkGroup (<[k := q']> (pg_peers pg)) (peerMapping pg) l (pg_waiting pg) (tp_stats (tunnelPool q'))) /\
    peer_id q' = peer_id q /\ pr_cancelled q' = pr_cancelled q /\
    entries (tunnelPool q') = entries (tunnelPool q) ++ [mkEntry t AtCancel InLoop true].
Proof.
  intros Hf Hk. unfold attach. rewrite Hf, lookup_app_r, Nat.sub_diag by done. cbn [lookup list_lookup].
  unfold on_peer. cbn [pg_peers pg_stats]. rewrite Hk. cbn [peer_step own_tunnel pool_step mbind outcome_bind].
  rewrite delete_middle, app_nil_r. eexists. split; [reflexivity|]. done.
Qed.
End Add.

(** * Stopping the group *)

Section StopGroup.
Context `{TV : TunnelVars} `{CV : ConnVars} {C : Type} `{Reader C, Writer C}.
Implicit Types (pg : PeerGroup C) (p : Peer ServerManager C).

(** A peer that [p.Stop()] has been through. *)
Record stopped p : Prop := {
  sp_cancelled : pr_cancelled p = true;
  sp_conns : cp_cancelled (connectionPool p) = true;
  sp_send : ch_closed (TunnelPool.sendQueue (tunnelPool p)) = true;
  sp_recv : ch_closed (TunnelPool.recvQueue (tunnelPool p)) = true;
}.

Lemma peer_Stop_stopped p p' : Peer.Stop p = Ret p' -> stopped p'.
Proof.
  unfold Peer.Stop, TunnelPool.Close, close_call, chan_close. repeat case_match; try done;
    simplify_eq; cbn [mbind outcome_bind]; intros [= <-]; by constructor.
Qed.

Lemma Stop_again p g : stopped p -> Peer.Stop (with_counts g p) = Panic.
Proof. intros [_ _ Hs _]. unfold Peer.Stop, TunnelPool.Close, close_call, chan_close. cbn. by rewrite Hs. Qed.

Lemma on_peer_stop k pg pg' : on_peer k YStop pg = Ret pg' ->
  peerMapping pg' = peerMapping pg /\ exists p', pg_peers pg' = <[k := p']> (pg_peers pg) /\ stopped p' /\ (k < length (pg_peers pg))%nat.
Proof.
  unfold on_peer. destruct (pg_peers pg !! k) as [p|] eqn:Ek; [|done]. cbn [peer_step].
  destruct (Peer.Stop _) as [p'| |] eqn:Es; [|done..]. cbn [mbind outcome_bind]. intros [= <-].
  split; [done|]. exists p'. split; [done|]. split; [by eapply peer_Stop_stopped|by eapply lookup_lt_Some].
Qed.

Lemma stop_peers_stopped ks pg pg' :
  stop_peers ks pg = Ret pg' ->
  peerMapping pg' = peerMapping pg /\
  forall k p', pg_peers pg' !! k = Some p' -> k ∈ ks \/ (exists p, pg_peers pg !! k = Some p /\ stopped p) -> stopped p'.
Proof.
  revert pg. induction ks as [|j ks IH]; intros pg; cbn [stop_peers].
  - intros [= <-]. split; [done|]. intros k p' Hk [Hin|(p & Hp & ?)]; [by apply elem_of_nil in Hin|]. by simplify_eq.
  - destruct (on_peer j YStop pg) as [pg1| |] eqn:E; [|done..]. cbn [mbind outcome_bind]. intros [Hm Hs]%IH.
    apply on_peer_stop in E as (Hm' & q & Hq & Hst & Hlt). split; [congruence|]. intros k p' Hk Hor.
    apply (Hs k p' Hk). destruct (decide (k = j)) as [->|Hne].
    + right. exists q. by rewrite Hq, list_lookup_insert_eq.
    + destruct Hor as [Hin|(p & Hp & ?)]; [left|right].
      * apply elem_of_cons in Hin as [?|?]; done.
      * exists p. by rewrite Hq, list_lookup_insert_ne.
Qed.

Lemma registered_mapped pg k : k ∈ registered pg <-> exists id, peerMapping pg !! id = Some k.
Proof.
  unfold registered. rewrite list_elem_of_fmap. split.
  - intros ([id k'] & -> & Hin). exists id. by apply elem_of_map_to_list.
  - intros [id Hm]. exists (id, k). split; [done|]. by apply elem_of_map_to_list.
Qed.
End StopGroup.

(** * Properties *)

(** C18: the peers of a server do not disturb each other. In any run of the group,
    whatever clients connect and whatever their peers do, each peer has gone
    through a run that it could have gone through alone, started with its ID and
    seeing of the others only the counters of the process, and all the tunnels it
    was given belong to the client with its ID. *)
Theorem group_refines_peers `{TV : TunnelVars} `{CV : ConnVars} {C : Type} `{Reader C, Writer C} (g : global_stats)
    (tr : list (group_label C)) (pg : PeerGroup C) (k : nat) (p : Peer ServerManager C) :
  run group_run_step (NewPeerGroup g) tr = Some pg -> pg_peers pg !! k = Some p ->
  exists g0 tr0, run peer_run_step (NewServerPeerWithID (peer_id p) g0) tr0 = Some p /\
    Forall (for_peer (peer_id p)) tr0.
Proof. intros Hi%group_run_inv Hk. exact (Forall_lookup_1 _ _ _ _ (gi_alone _ Hi) Hk). Qed.

(** C19: a client has one live peer. In any run of the group a peer whose context
    is not over is registered under its ID, so that two of them never have the
    same; what is registered is a peer of that ID; and a tunnel on its way to a
    peer goes to one of its own ID. *)
Theorem group_one_live_peer `{TV : TunnelVars} `{CV : ConnVars} {C : Type} `{Reader C, Writer C} (g : global_stats)
    (tr : list (group_label C)) (pg : PeerGroup C) :
  run group_run_step (NewPeerGroup g) tr = Some pg ->
  (forall k p, pg_peers pg !! k = Some p -> pr_cancelled p = false -> peerMapping pg !! peer_id p = Some k) /\
  (forall id k, peerMapping pg !! id = Some k -> exists p, pg_peers pg !! k = Some p /\ peer_id p = id) /\
  (forall k t, (k, t) ∈ pg_found pg -> exists p, pg_peers pg !! k = Some p /\ peer_id p = peerID t).
Proof.
  intros Hi%group_run_inv. split; [exact (gi_live _ Hi)|]. split; [|exact (gi_found _ Hi)].
  intros id k Hm%(gi_mapped _ Hi). by apply (gi_ids _ Hi).
Qed.

(** A connection becomes a tunnel of its client. A connection that sends the
    ID [p] and takes the answer is found a peer with that ID - the registered one,
    or a new one when there is none - and is given to it as its last tunnel, its
    stream at the first byte after the ID. *)
Theorem group_adds_tunnel `{TV : TunnelVars} `{CV : ConnVars} {C : Type} `{Duplex C} (c : C) (id p : Z) (bs : list byte)
    (e : option error) (g : global_stats) (tr : list (group_label C)) (pg pg1 : PeerGroup C) :
  is_u32 p -> delivers c (le_put 4 p ++ bs) e -> run group_run_step (NewPeerGroup g) tr = Some pg ->
  AddTunnelFromConn c id pg = (None, pg1) ->
  exists k t q q' pg2, peerID t = p /\ delivers (Conn t) bs e /\ emitted (Conn t) = emitted c ++ le_put 4 p /\
    found_peer pg t pg1 k q /\
    attach (length (pg_found pg)) pg1 = Ret pg2 /\ pg_found pg2 = pg_found pg /\ peerMapping pg2 = peerMapping pg1 /\
    pg_peers pg2 = <[k := q']> (pg_peers pg1) /\ peer_id q' = p /\ pr_cancelled q' = pr_cancelled q /\
    entries (tunnelPool q') = entries (tunnelPool q) ++ [mkEntry t AtCancel InLoop true].
Proof.
  intros Hp Hd Hi%group_run_inv. unfold AddTunnelFromConn.
  destruct (NewPassiveTunnel c id) as [[e'|] t] eqn:En; [done|]. intros [= <-].
  destruct (NewPassiveTunnel_spec _ _ _ _ _ _ Hp Hd En) as (Hid & Hem & Hd').
  destruct (find_peer_spec _ t Hi) as (k & q & Hf).
  destruct (attach_spec _ _ _ _ _ (fp_found _ _ _ _ _ Hf) (fp_peer _ _ _ _ _ Hf)) as (q' & Ha & Hq & Hc & He).
  exists k, t, q, q'. eexists. split_and!; try done. by rewrite Hq, (fp_id _ _ _ _ _ Hf).
Qed.

(** [Stop] ends every registered peer, once. When it returns, the contexts of
    the registered peers and of their pools are over and their queues are closed;
    called again before the peers have been unregistered, it panics on closing a
    closed channel. *)
Theorem group_stop `{TV : TunnelVars} `{CV : ConnVars} {C : Type} `{Reader C, Writer C} (g : global_stats)
    (tr : list (group_label C)) (pg pg' : PeerGroup C) :
  run group_run_step (NewPeerGroup g) tr = Some pg -> Stop pg = Ret pg' ->
  (forall id k p, peerMapping pg !! id = Some k -> pg_peers pg' !! k = Some p -> stopped p) /\
  (peerMapping pg <> ∅ -> Stop pg' = Panic).
Proof.
  intros Hi%group_run_inv Hs. pose proof (stop_peers_inv _ _ _ Hi Hs) as Hi'.
  destruct (stop_peers_stopped _ _ _ Hs) as [Hm Hst].
  assert (forall id k p, peerMapping pg !! id = Some k -> pg_peers pg' !! k = Some p -> stopped p) as Hall.
  { intros id k p Hk Hp. apply (Hst k p Hp). left. apply registered_mapped. eauto. }
  split; [exact Hall|]. intros (id & k & Hk)%map_choose. unfold Stop.
  assert (k ∈ registered pg') as Hin by (apply registered_mapped; rewrite Hm; eauto).
  destruct (registered pg') as [|j ks] eqn:Er; [by apply elem_of_nil in Hin|].
  assert (j ∈ registered pg') as Hj by (rewrite Er; by left). apply registered_mapped in Hj as [id' Hj].
  destruct (gi_ids _ Hi' id' j) as (q & Hq & _); [by apply (gi_mapped _ Hi')|].
  cbn [stop_peers]. unfold on_peer. rewrite Hq. cbn [peer_step]. rewrite Stop_again; [done|].
  rewrite Hm in Hj. by eapply Hall.
Qed.

(** ** Examples *)

#[local] Existing Instance Tunnel.const_go.
#[local] Existing Instance ConnPool.const_go.

(** A connection that sends the ID 77, and then ends or stays silent. *)
Definition client_conn (oe : option error) : duplex stream sink := mkDuplex (Stream [le_put 4 77; [x01]] oe) (Sink [] None).

Definition two_clients : list (group_label (duplex stream sink)) :=
  [GAccept (Ok (client_conn None)) 5; GAttach 0; GAccept (Err ErrClosed) 0;
   GAccept (Ok (mkDuplex (Stream [le_put 4 78] None) (Sink [] None))) 6; GAttach 0].

Lemma two_clients_run : exists pg, run group_run_step (NewPeerGroup (InitStats 10)) two_clients = Some pg /\
  length (pg_peers pg) = 2%nat /\ exists p, pg_peers pg !! 1%nat = Some p /\ peer_id p = 78.
Proof.
  destruct (run_succeeds (match run group_run_step (NewPeerGroup (InitStats 10)) two_clients with
    | Some pg => if decide (length (pg_peers pg) = 2%nat) then
        match pg_peers pg !! 1%nat with
        | Some p => if decide (peer_id p = 78) then Some (pg, p) else None | None => None end else None
    | None => None end)) as [[pg p] E']; [vm_compute; reflexivity|].
  destruct (run group_run_step (NewPeerGroup (InitStats 10)) two_clients) as [pg0|]; [|done].
  case_decide as Hl; [|done]. destruct (pg_peers pg0 !! 1%nat) as [p0|] eqn:Ep; [|done]. case_decide as Hid; [|done].
  exists pg0. split; [done|]. split; [exact Hl|]. by exists p0.
Qed.

Lemma group_refines_peers_witness :
  exists (pg : PeerGroup (duplex stream sink)) p, pg_peers pg !! 1%nat = Some p /\ peer_id p = 78 /\
  exists g0 tr0, run peer_run_step (NewServerPeerWithID (peer_id p) g0) tr0 = Some p /\ Forall (for_peer (peer_id p)) tr0.
Proof.
  destruct two_clients_run as (pg & Hrun & _ & p & Hp & Hid). exists pg, p. split; [exact Hp|]. split; [exact Hid|].
  exact (group_refines_peers (InitStats 10) two_clients pg 1 p Hrun Hp).
Defined.

Lemma group_one_live_peer_witness :
  exists pg : PeerGroup (duplex stream sink), length (pg_peers pg) = 2%nat /\
  (forall k p, pg_peers pg !! k = Some p -> pr_cancelled p = false -> peerMapping pg !! peer_id p = Some k).
Proof.
  destruct two_clients_run as (pg & Hrun & Hl & _). exists pg. split; [exact Hl|].
  exact (proj1 (group_one_live_peer (InitStats 10) two_clients pg Hrun)).
Defined.

Lemma group_adds_tunnel_witness :
  exists pg pg1 k (t : Tunnel (duplex stream sink)) q, peerID t = 77 /\ delivers (Conn t) [x01] None /\ found_peer pg t pg1 k q /\
    exists pg2, attach 0 pg1 = Ret pg2.
Proof.
  destruct (AddTunnelFromConn (client_conn None) 5 (NewPeerGroup (InitStats 10))) as [[e|] pg1] eqn:Ea;
    [vm_compute in Ea; discriminate Ea|].
  destruct (group_adds_tunnel (client_conn None) 5 77 [x01] None (InitStats 10) [] (NewPeerGroup (InitStats 10)) pg1)
    as (k & t & q & q' & pg2 & H1 & H2 & _ & H4 & H5 & _).
  - unfold is_u32. lia.
  - by vm_compute.
  - reflexivity.
  - exact Ea.
  - exists (NewPeerGroup (InitStats 10)), pg1, k, t, q. split; [exact H1|]. split; [exact H2|]. split; [exact H4|].
    exists pg2. exact H5.
Defined.

Lemma group_stop_witness :
  exists pg pg' : PeerGroup (duplex stream sink), peerMapping pg !! 77 = Some 0%nat /\ Stop pg = Ret pg' /\
  (forall id k p, peerMapping pg !! id = Some k -> pg_peers pg' !! k = Some p -> stopped p) /\ (peerMapping pg <> ∅ -> Stop pg' = Panic).
Proof.
  destruct (run_succeeds (match run group_run_step (NewPeerGroup (InitStats 10)) two_clients with
    | Some pg => if decide (peerMapping pg !! 77 = Some 0%nat) then
        match Stop pg with Ret pg' => Some (pg, pg') | _ => None end else None
    | None => None end)) as [[pg pg'] E']; [vm_compute; reflexivity|].
  destruct (run group_run_step (NewPeerGroup (InitStats 10)) two_clients) as [pg0|] eqn:E; [|done].
  case_decide as Hd; [|done]. destruct (Stop pg0) as [pg0'| |] eqn:Es; [|discriminate E'..].
  exists pg0, pg0'. split; [exact Hd|]. split; [exact Es|].
  exact (group_stop (InitStats 10) two_clients pg0 pg0' E Es).
Defined.

(** A tunnel can be lost to a dead peer. A tunnel that finds its peer just
    before the peer's context ends - the countdown of a peer left without tunnels
    is up - is added to it afterwards: it stays open, but the peer's pools are
    cancelled and the group has forgotten the peer. *)
Theorem tunnel_joins_dead_peer :
  exists tr (pg : PeerGroup (duplex stream sink)) p en,
    run group_run_step (NewPeerGroup (InitStats 10)) tr = Some pg /\
    pg_peers pg = [p] /\ last (entries (tunnelPool p)) = Some en /\
    tn_closed (e_tunnel en) = false /\ tn_cancelled (e_tunnel en) = false /\ tp_cancelled (tunnelPool p) = true /\
    cp_cancelled (connectionPool p) = true /\ peerMapping pg = ∅ /\ pg_found pg = [] /\ pg_waiting pg = [].
Proof.
  set (tr := [GAccept (Ok (mkDuplex (Stream [le_put 4 77] (Some EOF)) (Sink [] None))) 5; GAttach 0;
    GPeer 0 (YTunnel (PIn 0 (fun _ => 1))); GPeer 0 (YTunnel (PRemove 0));
    GAccept (Ok (client_conn None)) 6; GPeer 0 (YManager (SExpired 0)); GRemove 0; GAttach 0]).
  exists tr.
  destruct (run_succeeds (match run group_run_step (NewPeerGroup (InitStats 10)) tr with
    | Some pg => match pg_peers pg with
        | [p] => match last (entries (tunnelPool p)) with
            | Some en => if decide (tn_closed (e_tunnel en) = false /\ tn_cancelled (e_tunnel en) = false /\
                tp_cancelled (tunnelPool p) = true /\ cp_cancelled (connectionPool p) = true /\
                peerMapping pg = ∅ /\ length (pg_found pg) = 0%nat /\ pg_waiting pg = []) then Some (pg, p, en) else None
            | None => None end
        | _ => None end
    | None => None end)) as [[[pg p] en] E]; [vm_compute; reflexivity|].
  destruct (run _ _ _) as [pg'|]; [|done]. destruct (pg_peers pg') as [|p' [|]] eqn:Ep; [done| |done].
  destruct (last _) as [en'|] eqn:El; [|done]. case_decide as Hd; [|done]. injection E as <- <- <-.
  destruct Hd as (D1 & D2 & D3 & D4 & D5 & D6%length_zero_iff_nil & D7). exists pg', p', en'. by split_and!.
Qed.
