(* ===== verification/Server.v ===== *)
(** server/server.go: the server with one accepting goroutine per address, over the
    peer group they share; the goroutine number read off a stack trace. *)

From S2P Require Import Prelude GoIO GoNet Text GoIP Stats Tunnel TunnelPool PoolManager ConnPool Peer PeerGroup.

Local Open Scope Z_scope.

(** The logger is left out. *)
Record Server (C : Type) : Type := mkServer {
  peerGroup : PeerGroup C;
  keyfile : list byte;
  certfile : list byte;
  authkey : list byte;
}.
Arguments mkServer {C} _ _ _ _.
Arguments peerGroup {C} _.
Arguments keyfile {C} _.
Arguments certfile {C} _.
Arguments authkey {C} _.

(** A goroutine of [ServeThread]: before [net.Listen], in its accept loop, returned
    (with [net.Listen]'s error: the loop has no other way out). *)
Inductive thread : Type :=
  | ThreadStarted (address : list byte)
  | ThreadAccepting (address : list byte)
  | ThreadReturned (err : error).

(** A call of [Serve]: its goroutines, the counter of its WaitGroup, and what it has
    returned. *)
Record serving (C : Type) : Type := mkServing {
  sv_server : Server C;
  sv_threads : list thread;
  sv_wg : Z;
  sv_returned : option (option error);
}.
Arguments mkServing {C} _ _ _ _.
Arguments sv_server {C} _.
Arguments sv_threads {C} _.
Arguments sv_wg {C} _.
Arguments sv_returned {C} _.

Inductive serve_label (C : Type) : Type :=
  | SListen (i : nat) (r : option error)                      (** goroutine [i]: [net.Listen] *)
  | SAccept (i : nat) (r : result error C) (tunnelID : Z)     (** a pass of its loop *)
  | SReturn                                                   (** [wg.Wait()] and [return nil] *)
  | SGroup (l : group_label C)                                (** the other goroutines of the group *)
  | SCancel.                                                  (** [s.Cancel()] *)
Arguments SListen {C} _ _.
Arguments SAccept {C} _ _ _.
Arguments SReturn {C}.
Arguments SGroup {C} _.
Arguments SCancel {C}.

Section Server.
Context `{TV : TunnelVars} `{CV : ConnVars} {C : Type} `{Reader C, Writer C}.
Implicit Types (s : Server C) (v : serving C).

(** [NewServer(cipher, authkey, keyfile, certfile)]; the cipher is on the connections
    the group is given. *)
Definition NewServer (auth key cert : list byte) (g : global_stats) : Server C :=
  mkServer (NewPeerGroup g) key cert auth.

Definition GetPeerGroup s : PeerGroup C := peerGroup s.

Definition set_group (pg : PeerGroup C) s : Server C := mkServer pg (keyfile s) (certfile s) (authkey s).

Definition Server_Cancel s : outcome (Server C) := pg ← Stop (peerGroup s); Ret (set_group pg s).

(** [s.Serve(addresses)] up to [wg.Wait()]: [wg.Add(1)] and a goroutine for each. *)
Fixpoint spawn (addresses : list (list byte)) v : serving C :=
  match addresses with
  | [] => v
  | address :: rest =>
      spawn rest (mkServing (sv_server v) (sv_threads v ++ [ThreadStarted address]) (sv_wg v + 1) (sv_returned v))
  end.

Definition Serve (addresses : list (list byte)) s : serving C := spawn addresses (mkServing s [] 0 None).

Definition set_thread (i : nat) (t : thread) v : serving C :=
  mkServing (sv_server v) (<[i := t]> (sv_threads v)) (sv_wg v) (sv_returned v).
Definition set_server s v : serving C := mkServing s (sv_threads v) (sv_wg v) (sv_returned v).

(** [wg.Done()], which panics below zero. *)
Definition wg_done v : outcome (serving C) :=
  if decide (sv_wg v - 1 < 0) then Panic
  else Ret (mkServing (sv_server v) (sv_threads v) (sv_wg v - 1) (sv_returned v)).

(** [net.Listen] of goroutine [i]; on an error it returns it, which nobody reads. *)
Definition ServeThread_listen (i : nat) (r : option error) v : outcome (serving C) :=
  match sv_threads v !! i with
  | Some (ThreadStarted address) =>
      match r with
      | Some e => wg_done (set_thread i (ThreadReturned e) v)
      | None => Ret (set_thread i (ThreadAccepting address) v)
      end
  | _ => Blocks
  end.

(** A step of a group that is neither the accept loop's nor [Stop]. *)
Definition own_group (l : group_label C) : bool :=
  match l with GAccept _ _ | GStop => false | _ => true end.

Definition serve_step v (l : serve_label C) : outcome (serving C) :=
  match l with
  | SListen i r => ServeThread_listen i r v
  | SAccept i r id =>
      match sv_threads v !! i with
      | Some (ThreadAccepting _) =>
          Ret (set_server (set_group (ServeThread_pass r id (peerGroup (sv_server v))) (sv_server v)) v)
      | _ => Blocks
      end
  | SReturn =>
      match sv_returned v with
      | None => if decide (sv_wg v = 0) then Ret (mkServing (sv_server v) (sv_threads v) (sv_wg v) (Some None)) else Blocks
      | Some _ => Blocks
      end
  | SGroup l =>
      if own_group l then
        pg ← group_step (peerGroup (sv_server v)) l; Ret (set_server (set_group pg (sv_server v)) v)
      else Blocks
  | SCancel => s ← Server_Cancel (sv_server v); Ret (set_server s v)
  end.

Definition serve_run_step v l : option (serving C) :=
  match serve_step v l with Ret v => Some v | _ => None end.

(** The same step as the group sees it. *)
Definition group_part (l : serve_label C) : list (group_label C) :=
  match l with
  | SAccept _ r id => [GAccept r id]
  | SGroup l => [l]
  | SCancel => [GStop]
  | _ => []
  end.

(** * Facts *)

Definition running (t : thread) : bool := match t with ThreadReturned _ => false | _ => true end.

Definition still_running (l : list thread) : Z := Z.of_nat (length (filter (fun t => running t = true) l)).

Record serve_inv (addresses : list (list byte)) (pg0 : PeerGroup C) (tr : list (serve_label C)) v : Prop := {
  si_threads : length (sv_threads v) = length addresses;
  si_wg : sv_wg v = still_running (sv_threads v);
  si_returned e : sv_returned v = Some e -> e = None /\ sv_wg v = 0;
  si_group : run group_run_step pg0 (concat (group_part <$> tr)) = Some (peerGroup (sv_server v));
}.

Lemma still_running_insert l i t t' :
  l !! i = Some t ->
  still_running (<[i := t']> l) = still_running l - (if running t then 1 else 0) + (if running t' then 1 else 0).
Proof.
  unfold still_running. revert i. induction l as [|a l IH]; intros [|i]; try done.
  - intros [= ->]. change (<[0%nat := t']> (t :: l)) with (t' :: l). rewrite !filter_cons.
    destruct (running t), (running t'); repeat case_decide; try done; cbn [length]; lia.
  - intros Hi. change (<[S i := t']> (a :: l)) with (a :: <[i := t']> l). rewrite !filter_cons.
    specialize (IH _ Hi). case_decide; cbn [length]; lia.
Qed.

Lemma still_running_pos l i t : l !! i = Some t -> running t = true -> 0 < still_running l.
Proof.
  intros Hi Ht. unfold still_running. enough (t ∈ filter (fun t => running t = true) l) as Hin.
  { destruct (filter _ l); [by apply elem_of_nil in Hin|cbn [length]; lia]. }
  apply list_elem_of_filter. split; [done|]. by eapply list_elem_of_lookup_2.
Qed.

Lemma spawn_spec addresses v :
  sv_threads (spawn addresses v) = sv_threads v ++ (ThreadStarted <$> addresses) /\
  sv_wg (spawn addresses v) = sv_wg v + Z.of_nat (length addresses) /\
  sv_returned (spawn addresses v) = sv_returned v /\ sv_server (spawn addresses v) = sv_server v.
Proof.
  revert v. induction addresses as [|a addresses IH]; intros v; cbn [spawn fmap list_fmap length].
  - rewrite app_nil_r, Z.add_0_r. done.
  - destruct (IH (mkServing (sv_server v) (sv_threads v ++ [ThreadStarted a]) (sv_wg v + 1) (sv_returned v)))
      as (-> & -> & -> & ->). cbn [sv_threads sv_wg sv_returned sv_server]. rewrite <-app_assoc. split; [done|]. split; [lia|done].
Qed.

Lemma Serve_inv addresses s : serve_inv addresses (peerGroup s) [] (Serve addresses s).
Proof.
  destruct (spawn_spec addresses (mkServing s [] 0 None)) as (E1 & E2 & E3 & E4). unfold Serve.
  constructor; rewrite ?E1, ?E2, ?E3, ?E4; cbn [sv_threads sv_wg sv_returned sv_server app].
  - by rewrite length_fmap.
  - unfold still_running. induction addresses as [|a l IH]; [done|]. cbn [fmap list_fmap]. rewrite filter_cons_True by done.
    cbn [length]. destruct (spawn_spec l (mkServing s [] 0 None)) as (F1 & F2 & F3 & F4).
    specialize (IH F1 F2 F3 F4). lia.
  - done.
  - done.
Qed.
End Server.

Section Facts.
Context `{TV : TunnelVars} `{CV : ConnVars} {C : Type} `{Reader C, Writer C}.
Implicit Types (v : serving C).

Lemma group_part_app (tr : list (serve_label C)) l :
  concat (group_part <$> (tr ++ [l])) = concat (group_part <$> tr) ++ group_part l.
Proof. rewrite fmap_app, concat_app. cbn. by rewrite app_nil_r. Qed.

(** A label of the group is its step. *)
Lemma run_group_snoc pg0 gtr pg (l : group_label C) pg' :
  run group_run_step pg0 gtr = Some pg -> group_step pg l = Ret pg' -> run group_run_step pg0 (gtr ++ [l]) = Some pg'.
Proof. intros Hr Hs. rewrite run_app, Hr. cbn. unfold group_run_step. by rewrite Hs. Qed.

(** The goroutine of [ServeThread] ends when its listener cannot be opened, and only then. *)
Lemma listen_inv i r v v' :
  ServeThread_listen i r v = Ret v' ->
  exists address, sv_threads v !! i = Some (ThreadStarted address) /\ sv_server v' = sv_server v /\
    sv_returned v' = sv_returned v /\
    match r with
    | Some e => sv_threads v' = <[i := ThreadReturned e]> (sv_threads v) /\ sv_wg v' = sv_wg v - 1 /\ 0 < sv_wg v
    | None => sv_threads v' = <[i := ThreadAccepting address]> (sv_threads v) /\ sv_wg v' = sv_wg v
    end.
Proof.
  unfold ServeThread_listen. destruct (sv_threads v !! i) as [[address| |]|]; try done. destruct r as [e|].
  - unfold wg_done. cbn [set_thread sv_wg]. case_decide; [done|]. intros [= <-]. exists address. cbn. repeat split; lia.
  - intros [= <-]. by exists address.
Qed.

Lemma serve_inv_step addresses pg0 tr v l v' :
  serve_inv addresses pg0 tr v -> serve_step v l = Ret v' -> serve_inv addresses pg0 (tr ++ [l]) v'.
Proof.
  intros [Ht Hw Hr Hg]. destruct l as [i r|i r id| |l|]; cbn [serve_step].
  - intros Hs. apply listen_inv in Hs as (address & Hi & E1 & E2 & Hs).
    pose proof (still_running_pos _ _ _ Hi eq_refl) as Hpos.
    constructor; rewrite ?E1, ?E2, ?group_part_app; cbn [group_part]; rewrite ?app_nil_r.
    + destruct r; destruct Hs as [-> _]; by rewrite length_insert.
    + destruct r; destruct Hs as [-> Hs]; rewrite (still_running_insert _ _ _ _ Hi); cbn [running]; lia.
    + intros e He. destruct (Hr e He). lia.
    + done.
  - destruct (sv_threads v !! i) as [[|address|]|]; try done. intros [= <-]. constructor; [done..|].
    rewrite group_part_app. by eapply run_group_snoc.
  - destruct (sv_returned v) eqn:E; [done|]. case_decide; [|done]. intros [= <-]. constructor; [done..| |].
    + cbn. by intros e [= <-].
    + rewrite group_part_app. cbn [group_part]. by rewrite app_nil_r.
  - destruct (own_group l); [|done]. destruct (group_step _ l) as [pg| |] eqn:Es; [|done..]. cbn. intros [= <-].
    constructor; [done..|]. rewrite group_part_app. by eapply run_group_snoc.
  - unfold Server_Cancel. destruct (Stop _) as [pg| |] eqn:Es; [|done..]. cbn. intros [= <-].
    constructor; [done..|]. rewrite group_part_app. by eapply run_group_snoc.
Qed.

Lemma serve_run_inv addresses (s : Server C) tr v :
  run serve_run_step (Serve addresses s) tr = Some v -> serve_inv addresses (peerGroup s) tr v.
Proof.
  apply (run_invariant serve_run_step (fun tr v => serve_inv addresses (peerGroup s) tr v)); [apply Serve_inv|].
  intros tr' v1 l v2 Hi. unfold serve_run_step. destruct (serve_step v1 l) eqn:Es; [|done..]. intros [= <-].
  by eapply serve_inv_step.
Qed.

(** An accepting goroutine goes on for ever. *)
Lemma accepting_stays i address v l v' :
  sv_threads v !! i = Some (ThreadAccepting address) -> serve_step v l = Ret v' ->
  sv_threads v' !! i = Some (ThreadAccepting address).
Proof.
  intros Hi. destruct l as [j r|j r id| |l|]; cbn [serve_step].
  - intros Hs. apply listen_inv in Hs as (a & Hj & _ & _ & Hs).
    assert (i <> j) as Hne by congruence. destruct r; destruct Hs as [-> _]; by rewrite list_lookup_insert_ne.
  - destruct (sv_threads v !! j) as [[| |]|]; try done. by intros [= <-].
  - destruct (sv_returned v); [done|]. case_decide; [|done]. by intros [= <-].
  - destruct (own_group l); [|done]. destruct (group_step _ l); [|done..]. by intros [= <-].
  - destruct (Server_Cancel _); [|done..]. by intros [= <-].
Qed.
End Facts.

(** * The goroutine's number *)

(** [strings.TrimPrefix] and [strings.Fields], on ASCII. *)
Definition TrimPrefix (s prefix : list byte) : list byte :=
  if has_prefix s prefix then drop (length prefix) s else s.

Fixpoint fields (s word : list byte) : list (list byte) :=
  match s with
  | [] => if decide (word = []) then [] else [word]
  | c :: s => if is_space c then (if decide (word = []) then fields s [] else word :: fields s []) else fields s (word ++ [c])
  end.
Definition Fields (s : list byte) : list (list byte) := fields s [].

(** [strconv.Atoi]. *)
Fixpoint decimal (s : list byte) (n : Z) : option Z :=
  match s with
  | [] => Some n
  | c :: s => match digit c with Some d => decimal s (n * 10 + d) | None => None end
  end.
Definition Atoi (s : list byte) : option Z :=
  let '(sign, ds) := match s with x2d :: r => (-1, r) | x2b :: r => (1, r) | _ => (1, s) end in
  if decide (ds = []) then None
  else n ← decimal ds 0; if decide (- 2 ^ 63 <= sign * n < 2 ^ 63) then Some (sign * n) else None.

(** [stack]: what [runtime.Stack] would write; it has 64 bytes to write in. *)
Definition getGoroutineID (stack : list byte) : outcome Z :=
  match Fields (TrimPrefix (take 64 stack) (str "goroutine ")) with
  | [] => Panic
  | idField :: _ => match Atoi idField with Some id => Ret id | None => Panic end
  end.

Lemma digit_byte d : 0 <= d < 10 -> digit (byte_of_Z (48 + d)) = Some d.
Proof.
  intros Hd. unfold digit. rewrite Z_of_byte_of_Z. unfold u8. rewrite Z.mod_small by lia.
  rewrite decide_True by lia. f_equal. lia.
Qed.

Lemma decimal_digits fuel n acc :
  0 <= n < 10 ^ Z.of_nat fuel -> (fuel <> 0)%nat -> decimal (digits fuel n acc) 0 = decimal acc n.
Proof.
  revert n acc. induction fuel as [|fuel IH]; intros n acc Hn Hf; [done|]. cbn [digits].
  pose proof (Z.mod_pos_bound n 10 ltac:(lia)). pose proof (Z.div_mod n 10 ltac:(lia)).
  case_decide as Hd.
  - cbn [decimal]. rewrite digit_byte by lia. f_equal. lia.
  - assert (fuel <> 0)%nat as Hf'.
    { intros ->. rewrite Nat2Z.inj_succ in Hn. change (10 ^ Z.succ (Z.of_nat 0)) with 10 in Hn. apply Hd.
      apply Z.div_small. lia. }
    rewrite IH; [|split; [apply Z.div_pos; lia|]|done].
    + cbn [decimal]. rewrite digit_byte by lia. f_equal. lia.
    + apply Z.div_lt_upper_bound; [lia|]. rewrite Nat2Z.inj_succ, Z.pow_succ_r in Hn by lia. lia.
Qed.

Lemma digits_cons fuel n acc : (fuel <> 0)%nat -> exists c l, digits fuel n acc = c :: l.
Proof.
  revert n acc. induction fuel as [|fuel IH]; intros n acc Hf; [done|]. cbn [digits]. case_decide; [by eexists _, _|].
  destruct fuel; [by eexists _, _|]. by apply IH.
Qed.

Lemma digits_length fuel n acc : (length (digits fuel n acc) <= fuel + length acc)%nat.
Proof.
  revert n acc. induction fuel as [|fuel IH]; intros n acc; cbn [digits]; [lia|]. case_decide; [cbn; lia|].
  etrans; [apply IH|]. cbn. lia.
Qed.

(** Printing a number and reading it back. *)
Lemma Atoi_itoa n : 0 <= n < 2 ^ 63 -> Atoi (itoa n) = Some n.
Proof.
  intros Hn. pose proof (itoa_digits n) as Hd. unfold itoa in *.
  assert (decimal (digits 20 n []) 0 = Some n) as Hv by (rewrite decimal_digits; [done|lia|done]).
  destruct (digits_cons 20 n [] ltac:(done)) as (c & l & E). rewrite E in *.
  assert (Atoi (c :: l) = n' ← decimal (c :: l) 0; if decide (- 2 ^ 63 <= 1 * n' < 2 ^ 63) then Some (1 * n') else None) as ->.
  { apply Forall_cons in Hd as [Hc _]. unfold Atoi. destruct c; try done; unfold is_digit in Hc; cbn in Hc; lia. }
  rewrite Hv. cbn [mbind option_bind]. rewrite decide_True by lia. f_equal. lia.
Qed.

Lemma fields_word w rest word : Forall (fun c => is_space c = false) w -> fields (w ++ x20 :: rest) word =
  if decide (word ++ w = []) then fields rest [] else (word ++ w) :: fields rest [].
Proof.
  intros Hw. revert word. induction Hw as [|c w Hc Hw IH]; intros word; cbn [app fields].
  - by rewrite app_nil_r.
  - rewrite Hc, IH, <-app_assoc. done.
Qed.

Lemma digit_not_space c : is_digit c -> is_space c = false.
Proof. unfold is_digit, is_space. intros H. apply bool_decide_eq_false. destruct c; cbn in H; try lia; set_solver. Qed.

(** * Properties *)

Section Properties.
Context `{TV : TunnelVars} `{CV : ConnVars} {C : Type} `{Reader C, Writer C}.

(** C20: serving. The goroutines of [Serve] do to the peers nothing but what the peer
    group does with the connections they accept, so that every theorem on the group
    holds of the server. The WaitGroup never falls below zero. [Serve] returns
    exactly when every listener has failed to open, and returns no error then; while
    one of them is accepting it never returns. *)
Theorem server_serves (addresses : list (list byte)) (auth key cert : list byte) (g : global_stats)
    (tr : list (serve_label C)) (v : serving C) :
  run serve_run_step (Serve addresses (NewServer auth key cert g)) tr = Some v ->
  run group_run_step (NewPeerGroup g) (concat (group_part <$> tr)) = Some (peerGroup (sv_server v)) /\
  (forall i r, serve_step v (SListen i r) <> Panic) /\
  (forall e, sv_returned v = Some e -> e = None /\ Forall (fun t => running t = false) (sv_threads v)) /\
  (Forall (fun t => running t = false) (sv_threads v) -> sv_returned v = None -> is_Some (serve_run_step v SReturn)) /\
  (forall i a tr' v', sv_threads v !! i = Some (ThreadAccepting a) -> run serve_run_step v tr' = Some v' ->
     sv_returned v' = None /\ sv_threads v' !! i = Some (ThreadAccepting a)).
Proof.
  intros Hrun. pose proof (serve_run_inv _ _ _ _ Hrun) as [Ht Hw Hr Hg].
  assert (forall l, Forall (fun t => running t = false) l <-> still_running l = 0) as Hall.
  { intros l. unfold still_running. split.
    - intros Hl. rewrite filter_none; [done|]. eapply Forall_impl; [exact Hl|]. cbn. congruence.
    - intros Hl. apply Forall_lookup. intros i t Hi. destruct (running t) eqn:Et; [|done].
      pose proof (still_running_pos l i t Hi Et) as Hp. unfold still_running in Hp. lia. }
  split; [exact Hg|]. split; [|split; [|split]].
  - intros i r. cbn [serve_step]. unfold ServeThread_listen.
    destruct (sv_threads v !! i) as [[a| |]|] eqn:Ei; try done. destruct r; [|done].
    pose proof (still_running_pos _ _ _ Ei eq_refl). unfold wg_done. cbn [set_thread sv_wg]. rewrite decide_False by lia. done.
  - intros e He. destruct (Hr e He) as [-> Hz]. split; [done|]. apply Hall. lia.
  - intros Hend Hn. unfold serve_run_step. cbn [serve_step]. rewrite Hn. apply Hall in Hend.
    rewrite decide_True by lia. by eexists.
  - intros i a tr' v' Hi Hrun'.
    assert (sv_threads v' !! i = Some (ThreadAccepting a)) as Hi'.
    { revert Hrun'. apply (run_invariant serve_run_step (fun _ v => sv_threads v !! i = Some (ThreadAccepting a))); [done|].
      intros _ v1 l v2 H1. unfold serve_run_step. destruct (serve_step v1 l) eqn:Es; [|done..]. intros [= <-].
      by eapply accepting_stays. }
    split; [|done].
    assert (run serve_run_step (Serve addresses (NewServer auth key cert g)) (tr ++ tr') = Some v') as Hrun2
      by (by rewrite run_app, Hrun).
    pose proof (serve_run_inv _ _ _ _ Hrun2) as [_ Hw' Hr' _].
    destruct (sv_returned v') as [e|] eqn:Ee; [|done]. destruct (Hr' e eq_refl) as [_ Hz].
    pose proof (still_running_pos _ _ _ Hi' eq_refl). lia.
Qed.
End Properties.

(** The number at the head of a stack trace. *)
Theorem goroutine_id (n : Z) (rest : list byte) :
  0 <= n < 2 ^ 63 -> getGoroutineID (str "goroutine " ++ itoa n ++ x20 :: rest) = Ret n.
Proof.
  intros Hn. unfold getGoroutineID. pose proof (digits_length 20 n []) as Hl. fold (itoa n) in Hl. cbn [length] in Hl.
  assert (take 64 (str "goroutine " ++ itoa n ++ x20 :: rest) =
    str "goroutine " ++ itoa n ++ x20 :: take (53 - length (itoa n)) rest) as ->.
  { rewrite !take_app. cbn [length str]. change (length (str "goroutine ")) with 10%nat.
    rewrite (take_ge (str _)) by (cbn; lia). rewrite (take_ge (itoa n)) by lia.
    replace (64 - 10 - length (itoa n))%nat with (S (53 - length (itoa n))) by lia. done. }
  unfold TrimPrefix. assert (has_prefix (str "goroutine " ++ itoa n ++ x20 :: take (53 - length (itoa n)) rest) (str "goroutine ") = true)
    as -> by done.
  rewrite drop_app_length'; [|done]. unfold Fields. rewrite fields_word.
  - cbn [app]. rewrite decide_False; [by rewrite Atoi_itoa|]. unfold itoa.
    by destruct (digits_cons 20 n [] ltac:(done)) as (c & l & ->).
  - eapply Forall_impl; [apply itoa_digits|apply digit_not_space].
Qed.

Lemma goroutine_id_witness : getGoroutineID (str "goroutine 18 [running]:") = Ret 18.
Proof. apply (goroutine_id 18 (str "[running]:")). lia. Defined.

(** ** Two addresses, of which one is taken *)

#[local] Existing Instance ConnPool.const_go.
#[local] Existing Instance Tunnel.const_go.

Definition example_serve : list (serve_label (duplex stream sink)) :=
  [SListen 1 (Some ErrTimeout); SListen 0 None; SAccept 0 (Err ErrTimeout) 5; SAccept 0 (Ok (client_conn None)) 6].

Definition example_serving : serving (duplex stream sink) :=
  Serve [str "0.0.0.0:443"; str "0.0.0.0:80"] (NewServer [] [] [] (InitStats 20)).

Lemma server_serves_witness :
  exists v, run serve_run_step example_serving example_serve = Some v /\
    run group_run_step (NewPeerGroup (InitStats 20)) [GAccept (Err ErrTimeout) 5; GAccept (Ok (client_conn None)) 6] =
      Some (peerGroup (sv_server v)) /\
    length (pg_peers (peerGroup (sv_server v))) = 1%nat.
Proof.
  destruct (run_succeeds (match run serve_run_step example_serving example_serve with
    | Some v => if decide (length (pg_peers (peerGroup (sv_server v))) = 1%nat) then Some v else None
    | None => None end)) as [v E']; [vm_compute; reflexivity|].
  destruct (run serve_run_step example_serving example_serve) as [v0|] eqn:E; [|discriminate E'].
  case_decide as Hl; [|discriminate E']. clear E'. exists v0. split; [reflexivity|]. split; [|exact Hl].
  exact (proj1 (server_serves [str "0.0.0.0:443"; str "0.0.0.0:80"] [] [] [] (InitStats 20) example_serve v0 E)).
Defined.
