(* ===== verification/Config.v ===== *)
(** cmd/rabbit.go: the configuration - defaults, the YAML file, the command line -
    and what [main] makes of it. *)

From S2P Require Import Prelude GoIO Text Block Stats Aead Cipher Tunnel TunnelPool PoolManager ConnPool Peer PeerGroup.

Local Open Scope Z_scope.

Record Config : Type := mkConfig {
  Mode : list byte;
  AppName : list byte;
  Verbose : Z;
  RabbitAddr : list (list byte);
  Password : list byte;
  AEADCipher : list byte;
  Listen : list byte;
  Dest : list byte;
  TunnelN : Z;
  AuthKey : list byte;
  TLSCertFile : list byte;
  TLSKeyFile : list byte;
  Insecure : bool;
  UseSyslog : bool;
  RetryFailedAddr : bool;
  MemProf : list byte;
  StatusServer : list byte;
  StatusACL : list byte;
  PingIntervalSec : Z;
  DialTimeoutSec : Z;
  RecvTimeoutSec : Z;
  PacketWaitTimeoutSec : Z;
  ReconnectDelaySec : Z;
  OutboundBlockTimeoutSec : Z;
  MaxRetries : Z;
  cfg_OrderedRecvQueueSize : Z;
  cfg_SendQueueSize : Z;
  cfg_RecvQueueSize : Z;
  OutboundRecvBufferSize : Z;
}.

Definition NewDefaultConfig : Config := {|
  Mode := str "client";
  AppName := str "rabbit-mtcp";
  Verbose := 4;
  RabbitAddr := [str "ws://127.0.0.1:443/tunnel"];
  Password := str "PASSWORD";
  AEADCipher := str "CHACHA20-IETF-POLY1305";
  Listen := str "127.0.0.1:1080";
  Dest := [];
  TunnelN := 4;
  AuthKey := [];
  TLSCertFile := [];
  TLSKeyFile := [];
  Insecure := false;
  UseSyslog := true;
  RetryFailedAddr := true;
  MemProf := [];
  StatusServer := [];
  StatusACL := [];
  PingIntervalSec := 30;
  DialTimeoutSec := 6;
  RecvTimeoutSec := 20;
  PacketWaitTimeoutSec := 8;
  ReconnectDelaySec := 5;
  OutboundBlockTimeoutSec := 3;
  MaxRetries := 3;
  cfg_OrderedRecvQueueSize := 32;
  cfg_SendQueueSize := 32;
  cfg_RecvQueueSize := 32;
  OutboundRecvBufferSize := 32 * 1024;
|}.

(** What [fs.Parse] leaves: for each flag its value if it was given ([flagsSeen]).
    There are none for the keys of the TLS files, [authkey] and [insecure]. *)
Record CommandLine : Type := mkCommandLine {
  fl_c : option (list byte);
  fl_mode : option (list byte);
  fl_appname : option (list byte);
  fl_verbose : option Z;
  fl_rabbit_addr : option (list byte);
  fl_aead_cipher : option (list byte);
  fl_password : option (list byte);
  fl_listen : option (list byte);
  fl_dest : option (list byte);
  fl_tunnelN : option Z;
  fl_use_syslog : option bool;
  fl_retry_failed : option bool;
  fl_mem_prof : option (list byte);
  fl_status_server : option (list byte);
  fl_status_acl : option (list byte);
  fl_ping_interval : option Z;
  fl_dial_timeout : option Z;
  fl_recv_timeout : option Z;
  fl_packet_timeout : option Z;
  fl_reconnect_delay : option Z;
  fl_outbound_timeout : option Z;
  fl_max_retries : option Z;
  fl_order_rqueue_size : option Z;
  fl_squeue_size : option Z;
  fl_rqueue_size : option Z;
  fl_buffer_size : option Z;
  fl_version : bool;
  fl_v : bool;
}.

(** The files the process sees: the home directory, which paths [os.Stat] finds,
    and what reading one gives. *)
Record Files : Type := mkFiles {
  homeDir : list byte;
  Stat : list byte -> bool;
  ReadFile : list byte -> result error (list byte);
}.

Section Load.
(** [yaml.Unmarshal(content, cfg)]. *)
Context (Unmarshal : list byte -> Config -> result error Config).

Definition possiblePaths (fs : Files) : list (list byte) :=
  [str "config.yaml"; homeDir fs ++ str "/.rabbit/config.yaml"; str "/etc/rabbit/config.yaml"].

(** The path of the file to read; empty for none. *)
Definition configFilePath (cl : CommandLine) (fs : Files) : list byte :=
  let path := default [] (fl_c cl) in
  if decide (path = []) then default [] (List.find (Stat fs) (possiblePaths fs)) else path.

Definition read_config (cl : CommandLine) (fs : Files) : result error Config :=
  let path := configFilePath cl fs in
  if decide (path = []) then Ok NewDefaultConfig
  else
    match ReadFile fs path with
    | Err _ => Err (ErrMsg "failed to read config file")
    | Ok content =>
        match Unmarshal content NewDefaultConfig with
        | Err _ => Err (ErrMsg "failed to parse config file")
        | Ok cfg => Ok cfg
        end
    end.

(** The flags that were given override the file. *)
Definition override (cl : CommandLine) (cfg : Config) : Config := {|
  Mode := ToLower (default (Mode cfg) (ToLower <$> fl_mode cl));
  AppName := default (AppName cfg) (fl_appname cl);
  Verbose := default (Verbose cfg) (fl_verbose cl);
  RabbitAddr := default (RabbitAddr cfg) ((fun s => splitAndTrim s (str ",")) <$> fl_rabbit_addr cl);
  Password := default (Password cfg) (fl_password cl);
  AEADCipher := default (AEADCipher cfg) (fl_aead_cipher cl);
  Listen := default (Listen cfg) (fl_listen cl);
  Dest := default (Dest cfg) (fl_dest cl);
  TunnelN := default (TunnelN cfg) (fl_tunnelN cl);
  AuthKey := AuthKey cfg;
  TLSCertFile := TLSCertFile cfg;
  TLSKeyFile := TLSKeyFile cfg;
  Insecure := Insecure cfg;
  UseSyslog := UseSyslog cfg;
  RetryFailedAddr := default (RetryFailedAddr cfg) (fl_retry_failed cl);
  MemProf := default (MemProf cfg) (fl_mem_prof cl);
  StatusServer := default (StatusServer cfg) (fl_status_server cl);
  StatusACL := default (StatusACL cfg) (fl_status_acl cl);
  PingIntervalSec := default (PingIntervalSec cfg) (fl_ping_interval cl);
  DialTimeoutSec := default (DialTimeoutSec cfg) (fl_dial_timeout cl);
  RecvTimeoutSec := default (RecvTimeoutSec cfg) (fl_recv_timeout cl);
  PacketWaitTimeoutSec := default (PacketWaitTimeoutSec cfg) (fl_packet_timeout cl);
  ReconnectDelaySec := default (ReconnectDelaySec cfg) (fl_reconnect_delay cl);
  OutboundBlockTimeoutSec := default (OutboundBlockTimeoutSec cfg) (fl_outbound_timeout cl);
  MaxRetries := default (MaxRetries cfg) (fl_max_retries cl);
  cfg_OrderedRecvQueueSize := default (cfg_OrderedRecvQueueSize cfg) (fl_order_rqueue_size cl);
  cfg_SendQueueSize := default (cfg_SendQueueSize cfg) (fl_squeue_size cl);
  cfg_RecvQueueSize := default (cfg_RecvQueueSize cfg) (fl_rqueue_size cl);
  OutboundRecvBufferSize := default (OutboundRecvBufferSize cfg) (fl_buffer_size cl);
|}.

(** [LoadConfig()]; [Ok None]: only the version was asked for. *)
Definition LoadConfig (cl : CommandLine) (fs : Files) : result error (option Config) :=
  if fl_version cl || fl_v cl then Ok None
  else cfg ← read_config cl fs; Ok (Some (override cl cfg)).

(** * parseFlags *)

Inductive run_mode : Type := ClientMode | ServerMode.

Definition DefaultPassword : list byte := str "PASSWORD".

Definition parse_mode (mode : list byte) : option run_mode :=
  if decide (mode = str "c" \/ mode = str "client") then Some ClientMode
  else if decide (mode = str "s" \/ mode = str "server") then Some ServerMode
  else None.

(** The package variables it sets. *)
Definition tunnel_vars (cfg : Config) : TunnelVars :=
  mkTunnelVars (PingIntervalSec cfg) (RecvTimeoutSec cfg) (ReconnectDelaySec cfg)
    (@Tunnel.SendQueueSize Tunnel.const_go) (Z.to_nat (cfg_RecvQueueSize cfg)).
Definition conn_vars (cfg : Config) : ConnVars :=
  mkConnVars (Z.to_nat (cfg_RecvQueueSize cfg)) (Z.to_nat (cfg_OrderedRecvQueueSize cfg)).

(** The checks: the mode to run in, if they pass. *)
Definition check_config (cfg : Config) : option run_mode :=
  match parse_mode (Mode cfg) with
  | None => None
  | Some mode =>
      if decide (Password cfg = []) then None
      else if decide (Password cfg = DefaultPassword) then None
      else
        match mode with
        | ServerMode => Some ServerMode
        | ClientMode =>
            if decide (Listen cfg = []) then None
            else if decide (has_prefix (Listen cfg) (str "socks5://") = false /\ Dest cfg = []) then None
            else if decide (TunnelN cfg = 0) then None
            else Some ClientMode
        end
  end.

(** [parseFlags()]: it exits with status 1 on an error and 0 after the version. *)
Inductive parsed : Type :=
  | Exits (status : Z)
  | Rejected (cfg : Config)
  | Accepted (mode : run_mode) (cfg : Config).

Definition parseFlags (cl : CommandLine) (fs : Files) : parsed :=
  match LoadConfig cl fs with
  | Err _ => Exits 1
  | Ok None => Exits 0
  | Ok (Some cfg) => match check_config cfg with Some mode => Accepted mode cfg | None => Rejected cfg end
  end.
End Load.

(** * main *)

(** What [main] starts: the client's peer, by its ID, or the server's group; with
    the cipher of the configuration, [None] if there is none. *)
Section Main.
Context `{Primitives} {C : Type}.

Inductive process : Type :=
  | ClientProcess (p : Peer ClientManager C)
  | ServerProcess (pg : PeerGroup C).

Definition main (mode : run_mode) (cfg : Config) (peerID : Z) : option (option Cipher * process) :=
  let g := InitStats 20 in
  c ← main_cipher (String.string_of_list_byte (AEADCipher cfg)) (Password cfg);
  Some (c,
    match mode with
    | ClientMode =>
        ClientProcess (newClientPeerWithID (TV := tunnel_vars cfg) peerID (TunnelN cfg)
          (String.string_of_list_byte <$> RabbitAddr cfg) (RetryFailedAddr cfg) g)
    | ServerMode => ServerProcess (NewPeerGroup g)
    end).
End Main.
Arguments process C : clear implicits.

(** * Facts *)

(** The key derivation always ends, so [main] always gets past it. *)
Lemma main_cipher_total `{Primitives} name password : is_Some (main_cipher name password).
Proof.
  unfold main_cipher. apply fmap_is_Some. unfold NewAEADCipher. destruct (lookup_aead _) as [[size New]|]; [|by eexists].
  rewrite decide_True by done. destruct (kdf_length password size) as (key & -> & _). by eexists.
Qed.

Section Checks.
Context (Unmarshal : list byte -> Config -> result error Config).
Implicit Types (cl : CommandLine) (fs : Files) (cfg : Config).

Lemma parseFlags_accepted cl fs mode cfg :
  parseFlags Unmarshal cl fs = Accepted mode cfg <->
  fl_version cl = false /\ fl_v cl = false /\
  exists base, read_config Unmarshal cl fs = Ok base /\ cfg = override cl base /\ check_config cfg = Some mode.
Proof.
  unfold parseFlags, LoadConfig. destruct (fl_version cl), (fl_v cl); cbn [orb]; try (split; [done|by intros (? & ? & _)]).
  destruct (read_config Unmarshal cl fs) as [base|e]; cbn [mbind result_bind].
  - destruct (check_config (override cl base)) as [mode'|] eqn:E; split.
    + intros [= <- <-]. eauto 10.
    + intros (_ & _ & base' & [= <-] & -> & E'). congruence.
    + done.
    + intros (_ & _ & base' & [= <-] & -> & E'). congruence.
  - split; [done|]. by intros (_ & _ & base & ? & _).
Qed.

Lemma check_config_some cfg mode :
  check_config cfg = Some mode <->
  parse_mode (Mode cfg) = Some mode /\ Password cfg <> [] /\ Password cfg <> DefaultPassword /\
  (mode = ClientMode ->
   Listen cfg <> [] /\ (has_prefix (Listen cfg) (str "socks5://") = true \/ Dest cfg <> []) /\ TunnelN cfg <> 0).
Proof.
  unfold check_config. split.
  - destruct (parse_mode _) as [m|]; [|done]. do 2 (case_decide; [done|]). destruct m; [|intros [= <-]; by split_and!].
    case_decide; [done|]. case_decide as Hd; [done|]. case_decide; [done|]. intros [= <-]. split_and!; try done. intros _.
    split_and!; [done| |done]. destruct (has_prefix _ _); [by left|]. right. intros E. by apply Hd.
  - intros (-> & H1 & H2 & H3). rewrite !decide_False by done. destruct mode; [|done].
    destruct (H3 eq_refl) as (H4 & H5 & H6). rewrite !decide_False; [done|done| |done].
    intros [E1 E2]. by destruct H5 as [E|E]; [rewrite E in E1|].
Qed.
End Checks.

(** The two modes by the names the option takes. *)
Lemma parse_mode_some s mode :
  parse_mode s = Some mode <->
  match mode with ClientMode => s = str "c" \/ s = str "client" | ServerMode => s = str "s" \/ s = str "server" end.
Proof.
  unfold parse_mode. repeat case_decide; destruct mode; split; try done; intros; try done.
  all: destruct_or!; subst; try discriminate; naive_solver.
Qed.

(** * Properties *)

(** What the process runs with. If the options and the file are accepted, the
    password is neither empty nor the default, and was given on the command line if
    there is no file; an option that is given wins over the file; the mode is one of
    the four names in any case; a client has an address to listen on, a target
    unless it speaks SOCKS5, and a number of tunnels other than zero. [main] then
    always starts: the client a peer that takes no connections from the tunnels,
    the server an empty group. *)
Theorem accepted_configuration `{Primitives} {C : Type} (Unmarshal : list byte -> Config -> result error Config)
    (cl : CommandLine) (fs : Files) (mode : run_mode) (cfg : Config) (peerID : Z) :
  parseFlags Unmarshal cl fs = Accepted mode cfg ->
  (Password cfg <> [] /\ Password cfg <> DefaultPassword) /\
  (configFilePath cl fs = [] -> fl_password cl = Some (Password cfg)) /\
  (forall pw, fl_password cl = Some pw -> Password cfg = pw) /\
  (forall l, fl_listen cl = Some l -> Listen cfg = l) /\ (forall n, fl_tunnelN cl = Some n -> TunnelN cfg = n) /\
  (forall s, fl_mode cl = Some s -> parse_mode (ToLower s) = Some mode) /\
  (mode = ClientMode ->
   Listen cfg <> [] /\ (has_prefix (Listen cfg) (str "socks5://") = true \/ Dest cfg <> []) /\ TunnelN cfg <> 0) /\
  exists c proc, main mode cfg peerID = Some (c, proc) /\
    match mode, proc with
    | ClientMode, ClientProcess p =>
        acceptNewConnection (connectionPool p) = false /\ tp_peerID (tunnelPool p) = peerID /\
        tunnelNum (manager (tunnelPool p)) = TunnelN cfg
    | ServerMode, ServerProcess pg => @pg_peers C pg = []
    | _, _ => False
    end.
Proof.
  intros (_ & _ & base & Hb & -> & Hc)%parseFlags_accepted. apply check_config_some in Hc as (Hm & H1 & H2 & H3).
  split; [done|]. split.
  { intros E. unfold read_config in Hb. rewrite decide_True in Hb by done. injection Hb as <-.
    cbn [override Password] in H2 |- *. by destruct (fl_password cl). }
  split; [by intros pw E; cbn; rewrite E|]. split; [by intros l E; cbn; rewrite E|]. split; [by intros n E; cbn; rewrite E|].
  split. { intros s E. cbn [override Mode] in Hm. rewrite E in Hm. cbn in Hm. by rewrite ToLower_again in Hm. }
  split; [done|]. unfold main. destruct (main_cipher_total (String.string_of_list_byte (AEADCipher (override cl base)))
    (Password (override cl base))) as [c ->]. eexists c, _. split; [done|]. by destruct mode.
Qed.

(** ** A client configured on the command line *)

Definition example_flags (tunnels : Z) : CommandLine :=
  mkCommandLine None (Some (str "Client")) None None None None (Some (str "secret")) (Some (str "socks5://127.0.0.1:1080")) None
    (Some tunnels) None None None None None None None None None None None None None None None None false false.
Definition no_files : Files := mkFiles (str "/root") (fun _ => false) (fun _ => Err ErrTimeout).

Lemma accepted_configuration_witness :
  exists cfg, parseFlags (fun _ cfg => Ok cfg) (example_flags 3) no_files = Accepted ClientMode cfg /\
  Password cfg <> DefaultPassword /\ fl_password (example_flags 3) = Some (Password cfg) /\ TunnelN cfg <> 0.
Proof.
  eexists. split; [vm_compute; reflexivity|].
  destruct (accepted_configuration (H := toy_primitives) (C := stream) (fun _ cfg => Ok cfg) (example_flags 3) no_files
    ClientMode _ 77 eq_refl) as ((_ & H1) & H2 & _ & _ & _ & _ & H3 & _).
  split; [exact H1|]. split; [apply H2; vm_compute; reflexivity|]. exact (proj2 (proj2 (H3 eq_refl))).
Defined.

(** The flag [tunnelN] may be negative: the check only refuses zero. The client's
    manager then never opens a tunnel. *)
Theorem negative_tunnels_accepted :
  exists cfg, TunnelN cfg = -1 /\ check_config cfg = Some ClientMode /\
    forall (TV : TunnelVars) cancelled dial count endpoints retry, 0 <= count ->
      added <$> (fst <$> DecreaseNotify 0 cancelled dial count (NewClientManager (TunnelN cfg) endpoints retry)) = Some [].
Proof.
  exists (override (example_flags (-1)) NewDefaultConfig). split; [done|]. split; [by vm_compute|].
  intros TV cancelled dial count eps retry Hc. unfold DecreaseNotify. cbn [DecreaseNotify_loop tunnelToCreate tunnelNum NewClientManager].
  change (TunnelN (override (example_flags (-1)) NewDefaultConfig)) with (-1). by rewrite decide_True by lia.
Qed.
