(* ===== verification/Setup.v ===== *)
(** cmd/rabbit.go and tunnel_pool/manager.go: the registration of the Prometheus
    gauges, and the TLS settings that can be read from files. *)

From S2P Require Import Prelude GoIO Text Stats.

Local Open Scope Z_scope.
Local Open Scope string_scope.

(** * Gauges *)

Record GaugeOpts : Type := mkGaugeOpts { Name : string; Help : string }.

(** The gauges by their variable, as they are declared. *)
Definition gauge_vars : list (string * GaugeOpts) := [
  ("totalSentBytes", mkGaugeOpts "rabbit_network_total_sent_bytes" "Total bytes sent");
  ("totalRecvBytes", mkGaugeOpts "rabbit_network_total_recv_bytes" "Total bytes received");
  ("connectionCount", mkGaugeOpts "rabbit_network_connection_count" "Current active connections");
  ("tunnelCount", mkGaugeOpts "rabbit_network_tunnel_count" "Current active tunnels");
  ("sendRate", mkGaugeOpts "rabbit_network_send_rate_bps" "Current send rate (bytes/sec)");
  ("recvRate", mkGaugeOpts "rabbit_network_recv_rate_bps" "Current receive rate (bytes/sec)");
  ("goroutineCount", mkGaugeOpts "rabbit_runtime_goroutine_count" "Number of goroutines");
  ("memAlloc", mkGaugeOpts "rabbit_memstats_alloc_bytes" "Current number of bytes allocated by the application");
  ("totalMemAlloc", mkGaugeOpts "rabbit_memstats_total_alloc_bytes" "Total number of bytes allocated by the application");
  ("memHeapAlloc", mkGaugeOpts "rabbit_memstats_heap_alloc_bytes" "Current number of heap bytes allocated by the application");
  ("memSys", mkGaugeOpts "rabbit_memstats_sys_bytes" "Total number of bytes obtained from the OS");
  ("heapSys", mkGaugeOpts "rabbit_memstats_heap_sys_bytes" "Total number of heap bytes obtained from the OS");
  ("heapIdle", mkGaugeOpts "rabbit_memstats_heap_idle_bytes" "Number of heap bytes waiting to be used");
  ("heapInuse", mkGaugeOpts "rabbit_memstats_heap_inuse_bytes" "Number of heap bytes that are in use");
  ("heapReleased", mkGaugeOpts "rabbit_memstats_heap_released_bytes" "Number of heap bytes released to the OS");
  ("heapObjects", mkGaugeOpts "rabbit_memstats_heap_objects" "Number of allocated heap objects");
  ("objMallocs", mkGaugeOpts "rabbit_memstats_mallocs_total" "Total number of memory allocations");
  ("objFrees", mkGaugeOpts "rabbit_memstats_frees_total" "Total number of memory frees");
  ("gcPauseMs", mkGaugeOpts "rabbit_runtime_gc_pause_ms" "Total GC pause time in milliseconds");
  ("gcCount", mkGaugeOpts "rabbit_runtime_gc_count" "Total number of GC runs");
  ("lastGcTime", mkGaugeOpts "rabbit_runtime_last_gc_timestamp" "Timestamp of last GC (Unix seconds)")].

(** The arguments of [MustRegister]. *)
Definition registered_vars : list string :=
  [
"totalSentBytes"; "totalRecvBytes"; "tunnelCount"; "connectionCount"; "sendRate"; "recvRate";
   "goroutineCount"; "memAlloc"; "totalMemAlloc"; "memSys"; "memHeapAlloc"; "heapSys"; "heapIdle";
   "heapInuse"; "heapReleased"; "heapObjects"; "objMallocs"; "objFrees"; "gcPauseMs"; "gcCount"; "lastGcTime"].

Definition gauge_opts (var : string) : option GaugeOpts := snd <$> List.find (fun e => bool_decide (e.1 = var)) gauge_vars.

(** A valid metric name: [[a-zA-Z_:][a-zA-Z0-9_:]*]. *)
Definition name_start (c : Ascii.ascii) : bool :=
  let n := Z.of_nat (Ascii.nat_of_ascii c) in
  bool_decide (65 <= n <= 90 \/ 97 <= n <= 122 \/ n = 95 \/ n = 58).
Definition name_rest (c : Ascii.ascii) : bool :=
  let n := Z.of_nat (Ascii.nat_of_ascii c) in name_start c || bool_decide (48 <= n <= 57).
Definition valid_name (name : string) : bool :=
  match String.list_ascii_of_string name with [] => false | c :: rest => name_start c && forallb name_rest rest end.

Section Registry.
(** The library's registry: [Register] of a gauge, and the names it holds. *)
Context {Registry : Type} (Register : GaugeOpts -> Registry -> result error Registry) (names : Registry -> gset string).

(** [prometheus.MustRegister(cs...)]: a panic at the first that is refused. *)
Fixpoint MustRegister (vars : list string) (r : Registry) : outcome Registry :=
  match vars with
  | [] => Ret r
  | var :: vars =>
      match gauge_opts var with
      | None => Panic
      | Some o => match Register o r with Ok r => MustRegister vars r | Err _ => Panic end
      end
  end.

Definition prom_init (r : Registry) : outcome Registry := MustRegister registered_vars r.

(** Registering a gauge of a valid, new name succeeds; one of a name that is taken
    is refused. *)
Hypothesis Register_new : forall o r, valid_name (Name o) = true -> (Name o ∉ names r) ->
  exists r', Register o r = Ok r' /\ names r' = {[Name o]} ∪ names r.
Hypothesis Register_taken : forall o r, Name o ∈ names r -> exists e, Register o r = Err e.

Definition var_names (vars : list string) : list string := omap (fun var => Name <$> gauge_opts var) vars.

Lemma MustRegister_spec vars r :
  Forall (fun var => exists o, gauge_opts var = Some o /\ valid_name (Name o) = true) vars ->
  NoDup (var_names vars) -> (forall name, name ∈ var_names vars -> name ∉ names r) ->
  exists r', MustRegister vars r = Ret r' /\ names r' = list_to_set (var_names vars) ∪ names r.
Proof.
  revert r. induction vars as [|var vars IH]; intros r Hall Hnd Hnew; cbn [MustRegister].
  - exists r. split; [done|]. cbn. set_solver.
  - apply Forall_cons in Hall as [(o & Ho & Hv) Hall]. unfold var_names in *. cbn [omap list_omap] in *.
    rewrite Ho in *. cbn [fmap option_fmap option_map] in *. apply NoDup_cons in Hnd as [Hn Hnd].
    destruct (Register_new o r Hv) as (r1 & -> & Hr1); [apply Hnew; by left|].
    destruct (IH r1 Hall Hnd) as (r' & -> & Hr').
    { intros name Hin. rewrite Hr1. rewrite not_elem_of_union, not_elem_of_singleton. split; [by intros ->|].
      apply Hnew. by right. }
    exists r'. split; [done|]. rewrite Hr', Hr1. cbn. set_solver.
Qed.

Lemma MustRegister_again var vars r r' :
  MustRegister (var :: vars) r = Ret r' -> names r' = list_to_set (var_names (var :: vars)) ∪ names r ->
  MustRegister (var :: vars) r' = Panic.
Proof.
  cbn [MustRegister]. unfold var_names. cbn [omap list_omap]. destruct (gauge_opts var) as [o|]; [|done].
  intros _ Hn. cbn [fmap option_fmap option_map list_to_set] in Hn.
  destruct (Register_taken o r') as [e ->]; [|done]. rewrite Hn. apply elem_of_union_l, elem_of_union_l. by apply elem_of_singleton.
Qed.

(** Start-up cannot panic over the gauges, and all that is measured is published:
    on a registry with no name that starts with "rabbit_" [prom_init] succeeds and adds
    exactly the twenty-one gauges, which are those [updatePrometheusMetrics] sets, under
    different names; and it can be called only once. *)
Theorem gauges_registered (r : Registry) :
  (forall name, name ∈ names r -> String.prefix "rabbit_" name = false) ->
  registered_vars ≡ₚ (fun e => e.1.1) <$> gauge_table /\ registered_vars ≡ₚ (fun e => e.1) <$> gauge_vars /\
  NoDup (var_names registered_vars) /\
  (exists r', prom_init r = Ret r' /\ names r' = list_to_set (var_names registered_vars) ∪ names r /\ prom_init r' = Panic).
Proof.
  intros Hfree.
  assert (NoDup (var_names registered_vars)) as Hnd by (apply (bool_decide_unpack _); vm_compute; exact I).
  split; [apply (bool_decide_unpack _); vm_compute; exact I|]. split; [apply (bool_decide_unpack _); vm_compute; exact I|].
  split; [done|].
  assert (Forall (fun name => String.prefix "rabbit_" name = true) (var_names registered_vars)) as Hpre
    by (apply (bool_decide_unpack _); vm_compute; exact I).
  destruct (MustRegister_spec registered_vars r) as (r' & Hr & Hn); [|done| |].
  - apply Forall_forall. intros var Hvar.
    assert (Forall (fun var => match gauge_opts var with Some o => valid_name (Name o) | None => false end = true) registered_vars) as Hall
      by (apply (bool_decide_unpack _); vm_compute; exact I).
    rewrite Forall_forall in Hall. specialize (Hall var Hvar). destruct (gauge_opts var) as [o|]; [by exists o|done].
  - intros name Hin Hname. rewrite Forall_forall in Hpre. specialize (Hpre name Hin). by rewrite (Hfree name Hname) in Hpre.
  - exists r'. split; [exact Hr|]. split; [exact Hn|]. exact (MustRegister_again _ _ _ _ Hr Hn).
Qed.
End Registry.

(** A registry that keeps the names. *)
Definition set_register (o : GaugeOpts) (r : gset string) : result error (gset string) :=
  if decide (Name o ∈ r) then Err ErrTimeout else if valid_name (Name o) then Ok ({[Name o]} ∪ r) else Err ErrTimeout.

Lemma gauges_registered_witness :
  exists r', prom_init set_register {["go_goroutines"]} = Ret r' /\ prom_init set_register r' = Panic.
Proof.
  destruct (gauges_registered set_register (fun r => r)) with (r := {["go_goroutines"]} : gset string)
    as (_ & _ & _ & r' & H1 & _ & H2); [| | |exists r'; split; [exact H1|exact H2]].
  - intros o r Hv Hn. unfold set_register. rewrite decide_False, Hv by done. by eexists.
  - intros o r Hn. unfold set_register. rewrite decide_True by done. by eexists.
  - intros name Hin. apply elem_of_singleton in Hin as ->. reflexivity.
Defined.

(** * TLS settings *)

Section Tls.
(** Certificates, pools of them, and what the files hold. *)
Context {Certificate CertPool : Type} (LoadX509KeyPair : string -> string -> result error Certificate)
  (ReadFile : string -> result error (list byte)) (AppendCertsFromPEM : list byte -> option CertPool).

Inductive ClientAuthType : Type := NoClientCert | VerifyClientCertIfGiven.

(** The fields of [tls.Config] that are set. *)
Record TlsConfig : Type := mkTls {
  Certificates : list Certificate;
  RootCAs : option CertPool;
  ClientCAs : option CertPool;
  ClientAuth : ClientAuthType;
  InsecureSkipVerify : bool;
  MinVersion : Z;
}.

Definition VersionTLS12 : Z := 0x0303.

(** The second [if] and what follows, on the certificates of the first. *)
Definition with_authority (certs : list Certificate) (caFile : string) (insecureSkipVerify : bool) : result error TlsConfig :=
  if decide (caFile <> "") then
    match ReadFile caFile with
    | Err e => Err e
    | Ok caCert =>
        match AppendCertsFromPEM caCert with
        | None => Err (ErrMsg "failed to append CA certificate to pool")
        | Some pool => Ok (mkTls certs (Some pool) (Some pool) VerifyClientCertIfGiven insecureSkipVerify VersionTLS12)
        end
    end
  else Ok (mkTls certs None None NoClientCert insecureSkipVerify VersionTLS12).

Definition TLSConfigFromFiles (certFile keyFile caFile : string) (insecureSkipVerify : bool) : result error TlsConfig :=
  if decide (certFile <> "" /\ keyFile <> "") then
    match LoadX509KeyPair certFile keyFile with
    | Err e => Err e
    | Ok cert => with_authority [cert] caFile insecureSkipVerify
    end
  else with_authority [] caFile insecureSkipVerify.

Lemma with_authority_spec certs caFile insecure c :
  with_authority certs caFile insecure = Ok c ->
  Certificates c = certs /\ MinVersion c = VersionTLS12 /\ InsecureSkipVerify c = insecure /\ RootCAs c = ClientCAs c /\
  (ClientAuth c = VerifyClientCertIfGiven <-> is_Some (ClientCAs c)) /\ (caFile = "" <-> ClientCAs c = None).
Proof.
  unfold with_authority. case_decide as Hf.
  - destruct (ReadFile caFile); [|done]. destruct (AppendCertsFromPEM _) as [pool|]; [|done]. intros [= <-].
    cbn. split_and!; by eauto.
  - intros [= <-]. cbn. split_and!; done.
Qed.

(** Whatever is configured, nothing older than TLS 1.2 is spoken, and a client's
    certificate is looked at only against the configured authority. *)
Theorem tls_settings (certFile keyFile caFile : string) (insecure : bool) (c : TlsConfig) :
  TLSConfigFromFiles certFile keyFile caFile insecure = Ok c ->
  MinVersion c = VersionTLS12 /\ InsecureSkipVerify c = insecure /\ RootCAs c = ClientCAs c /\
  (ClientAuth c = VerifyClientCertIfGiven <-> is_Some (ClientCAs c)) /\ (caFile = "" <-> ClientCAs c = None) /\
  (Certificates c <> [] <-> certFile <> "" /\ keyFile <> "").
Proof.
  unfold TLSConfigFromFiles. case_decide as Hf; [destruct (LoadX509KeyPair certFile keyFile); [|done]|];
    intros (Hc & ? & ? & ? & ? & ?)%with_authority_spec; rewrite Hc; split_and!; try done; by split.
Qed.
End Tls.
