(* ===== verification/Status.v ===== *)
(** cmd/rabbit.go: the status servers - who may see them and what they show - and
    the snapshots of the pools they show. *)

From S2P Require Import Prelude GoIO GoNet Text GoTime GoIP Block Processor Stats Connection Tunnel TunnelPool PoolManager ConnPool.
From S2P Require Import Peer PeerGroup Config.
From S2P Require Inbound.

Local Open Scope Z_scope.

Definition comma : byte := x2c.
Definition slash : byte := x2f.
Definition at_sign : byte := x40.

(** * Access *)

(** The entries of [acl] that contain a comma are lists themselves, of which the
    malformed members are skipped. *)
Definition in_list (ip : list byte) (subnets1 : list (list byte)) : bool :=
  existsb (fun s => match ParseCIDR s with Some n => Contains n ip | None => false end) subnets1.

Fixpoint in_subnets (ip : list byte) (subnets : list (list byte)) : bool * option error :=
  match subnets with
  | [] => (false, None)
  | subnet :: subnets =>
      if decide (comma ∈ subnet) then
        if in_list ip (Split subnet [comma]) then (true, None) else in_subnets ip subnets
      else
        match ParseCIDR subnet with
        | None => (false, Some (ErrMsg "invalid CIDR address"))
        | Some n => if Contains n ip then (true, None) else in_subnets ip subnets
        end
  end.

(** [IsIPInSubnets(ipStr, subnets)].  [net.SplitHostPort] gives an empty host with
    its error. *)
Definition IsIPInSubnets (ipStr : list byte) (subnets : list (list byte)) : bool * option error :=
  if decide (subnets = []) then (true, None)
  else
    let '(host, err) := match SplitHostPort ipStr with
                        | Ok (host, _) => (host, None)
                        | Err e => (TrimSpace [], Some e)
                        end in
    match ParseIP host with
    | None => (false, err)
    | Some ip => in_subnets ip subnets
    end.

(** The networks of the [status-acl] option. *)
Definition status_acls (acl : list byte) : list (list byte) :=
  let acls := Split acl [comma] in
  let acls := if decide (acls = [[]]) then [str "0.0.0.0/0"] else acls in
  (fun a => if decide (slash ∈ a) then a else a ++ str "/32") <$> acls.

(** The address to listen on, the user and the password of [status-server]. *)
Definition status_listen (listen : list byte) : list byte * list byte * list byte :=
  match index_byte at_sign listen with
  | Some (S _ as at_) =>
      let authPart := take at_ listen in
      match index_byte colon authPart with
      | Some (S _ as k) => (drop (S at_) listen, take k authPart, drop (S k) authPart)
      | _ => (drop (S at_) listen, [], [])
      end
  | _ => (listen, [], [])
  end.

(** A request: where it comes from, what it asks for, and what [r.BasicAuth()]
    finds in it. *)
Record Request : Type := mkRequest {
  RemoteAddr : list byte;
  URL_Path : list byte;
  BasicAuth : option (list byte * list byte);
}.

Definition checkBasicAuth (r : Request) (username password : list byte) : bool :=
  match BasicAuth r with
  | Some (user, pass) => bool_decide (user = username /\ pass = password)
  | None => false
  end.

(** * What is shown *)

#[warnings="-register-all"]
Inductive json : Type :=
  | JBool (b : bool)
  | JString (s : list byte)
  | JNumber (n : Z)
  | JStats (data : gmap string dyn)
  | JConfig (cfg : Config)
  | JObject (fields : list (string * json))
  | JArray (l : list json).

Inductive response : Type :=
  | Refuse (code : Z) (ask : bool)             (** [ask]: with a WWW-Authenticate header *)
  | Reply (j : json)
  | Metrics (gauges : gmap string dyn)
  | NotFound.

(** The checks both handlers of a status server make first. *)
Definition guard_request (acls : list (list byte)) (username password : list byte) (r : Request) : option response :=
  match IsIPInSubnets (RemoteAddr r) acls with
  | (_, Some _) => Some (Refuse 500 false)
  | (false, None) => Some (Refuse 401 false)
  | (true, None) =>
      if decide (username <> [] /\ checkBasicAuth r username password = false) then Some (Refuse 401 true) else None
  end.

(** ** Snapshots *)

Section Times.
Context `{Zone : LocalZone}.

(** [GetLastActiveStr] of a connection - the inbound one has its own -, and of a
    tunnel. *)
Definition Connection_GetLastActiveStr (b : baseConnection) : list byte := format_stamp (Connection.GetLastActive b).
Definition Inbound_GetLastActive (c : Inbound.InboundConnection) : Z := LastActivity (Inbound.ic_base c).
Definition Inbound_GetLastActiveStr (c : Inbound.InboundConnection) : list byte := format_stamp (Inbound_GetLastActive c).
Definition conn_GetLastActiveStr (c : conn) : list byte :=
  match c with InConn c => Inbound_GetLastActiveStr c | OutConn s => Connection_GetLastActiveStr (conn_base (OutConn s)) end.
Definition Tunnel_GetLastActiveStr {C} (t : Tunnel C) : list byte := format_stamp (Tunnel.GetLastActive t).
End Times.

Definition queue_length {A} (q : chan A) : json := JNumber (Z.of_nat (length (ch_buf q))).

Definition conn_info `{Zone : LocalZone} (c : conn) : json :=
  let b := conn_base c in
  JObject [
    ("connection_id"%string, JNumber (GetConnectionID c));
    ("last_activity"%string, JString (conn_GetLastActiveStr c));
    ("latency_nano"%string, JNumber (Connection.GetLatencyNano b));
    ("recv_queue_length"%string, queue_length (GetRecvQueue b));
    ("ordered_recv_queue_length"%string, queue_length (GetOrderedRecvQueue b));
    ("sent_bytes"%string, JNumber (GetSentBytes b));
    ("recv_bytes"%string, JNumber (GetRecvBytes b))].

(** [cp.GetConnectionsInfo()]; the order of a Go map is not fixed. *)
Definition GetConnectionsInfo `{Zone : LocalZone} (cp : ConnectionPool) : list json :=
  omap (fun k => conn_info ∘ ce_conn <$> conns cp !! k) (map_to_list (connectionMapping cp)).*2.

Section Pools.
Context `{Zone : LocalZone} {M C : Type} (addr_remote addr_local : C -> list byte).
Implicit Types (tp : TunnelPool M C) (p : Peer M C).

Definition GetTunnelMappingLen tp : Z := Z.of_nat (size (tunnelMapping tp)).

Definition tunnel_info tp (t : Tunnel C) : json :=
  JObject [
    ("tunnel_id"%string, JNumber (tunnelID t));
    ("peer_id"%string, JNumber (tp_peerID tp));
    ("is_active"%string, JBool (IsActive t));
    ("last_activity"%string, JString (Tunnel_GetLastActiveStr t));
    ("latency_nano"%string, JNumber (Tunnel.GetLatencyNano t));
    ("sent_bytes"%string, JNumber (tn_SentBytes t));
    ("recv_bytes"%string, JNumber (tn_RecvBytes t));
    ("ws_remote_addr"%string, JString (addr_remote (Conn t)));
    ("ws_local_addr"%string, JString (addr_local (Conn t)))].

Definition GetTunnelConnsInfo tp : list json :=
  omap (fun i => tunnel_info tp ∘ e_tunnel <$> entries tp !! i) (map_to_list (tunnelMapping tp)).*2.

Definition GetTunnelPoolInfo tp : json :=
  JObject [
    ("peer_id"%string, JNumber (tp_peerID tp));
    ("recv_queue_length"%string, queue_length (TunnelPool.recvQueue tp));
    ("send_queue_length"%string, queue_length (TunnelPool.sendQueue tp));
    ("send_retry_queue_length"%string, queue_length (sendRetryQueue tp));
    ("tunnel_count"%string, JNumber (GetTunnelMappingLen tp))].

(** [cp.GetConnectionPoolInfo()] of a peer's pools. *)
Definition GetConnectionPoolInfo p : json :=
  JObject [
    ("connection_count"%string, JNumber (Z.of_nat (size (connectionMapping (connectionPool p)))));
    ("send_queue_length"%string, queue_length (cp_sendQueue (connectionPool p)));
    ("tunnel_pool_size"%string, JNumber (GetTunnelMappingLen (tunnelPool p)));
    ("accept_new_connection"%string, JBool (acceptNewConnection (connectionPool p)))].

(** [cp.GetTunnelPoolInfo()]. *)
Definition peer_TunnelPoolInfo p : json := GetTunnelPoolInfo (tunnelPool p).
Definition GetTunnelsInfo p : list json := GetTunnelConnsInfo (tunnelPool p).
End Pools.

(** [pg.GetAllConnectionPools()] and [pg.GetAllTunnelPools()]: the registered peers. *)
Definition GetAllPeers {C} (pg : PeerGroup C) : list (Peer ServerManager C) :=
  omap (fun k => pg_peers pg !! k) (registered pg).

(** ** The handlers *)

Definition Version : list byte := str "1.0.10 ws/socks5".

(** The pages of "/status/" from what the handler has collected. *)
Definition status_page (r : Request) (cfg : Config) (data gauges : gmap string dyn)
    (tunnel_pool connection_pool : json) (tunnels connections : list json) : response :=
  if decide (URL_Path r = str "/status/") then
    Reply (JObject [
      ("running"%string, JBool true);
      ("mode"%string, JString (Mode cfg));
      ("version"%string, JString Version);
      ("stats"%string, JStats data);
      ("tunnel_pool"%string, tunnel_pool);
      ("connection_pool"%string, connection_pool)])
  else if decide (URL_Path r = str "/status/tunnels") then Reply (JObject [("tunnels"%string, JArray tunnels)])
  else if decide (URL_Path r = str "/status/connections") then Reply (JObject [("connections"%string, JArray connections)])
  else if decide (URL_Path r = str "/status/metrics") then Metrics (updatePrometheusMetrics data gauges)
  else NotFound.

Definition config_handler (acls : list (list byte)) (username password : list byte) (cfg : Config) (r : Request) : response :=
  match guard_request acls username password r with
  | Some refusal => refusal
  | None => Reply (JConfig cfg)
  end.

Section Handlers.
Context `{Zone : LocalZone} {C : Type} (addr_remote addr_local : C -> list byte) (m : MemStats) (gauges : gmap string dyn).

(** The "/status/" handler of [statusServer1], on the client's peer. *)
Definition status_handler1 (acls : list (list byte)) (username password : list byte) (cfg : Config)
    (p : Peer ClientManager C) (r : Request) : response :=
  match guard_request acls username password r with
  | Some refusal => refusal
  | None =>
      status_page r cfg (GetStats m (ClientStats (tp_stats (tunnelPool p)))) gauges
        (peer_TunnelPoolInfo p) (GetConnectionPoolInfo p)
        (GetTunnelsInfo addr_remote addr_local p) (GetConnectionsInfo (connectionPool p))
  end.

(** The one of [statusServer2], on the server's group. *)
Definition status_handler2 (acls : list (list byte)) (username password : list byte) (cfg : Config)
    (pg : PeerGroup C) (r : Request) : response :=
  match guard_request acls username password r with
  | Some refusal => refusal
  | None =>
      let peers := GetAllPeers pg in
      status_page r cfg (GetStats m (ServerStats (pg_stats pg))) gauges
        (JArray (GetTunnelPoolInfo ∘ tunnelPool <$> peers)) (JArray (GetConnectionPoolInfo <$> peers))
        (peers ≫= GetTunnelConnsInfo addr_remote addr_local ∘ tunnelPool)
        (peers ≫= GetConnectionsInfo ∘ connectionPool)
  end.

(** The multiplexer of [statusServer1]. *)
Definition statusServer1 (listen acl : list byte) (cfg : Config) (p : Peer ClientManager C) (r : Request) : response :=
  let acls := status_acls acl in
  let '(_, username, password) := status_listen listen in
  if decide (URL_Path r = str "/config") then config_handler acls username password cfg r
  else if has_prefix (URL_Path r) (str "/status/") then status_handler1 acls username password cfg p r
  else NotFound.

Definition statusServer2 (listen acl : list byte) (cfg : Config) (pg : PeerGroup C) (r : Request) : response :=
  let acls := status_acls acl in
  let '(_, username, password) := status_listen listen in
  if decide (URL_Path r = str "/config") then config_handler acls username password cfg r
  else if has_prefix (URL_Path r) (str "/status/") then status_handler2 acls username password cfg pg r
  else NotFound.
End Handlers.

(** * Facts *)

Lemma drop_cons_length (b : byte) l r : drop (S (length l)) (l ++ b :: r) = r.
Proof. by induction l. Qed.

Lemma index_byte_app b l r : (b ∉ l) -> index_byte b (l ++ b :: r) = Some (length l).
Proof.
  induction l as [|c l IH]; cbn [app index_byte]; intros Hn; [by rewrite decide_True|].
  apply not_elem_of_cons in Hn as [Hc Hn]. rewrite decide_False by congruence. by rewrite IH.
Qed.

Lemma index_byte_none b l : (b ∉ l) -> index_byte b l = None.
Proof.
  induction l as [|c l IH]; intros Hn; [done|]. apply not_elem_of_cons in Hn as [Hc Hn].
  cbn. rewrite decide_False by congruence. by rewrite IH.
Qed.

Lemma Index_absent b s : Index s [b] = None -> b ∉ s.
Proof.
  induction s as [|c s IH]; intros H; [by apply not_elem_of_nil|]. cbn [Index has_prefix] in H.
  case_decide as Hc; [done|]. apply not_elem_of_cons. split; [done|]. apply IH.
  destruct (Index s [b]); [discriminate H|done].
Qed.

Lemma Split_pieces b s : Forall (fun p => b ∉ p) (Split s [b]).
Proof.
  eapply Forall_impl; [apply (Split_at_pieces (length s) s [b]); done|]. intros p. apply Index_absent.
Qed.

(** The entries of the option are single networks. *)
Lemma status_acls_entries acl :
  status_acls acl <> [] /\ Forall (fun a => (comma ∉ a) /\ slash ∈ a) (status_acls acl).
Proof.
  unfold status_acls. set (l := if decide (Split acl [comma] = [[]]) then _ else _).
  assert (l <> [] /\ Forall (fun a => comma ∉ a) l) as [Hn Hl].
  { unfold l. case_decide; split; try done.
    - apply Forall_singleton. apply (bool_decide_unpack _). by vm_compute.
    - unfold Split, Split_at. destruct (length acl), (Index acl [comma]); discriminate.
    - apply Split_pieces. }
  split; [by intros ?%fmap_nil_inv|]. apply Forall_fmap. eapply Forall_impl; [exact Hl|]. intros a Ha. cbn.
  case_decide; [done|]. rewrite !elem_of_app. split; [|right; by left].
  intros [?|H2]; [done|]. revert H2. apply (bool_decide_unpack _). by vm_compute.
Qed.

Definition allows (ip : list byte) (nets : list IPNet) : bool := existsb (fun n => Contains n ip) nets.

(** A list of single networks is searched up to the first that contains the address
    or is malformed. *)
Lemma in_subnets_app ip l r nets :
  Forall (fun a => comma ∉ a) l -> mapM ParseCIDR l = Some nets ->
  in_subnets ip (l ++ r) = if allows ip nets then (true, None) else in_subnets ip r.
Proof.
  revert nets. induction l as [|a l IH]; intros nets; cbn [mapM app in_subnets].
  - by intros _ [= <-].
  - intros [Ha Hl]%Forall_cons. rewrite decide_False by done. destruct (ParseCIDR a) as [n|]; [|done].
    cbn [mbind option_bind]. destruct (mapM ParseCIDR l) as [ns|] eqn:E; [|done]. intros [= <-]. cbn [allows existsb].
    destruct (Contains n ip); [done|]. by apply IH.
Qed.

Lemma in_subnets_true ip l :
  Forall (fun a => comma ∉ a) l -> in_subnets ip l = (true, None) ->
  exists before a after nets n, l = before ++ a :: after /\ mapM ParseCIDR before = Some nets /\
    ParseCIDR a = Some n /\ Contains n ip = true.
Proof.
  induction l as [|a l IH]; cbn [in_subnets]; [done|]. intros [Ha Hl]%Forall_cons. rewrite decide_False by done.
  destruct (ParseCIDR a) as [n|] eqn:En; [|done]. destruct (Contains n ip) eqn:Ec.
  - intros _. by exists [], a, l, [], n.
  - intros (before & a' & after & nets & n' & -> & Hb & Hn & Hc)%(IH Hl). exists (a :: before), a', after, (n :: nets), n'.
    split_and!; [done| |done..]. cbn. by rewrite En, Hb.
Qed.

Lemma guard_request_none acls user pass r :
  guard_request acls user pass r = None ->
  IsIPInSubnets (RemoteAddr r) acls = (true, None) /\ (user <> [] -> BasicAuth r = Some (user, pass)).
Proof.
  unfold guard_request. destruct (IsIPInSubnets _ _) as [[|] [e|]]; try done. case_decide as Hd; [done|]. intros _.
  split; [done|]. intros Hu. destruct (checkBasicAuth r user pass) eqn:Ec; [|by destruct Hd].
  unfold checkBasicAuth in Ec. destruct (BasicAuth r) as [[u p]|]; [|done]. by apply bool_decide_eq_true in Ec as [-> ->].
Qed.

Lemma status_listen_password user pass addr :
  user <> [] -> (colon ∉ user) -> (at_sign ∉ user ++ pass) ->
  status_listen (user ++ colon :: pass ++ at_sign :: addr) = (addr, user, pass).
Proof.
  intros Hu Hc [H1 H2]%not_elem_of_app.
  assert (user ++ colon :: pass ++ at_sign :: addr = (user ++ colon :: pass) ++ at_sign :: addr) as ->
    by (by rewrite <-app_assoc).
  unfold status_listen. rewrite index_byte_app by (rewrite not_elem_of_app, not_elem_of_cons; done).
  rewrite length_app. cbn [length]. rewrite Nat.add_succ_r.
  assert (S (length user + length pass) = length (user ++ colon :: pass)) as -> by (rewrite length_app; cbn; lia).
  rewrite take_app_length, index_byte_app by done. destruct user as [|c user]; [done|]. cbn [length].
  change (S (length user)) with (length (c :: user)). rewrite take_app_length. f_equal; [f_equal|].
  - rewrite drop_cons_length. done.
  - by rewrite drop_cons_length.
Qed.

Lemma status_listen_user user addr :
  (colon ∉ user) -> (at_sign ∉ user) -> user <> [] -> status_listen (user ++ at_sign :: addr) = (addr, [], []).
Proof.
  intros Hc Ha Hu. unfold status_listen. rewrite index_byte_app by done. destruct user as [|c user]; [done|].
  cbn [length]. change (S (length user)) with (length (c :: user)).
  rewrite take_app_length, index_byte_none by done. by rewrite drop_cons_length.
Qed.

(** A user without a password is dropped with it: nothing is asked of a client. *)
Theorem status_user_without_password (user addr acl : list byte) (r : Request) :
  (colon ∉ user) -> (at_sign ∉ user) -> user <> [] ->
  status_listen (user ++ at_sign :: addr) = (addr, [], []) /\
  (IsIPInSubnets (RemoteAddr r) (status_acls acl) = (true, None) -> guard_request (status_acls acl) [] [] r = None).
Proof.
  intros Hc Ha Hu. split; [by apply status_listen_user|]. intros E. unfold guard_request. rewrite E.
  by rewrite decide_False by (by intros [? _]).
Qed.

(** * Properties *)

(** The access list of the status servers. Its entries are single networks, of
    which there is at least one. A client whose remote address has an IP is let in
    exactly when a network of the list contains it and the entries before that one
    are well formed; if all are, the answer is whether any of them contains it. A
    remote address without a port is an error, never let in. *)
Theorem status_acl (acl remote : list byte) :
  let acls := status_acls acl in
  acls <> [] /\ Forall (fun a => (comma ∉ a) /\ slash ∈ a) acls /\
  (forall host port ip, SplitHostPort remote = Ok (host, port) -> ParseIP host = Some ip ->
    (IsIPInSubnets remote acls = (true, None) <->
     exists before a after nets n, acls = before ++ a :: after /\ mapM ParseCIDR before = Some nets /\
       ParseCIDR a = Some n /\ Contains n ip = true) /\
    (forall nets, mapM ParseCIDR acls = Some nets -> IsIPInSubnets remote acls = (allows ip nets, None))) /\
  (forall e, SplitHostPort remote = Err e -> IsIPInSubnets remote acls = (false, Some e)).
Proof.
  intros acls. destruct (status_acls_entries acl) as [Hne Hall]. fold acls in Hne, Hall. split; [done|]. split; [done|].
  assert (Forall (fun a => comma ∉ a) acls) as Hc by (eapply Forall_impl; [exact Hall|]; by intros ? [? _]).
  unfold IsIPInSubnets. rewrite decide_False by done. split; [|by intros e ->].
  intros host port ip -> ->. split; [split|].
  - by apply in_subnets_true.
  - intros (before & a & after & nets & n & E & Hb & Hn & Hin). rewrite E in Hc |- *.
    apply Forall_app in Hc as [Hc1 [Hc2 _]%Forall_cons]. rewrite (in_subnets_app _ _ _ nets) by done.
    destruct (allows ip nets); [done|]. cbn. rewrite decide_False by done. by rewrite Hn, Hin.
  - intros nets Hn. rewrite <-(app_nil_r acls), (in_subnets_app _ _ _ nets) by done. by destruct (allows ip nets).
Qed.

(** What shows something of the process. *)
Definition shows (resp : response) : Prop := match resp with Reply _ | Metrics _ => True | _ => False end.

(** C38: the status servers show nothing to a stranger. Whatever page of either
    server a request is answered with - the configuration, the status, the
    metrics -, the client's address was let in by the access list, and if the
    [status-server] option is "user:password@address" the request carried exactly
    that user and password. *)
Theorem status_guarded `{Zone : LocalZone} {C : Type} (remote local : C -> list byte) (m : MemStats) (gauges : gmap string dyn)
    (listen acl : list byte) (cfg : Config) (p : Peer ClientManager C) (pg : PeerGroup C) (r : Request)
    (resp : response) :
  resp = statusServer1 remote local m gauges listen acl cfg p r \/
  resp = statusServer2 remote local m gauges listen acl cfg pg r ->
  shows resp ->
  IsIPInSubnets (RemoteAddr r) (status_acls acl) = (true, None) /\
  forall user pass addr, listen = user ++ colon :: pass ++ at_sign :: addr -> user <> [] -> (colon ∉ user) ->
    (at_sign ∉ user ++ pass) -> BasicAuth r = Some (user, pass).
Proof.
  intros Hr Hs. destruct (status_listen listen) as [[addr0 user0] pass0] eqn:El.
  assert (guard_request (status_acls acl) user0 pass0 r = None) as [Hin Hauth]%guard_request_none.
  { destruct (guard_request _ user0 pass0 r) as [refusal|] eqn:Eg; [|done]. exfalso.
    assert (resp = refusal \/ resp = NotFound) as [->| ->].
    { unfold statusServer1, statusServer2, config_handler, status_handler1, status_handler2 in Hr.
      rewrite El in Hr. cbv beta iota zeta in Hr. rewrite Eg in Hr. destruct Hr as [->| ->]; repeat case_match; auto. }
    - unfold guard_request in Eg. repeat case_match; by simplify_eq.
    - done. }
  split; [done|]. intros user pass addr -> Hu Hc Ha. rewrite status_listen_password in El by done.
  injection El as _ <- <-. by apply Hauth.
Qed.

(** ** A request for the configuration *)

Definition example_request : Request :=
  mkRequest (str "10.0.0.7:40000") (str "/config") (Some (str "admin", str "secret")).

Definition example_peer : Peer ClientManager (duplex stream sink) :=
  newClientPeerWithID (TV := Tunnel.const_go) 77 4 [] true (InitStats 10).
Definition example_group : PeerGroup (duplex stream sink) := NewPeerGroup (InitStats 10).

Lemma status_guarded_witness :
  IsIPInSubnets (RemoteAddr example_request) (status_acls (str "10.0.0.0/8")) = (true, None) /\
  forall user pass addr, str "admin:secret@127.0.0.1:8010" = user ++ colon :: pass ++ at_sign :: addr -> user <> [] ->
    (colon ∉ user) -> (at_sign ∉ user ++ pass) -> BasicAuth example_request = Some (user, pass).
Proof.
  apply (status_guarded (Zone := utc) (fun _ => []) (fun _ => []) (mkMemStats 0 0 0 0 0 0 0 0 0 0 0 0 0 0 0) ∅ (str "admin:secret@127.0.0.1:8010") (str "10.0.0.0/8")
    NewDefaultConfig example_peer example_group example_request (Reply (JConfig NewDefaultConfig))).
  - left. vm_compute. reflexivity.
  - exact I.
Defined.

(** A bare address of version 6 in the list stands for a network of 32 bits; a bare
    remote address is refused; a space after a comma spoils the list from there on. *)
Example access_examples :
  status_acls (str "::1") = [str "::1/32"] /\
  IsIPInSubnets (str "[0:0:ffff::7]:40000") (status_acls (str "::1")) = (true, None) /\
  IsIPInSubnets (str "10.0.0.7") (status_acls []) = (false, Some (ErrMsg "missing port in address")) /\
  IsIPInSubnets (str "10.0.0.7:40000") (status_acls (str "10.0.0.1, 10.0.0.7")) =
    (false, Some (ErrMsg "invalid CIDR address")) /\
  IsIPInSubnets (str "10.0.0.7:40000") (status_acls (str "10.0.0.7, 10.0.0.1")) = (true, None).
Proof. vm_compute. repeat split. Qed.
