(* ===== verification/System.v ===== *)
(** Two peers and the tunnels between them: what the user of a connection writes
    at one end is what the target is sent at the other, and back, with nothing
    assumed of the tunnels but that a connection delivers a prefix of the bytes
    put on it. *)

From S2P Require Import Prelude GoIO Block Stats Processor Connection Tunnel TunnelPool PoolManager ConnPool EndToEnd.
From S2P Require Import Sendable Wire Peer.
From S2P Require Inbound Outbound.

Local Open Scope Z_scope.

(** * A peer with its history

    [yh_conns]: the histories of its connections; [yh_in], [yh_out]: the blocks
    that crossed from the tunnels to the connections and back; [yh_joined]: the
    tunnels as they were when added. *)
Record yhist (M C : Type) : Type := mkYHist {
  yh_peer : Peer M C;
  yh_conns : list chist;
  yh_in : list Block;
  yh_out : list Block;
  yh_joined : list (Tunnel C);
}.
Arguments mkYHist {M C} _ _ _ _ _.
Arguments yh_peer {M C} _.
Arguments yh_conns {M C} _.
Arguments yh_in {M C} _.
Arguments yh_out {M C} _.
Arguments yh_joined {M C} _.

Section History.
Context `{TV : TunnelVars} `{CV : ConnVars} {M C : Type} `{Manager M, ManagerRun M, Reader C, Writer C}.
Implicit Types (p : Peer M C).

(** What a step puts on the queue towards the connections. *)
Definition arriving p (l : peer_label C) p' : list Block :=
  match l with
  | YTunnel _ =>
      drop (length (ch_buf (TunnelPool.recvQueue (tunnelPool p)))) (ch_buf (TunnelPool.recvQueue (tunnelPool p')))
  | _ => []
  end.

(** What a step puts on the queue towards the tunnels. *)
Definition passing p (l : peer_label C) : list Block :=
  match l with
  | YConn CSendPut => match cp_send (connectionPool p) with SendHolding blk => [blk] | _ => [] end
  | _ => []
  end.

Definition joining (l : peer_label C) : list (Tunnel C) := match l with YTunnel l => joined l | _ => [] end.

Definition note_peer p (l : peer_label C) p' (ts : list chist) : list chist :=
  match l with YConn l => noted (connectionPool p) l (connectionPool p') ts | _ => ts end.

Definition yh_step (h : yhist M C) (l : peer_label C) : option (yhist M C) :=
  let p := yh_peer h in
  match peer_step p l with
  | Ret (_, p') =>
      Some (mkYHist p' (note_peer p l p' (yh_conns h)) (yh_in h ++ arriving p l p') (yh_out h ++ passing p l)
              (yh_joined h ++ joining l))
  | _ => None
  end.

Definition yh_init p : yhist M C := mkYHist p [] [] [] [].

(** The connection pool's view. *)
Definition yh_pool (h : yhist M C) : phist := mkPHist (connectionPool (yh_peer h)) (yh_conns h) (yh_in h) (yh_out h).

(** What the environment gives a step is in range. *)
Definition yl_ok (l : peer_label C) : Prop :=
  match l with YConn l => cl_ok l | YTunnel l => label_ok l | _ => True end.
End History.

(** * The connection pool inside the peer *)

Section ConnSide.
Context `{CV : ConnVars}.
Implicit Types (cp : ConnectionPool).

Lemma hist_own cp ts ins outs l cp' :
  own_conn l = true -> hist_inv (mkPHist cp ts ins outs) -> cp_step cp l = Ret cp' ->
  hist_inv (mkPHist cp' (noted cp l cp' ts) ins outs).
Proof.
  intros Ho Hi Hs. pose proof (hist_inv_step (mkPHist cp ts ins outs) l) as Hstep.
  unfold cp_hstep in Hstep. cbn [ph_pool ph_conns ph_in ph_out] in Hstep. rewrite Hs in Hstep.
  specialize (Hstep _ Hi eq_refl).
  assert (brought l = [] /\ passed cp l = []) as [E1 E2] by (by destruct l). by rewrite E1, E2, !app_nil_r in Hstep.
Qed.

(** Blocks on their way may be counted as passed on. *)
Lemma hist_pass cp ts ins outs bs :
  (forall b, b ∈ bs -> b ∈ outgoing cp) -> hist_inv (mkPHist cp ts ins outs) -> hist_inv (mkPHist cp ts ins (outs ++ bs)).
Proof.
  intros Hb [H1 H2 H3 H4 H5]. constructor; cbn [ph_pool ph_conns ph_in ph_out] in *; try done.
  intros b Hin. apply H5. rewrite !elem_of_app in Hin. destruct Hin as [[?|?]|?]; apply elem_of_app; auto.
Qed.

(** The tunnel pool takes blocks off one queue and puts [new] on the other. *)
Lemma hist_queues cp ts ins outs g sq rq new :
  (forall b, b ∈ ch_buf sq -> b ∈ ch_buf (tunnel_send cp)) -> ch_buf rq = ch_buf (tunnel_recv cp) ++ new ->
  hist_inv (mkPHist cp ts ins outs) ->
  hist_inv (mkPHist (set_cp_stats g (set_tunnel_queues sq rq cp)) ts (ins ++ new) outs).
Proof.
  intros Hsq Hrq [H1 H2 H3 H4 H5]. constructor; cbn [ph_pool ph_conns ph_in ph_out] in *.
  - by apply (cp_inv_same cp); auto.
  - exact H2.
  - intros b. unfold incoming in *. cbn. rewrite Hrq. intros Hb. specialize (H3 b). in_app.
  - eapply Forall_impl; [exact H4|]. intros t Ht. eapply Forall_impl; [exact Ht|]. intros b Hb. apply elem_of_app. by left.
  - intros b Hb. apply H5. unfold outgoing in *. cbn in Hb. specialize (Hsq b). in_app.
Qed.

Lemma hist_stop cp ts ins outs : hist_inv (mkPHist cp ts ins outs) -> hist_inv (mkPHist (stopRelay cp) ts ins outs).
Proof.
  intros Hi. pose proof (hist_inv_step (mkPHist cp ts ins outs) CStop _ Hi eq_refl) as Hs.
  cbn in Hs. by rewrite length_fmap, Nat.sub_diag, !app_nil_r in Hs.
Qed.

(** What a step of its own does to the queues shared with the tunnel pool. *)
Record own_queues cp (l : cp_label) cp' : Prop := {
  oq_recv : ch_buf (tunnel_recv cp') `suffix_of` ch_buf (tunnel_recv cp);
  oq_send : tunnel_send cp' = tunnel_send cp /\ (forall blk, l = CSendPut -> cp_send cp <> SendHolding blk) \/
    exists blk, l = CSendPut /\ cp_send cp = SendHolding blk /\ chan_send blk (tunnel_send cp) = Sent (tunnel_send cp');
}.

Lemma own_conn_queues cp l cp' : own_conn l = true -> cp_step cp l = Ret cp' -> own_queues cp l cp'.
Proof.
  intros Ho Hs.
  assert (tunnel_recv cp' = tunnel_recv cp -> tunnel_send cp' = tunnel_send cp -> l <> CSendPut -> own_queues cp l cp') as Hq.
  { intros E1 E2 Hne. constructor; [by rewrite E1|]. left. split; [done|]. by intros. }
  destruct l as [id now a|blk| | | | | | | | | |k l|k op|k l|k|]; try done; cbn [cp_step] in Hs.
  - unfold Dial in Hs. destruct (conns _ !! _); [|done]. destruct (SendConnect _ _ _). destruct (send_all _ _); [|done..].
    injection Hs as <-. by apply Hq.
  - unfold recvRelay_take, find_connection in Hs. destruct (cp_recv cp); try done.
    destruct (chan_recv _) as [blk q| |] eqn:E; [|injection Hs as <-; by apply Hq|done]. apply chan_recv_buf in E.
    assert (tunnel_recv cp' = q /\ tunnel_send cp' = tunnel_send cp) as [E1 E2]
      by (repeat case_match; by simplify_eq).
    constructor; [rewrite E, E1; by exists [blk]|by left].
  - unfold recvRelay_check in Hs. destruct (cp_recv cp); try done. injection Hs as <-. by apply Hq.
  - unfold recvRelay_hand in Hs. destruct (cp_recv cp); try done. destruct (conns cp !! k); [|done].
    destruct (conn_RecvBlock _ _); [|done..]. injection Hs as <-. by apply Hq.
  - unfold recvRelay_done in Hs. destruct (cp_recv cp), (cp_cancelled cp); try done. injection Hs as <-. by apply Hq.
  - unfold sendRelay_take in Hs. destruct (cp_send cp); try done. destruct (chan_recv _); try done; injection Hs as <-; by apply Hq.
  - unfold sendRelay_put, send_call in Hs. destruct (cp_send cp) as [|blk|] eqn:Ec; try done.
    destruct (chan_send _ _) as [q| |] eqn:E; [|done..]. injection Hs as <-. constructor; [done|]. right.
    exists blk. split; [done|]. split; [done|]. exact E.
  - unfold sendRelay_done in Hs. destruct (cp_send cp), (cp_cancelled cp); try done; injection Hs as <-; by apply Hq.
  - destruct (conns cp !! k); [|done]. destruct (OrderedRelay_step _ _); [|done..]. injection Hs as <-. by apply Hq.
  - destruct (conns cp !! k) as [e|]; [|done]. destruct (ce_conn e); [|done].
    destruct (if user_call op then _ else _) as [[]|]; [|done]. destruct (send_all _ _); [|done..]. injection Hs as <-. by apply Hq.
  - destruct (conns cp !! k) as [e|]; [|done]. destruct (ce_conn e); [done|].
    destruct (if own_step l then _ else _) as [[]| |]; [|done..]. cbn [mbind outcome_bind] in Hs.
    destruct (send_all _ _); [|done..]. injection Hs as <-. by apply Hq.
  - destruct (conns cp !! k) as [e|]; [|done]. destruct (_ && _); [|done]. injection Hs as <-.
    apply Hq; unfold removeConnection; try done; by case_match.
Qed.
End ConnSide.

(** * The tunnel pool inside the peer *)

Section TunnelSide.
Context `{TV : TunnelVars} {M C : Type} `{Manager M} `{Duplex C}.
Implicit Types (tp : TunnelPool M C).

(** A step of its own takes blocks off the queue from the connections and puts
    blocks on the queue to them. *)
Record pool_queues tp tp' : Prop := {
  pq_send b : b ∈ ch_buf (TunnelPool.sendQueue tp') -> b ∈ ch_buf (TunnelPool.sendQueue tp);
  pq_recv : exists new, ch_buf (TunnelPool.recvQueue tp') = ch_buf (TunnelPool.recvQueue tp) ++ new;
}.

Lemma pool_queues_same tp tp' :
  TunnelPool.sendQueue tp' = TunnelPool.sendQueue tp -> TunnelPool.recvQueue tp' = TunnelPool.recvQueue tp ->
  pool_queues tp tp'.
Proof. intros E1 E2. constructor; rewrite ?E1, ?E2; [done|]. exists []. by rewrite app_nil_r. Qed.

Lemma pool_queues_sent tp tp' blk :
  TunnelPool.sendQueue tp' = TunnelPool.sendQueue tp ->
  chan_send blk (TunnelPool.recvQueue tp) = Sent (TunnelPool.recvQueue tp') -> pool_queues tp tp'.
Proof. intros E1 E2. constructor; [by rewrite E1|]. exists [blk]. by apply chan_send_buf in E2. Qed.

Lemma relay_send_queues i e blk next tp evs tp' :
  relay_send i e blk next tp = (evs, tp') ->
  TunnelPool.sendQueue tp' = TunnelPool.sendQueue tp /\ TunnelPool.recvQueue tp' = TunnelPool.recvQueue tp.
Proof. unfold relay_send. destruct (packThenSend _ _ _ _) as [[[rb|] g] t]; by intros [= <- <-]. Qed.

Lemma OutboundRelay_queues i e ch tp evs tp' :
  OutboundRelay_step i e ch tp = Ret (evs, tp') -> pool_queues tp tp'.
Proof.
  unfold OutboundRelay_step, take_retry, take_normal. intros Hs.
  destruct (e_out e), ch; try done;
    try (by (repeat case_match; simplify_eq; apply pool_queues_same));
    match type of Hs with context [chan_recv ?q] => destruct (chan_recv q) as [blk q1| |] eqn:Eq end;
    try done; try (by (simplify_eq; apply pool_queues_same)); injection Hs as Hs; apply relay_send_queues in Hs as [E1 E2].
  1,2: by apply pool_queues_same.
  apply chan_recv_buf in Eq. constructor; [|exists []; by rewrite E2, app_nil_r].
  intros b. rewrite E1, Eq. by right.
Qed.

Lemma InboundRelay_queues i now e tp evs tp' :
  InboundRelay_step i now e tp = Ret (evs, tp') -> pool_queues tp tp'.
Proof.
  unfold InboundRelay_step, InboundRelay_last. destruct (e_in e); [|done..]. destruct (tn_cancelled _).
  - destruct (tn_closed _); [intros [= <- <-]; by apply pool_queues_same|].
    destruct (NewBlockFromReader _) as [[[b|err] c]|]; [|intros [= <- <-]; by apply pool_queues_same|done].
    destruct (Pack b) as [d b']. destruct (chan_send _ _) as [q| |] eqn:Eq; intros [= <- <-]; [|by apply pool_queues_same].
    by apply (pool_queues_sent _ _ b').
  - destruct (InboundRelay_read _ _ _) as [[[fwd g] t]| |]; [|done..]. intros [= <- <-]. by apply pool_queues_same.
Qed.

Lemma own_tunnel_queues tp l evs tp' :
  own_tunnel l = true -> pool_step tp l = Ret (evs, tp') -> pool_queues tp tp'.
Proof.
  intros Ho. destruct l as [blk| |t|i ch|k|k|i now|i|i|i now|i|]; try done; cbn [pool_step];
    try (destruct (entries tp !! i) as [e|]; [|done]); try (destruct (retrying tp !! k) as [[i blk]|]; [|done]).
  - intros [= <- <-]. by apply pool_queues_same.
  - apply OutboundRelay_queues.
  - destruct (send_call _ _); [|done..]. intros [= <- <-]. by apply pool_queues_same.
  - destruct (entries tp !! i); [|done]. destruct (tn_cancelled _); [|done]. intros [= <- <-]. by apply pool_queues_same.
  - apply InboundRelay_queues.
  - destruct (e_in e) as [|b|]; [done| |done]. unfold send_call.
    destruct (chan_send _ _) as [q| |] eqn:Eq; [|done..]. intros [= <- <-]. by apply (pool_queues_sent _ _ b).
  - destruct (e_in e), (tn_cancelled (e_tunnel e)); try done. intros [= <- <-]. by apply pool_queues_same.
  - case_decide; [|done]. destruct (PingPong_tick _ _ _). intros [= <- <-]. by apply pool_queues_same.
  - destruct (_ && _); [|done]. intros [= <- <-].
    destruct (RemoveTunnel_keeps (e_tunnel e) (set_entry i (mkEntry (e_tunnel e) (e_out e) (e_in e) false) tp)) as (_ & E1 & _ & E2 & _).
    by apply pool_queues_same.
Qed.

(** The invariants of Wire.v see the queues and the tunnels only. *)
Lemma send_inv_same acc ts tp tp' :
  queued tp' = queued tp -> entries tp' = entries tp -> send_inv acc ts tp -> send_inv acc ts tp'.
Proof. intros E1 E2 [S1 S2 S3 S4]. constructor; unfold tunnels in *; by rewrite ?E1, ?E2. Qed.

Lemma recv_inv_shrink ok good tp tp' :
  entries tp' = entries tp -> ch_buf (TunnelPool.recvQueue tp') `suffix_of` ch_buf (TunnelPool.recvQueue tp) ->
  recv_inv ok good tp -> recv_inv ok good tp'.
Proof.
  intros E1 [pre E2] [R1 R2]. constructor; [by rewrite E1|]. rewrite E2 in R2. by apply Forall_app in R2 as [_ ?].
Qed.
End TunnelSide.

(** * The invariant of a peer *)

Section PeerInv.
Context `{TV : TunnelVars} `{CV : ConnVars} {M C : Type} `{Manager M, ManagerRun M} `{Duplex C}.
Implicit Types (h : yhist M C) (p : Peer M C).

(** Any block, any stream. *)
Definition any_block (b : Block) : Prop := block_wf b /\ packed b = None.
Definition any_bytes (bs : list byte) : Prop := True.
Definition readable (t : Tunnel C) : Prop := conn_ok any_bytes t.

Record yh_inv h : Prop := {
  yi_linked : linked (yh_peer h);
  yi_hist : hist_inv (yh_pool h);
  yi_ids : Forall is_u32 (ids (conns (connectionPool (yh_peer h))));
  yi_sent : Forall sent_ok (yh_conns h);
  yi_send : send_inv (received <$> yh_out h) (yh_joined h) (tunnelPool (yh_peer h));
  yi_recv : recv_inv any_block any_bytes (tunnelPool (yh_peer h));
  yi_in : Forall (came any_block) (yh_in h);
}.

(** The environment of a step: its labels are in range, a new tunnel is a
    connection, and a keep-alive is not torn. *)
Definition step_env h (l : peer_label C) h' : Prop :=
  yl_ok l /\ Forall readable (joining l) /\
  match l with
  | YTunnel l => keepalive_whole (tunnelPool (yh_peer h)) l (tunnelPool (yh_peer h'))
  | _ => True
  end.

Lemma came_any_id b : came any_block b -> is_u32 (ConnectionID b).
Proof. intros (b0 & [Hw _] & _ & ->). apply (wf_cid _ (Pack_wf _ Hw)). Qed.

(** ** Steps of the connection pool *)

Lemma conn_step_inv h l cp' :
  yh_inv h -> cl_ok l -> own_conn l = true -> cp_step (connectionPool (yh_peer h)) l = Ret cp' ->
  yh_inv (mkYHist (with_conns cp' (yh_peer h)) (noted (connectionPool (yh_peer h)) l cp' (yh_conns h)) (yh_in h ++ [])
            (yh_out h ++ passing (yh_peer h) (YConn l)) (yh_joined h ++ [])).
Proof.
  destruct h as [p ts ins outs js]. intros [L1 L2 L3 L4 L5 L6 L7] Hl Ho Hs. unfold yh_pool in *. cbn [yh_peer yh_conns yh_in yh_out yh_joined] in *.
  rewrite !app_nil_r. pose proof (own_conn_queues _ _ _ Ho Hs) as [Q1 Q2].
  pose proof (hist_own _ _ _ _ _ _ Ho L2 Hs) as Hh.
  assert (forall b, b ∈ incoming (connectionPool p) -> is_u32 (ConnectionID b)) as Hin.
  { intros b Hb%(hi_brought _ L2). rewrite Forall_forall in L7. by apply came_any_id, L7. }
  assert (linked (with_conns cp' p)) as HL by (by constructor).
  assert (Forall is_u32 (ids (conns cp'))) as Hids.
  { destruct (step_ids _ _ _ (hi_pool _ L2) Hs) as (new & -> & Hnew). apply Forall_app. split; [done|].
    eapply Forall_impl; [exact Hnew|]. intros id [(now & a & ->)|(b & Hb & <-)]; [by destruct Hl|].
    apply Hin. unfold incoming. apply elem_of_app. by left. }
  assert (Forall sent_ok (noted (connectionPool p) l cp' ts)) as Hsent by (by eapply step_sent; [apply (hi_conns _ L2)|..]).
  assert (recv_inv any_block any_bytes (tunnelPool (with_conns cp' p))) as Hrecv.
  { eapply recv_inv_shrink; [| |exact L6]; [done|]. cbn. by rewrite <-(lk_recv _ L1). }
  destruct Q2 as [[Q2 Q3]|(blk & -> & Q3 & Q4)].
  - assert (passing p (YConn l) = []) as ->.
    { destruct l; try done. cbn. destruct (cp_send (connectionPool p)) as [|blk|] eqn:E; try done.
      by destruct (Q3 blk eq_refl). }
    rewrite app_nil_r. constructor; try done.
    eapply send_inv_same; [..|exact L5]; [|done]. unfold queued. cbn. by rewrite Q2, (lk_send _ L1).
  - cbn [passing]. rewrite Q3.
    assert (blk ∈ outgoing (connectionPool p)) as Hblk by (unfold outgoing; rewrite Q3; in_app).
    assert (sendable blk) as Hsd.
    { destruct (hi_passed _ L2 blk) as (k & t & Hk & Ht); [apply elem_of_app; by right|].
      pose proof (Forall_lookup_1 _ _ _ _ L4 Hk) as Hok. unfold sent_ok in Hok. rewrite Forall_forall in Hok. by apply Hok. }
    constructor; try done.
    + cbn [yh_pool yh_peer yh_conns yh_in yh_out]. apply (hist_pass _ _ _ _ [blk]); [|done].
      intros b ->%list_elem_of_singleton. unfold outgoing. cbn [yh_peer with_conns connectionPool].
      apply chan_send_buf in Q4. rewrite Q4. in_app.
    + cbn [yh_peer yh_out yh_joined]. rewrite fmap_app.
      assert (pool_step (tunnelPool p) (PSend blk) = Ret ([Accepted blk], set_sendQueue (tunnel_send cp') (tunnelPool p))) as Hp.
      { cbn [pool_step]. unfold send_call. by rewrite <-(lk_send _ L1), Q4. }
      eapply send_inv_step in Hp; [|exact L5|exact Hsd|done]. cbn [accepted_of joined] in Hp. rewrite app_nil_r in Hp.
      eapply send_inv_same; [..|exact Hp]; done.
Qed.

(** ** Steps of the tunnel pool *)

Lemma tunnel_step_inv h l evs tp' :
  yh_inv h -> label_ok l -> Forall readable (joined l) -> keepalive_whole (tunnelPool (yh_peer h)) l tp' ->
  own_tunnel l = true -> pool_step (tunnelPool (yh_peer h)) l = Ret (evs, tp') ->
  yh_inv (mkYHist (with_tunnels tp' (yh_peer h)) (yh_conns h)
            (yh_in h ++ drop (length (ch_buf (TunnelPool.recvQueue (tunnelPool (yh_peer h))))) (ch_buf (TunnelPool.recvQueue tp')))
            (yh_out h ++ []) (yh_joined h ++ joined l)).
Proof.
  destruct h as [p ts ins outs js]. intros [L1 L2 L3 L4 L5 L6 L7] Hl Hj Hk Ho Hs.
  unfold yh_pool in *. cbn [yh_peer yh_conns yh_in yh_out yh_joined] in *. rewrite app_nil_r.
  pose proof (own_tunnel_queues _ _ _ _ Ho Hs) as [Q1 [new Q2]].
  pose proof (recv_step _ _ _ _ _ _ L6 Hj Hs) as [Hr _].
  rewrite Q2, drop_app_length. constructor; cbn [yh_peer yh_conns yh_in yh_out yh_joined yh_pool]; try done.
  - apply hist_queues; [|by rewrite (lk_recv _ L1)|exact L2]. rewrite (lk_send _ L1). exact Q1.
  - eapply send_inv_step in Hs; [|exact L5|done|done].
    assert (accepted_of l = []) as E by (by destruct l). by rewrite E, app_nil_r in Hs.
  - apply Forall_app. split; [done|]. destruct Hr as [_ Hq]. rewrite Q2 in Hq. by apply Forall_app in Hq as [_ ?].
Qed.

(** ** Steps of the manager, and [Stop] *)

Lemma cancel_inv h : yh_inv h ->
  yh_inv (mkYHist (peer_cancel (yh_peer h)) (yh_conns h) (yh_in h) (yh_out h) (yh_joined h)).
Proof.
  destruct h as [p ts ins outs js]. intros [L1 L2 L3 L4 L5 L6 L7]. unfold yh_pool in *. cbn [yh_peer yh_conns yh_in yh_out yh_joined] in *.
  pose proof (step_ids (connectionPool p) CStop _ (hi_pool _ L2) eq_refl) as (new & Hids & Hnew).
  constructor; cbn [yh_peer yh_conns yh_in yh_out yh_joined yh_pool]; try done.
  - by destruct L1.
  - by apply hist_stop.
  - cbn [peer_cancel connectionPool]. rewrite Hids. apply Forall_app. split; [done|].
    eapply Forall_impl; [exact Hnew|]. intros id [(now & a & [=])|(b & Hb & <-)].
    rewrite Forall_forall in L7. apply came_any_id, L7, (hi_brought _ L2). unfold incoming. apply elem_of_app. by left.
  - by destruct L5.
  - by destruct L6.
Qed.

Lemma stop_step_inv h p' : yh_inv h -> Stop (yh_peer h) = Ret p' ->
  yh_inv (mkYHist p' (yh_conns h) (yh_in h) (yh_out h) (yh_joined h)).
Proof.
  intros Hi. apply cancel_inv in Hi. revert Hi. destruct h as [p ts ins outs js].
  cbn [yh_peer yh_conns yh_in yh_out yh_joined]. unfold Stop. set (q := peer_cancel p).
  intros [L1 L2 L3 L4 L5 L6 L7]. unfold yh_pool in *. cbn [yh_peer yh_conns yh_in yh_out yh_joined] in *.
  destruct (TunnelPool.Close (tunnelPool q)) as [tp| |] eqn:Ec; [|done..]. cbn [mbind outcome_bind]. intros [= <-].
  pose proof (Close_spec _ _ Ec) as [_ C1 _ C2 _].
  assert (pool_step (tunnelPool q) PClose = Ret ([], tp)) as Hp by (cbn [pool_step]; by rewrite Ec).
  constructor; cbn [yh_peer yh_conns yh_in yh_out yh_joined yh_pool]; try done.
  - rewrite <-(app_nil_r ins). apply hist_queues; [|by rewrite app_nil_r, (lk_recv _ L1)|exact L2].
    by rewrite (lk_send _ L1), C1.
  - pose proof (send_inv_step _ _ _ _ _ _ L5 (I : label_ok PClose) I Hp) as Hs. cbn in Hs. by rewrite !app_nil_r in Hs.
  - by destruct (recv_step _ _ _ _ _ _ L6 (Forall_nil_2 _ : Forall readable (joined PClose)) Hp).
Qed.

Lemma counts_inv h g : yh_inv h ->
  yh_inv (mkYHist (with_counts g (yh_peer h)) (yh_conns h) (yh_in h) (yh_out h) (yh_joined h)).
Proof.
  destruct h as [p ts ins outs js]. intros [L1 L2 L3 L4 L5 L6 L7]. constructor; try done;
    [by destruct L1| |by destruct L5|by destruct L6]. destruct L1 as [E1 E2 _].
  pose proof (hist_queues (connectionPool p) ts ins outs g (tunnel_send (connectionPool p)) (tunnel_recv (connectionPool p)) []
    ltac:(done) ltac:(by rewrite app_nil_r) L2) as Hq.
  rewrite app_nil_r in Hq. exact Hq.
Qed.

Lemma yh_inv_step h l h' : yh_inv h -> step_env h l h' -> yh_step h l = Some h' -> yh_inv h'.
Proof.
  intros Hi (Hl & Hj & Hk). unfold yh_step. destruct (peer_step _ l) as [[evs p']| |] eqn:Ep; [|done..].
  intros [= <-]. destruct l as [l|l|l|g|]; cbn [peer_step note_peer arriving joining yl_ok yh_peer] in *.
  - destruct (own_conn l) eqn:Eo; [|done]. destruct (cp_step _ l) as [cp| |] eqn:Es; [|done..].
    cbn [mbind outcome_bind] in Ep. injection Ep as _ <-. by apply conn_step_inv.
  - destruct (own_tunnel l) eqn:Eo; [|done]. destruct (pool_step _ l) as [[es tp]| |] eqn:Es; [|done..].
    cbn [mbind outcome_bind] in Ep. injection Ep as _ <-. by eapply tunnel_step_inv.
  - destruct (manager_step _ _) as [[mgr removed]|]; [|done]. injection Ep as _ <-. cbn [passing]. rewrite !app_nil_r.
    assert (yh_inv (mkYHist (mkPeer (connectionPool (yh_peer h)) (set_mapping (tunnelMapping (tunnelPool (yh_peer h))) mgr
      (tunnelPool (yh_peer h))) (pr_cancelled (yh_peer h))) (yh_conns h) (yh_in h) (yh_out h) (yh_joined h))) as Hi'.
    { destruct h, Hi as [L1 L2 L3 L4 L5 L6 L7]. constructor; try done; [by destruct L1|by destruct L5|by destruct L6]. }
    destruct removed; [by apply cancel_inv in Hi'|exact Hi'].
  - injection Ep as _ <-. cbn [passing]. rewrite !app_nil_r. by apply counts_inv.
  - destruct (Stop _) as [q| |] eqn:Es; [|done..]. cbn [mbind outcome_bind] in Ep. injection Ep as _ <-.
    cbn [passing]. rewrite !app_nil_r. by apply stop_step_inv.
Qed.

Lemma yh_inv_init id mgr accept g : yh_inv (yh_init (new_peer id mgr accept g)).
Proof.
  constructor; try apply Forall_nil_2; [apply linked_new|apply hist_inv_init|apply send_inv_init|apply recv_inv_init].
Qed.

(** ** Runs *)

(** Every ping and pong of the run is put on its connection whole or not at all. *)
Fixpoint keepalives_whole h (tr : list (peer_label C)) : Prop :=
  match tr with
  | [] => True
  | l :: tr =>
      match yh_step h l with
      | Some h' =>
          match l with
          | YTunnel l => keepalive_whole (tunnelPool (yh_peer h)) l (tunnelPool (yh_peer h'))
          | _ => True
          end /\ keepalives_whole h' tr
      | None => True
      end
  end.

(** What is asked of the environment of a run: its labels are in range, a tunnel
    added is a connection that can be read, and no keep-alive is torn. *)
Record environment h0 (tr : list (peer_label C)) h : Prop := {
  en_labels : Forall yl_ok tr;
  en_readable : Forall readable (yh_joined h);
  en_whole : keepalives_whole h0 tr;
}.

Lemma run_joined h tr h' : run yh_step h tr = Some h' -> yh_joined h' = yh_joined h ++ concat (joining <$> tr).
Proof.
  revert h. induction tr as [|l tr IH]; intros h; cbn [run]; [intros [= <-]; by rewrite app_nil_r|].
  destruct (yh_step h l) as [h1|] eqn:Es; [|done]. intros ->%IH. unfold yh_step in Es.
  destruct (peer_step _ l) as [[evs p']| |]; [|done..]. injection Es as <-. cbn [yh_joined fmap list_fmap concat].
  by rewrite <-app_assoc.
Qed.

(** The tunnels a step adds are among those of the end of the run. *)
Lemma step_joining (P : Tunnel C -> Prop) h l h1 tr h' :
  yh_step h l = Some h1 -> run yh_step h1 tr = Some h' -> Forall P (yh_joined h') -> Forall P (joining l).
Proof.
  intros Es E%run_joined. rewrite E. unfold yh_step in Es.
  destruct (peer_step _ l) as [[evs p']| |]; [|done..]. injection Es as <-. cbn [yh_joined].
  intros [[_ ?]%Forall_app _]%Forall_app. done.
Qed.

Lemma yh_run_inv h tr h' : yh_inv h -> environment h tr h' -> run yh_step h tr = Some h' -> yh_inv h'.
Proof.
  intros Hi [Hl Hr Hk]. revert h Hi Hk. induction Hl as [|l tr Hl Htr IH]; intros h Hi; cbn [keepalives_whole run];
    [by intros _ [= <-]|].
  destruct (yh_step h l) as [h1|] eqn:Es; [|done]. intros [Hk1 Hk] Hrun. apply (IH h1); try done.
  eapply yh_inv_step; [exact Hi| |exact Es]. split; [done|]. split; [by eapply step_joining|done].
Qed.

(** ** What a peer makes of the other one's bytes *)

Record from_inv (acc : list Block) h : Prop := {
  fi_recv : recv_inv (on_wire acc) (carries acc) (tunnelPool (yh_peer h));
  fi_in : Forall (came (on_wire acc)) (yh_in h);
}.

Lemma from_inv_step acc h l h' :
  from_inv acc h -> linked (yh_peer h) -> Forall (conn_ok (carries acc)) (joining l) -> yh_step h l = Some h' ->
  from_inv acc h'.
Proof.
  destruct h as [p ts ins outs js]. intros [Hr Hin] Hlk Hj. unfold yh_step.
  destruct (peer_step _ l) as [[evs p']| |] eqn:Ep; [|done..]. intros [= <-].
  destruct l as [l|l|l|g|]; cbn [peer_step joining arriving yh_peer yh_in yh_joined] in *.
  - destruct (own_conn l) eqn:Eo; [|done]. destruct (cp_step _ l) as [cp| |] eqn:Es; [|done..].
    cbn [mbind outcome_bind] in Ep. injection Ep as _ <-. constructor; cbn [yh_peer yh_in]; rewrite ?app_nil_r; [|done].
    apply (recv_inv_shrink _ _ (tunnelPool p)); [done| |exact Hr]. cbn. rewrite <-(lk_recv _ Hlk). by eapply own_conn_queues.
  - destruct (own_tunnel l) eqn:Eo; [|done]. destruct (pool_step _ l) as [[es tp]| |] eqn:Es; [|done..].
    cbn [mbind outcome_bind] in Ep. injection Ep as _ <-.
    pose proof (own_tunnel_queues _ _ _ _ Eo Es) as [_ [new Q]]. pose proof (recv_step _ _ _ _ _ _ Hr Hj Es) as [Hr' _].
    constructor; cbn [yh_peer yh_in with_tunnels tunnelPool]; [done|]. rewrite Q, drop_app_length.
    apply Forall_app. split; [done|]. destruct Hr' as [_ Hq]. rewrite Q in Hq. by apply Forall_app in Hq as [_ ?].
  - destruct (manager_step _ _) as [[mgr removed]|]; [|done]. injection Ep as _ <-.
    constructor; cbn [yh_peer yh_in]; rewrite ?app_nil_r; [|done]. destruct removed; by destruct Hr.
  - injection Ep as _ <-. constructor; cbn [yh_peer yh_in]; rewrite ?app_nil_r; [|done]. by destruct Hr.
  - destruct (Stop p) as [q| |] eqn:Es; [|done..]. cbn [mbind outcome_bind] in Ep. injection Ep as _ <-.
    constructor; cbn [yh_peer yh_in]; rewrite ?app_nil_r; [|done]. unfold Stop in Es.
    destruct (TunnelPool.Close _) as [tp| |] eqn:Ec; [|done..]. cbn [mbind outcome_bind] in Es. injection Es as <-.
    assert (recv_inv (on_wire acc) (carries acc) (cancel_pool (tunnelPool p))) as Hr' by (by destruct Hr).
    by destruct (Close_recv _ _ _ _ Hr' Ec).
Qed.

Lemma from_run_inv acc h tr h' :
  yh_inv h -> environment h tr h' -> run yh_step h tr = Some h' -> Forall (conn_ok (carries acc)) (yh_joined h') ->
  from_inv acc h -> from_inv acc h'.
Proof.
  intros Hi [Hl Hr Hk] Hrun Hj. revert h Hi Hk Hrun. induction Hl as [|l tr Hl Htr IH]; intros h Hi; cbn [keepalives_whole run];
    [by intros _ [= <-]|].
  destruct (yh_step h l) as [h1|] eqn:Es; [|done]. intros [Hk1 Hk] Hrun Hf. apply (IH h1); try done.
  - eapply yh_inv_step; [exact Hi| |exact Es]. split; [done|]. split; [by eapply step_joining|done].
  - eapply from_inv_step; [exact Hf|by destruct Hi|by eapply step_joining|exact Es].
Qed.
End PeerInv.

(** * Two peers *)

(** Every tunnel of the second peer reads a prefix of what some tunnel of the first
    has put on its connection since it was added. *)
Definition wired {M1 M2 C} `{LawfulReader C, LawfulWriter C} (h1 : yhist M1 C) (h2 : yhist M2 C) : Prop :=
  forall t, t ∈ yh_joined h2 -> exists i t0 t1 bs oe,
    yh_joined h1 !! i = Some t0 /\ tunnels (tunnelPool (yh_peer h1)) !! i = Some t1 /\
    delivers (Conn t) bs oe /\ emitted (Conn t0) ++ bs `prefix_of` emitted (Conn t1).

Section TwoPeers.
Context `{TV1 : TunnelVars} `{CV1 : ConnVars} `{TV2 : TunnelVars} `{CV2 : ConnVars} {M1 M2 C : Type}.
Context `{Manager M1, ManagerRun M1, Manager M2, ManagerRun M2} `{Duplex C}.

Lemma wired_carries (h1 : yhist M1 C) (h2 : yhist M2 C) :
  yh_inv h1 -> wired h1 h2 -> Forall readable (yh_joined h2) ->
  Forall (conn_ok (carries (received <$> yh_out h1))) (yh_joined h2).
Proof.
  intros Hi Hw Hr. apply Forall_forall. intros t Ht. rewrite Forall_forall in Hr. destruct (Hr t Ht) as [Hc _].
  constructor; [done|]. right. destruct (Hw t Ht) as (i & t0 & t1 & bs & oe & E0 & E1 & Hd & Hp).
  exists bs, oe. split; [done|]. eapply wire_ok_carries; [|exact Hp].
  by eapply (Forall2_lookup_lr _ _ _ _ _ _ (si_wire _ _ _ (yi_send _ Hi))).
Qed.

(** The tunnels between two peers do what the pools ask of them. *)
Lemma wired_arrives (h1 : yhist M1 C) (h2 : yhist M2 C) :
  from_inv (received <$> yh_out h1) h2 -> arrives (yh_pool h1) (yh_pool h2).
Proof.
  intros [_ Hin] b Hb. cbn [yh_pool ph_in] in Hb. rewrite Forall_forall in Hin.
  destruct (Hin b Hb) as (b0 & (_ & _ & [[? _]|[Ha _]]) & Hk & ->); [done|].
  apply list_elem_of_fmap in Ha as (b' & -> & Hb'). by exists b'.
Qed.

(** A run of each of two peers, the second reading what the first has written. *)
Record peers_run (p1 : Peer M1 C) (p2 : Peer M2 C) (tr1 tr2 : list (peer_label C)) (h1 : yhist M1 C) (h2 : yhist M2 C) : Prop := {
  px_run1 : run (yh_step (TV := TV1) (CV := CV1)) (yh_init p1) tr1 = Some h1;
  px_run2 : run (yh_step (TV := TV2) (CV := CV2)) (yh_init p2) tr2 = Some h2;
  px_env1 : environment (TV := TV1) (CV := CV1) (yh_init p1) tr1 h1;
  px_env2 : environment (TV := TV2) (CV := CV2) (yh_init p2) tr2 h2;
  px_wired : wired h1 h2;
}.

Lemma two_peers id1 mgr1 accept1 g1 id2 mgr2 accept2 g2 tr1 tr2 h1 h2 :
  peers_run (new_peer (TV := TV1) id1 mgr1 accept1 g1) (new_peer (TV := TV2) id2 mgr2 accept2 g2) tr1 tr2 h1 h2 ->
  hist_inv (yh_pool h1) /\ hist_inv (yh_pool h2) /\ arrives (yh_pool h1) (yh_pool h2).
Proof.
  intros [R1 R2 E1 E2 Hw].
  pose proof (yh_run_inv _ _ _ (yh_inv_init _ _ _ _) E1 R1) as I1.
  pose proof (yh_run_inv _ _ _ (yh_inv_init _ _ _ _) E2 R2) as I2.
  split; [by destruct I1|]. split; [by destruct I2|]. apply wired_arrives.
  eapply from_run_inv; [apply yh_inv_init|exact E2|exact R2| |].
  - apply wired_carries; [done|done|by destruct E2].
  - constructor; [apply recv_inv_init|apply Forall_nil_2].
Qed.
End TwoPeers.
Arguments peers_run TV1 CV1 TV2 CV2 {M1 M2 C} {_ _ _ _ _ _ _ _} _ _ _ _ _ _.

(** * Properties *)

(** What the user writes is what the target is sent. Take a client and a server
    peer as the program makes them, each in a run of its own - connections, both
    relays of both pools, tunnels that come, fail and go, managers, keep-alives, in
    any interleaving -, of which is only asked that every tunnel of the server reads
    a prefix of the bytes some tunnel of the client has put on its connection, that
    clocks and IDs are in range and that no keep-alive is torn. If a connection [j]
    of the client is the only one with its ID and has sent fewer than 2^32-1 blocks,
    then the target of a connection of the server with that ID has been sent a
    prefix of what the user has written, and all of it once every block the
    connection has sent has been handed over, the relay has no gap left to wait for
    and the socket is open. Tunnels may reorder, repeat, hold back or lose blocks. *)
Theorem user_to_target {C : Type} `{Duplex C} (TV1 : TunnelVars) (CV1 : ConnVars) (TV2 : TunnelVars) (CV2 : ConnVars)
    (id1 id2 n : Z) (endpoints : list string) (retry : bool) (g1 g2 : global_stats) (tr1 tr2 : list (peer_label C))
    (h1 : yhist ClientManager C) (h2 : yhist ServerManager C) (j k : nat) (e1 : centry) (t1 t2 : chist)
    (s : Outbound.oc_state) (pc : relay_pc) (w : bool) (t : Outbound.tcp) :
  peers_run TV1 CV1 TV2 CV2 (newClientPeerWithID (TV := TV1) id1 n endpoints retry g1) (NewServerPeerWithID (TV := TV2) id2 g2)
    tr1 tr2 h1 h2 ->
  sole_sender (yh_pool h1) j e1 t1 -> Z.of_nat (length (ct_sent t1)) < 2 ^ 32 - 1 ->
  conns (connectionPool (yh_peer h2)) !! k = Some (mkCEntry (OutConn s) pc w) -> yh_conns h2 !! k = Some t2 ->
  GetConnectionID (OutConn s) = GetConnectionID (ce_conn e1) ->
  (Outbound.established (ct_calls t2) <= 1)%nat -> Outbound.HalfOpenConn (Outbound.os_conn s) = Some t ->
  Outbound.tcp_out t `prefix_of` ct_in t1 /\
  (settled (mkCEntry (OutConn s) pc w) -> ch_buf (orderedRecvQueue (conn_base (OutConn s))) = [] ->
   Outbound.tcp_closed t = false -> Outbound.tcp_wclosed t = false ->
   (forall b, b ∈ ct_sent t1 -> forwarded b ∈ ct_handed t2) -> Outbound.tcp_out t = ct_in t1).
Proof.
  intros (I1 & I2 & Harr)%two_peers Hj Hlen Hk Ht Hid He Hconn.
  by apply (target_sent (yh_pool h1) (yh_pool h2) I1 I2 Harr j k e1 _ t1 t2 Hj Hk Ht Hid Hlen).
Qed.

(** What the target answers is what the user reads. In runs as above, with the
    server's tunnels read by the client's: the user of a connection of the client
    has been given a prefix of the bytes that were read from the target of the
    server's connection with its ID, and, once every block that carries them has
    been handed over and the relay has no gap left, what the user has been given and
    what is there for the next reads are exactly those bytes. *)
Theorem target_to_user {C : Type} `{Duplex C} (TV1 : TunnelVars) (CV1 : ConnVars) (TV2 : TunnelVars) (CV2 : ConnVars)
    (id1 id2 n : Z) (endpoints : list string) (retry : bool) (g1 g2 : global_stats) (tr1 tr2 : list (peer_label C))
    (h1 : yhist ServerManager C) (h2 : yhist ClientManager C) (j k : nat) (e1 : centry) (t1 t2 : chist)
    (c : Inbound.InboundConnection) (pc : relay_pc) (w : bool) :
  peers_run TV1 CV1 TV2 CV2 (NewServerPeerWithID (TV := TV1) id1 g1) (newClientPeerWithID (TV := TV2) id2 n endpoints retry g2)
    tr1 tr2 h1 h2 ->
  sole_sender (yh_pool h1) j e1 t1 -> Z.of_nat (length (ct_sent t1)) < 2 ^ 32 - 1 ->
  conns (connectionPool (yh_peer h2)) !! k = Some (mkCEntry (InConn c) pc w) -> yh_conns h2 !! k = Some t2 ->
  GetConnectionID (InConn c) = GetConnectionID (ce_conn e1) ->
  ct_out t2 `prefix_of` ct_in t1 /\
  (settled (mkCEntry (InConn c) pc w) -> (forall b, b ∈ ct_sent t1 -> forwarded b ∈ ct_handed t2) ->
   ct_out t2 ++ Inbound.unread c = ct_in t1).
Proof.
  intros (I1 & I2 & Harr)%two_peers Hj Hlen Hk Ht Hid.
  by apply (user_given (yh_pool h1) (yh_pool h2) I1 I2 Harr j k e1 _ t1 t2 Hj Hk Ht Hid Hlen).
Qed.

(** C17: a peer only handles well-formed blocks. In any run of a peer, whatever bytes
    its tunnels bring, the ID of each connection is a uint32; each block a
    connection has sent is no keep-alive, has its fields in the range of their Go
    types, a length that is the number of its data bytes, and a cache that is empty or
    its own layout; and so are the fields of each block that the tunnels have brought and
    that a connection was handed. *)
Theorem blocks_well_typed {M C : Type} `{TV : TunnelVars} `{CV : ConnVars} `{Manager M, ManagerRun M} `{Duplex C}
    (id : Z) (mgr : M) (accept : bool) (g : global_stats) (tr : list (peer_label C)) (h : yhist M C) :
  environment (yh_init (new_peer id mgr accept g)) tr h -> run yh_step (yh_init (new_peer id mgr accept g)) tr = Some h ->
  Forall is_u32 (ids (conns (connectionPool (yh_peer h)))) /\
  Forall (fun t => Forall sendable (ct_sent t) /\ Forall block_wf (ct_handed t)) (yh_conns h) /\
  Forall block_wf (yh_in h).
Proof.
  intros He Hrun. destruct (yh_run_inv _ _ _ (yh_inv_init id mgr accept g) He Hrun) as [_ L2 L3 L4 _ _ L7].
  assert (Forall block_wf (yh_in h)) as Hin.
  { eapply Forall_impl; [exact L7|]. intros b (b0 & [Hw _] & _ & ->). by apply Pack_wf. }
  split; [done|]. split; [|done]. apply Forall_and. split; [exact L4|].
  eapply Forall_impl; [exact (hi_handed _ L2)|]. intros t Ht. eapply Forall_impl; [exact Ht|]. cbn. intros b Hb.
  rewrite Forall_forall in Hin. by apply Hin.
Qed.

(** ** An exchange

    One tunnel, on each side a connection that will read what the other side
    writes. *)

(** [environment] and [wired], on runs that only send whole blocks, are decided. *)
Section Decide.
Context `{TV : TunnelVars} `{CV : ConnVars} {M C : Type} `{Manager M, ManagerRun M} `{Duplex C}.

#[export] Instance keepalive_whole_dec (p : TunnelPool M C) l p' : Decision (keepalive_whole p l p').
Proof. destruct l; cbn; try apply _; (destruct (entries p !! i); [destruct (entries p' !! i)|]); apply _. Defined.

#[export] Instance keepalives_whole_dec tr : forall h : yhist M C, Decision (keepalives_whole h tr).
Proof.
  induction tr as [|l tr IH]; intros h; cbn [keepalives_whole]; [apply _|].
  destruct (yh_step h l) as [h'|]; [|apply _]. apply and_dec; [|apply IH]. destruct l; apply _.
Defined.
End Decide.

(** The tunnel of a peer that will read [bs]. *)
Definition link_reading (bs : list byte) (id : Z) (client : bool) : Tunnel (duplex stream sink) :=
  newTunnelWithID (mkDuplex (Stream [bs] None) (Sink [] None)) id 77 client.

Definition conn_steps (ls : list cp_label) : list (peer_label (duplex stream sink)) := YConn <$> ls.
Definition tunnel_steps (ls : list (pool_label (duplex stream sink))) : list (peer_label (duplex stream sink)) := YTunnel <$> ls.

(** A block from the connections to the wire, and one from the wire to the
    connections. *)
Definition block_out : list (peer_label (duplex stream sink)) :=
  conn_steps [CSendTake; CSendPut] ++ tunnel_steps [POut 0 ChooseDefault; POut 0 ChooseDefault; POut 0 ChooseNormal].
Definition block_in : list (peer_label (duplex stream sink)) :=
  tunnel_steps [PIn 0 (fun _ => 1); PInForward 0] ++ conn_steps [CRecvTake; CRecvCheck; CRecvHand].

(** The user dials, writes three bytes and reads one of the answer. *)
Definition client_exchange : list (peer_label (duplex stream sink)) :=
  [YTunnel (PAddTunnel (link_reading (encode answer) 5 true))] ++
  conn_steps [CDial 7 0 "t"; CInbound 0 (Inbound.OpWrite (fun _ => 1) [x01; x02; x03])] ++
  block_out ++ block_out ++ block_in ++
  conn_steps [COrderedRelay 0 (LRecv answer); COrderedRelay 0 (LSent answer);
              CInbound 0 (Inbound.OpRead (fun _ => 6) (fun _ => false) 1)].

(** The target is dialled, sent the bytes, and answers. *)
Definition server_exchange : list (peer_label (duplex stream sink)) :=
  [YTunnel (PAddTunnel (link_reading (encode block_0 ++ encode block_1) 6 false))] ++
  block_in ++ block_in ++
  conn_steps [COrderedRelay 0 (LRecv block_0); COrderedRelay 0 (LSent block_0);
              COrderedRelay 0 (LRecv block_1); COrderedRelay 0 (LSent block_1);
              COutbound 0 (Outbound.OConnect 0); COutbound 0 (Outbound.ODialed 0 4 true);
              COutbound 0 (Outbound.OSend 0 5 None); COutbound 0 (Outbound.OSend 0 5 None);
              COutbound 0 (Outbound.ORecvCheck 0); COutbound 0 (Outbound.ORecvRead 0 (fun _ => 5) (Ok [x0a; x0b]))] ++
  block_out.

#[local] Existing Instance Tunnel.const_go.
#[local] Existing Instance ConnPool.const_go.

Definition client_peer : Peer ClientManager (duplex stream sink) := newClientPeerWithID 77 1 ["a:1"] false (InitStats 10).
Definition server_peer : Peer ServerManager (duplex stream sink) := NewServerPeerWithID 77 (InitStats 10).

Lemma client_labels : Forall yl_ok client_exchange.
Proof. repeat (apply Forall_cons_2; [repeat split; try done|]). apply Forall_nil_2. Qed.

Lemma server_labels : Forall yl_ok server_exchange.
Proof. repeat (apply Forall_cons_2; [repeat split; try done|]). apply Forall_nil_2. Qed.

(** What the witnesses evaluate: the first connections of the two runs, when all
    but the ranges of the labels holds. *)
Section Exchange.
Context {M1 M2 : Type} `{Manager M1, ManagerRun M1, Manager M2, ManagerRun M2}.
Context (p1 : Peer M1 (duplex stream sink)) (p2 : Peer M2 (duplex stream sink)).
Implicit Types (bs : list byte).

Definition exchanged (tr1 tr2 : list (peer_label (duplex stream sink))) bs
    : option (yhist M1 (duplex stream sink) * yhist M2 (duplex stream sink) * centry * chist * centry * chist) :=
  match run yh_step (yh_init p1) tr1, run yh_step (yh_init p2) tr2 with
  | Some h1, Some h2 =>
      match conns (connectionPool (yh_peer h1)) !! 0%nat, yh_conns h1 !! 0%nat,
            conns (connectionPool (yh_peer h2)) !! 0%nat, yh_conns h2 !! 0%nat, tunnels (tunnelPool (yh_peer h1)) !! 0%nat with
      | Some e1, Some t1, Some e2, Some t2, Some tn =>
          if decide (keepalives_whole (yh_init p1) tr1 /\ keepalives_whole (yh_init p2) tr2 /\
                     bs `prefix_of` emitted (Conn tn) /\ length (conns (connectionPool (yh_peer h1))) = 1%nat /\
                     (length (ct_sent t1) < 10)%nat /\ GetConnectionID (ce_conn e2) = GetConnectionID (ce_conn e1))
          then Some (h1, h2, e1, t1, e2, t2) else None
      | _, _, _, _, _ => None
      end
  | _, _ => None
  end.

Lemma link_delivers bs id client : delivers (Conn (link_reading bs id client)) bs None.
Proof. cbn. by rewrite app_nil_r. Qed.

Lemma readable_link bs id client : readable (link_reading bs id client).
Proof. constructor; [done|]. right. exists bs, None. split; [apply link_delivers|done]. Qed.

Lemma exchanged_spec tr1 tr2 bs bs1 id1 id2 c1 c2 h1 h2 e1 t1 e2 t2 :
  exchanged tr1 tr2 bs = Some (h1, h2, e1, t1, e2, t2) -> Forall yl_ok tr1 -> Forall yl_ok tr2 ->
  concat (joining <$> tr1) = [link_reading bs1 id1 c1] -> concat (joining <$> tr2) = [link_reading bs id2 c2] ->
  peers_run Tunnel.const_go ConnPool.const_go Tunnel.const_go ConnPool.const_go p1 p2 tr1 tr2 h1 h2 /\
  sole_sender (yh_pool h1) 0 e1 t1 /\ Z.of_nat (length (ct_sent t1)) < 2 ^ 32 - 1 /\
  conns (connectionPool (yh_peer h2)) !! 0%nat = Some e2 /\ yh_conns h2 !! 0%nat = Some t2 /\
  GetConnectionID (ce_conn e2) = GetConnectionID (ce_conn e1).
Proof.
  unfold exchanged. intros Hex L1 L2 J1 J2.
  destruct (run yh_step (yh_init p1) tr1) as [h1'|] eqn:R1; [|done].
  destruct (run yh_step (yh_init p2) tr2) as [h2'|] eqn:R2; [|done].
  destruct (conns (connectionPool (yh_peer h1')) !! 0%nat) as [e1'|] eqn:E1; [|done].
  destruct (yh_conns h1' !! 0%nat) as [t1'|] eqn:E2; [|done].
  destruct (conns (connectionPool (yh_peer h2')) !! 0%nat) as [e2'|] eqn:E3; [|done].
  destruct (yh_conns h2' !! 0%nat) as [t2'|] eqn:E4; [|done].
  destruct (tunnels _ !! 0%nat) as [tn|] eqn:E5; [|done].
  case_decide as Hd; [|done]. destruct Hd as (K1 & K2 & Hp & Hl & Hs & Hid). injection Hex as <- <- <- <- <- <-.
  pose proof (run_joined _ _ _ R1) as J1'. pose proof (run_joined _ _ _ R2) as J2'. rewrite J1 in J1'. rewrite J2 in J2'.
  cbn [yh_init yh_joined app] in J1', J2'.
  split_and!; try done; [|by apply (sole_of_one (yh_pool h1'))|lia].
  constructor; try done; try (constructor; try done; rewrite ?J1', ?J2'; apply Forall_singleton; apply readable_link).
  intros t. rewrite J2'. intros ->%list_elem_of_singleton. exists 0%nat, (link_reading bs1 id1 c1), tn, bs, None.
  rewrite J1'. split_and!; try done. apply link_delivers.
Qed.
End Exchange.

Lemma user_to_target_witness :
  exists t t1, Outbound.tcp_out t = [x01; x02; x03] /\ Outbound.tcp_out t `prefix_of` ct_in t1.
Proof.
  destruct (run_succeeds (match exchanged client_peer server_peer client_exchange server_exchange (encode block_0 ++ encode block_1) with
    | Some (h1, h2, e1, t1, mkCEntry (OutConn s) pc w, t2) =>
        match Outbound.HalfOpenConn (Outbound.os_conn s) with
        | Some t => if decide ((Outbound.established (ct_calls t2) <= 1)%nat /\ Outbound.tcp_out t = [x01; x02; x03])
                    then Some (h1, h2, e1, t1, s, pc, w, t2, t) else None
        | None => None
        end
    | _ => None
    end)) as [[[[[[[[[h1 h2] e1] t1] s] pc] w] t2] t] E]; [vm_compute; reflexivity|].
  destruct (exchanged _ _ _ _ _) as [[[[[[h1' h2'] e1'] t1'] [[|s'] pc' w']] t2']|] eqn:Ex;
    [discriminate E| |discriminate E].
  destruct (Outbound.HalfOpenConn (Outbound.os_conn s')) as [t'|] eqn:Ec; [|discriminate E].
  case_decide as Hd; [|discriminate E]. destruct Hd as [Hest Hout]. exists t', t1'. split; [exact Hout|].
  destruct (exchanged_spec client_peer server_peer _ _ _ (encode answer) 5 6 true false _ _ _ _ _ _ Ex client_labels server_labels eq_refl eq_refl)
    as (R & Hj & Hl & Hk & Ht & Hid).
  refine (proj1 (user_to_target Tunnel.const_go ConnPool.const_go Tunnel.const_go ConnPool.const_go 77 77 1 ["a:1"%string] false
    (InitStats 10) (InitStats 10) client_exchange server_exchange h1' h2' 0 0 e1' t1' t2' s' pc' w' t' R Hj Hl Hk Ht Hid Hest Ec)).
Defined.

Lemma target_to_user_witness :
  exists t1 t2, ct_in t1 = [x0a; x0b] /\ ct_out t2 = [x0a] /\ ct_out t2 `prefix_of` ct_in t1.
Proof.
  destruct (run_succeeds (match exchanged server_peer client_peer server_exchange client_exchange (encode answer) with
    | Some (h1, h2, e1, t1, mkCEntry (InConn c) pc w, t2) =>
        if decide (ct_in t1 = [x0a; x0b] /\ ct_out t2 = [x0a]) then Some (h1, h2, e1, t1, c, pc, w, t2) else None
    | _ => None
    end)) as [[[[[[[[h1 h2] e1] t1] c] pc] w] t2] E]; [vm_compute; reflexivity|].
  destruct (exchanged _ _ _ _ _) as [[[[[[h1' h2'] e1'] t1'] [[c'|] pc' w']] t2']|] eqn:Ex;
    [|discriminate E..].
  case_decide as Hd; [|discriminate E]. destruct Hd as [Hin Hout]. exists t1', t2'. split; [exact Hin|]. split; [exact Hout|].
  destruct (exchanged_spec server_peer client_peer _ _ _ (encode block_0 ++ encode block_1) 6 5 false true _ _ _ _ _ _ Ex server_labels client_labels
    eq_refl eq_refl) as (R & Hj & Hl & Hk & Ht & Hid).
  refine (proj1 (target_to_user Tunnel.const_go ConnPool.const_go Tunnel.const_go ConnPool.const_go 77 77 1 ["a:1"%string] false
    (InitStats 10) (InitStats 10) server_exchange client_exchange h1' h2' 0 0 e1' t1' t2' c' pc' w' R Hj Hl Hk Ht Hid)).
Defined.

Lemma blocks_well_typed_witness :
  exists h : yhist ClientManager (duplex stream sink), (1 <= length (yh_in h))%nat /\
    Forall (fun t => Forall sendable (ct_sent t) /\ Forall block_wf (ct_handed t)) (yh_conns h).
Proof.
  destruct (run_succeeds (match exchanged client_peer server_peer client_exchange server_exchange (encode block_0 ++ encode block_1) with
    | Some (h1, h2, e1, t1, e2, t2) =>
        if decide (1 <= length (yh_in h1))%nat then Some (h1, h2, e1, t1, e2, t2) else None
    | None => None
    end)) as [[[[[[h1 h2] e1] t1] e2] t2] E]; [vm_compute; reflexivity|].
  destruct (exchanged _ _ _ _ _) as [[[[[[h1' h2'] e1'] t1'] e2'] t2']|] eqn:Ex; [|discriminate E].
  case_decide as Hd; [|discriminate E]. exists h1'. split; [exact Hd|].
  destruct (exchanged_spec client_peer server_peer _ _ _ (encode answer) 5 6 true false _ _ _ _ _ _ Ex client_labels server_labels eq_refl eq_refl)
    as ([R _ He _ _] & _).
  exact (proj1 (proj2 (blocks_well_typed 77 (NewClientManager 1 ["a:1"%string] false) false (InitStats 10) client_exchange h1' He R))).
Defined.
