(* ===== verification/Sending.v ===== *)
(** connection_pool/pool.go and tunnel_pool/: the way of a block from its connection
    to a tunnel.  [sendRelay], the [OutboundRelay]s and the goroutines that retry
    spend a bounded number of steps on it, whatever tunnels fail, and under fair
    scheduling everything is sent while one tunnel lives. *)

From S2P Require Import Prelude GoIO Block Stats Connection Tunnel TunnelPool PoolManager ConnPool.
From S2P Require Import Delivery Wire Ledger.
From S2P Require Import EndToEnd.
From S2P Require Import Peer.
From S2P Require Import System.

Local Open Scope Z_scope.

(** * The queues stay open until the peer is stopped *)

Section Open.
Context `{TV : TunnelVars} `{CV : ConnVars} {M C : Type} `{Manager M, ManagerRun M, Reader C, Writer C}.
Implicit Types (tp : TunnelPool M C) (cp : ConnectionPool) (p : Peer M C).

(** What the three queues of a tunnel pool are besides their contents; which of them
    are closed. *)
Definition queue_shapes tp : (bool * nat) * (bool * nat) * (bool * nat) :=
  (shape (TunnelPool.sendQueue tp), shape (sendRetryQueue tp), shape (TunnelPool.recvQueue tp)).
Definition closed_queues tp : bool * bool * bool :=
  (ch_closed (TunnelPool.sendQueue tp), ch_closed (sendRetryQueue tp), ch_closed (TunnelPool.recvQueue tp)).

Lemma shapes_closed tp tp' : queue_shapes tp' = queue_shapes tp -> closed_queues tp' = closed_queues tp.
Proof. unfold queue_shapes, closed_queues, shape. by intros [= -> _ -> _ -> _]. Qed.

Lemma send_call_shape blk (q q' : chan Block) : send_call blk q = Ret q' -> shape q' = shape q.
Proof. unfold send_call. destruct (chan_send blk q) eqn:E; [|done..]. intros [= <-]. by eapply chan_send_shape. Qed.

Lemma relay_send_shapes i e blk next tp evs tp' :
  relay_send i e blk next tp = (evs, tp') -> queue_shapes tp' = queue_shapes tp.
Proof. unfold relay_send. destruct (packThenSend _ _ _ _) as [[[rb|] g] t]; by intros [= _ <-]. Qed.

Lemma OutboundRelay_shapes i e ch tp evs tp' : OutboundRelay_step i e ch tp = Ret (evs, tp') -> queue_shapes tp' = queue_shapes tp.
Proof.
  assert (forall next, take_retry i e next tp = Ret (evs, tp') -> queue_shapes tp' = queue_shapes tp) as Hr.
  { intros next. unfold take_retry. destruct (chan_recv _) as [blk q| |] eqn:Eq; [|by intros [= _ <-]|done].
    intros [= Er]. apply relay_send_shapes in Er. apply chan_recv_shape in Eq. rewrite Er. unfold queue_shapes. cbn. by rewrite Eq. }
  assert (forall next, take_normal i e next tp = Ret (evs, tp') -> queue_shapes tp' = queue_shapes tp) as Hn.
  { intros next. unfold take_normal. destruct (chan_recv _) as [blk q| |] eqn:Eq; [|by intros [= _ <-]|done].
    intros [= Er]. apply relay_send_shapes in Er. apply chan_recv_shape in Eq. rewrite Er. unfold queue_shapes. cbn. by rewrite Eq. }
  unfold OutboundRelay_step. destruct (e_out e), ch; try done; try apply Hr; try apply Hn;
    repeat case_match; intros; by simplify_eq.
Qed.

Lemma InboundRelay_shapes i now e tp evs tp' : InboundRelay_step i now e tp = Ret (evs, tp') -> queue_shapes tp' = queue_shapes tp.
Proof.
  unfold InboundRelay_step, InboundRelay_last. destruct (e_in e); try done. destruct (tn_cancelled _).
  - destruct (tn_closed _); [by intros [= _ <-]|]. destruct (NewBlockFromReader _) as [[[b|err] c]|]; [|by intros [= _ <-]|done].
    destruct (Pack b) as [d b']. destruct (chan_send _ _) eqn:Eq; [|by intros [= _ <-]|done]. intros [= _ <-].
    apply chan_send_shape in Eq. unfold queue_shapes. cbn. by rewrite Eq.
  - destruct (InboundRelay_read _ _ _) as [[[fwd g] t]| |]; [|done..]. by intros [= _ <-].
Qed.

Lemma pool_step_shapes tp l evs tp' :
  own_tunnel l = true -> pool_step tp l = Ret (evs, tp') -> queue_shapes tp' = queue_shapes tp.
Proof.
  intros Ho Hs. destruct l as [blk| |t|i ch|k|k|i now|i|i|i now|i|]; try done; cbn [pool_step] in Hs.
  - by injection Hs as _ <-.
  - destruct (entries tp !! i); [|done]. by eapply OutboundRelay_shapes.
  - destruct (retrying tp !! k) as [[j blk]|]; [|done]. destruct (send_call _ _) as [q| |] eqn:Eq; [|done..]. injection Hs as _ <-.
    apply send_call_shape in Eq. unfold queue_shapes. cbn. by rewrite Eq.
  - destruct (retrying tp !! k) as [[j blk]|]; [|done]. destruct (entries tp !! j); [|done]. destruct (tn_cancelled _); [|done].
    by injection Hs as _ <-.
  - destruct (entries tp !! i); [|done]. by eapply InboundRelay_shapes.
  - destruct (entries tp !! i) as [e|]; [|done]. destruct (e_in e) as [|blk|]; try done. destruct (send_call _ _) as [q| |] eqn:Eq; [|done..].
    injection Hs as _ <-. apply send_call_shape in Eq. unfold queue_shapes. cbn. by rewrite Eq.
  - destruct (entries tp !! i) as [e|]; [|done]. destruct (e_in e) as [|blk|]; try done. destruct (tn_cancelled _); [|done].
    by injection Hs as _ <-.
  - destruct (entries tp !! i) as [e|]; [|done]. case_decide; [|done]. destruct (PingPong_tick _ _ _). by injection Hs as _ <-.
  - destruct (entries tp !! i) as [e|]; [|done]. destruct (_ && _); [|done]. injection Hs as _ <-.
    unfold RemoveTunnel. cbn [set_entry tunnelMapping]. by destruct (tunnelMapping tp !! _).
Qed.

(** The connection pool's steps on the two queues it shares. *)
Lemma recvRelay_take_shape cp cp' : recvRelay_take cp = Ret cp' -> shape (tunnel_recv cp') = shape (tunnel_recv cp).
Proof.
  unfold recvRelay_take, find_connection. destruct (cp_recv cp); try done.
  destruct (chan_recv _) as [blk q| |] eqn:Eq; [|by intros [= <-]|done]. apply chan_recv_shape in Eq. rewrite <-Eq.
  repeat case_match; intros; by simplify_eq.
Qed.

Lemma cp_step_open cp l cp' :
  own_conn l = true -> cp_step cp l = Ret cp' ->
  shape (tunnel_send cp') = shape (tunnel_send cp) /\ shape (tunnel_recv cp') = shape (tunnel_recv cp).
Proof.
  intros Ho Hs. pose proof (own_conn_queues _ _ _ Ho Hs) as [_ Hsend]. split.
  - destruct Hsend as [[-> _]|(blk & -> & _ & Hq)]; [done|]. by eapply chan_send_shape.
  - pose proof Hs as [_ Ht]%cp_step_effect.
    destruct Ht as [l _ _ [->|E] _ _|blk|blk _ _ _ _|l E _ _|k blk E _ _|k blk E _ _]; try done; try by rewrite E.
    by apply recvRelay_take_shape.
Qed.

(** The peer's own goroutines do not close its queues. *)
Lemma peer_step_open p l evs p' :
  l <> YStop -> linked p -> peer_step p l = Ret (evs, p') -> closed_queues (tunnelPool p') = closed_queues (tunnelPool p).
Proof.
  intros Hl [L1 L2 _] Hs. destruct l as [l|l|l|g|]; cbn [peer_step] in Hs; [..|done].
  - destruct (own_conn l) eqn:Eo; [|done]. destruct (cp_step _ l) as [cp| |] eqn:Es; [|done..]. injection Hs as _ <-.
    destruct (cp_step_open _ _ _ Eo Es) as [[= E1 _] [= E2 _]]. unfold closed_queues. cbn. by rewrite E1, E2, L1, L2.
  - destruct (own_tunnel l) eqn:Eo; [|done]. destruct (pool_step _ l) as [[es tp]| |] eqn:Es; [|done..]. injection Hs as _ <-.
    by eapply shapes_closed, pool_step_shapes.
  - destruct (manager_step _ _) as [[mgr removed]|]; [|done]. injection Hs as _ <-. by destruct removed.
  - by injection Hs as _ <-.
Qed.

(** With its queues open, a peer can be stopped; that closes them. *)
Lemma Stop_open p :
  closed_queues (tunnelPool p) = (false, false, false) ->
  exists p', Peer.Stop p = Ret p' /\ closed_queues (tunnelPool p') = (true, true, true).
Proof.
  intros [= E1 E2 E3]. unfold Peer.Stop, TunnelPool.Close, close_call, chan_close. cbn. rewrite E1. cbn. rewrite E2. cbn. rewrite E3. cbn.
  eexists. by split.
Qed.
End Open.

(** * What there is to do *)

(** The steps that move a block towards a tunnel. *)
Definition send_move {C} (l : peer_label C) : bool :=
  match l with
  | YConn CSendTake | YConn CSendPut => true
  | YTunnel (POut _ _) | YTunnel (PRetryPut _) | YTunnel (PRetryDrop _) => true
  | _ => false
  end.

(** What a step adds to the connection pool's queue. *)
Definition issuing (l : cp_label) : bool :=
  match l with CDial _ _ _ | CInbound _ _ | COutbound _ _ => true | _ => false end.
Definition issued (cp : ConnectionPool) (l : cp_label) (cp' : ConnectionPool) : list Block :=
  if issuing l then drop (length (ch_buf (cp_sendQueue cp))) (ch_buf (cp_sendQueue cp')) else [].

(** The steps left for what is there: [sendRelay] takes a block and puts it on the
    tunnels' queue, where it costs an [OutboundRelay] three; one that fails puts the
    block back, but a tunnel fails only once, and passes its two [select]s twice at
    most after that. *)
Definition sender_left (s : send_at) : nat :=
  match s with SendWaiting => 1 | SendHolding _ => 5 | SendStopped => 0 end.

Definition conn_left (cp : ConnectionPool) : nat :=
  5 * length (ch_buf (cp_sendQueue cp)) + sender_left (cp_send cp).

Definition out_left {C} (e : entry C) : nat :=
  match e_out e, tn_cancelled (e_tunnel e) with
  | OutEnded, _ => 0
  | AtCancel, true => 1 | AtMain, true => 3 | AtRetry, true => 5
  | AtMain, false => 6 | AtRetry, false => 7 | AtCancel, false => 8
  end.

Definition pool_left {M C} (tp : TunnelPool M C) : nat :=
  3 * length (ch_buf (TunnelPool.sendQueue tp)) + 3 * length (ch_buf (sendRetryQueue tp)) + 4 * length (retrying tp) +
  sum_list (out_left <$> entries tp).

Definition send_left {M C} (p : Peer M C) : nat := conn_left (connectionPool p) + pool_left (tunnelPool p).

(** ** [sendRelay] *)

(** What a step of its own does to the sending side of a connection pool. *)
Inductive send_effect (cp cp' : ConnectionPool) : cp_label -> Prop :=
  | SndSame l bs :
      ch_buf (cp_sendQueue cp') = ch_buf (cp_sendQueue cp) ++ bs -> cp_send cp' = cp_send cp ->
      (bs = [] \/ issuing l = true) -> l <> CSendTake -> l <> CSendPut -> send_effect cp cp' l
  | SndTake blk :
      ch_buf (cp_sendQueue cp) = blk :: ch_buf (cp_sendQueue cp') -> cp_send cp = SendWaiting ->
      cp_send cp' = SendHolding blk -> send_effect cp cp' CSendTake
  | SndPut blk :
      ch_buf (cp_sendQueue cp') = ch_buf (cp_sendQueue cp) -> cp_send cp = SendHolding blk ->
      cp_send cp' = SendWaiting -> send_effect cp cp' CSendPut
  | SndEnd l :
      ch_buf (cp_sendQueue cp') = ch_buf (cp_sendQueue cp) -> cp_send cp' = SendStopped ->
      l = CSendTake /\ cp_send cp = SendWaiting /\ ch_closed (cp_sendQueue cp) = true \/
      l = CSendDone /\ cp_send cp <> SendStopped /\ cp_cancelled cp = true ->
      send_effect cp cp' l.

Section ConnSending.
Context `{CV : ConnVars}.
Implicit Types (cp : ConnectionPool).

Lemma send_all_closed bs (q q' : chan Block) : send_all bs q = Ret q' -> ch_closed q' = ch_closed q.
Proof.
  revert q. induction bs as [|b bs IH]; intros q; cbn [send_all]; [by intros [= <-]|].
  destruct (send_call b q) as [q1| |] eqn:E; [|done..]. intros ->%IH. apply send_call_shape in E. by injection E.
Qed.

(** Beside that the flags of the pool do not change. *)
Lemma cp_step_send cp l cp' :
  own_conn l = true -> cp_step cp l = Ret cp' ->
  send_effect cp cp' l /\ cp_cancelled cp' = cp_cancelled cp /\ ch_closed (cp_sendQueue cp') = ch_closed (cp_sendQueue cp).
Proof.
  intros Ho Hs.
  assert (cp_sendQueue cp' = cp_sendQueue cp -> cp_send cp' = cp_send cp -> cp_cancelled cp' = cp_cancelled cp ->
    l <> CSendTake -> l <> CSendPut ->
    send_effect cp cp' l /\ cp_cancelled cp' = cp_cancelled cp /\ ch_closed (cp_sendQueue cp') = ch_closed (cp_sendQueue cp)) as Hq.
  { intros E1 E2 E3 N1 N2. rewrite E1. split; [|done]. apply (SndSame _ _ _ []); rewrite ?E1, ?app_nil_r; auto. }
  assert (forall bs q, send_all bs (cp_sendQueue cp) = Ret q -> cp_sendQueue cp' = q -> cp_send cp' = cp_send cp ->
    cp_cancelled cp' = cp_cancelled cp -> issuing l = true ->
    send_effect cp cp' l /\ cp_cancelled cp' = cp_cancelled cp /\ ch_closed (cp_sendQueue cp') = ch_closed (cp_sendQueue cp)) as Hi.
  { intros bs q E E1 E2 E3 Hl. rewrite E1. pose proof (send_all_buf _ _ _ E). apply send_all_closed in E. split; [|done].
    apply (SndSame _ _ _ bs); rewrite ?E1; auto; by intros ->. }
  destruct l as [id now a|blk| | | | | | | | | |k l|k op|k l|k|]; try done; cbn [cp_step] in Hs.
  - unfold Dial in Hs. destruct (conns _ !! _); [|done]. destruct (SendConnect _ _ _) as [bs b].
    destruct (send_all _ _) as [q| |] eqn:E; [|done..]. injection Hs as <-. by eapply Hi.
  - unfold recvRelay_take, find_connection in Hs. destruct (cp_recv cp); try done.
    repeat case_match; simplify_eq; by apply Hq.
  - unfold recvRelay_check in Hs. destruct (cp_recv cp); try done. injection Hs as <-. by apply Hq.
  - unfold recvRelay_hand in Hs. destruct (cp_recv cp); try done. destruct (conns cp !! k); [|done].
    destruct (conn_RecvBlock _ _); [|done..]. injection Hs as <-. by apply Hq.
  - unfold recvRelay_done in Hs. destruct (cp_recv cp), (cp_cancelled cp) eqn:Ec; try done. injection Hs as <-. by apply Hq.
  - unfold sendRelay_take in Hs. destruct (cp_send cp) eqn:Es; try done.
    destruct (chan_recv _) as [blk q| |] eqn:E; [| |done]; injection Hs as <-.
    + split; [|split; [done|by eapply chan_recv_closed]]. apply (SndTake _ _ blk); [by apply chan_recv_buf in E|done..].
    + split; [|done]. apply SndEnd; [done..|]. left. split; [done|]. split; [done|]. unfold chan_recv in E.
      destruct (ch_buf (cp_sendQueue cp)); [|done]. by destruct (ch_closed (cp_sendQueue cp)).
  - unfold sendRelay_put in Hs. destruct (cp_send cp) as [|blk|] eqn:Es; try done.
    destruct (send_call _ _) as [q| |]; [|done..]. injection Hs as <-. split; [|done]. by apply (SndPut _ _ blk).
  - unfold sendRelay_done in Hs. destruct (cp_send cp) eqn:Es, (cp_cancelled cp) eqn:Ec; try done; injection Hs as <-;
      (split; [|done]); (apply SndEnd; [done..|]); right; by rewrite Es.
  - destruct (conns cp !! k); [|done]. destruct (OrderedRelay_step _ _); [|done..]. injection Hs as <-. by apply Hq.
  - destruct (conns cp !! k) as [e|]; [|done]. destruct (ce_conn e); [|done].
    destruct (if user_call op then _ else _) as [[bs c0]|]; [|done].
    destruct (send_all _ _) as [q| |] eqn:E; [|done..]. injection Hs as <-. by eapply Hi.
  - destruct (conns cp !! k) as [e|]; [|done]. destruct (ce_conn e); [done|].
    destruct (if own_step l then _ else _) as [[bs s0]| |]; [|done..]. cbn [mbind outcome_bind] in Hs.
    destruct (send_all _ _) as [q| |] eqn:E; [|done..]. injection Hs as <-. by eapply Hi.
  - destruct (conns cp !! k) as [e|]; [|done]. destruct (_ && _); [|done]. injection Hs as <-.
    by apply Hq; try (unfold removeConnection; case_match).
Qed.

Lemma conn_step_left cp l cp' :
  own_conn l = true -> cp_step cp l = Ret cp' ->
  (conn_left cp' + (match l with CSendTake => 1 | CSendPut => 4 | _ => 0 end) <= conn_left cp + 5 * length (issued cp l cp'))%nat.
Proof.
  intros Ho Hs. destruct (cp_step_send _ _ _ Ho Hs) as [He _]. unfold conn_left, issued.
  destruct He as [l bs E1 E2 Hb N1 N2|blk E1 E2 E3|blk E1 E2 E3|l E1 E2 E3].
  - rewrite E2, E1, length_app. destruct (issuing l) eqn:Ei.
    + rewrite drop_app_length. destruct l; try done; lia.
    + destruct Hb as [->|Hb]; [|done]. destruct l; try done; cbn [length]; lia.
  - rewrite E1, E2, E3. cbn. lia.
  - rewrite E1, E2, E3. cbn. lia.
  - rewrite E1, E2. destruct E3 as [(-> & -> & _)|(-> & E3 & _)]; cbn; lia.
Qed.
End ConnSending.

(** ** The tunnels *)

Section TunnelSending.
Context `{TV : TunnelVars} {M C : Type} `{Manager M, Reader C, Writer C}.
Implicit Types (tp : TunnelPool M C) (e : entry C) (t : Tunnel C).

(** What one step makes of a tunnel of the pool: a tunnel that is cancelled stays so. *)
Definition stays_cancelled t t' : Prop := tn_cancelled t = true -> tn_cancelled t' = true.

Lemma stays_same t t' : tn_cancelled t' = tn_cancelled t -> stays_cancelled t t'.
Proof. intros E. unfold stays_cancelled. by rewrite E. Qed.

Lemma conn_write_cancelled data t : tn_cancelled (conn_write data t).2 = tn_cancelled t.
Proof. unfold conn_write. destruct (tn_closed t); [done|]. by destruct (copy_bytes _ _) as [[n oe] c]. Qed.

(** A block that is not sent costs the tunnel its life, unless it is a keep-alive. *)
Lemma packThenSend_cancelled blk retry g t rb g' t' :
  packThenSend blk retry g t = (rb, g', t') -> stays_cancelled t t' /\ (rb <> None -> tn_cancelled t' = true).
Proof.
  unfold packThenSend, stays_cancelled. destruct (Pack blk) as [data b]. pose proof (conn_write_cancelled data t) as Hc.
  destruct (conn_write data t) as [[n oe] t1]. cbn [snd] in Hc. rewrite <-Hc. cbv zeta.
  destruct (bool_decide _), retry; cbn [negb andb]; intros [= <- <- <-]; by split.
Qed.

Lemma InboundRelay_read_cancelled now g t fwd g' t' :
  InboundRelay_read now g t = Ret (fwd, g', t') -> stays_cancelled t t'.
Proof.
  unfold InboundRelay_read, stays_cancelled. destruct (tn_closed t); [by intros [= _ _ <-]|].
  destruct (NewBlockFromReader _) as [[[b|err] c]|]; [|by intros [= _ _ <-]|done]. unfold InboundRelay_block.
  destruct (Pack b) as [d b']. repeat case_match; intros; simplify_eq; try done.
  match goal with E : packThenSend _ _ _ _ = _ |- _ => apply packThenSend_cancelled in E as [E _]; by apply E end.
Qed.

Lemma PingPong_tick_cancelled now g t g' t' : PingPong_tick now g t = (g', t') -> stays_cancelled t t'.
Proof.
  unfold PingPong_tick, stays_cancelled. destruct (decide (PingInterval < _)).
  - destruct (packThenSend _ _ _ _) as [[rb g1] t1] eqn:E. apply packThenSend_cancelled in E as [E _]. intros Hg Hc.
    specialize (E Hc). case_decide; by injection Hg as _ <-.
  - intros Hg Hc. case_decide; by injection Hg as _ <-.
Qed.

(** The steps of the other goroutines of a tunnel do not add to its [OutboundRelay]'s. *)
Definition same_relay e e' : Prop := e_out e' = e_out e /\ stays_cancelled (e_tunnel e) (e_tunnel e').

Lemma same_relay_left e e' : same_relay e e' -> (out_left e' <= out_left e)%nat.
Proof.
  intros [E Hc]. unfold out_left, stays_cancelled in *. rewrite E.
  destruct (e_out e), (tn_cancelled (e_tunnel e)), (tn_cancelled (e_tunnel e')); try lia; by specialize (Hc eq_refl).
Qed.

Lemma entries_left_insert (es : list (entry C)) i e e' :
  es !! i = Some e -> same_relay e e' -> (sum_list (out_left <$> <[i := e']> es) <= sum_list (out_left <$> es))%nat.
Proof. intros Hi Hs%same_relay_left. pose proof (sum_list_insert out_left es i e e' Hi). lia. Qed.

(** ** One [select] of [OutboundRelay] *)

(** A block is taken from one of the queues. *)
Lemma relay_send_left i e blk next tp evs tp' :
  entries tp !! i = Some e -> (e_out e = AtRetry /\ next = AtMain \/ e_out e = AtMain /\ next = AtCancel) ->
  relay_send i e blk next tp = (evs, tp') -> (pool_left tp' + 1 <= pool_left tp + 3)%nat.
Proof.
  intros Hi Hpc. unfold relay_send. destruct (packThenSend _ _ _ _) as [[rb g] t] eqn:Ep.
  apply packThenSend_cancelled in Ep as [Hc Hf]. unfold stays_cancelled in Hc.
  pose proof (sum_list_insert out_left (entries tp) i e (mkEntry t next (e_in e) (e_waiting e)) Hi) as Hsum.
  unfold out_left at 2 4 in Hsum. cbn [e_out e_tunnel] in Hsum.
  destruct rb as [b|]; intros [= <- <-]; unfold pool_left; cbn [set_retrying set_stats set_entry entries
    TunnelPool.sendQueue sendRetryQueue retrying]; rewrite ?length_app; cbn [length].
  - rewrite (Hf ltac:(done)) in Hsum. destruct Hpc as [[E ->]|[E ->]]; rewrite E in Hsum; destruct (tn_cancelled (e_tunnel e)); lia.
  - destruct Hpc as [[E ->]|[E ->]]; rewrite E in Hsum;
      destruct (tn_cancelled (e_tunnel e)); (destruct (tn_cancelled t); [lia|]); try lia; by specialize (Hc eq_refl).
Qed.

Lemma OutboundRelay_left i e ch tp evs tp' :
  entries tp !! i = Some e -> OutboundRelay_step i e ch tp = Ret (evs, tp') -> (pool_left tp' + 1 <= pool_left tp)%nat.
Proof.
  intros Hi.
  assert (forall pc, (out_left (mkEntry (e_tunnel e) pc (e_in e) (e_waiting e)) + 1 <= out_left e)%nat ->
    (pool_left (goto_out i e pc tp) + 1 <= pool_left tp)%nat) as Hgo.
  { intros pc Hpc. pose proof (sum_list_insert out_left (entries tp) i e (mkEntry (e_tunnel e) pc (e_in e) (e_waiting e)) Hi).
    unfold pool_left. cbn [goto_out set_entry entries TunnelPool.sendQueue sendRetryQueue retrying]. lia. }
  assert (forall next, e_out e = AtRetry /\ next = AtMain \/ e_out e = AtMain /\ next = AtCancel ->
    take_retry i e next tp = Ret (evs, tp') -> (pool_left tp' + 1 <= pool_left tp)%nat) as Hr.
  { intros next Hpc. unfold take_retry. destruct (chan_recv _) as [blk q| |] eqn:Eq; [| |done].
    - intros [= Er]. apply relay_send_left in Er; [|exact Hi|exact Hpc]. apply chan_recv_buf in Eq.
      unfold pool_left in *. cbn [set_retryQueue entries TunnelPool.sendQueue sendRetryQueue retrying] in Er. rewrite Eq. cbn [length]. lia.
    - intros [= _ <-]. apply Hgo. unfold out_left. cbn. destruct Hpc as [[-> _]|[-> _]]; destruct (tn_cancelled _); lia. }
  assert (e_out e = AtMain -> take_normal i e AtCancel tp = Ret (evs, tp') -> (pool_left tp' + 1 <= pool_left tp)%nat) as Hn.
  { intros Hpc. unfold take_normal. destruct (chan_recv _) as [blk q| |] eqn:Eq; [| |done].
    - intros [= Er]. apply relay_send_left in Er; [|exact Hi|by right]. apply chan_recv_buf in Eq.
      unfold pool_left in *. cbn [set_sendQueue entries TunnelPool.sendQueue sendRetryQueue retrying] in Er. rewrite Eq. cbn [length]. lia.
    - intros [= _ <-]. apply Hgo. unfold out_left. cbn. rewrite Hpc. destruct (tn_cancelled _); lia. }
  unfold OutboundRelay_step. destruct (e_out e) eqn:Eo, ch; try done; try (apply Hr; by auto); try (apply Hn; by auto);
    repeat case_match; try done; intros [= _ <-]; (apply Hgo; unfold out_left; cbn; rewrite Eo);
    (destruct (tn_cancelled (e_tunnel e)); [try done; lia|try done; lia]).
Qed.

(** ** All steps of a tunnel pool *)

Lemma goto_in_left i e t pc g tp :
  entries tp !! i = Some e -> stays_cancelled (e_tunnel e) t -> (pool_left (goto_in i e t pc g tp) <= pool_left tp)%nat.
Proof.
  intros Hi Hc. pose proof (entries_left_insert (entries tp) i e (mkEntry t (e_out e) pc (e_waiting e)) Hi) as Hs.
  unfold pool_left. cbn [goto_in set_stats set_entry entries TunnelPool.sendQueue sendRetryQueue retrying].
  specialize (Hs ltac:(by split)). lia.
Qed.

Lemma InboundRelay_left i now e tp evs tp' :
  entries tp !! i = Some e -> InboundRelay_step i now e tp = Ret (evs, tp') -> (pool_left tp' <= pool_left tp)%nat.
Proof.
  intros Hi. unfold InboundRelay_step, InboundRelay_last. destruct (e_in e); try done. destruct (tn_cancelled (e_tunnel e)) eqn:Ec.
  - destruct (tn_closed _); [intros [= _ <-]; by apply goto_in_left, stays_same|].
    destruct (NewBlockFromReader _) as [[[b|err] c]|]; [|intros [= _ <-]; by apply goto_in_left, stays_same|done].
    destruct (Pack b) as [d b']. destruct (chan_send _ _) as [q| |]; [| |done]; intros [= _ <-].
    + apply (goto_in_left i e (Tunnel.add_RecvBytes (Z.of_nat (length d)) (set_Conn c (e_tunnel e))) InEnded
        (on_mode (IsClientMode (Tunnel.add_RecvBytes (Z.of_nat (length d)) (set_Conn c (e_tunnel e))))
          (AddRecvBytes (Z.of_nat (length d))) (tp_stats tp)) tp); [done|by apply stays_same].
    + by apply goto_in_left, stays_same.
  - destruct (InboundRelay_read _ _ _) as [[[fwd g] t]| |] eqn:Er; [|done..]. intros [= _ <-].
    apply InboundRelay_read_cancelled in Er. by apply goto_in_left.
Qed.

Lemma close_entry_same e : same_relay e (close_entry e).
Proof. split; [done|]. by intros _. Qed.

Lemma Close_left tp tp' : Close tp = Ret tp' -> (pool_left tp' <= pool_left tp)%nat.
Proof.
  intros [E1 E2 E3 _ E4]%Close_spec. unfold pool_left. rewrite E1, E2, E3, E4.
  assert (sum_list (out_left <$> imap (fun i e => if decide (i ∈ (map_to_list (tunnelMapping tp)).*2) then close_entry e else e)
    (entries tp)) <= sum_list (out_left <$> entries tp))%nat; [|lia].
  apply sum_list_le, Forall2_same_length_lookup_2; [by rewrite length_imap|]. intros i e e' Hi.
  rewrite list_lookup_imap, Hi. intros [= <-]. case_decide; [apply same_relay_left, close_entry_same|done].
Qed.

Lemma out_left_new t : (out_left (mkEntry t AtCancel InLoop true) <= 8)%nat.
Proof. unfold out_left. cbn. destruct (tn_cancelled t); lia. Qed.

Lemma pool_step_left tp l evs tp' :
  own_tunnel l = true -> pool_step tp l = Ret (evs, tp') ->
  (pool_left tp' + (if send_move (YTunnel l) then 1 else 0) <= pool_left tp + 8 * length (joined l))%nat.
Proof.
  intros Ho Hs. destruct l as [blk| |t|i ch|k|k|i now|i|i|i now|i|]; try done; cbn [pool_step send_move joined length] in *.
  - injection Hs as _ <-. pose proof (out_left_new t) as Hn. unfold pool_left, AddTunnel.
    cbn [set_entries set_stats set_mapping entries TunnelPool.sendQueue sendRetryQueue retrying].
    rewrite fmap_app, sum_list_with_app. cbn in Hn |- *. lia.
  - destruct (entries tp !! i) as [e|] eqn:Ei; [|done]. pose proof (OutboundRelay_left _ _ _ _ _ _ Ei Hs). lia.
  - destruct (retrying tp !! k) as [[j blk]|] eqn:Ek; [|done]. destruct (send_call _ _) as [q| |] eqn:Eq; [|done..].
    injection Hs as _ <-. unfold send_call in Eq. destruct (chan_send _ _) eqn:Eq'; [|done..]. injection Eq as <-.
    apply chan_send_buf in Eq'. unfold pool_left.
    cbn [set_retryQueue set_retrying entries TunnelPool.sendQueue sendRetryQueue retrying]. rewrite Eq', length_app.
    apply lookup_lt_Some in Ek as Hk. rewrite length_delete by done. cbn [length]. lia.
  - destruct (retrying tp !! k) as [[j blk]|] eqn:Ek; [|done]. destruct (entries tp !! j); [|done].
    destruct (tn_cancelled _); [|done]. injection Hs as _ <-. unfold pool_left.
    cbn [set_retrying entries TunnelPool.sendQueue sendRetryQueue retrying].
    apply lookup_lt_Some in Ek as Hk. rewrite length_delete by done. lia.
  - destruct (entries tp !! i) as [e|] eqn:Ei; [|done]. pose proof (InboundRelay_left _ _ _ _ _ _ Ei Hs). lia.
  - destruct (entries tp !! i) as [e|] eqn:Ei; [|done]. destruct (e_in e) as [|blk|] eqn:Ein; try done.
    destruct (send_call _ _) as [q| |]; [|done..]. injection Hs as _ <-.
    pose proof (goto_in_left i e (e_tunnel e) InLoop (tp_stats tp) tp Ei (stays_same _ _ eq_refl)) as Hg.
    unfold pool_left in *. cbn [set_recvQueue entries TunnelPool.sendQueue sendRetryQueue retrying] in *. lia.
  - destruct (entries tp !! i) as [e|] eqn:Ei; [|done]. destruct (e_in e) as [|blk|]; try done. destruct (tn_cancelled _); [|done].
    injection Hs as _ <-. pose proof (goto_in_left i e (e_tunnel e) InEnded (tp_stats tp) tp Ei (stays_same _ _ eq_refl)). lia.
  - destruct (entries tp !! i) as [e|] eqn:Ei; [|done]. case_decide; [|done]. destruct (PingPong_tick _ _ _) as [g t] eqn:Ep.
    injection Hs as _ <-. apply PingPong_tick_cancelled in Ep. pose proof (goto_in_left i e t (e_in e) g tp Ei Ep). lia.
  - destruct (entries tp !! i) as [e|] eqn:Ei; [|done]. destruct (_ && _); [|done]. injection Hs as _ <-.
    set (tp1 := set_entry i _ tp). destruct (RemoveTunnel_keeps (e_tunnel e) tp1) as (E1 & E2 & E3 & _ & E4).
    pose proof (entries_left_insert (entries tp) i e (mkEntry (e_tunnel e) (e_out e) (e_in e) false) Ei (conj eq_refl (stays_same _ _ eq_refl))).
    unfold pool_left. rewrite E1, E2, E3, E4. unfold tp1.
    cbn [set_entry entries TunnelPool.sendQueue sendRetryQueue retrying]. lia.
Qed.
End TunnelSending.

(** * The tunnels of a pool in its run

    What is kept of each tunnel: it stays cancelled once it is, and its
    [OutboundRelay] has only returned because it was, or because a queue was closed. *)
Section Relays.
Context `{TV : TunnelVars} {M C : Type} `{Manager M, Reader C, Writer C}.
Implicit Types (tp : TunnelPool M C) (e : entry C) (t : Tunnel C).

Record relay_kept (open : bool) e e' : Prop := {
  rk_cancelled : stays_cancelled (e_tunnel e) (e_tunnel e');
  rk_out : open = true -> e_out e' = OutEnded -> e_out e = OutEnded \/ tn_cancelled (e_tunnel e') = true;
  rk_in : e_in e' = InEnded -> e_in e = InEnded \/ tn_cancelled (e_tunnel e') = true;
}.

Lemma relay_kept_same open e e' :
  same_relay e e' -> (e_in e' = InEnded -> e_in e = InEnded \/ tn_cancelled (e_tunnel e') = true) -> relay_kept open e e'.
Proof. intros [E Hc] Hin. constructor; [done| |done]. rewrite E. by left. Qed.

Lemma relay_kept_refl open e : relay_kept open e e.
Proof. apply relay_kept_same; [by split; [|apply stays_same]|by left]. Qed.

Definition pool_open tp : bool := negb (ch_closed (TunnelPool.sendQueue tp)) && negb (ch_closed (sendRetryQueue tp)).

(** One tunnel of the pool changes. *)
Lemma relays_kept_insert open (es : list (entry C)) i e e' :
  es !! i = Some e -> relay_kept open e e' -> Forall2 (relay_kept open) es (<[i := e']> es).
Proof.
  intros Hi He. apply Forall2_same_length_lookup_2; [by rewrite length_insert|]. intros j x y Hj.
  destruct (decide (i = j)) as [<-|Hne].
  - rewrite list_lookup_insert_eq by (by eapply lookup_lt_Some). intros [= <-]. by simplify_eq.
  - rewrite list_lookup_insert_ne, Hj by done. intros [= <-]. apply relay_kept_refl.
Qed.

Lemma relays_kept_refl open (es : list (entry C)) : Forall2 (relay_kept open) es es.
Proof. apply Forall_Forall2_diag, Forall_forall. intros e _. apply relay_kept_refl. Qed.

Lemma OutboundRelay_kept i e ch tp evs tp' :
  entries tp !! i = Some e -> OutboundRelay_step i e ch tp = Ret (evs, tp') ->
  Forall2 (relay_kept (pool_open tp)) (entries tp) (entries tp').
Proof.
  intros Hi.
  assert (forall pc, (pool_open tp = true -> pc = OutEnded -> tn_cancelled (e_tunnel e) = true) ->
    Forall2 (relay_kept (pool_open tp)) (entries tp) (entries (goto_out i e pc tp))) as Hgo.
  { intros pc Hpc. apply relays_kept_insert with e; [done|]. constructor; [by apply stays_same|cbn; auto|by left]. }
  assert (forall blk next q evs tp' tp1, entries tp1 = entries tp -> next <> OutEnded -> relay_send i e blk next tp1 = (evs, tp') ->
    q = true -> Forall2 (relay_kept (pool_open tp)) (entries tp) (entries tp')) as Hsend.
  { intros blk next q evs' tp2 tp1 E Hn. unfold relay_send. destruct (packThenSend _ _ _ _) as [[rb g] t] eqn:Ep.
    apply packThenSend_cancelled in Ep as [Hc _]. intros Hr _.
    assert (entries tp2 = <[i := mkEntry t next (e_in e) (e_waiting e)]> (entries tp)) as ->
      by (destruct rb; injection Hr as _ <-; cbn; by rewrite E).
    apply relays_kept_insert with e; [done|]. constructor; [done|done|by left]. }
  assert (forall next, next <> OutEnded -> take_retry i e next tp = Ret (evs, tp') ->
    Forall2 (relay_kept (pool_open tp)) (entries tp) (entries tp')) as Hr.
  { intros next Hn. unfold take_retry. destruct (chan_recv _) as [blk q| |] eqn:Eq; [| |done].
    - intros [= Er]. by eapply (Hsend blk next true _ _ (set_retryQueue q tp)).
    - intros [= _ <-]. apply Hgo. unfold pool_open, chan_recv in *. destruct (ch_buf _); [|done].
      destruct (ch_closed (sendRetryQueue tp)); [|done]. by rewrite andb_false_r. }
  assert (take_normal i e AtCancel tp = Ret (evs, tp') -> Forall2 (relay_kept (pool_open tp)) (entries tp) (entries tp')) as Hn.
  { unfold take_normal. destruct (chan_recv _) as [blk q| |] eqn:Eq; [| |done].
    - intros [= Er]. by eapply (Hsend blk AtCancel true _ _ (set_sendQueue q tp)).
    - intros [= _ <-]. apply Hgo. unfold pool_open, chan_recv in *. destruct (ch_buf _); [|done].
      by destruct (ch_closed (TunnelPool.sendQueue tp)). }
  unfold OutboundRelay_step. destruct (e_out e) eqn:Eo, ch; try done; try (by apply Hr); try exact Hn;
    repeat case_match; try done; intros [= _ <-]; by apply Hgo.
Qed.

(** The entries of the pool after a step of its own: those that were there, and one
    that has been added. *)
Lemma pool_step_kept tp l evs tp' :
  own_tunnel l = true -> pool_step tp l = Ret (evs, tp') ->
  exists es, entries tp' = es ++ ((fun t => mkEntry t AtCancel InLoop true) <$> joined l) /\
    Forall2 (relay_kept (pool_open tp)) (entries tp) es.
Proof.
  intros Ho Hs.
  assert (joined l = [] -> Forall2 (relay_kept (pool_open tp)) (entries tp) (entries tp') ->
    exists es, entries tp' = es ++ ((fun t => mkEntry t AtCancel InLoop true) <$> joined l) /\
      Forall2 (relay_kept (pool_open tp)) (entries tp) es) as Hq.
  { intros -> Hk. exists (entries tp'). split; [by rewrite app_nil_r|done]. }
  assert (forall i e e', joined l = [] -> entries tp !! i = Some e -> same_relay e e' ->
    (e_in e' = InEnded -> e_in e = InEnded \/ tn_cancelled (e_tunnel e') = true) -> entries tp' = <[i := e']> (entries tp) ->
    exists es, entries tp' = es ++ ((fun t => mkEntry t AtCancel InLoop true) <$> joined l) /\
      Forall2 (relay_kept (pool_open tp)) (entries tp) es) as Hone.
  { intros i e e' Hj Hi He Hin E. apply Hq; [done|]. rewrite E. apply relays_kept_insert with e; [done|]. by apply relay_kept_same. }
  destruct l as [blk| |t|i ch|k|k|i now|i|i|i now|i|]; try done; cbn [pool_step joined] in *.
  - injection Hs as _ <-. exists (entries tp). split; [done|apply relays_kept_refl].
  - destruct (entries tp !! i) as [e|] eqn:Ei; [|done]. apply Hq; [done|]. by eapply OutboundRelay_kept.
  - destruct (retrying tp !! k) as [[j blk]|]; [|done]. destruct (send_call _ _) as [q| |]; [|done..].
    injection Hs as _ <-. apply Hq; [done|apply relays_kept_refl].
  - destruct (retrying tp !! k) as [[j blk]|]; [|done]. destruct (entries tp !! j); [|done].
    destruct (tn_cancelled _); [|done]. injection Hs as _ <-. apply Hq; [done|apply relays_kept_refl].
  - destruct (entries tp !! i) as [e|] eqn:Ei; [|done]. unfold InboundRelay_step, InboundRelay_last in Hs.
    destruct (e_in e); try done. destruct (tn_cancelled (e_tunnel e)) eqn:Ec.
    + repeat case_match; try done; injection Hs as _ <-; (eapply Hone; [done|exact Ei| | |done]; [split; [done|by apply stays_same]|by right]).
    + destruct (InboundRelay_read _ _ _) as [[[fwd g] t]| |] eqn:Er; [|done..]. injection Hs as _ <-.
      apply InboundRelay_read_cancelled in Er. eapply Hone; [done|exact Ei| | |done]; [by split|cbn; by destruct fwd].
  - destruct (entries tp !! i) as [e|] eqn:Ei; [|done]. destruct (e_in e); try done. destruct (send_call _ _); [|done..].
    injection Hs as _ <-. eapply Hone; [done|exact Ei| | |done]; [split; [done|by apply stays_same]|done].
  - destruct (entries tp !! i) as [e|] eqn:Ei; [|done]. destruct (e_in e); try done. destruct (tn_cancelled (e_tunnel e)) eqn:Ec; [|done].
    injection Hs as _ <-. eapply Hone; [done|exact Ei| | |done]; [split; [done|by apply stays_same]|by right].
  - destruct (entries tp !! i) as [e|] eqn:Ei; [|done]. case_decide; [|done]. destruct (PingPong_tick _ _ _) as [g t] eqn:Ep.
    injection Hs as _ <-. apply PingPong_tick_cancelled in Ep. eapply Hone; [done|exact Ei| | |done]; [by split|by left].
  - destruct (entries tp !! i) as [e|] eqn:Ei; [|done]. destruct (_ && _); [|done]. injection Hs as _ <-.
    eapply Hone; [done|exact Ei| | |exact (proj1 (RemoveTunnel_keeps _ _))]; [split; [done|by apply stays_same]|by left].
Qed.

(** What the events of a step say: only a goroutine that retries gives a block up, and
    only one of a cancelled tunnel. *)
Lemma OutboundRelay_events i e ch tp evs tp' :
  OutboundRelay_step i e ch tp = Ret (evs, tp') -> accepted evs = [] /\ dropped evs = [].
Proof.
  assert (forall blk next tp1, relay_send i e blk next tp1 = (evs, tp') -> accepted evs = [] /\ dropped evs = []) as Hsend.
  { intros blk next tp1. unfold relay_send. destruct (packThenSend _ _ _ _) as [[[b|] g] t]; by intros [= <- _]. }
  unfold OutboundRelay_step, take_retry, take_normal. destruct (e_out e), ch; try done; repeat case_match; try done;
    first [by intros [= <- _]|intros [= E]; by eapply Hsend].
Qed.

Lemma pool_step_events tp l evs tp' :
  own_tunnel l = true -> pool_step tp l = Ret (evs, tp') ->
  accepted evs = [] /\ (dropped evs <> [] -> Exists (fun e => tn_cancelled (e_tunnel e) = true) (entries tp)) /\
  (sent_on evs = [] \/ exists i ch, l = POut i ch).
Proof.
  intros Ho Hs.
  assert (accepted evs = [] /\ dropped evs = [] /\ sent_on evs = [] -> accepted evs = [] /\
    (dropped evs <> [] -> Exists (fun e => tn_cancelled (e_tunnel e) = true) (entries tp)) /\
    (sent_on evs = [] \/ exists i ch, l = POut i ch)) as Hq
    by (intros (E1 & E2 & E3); split; [done|]; split; [by intros ?|by left]).
  destruct l as [blk| |t|i ch|k|k|i now|i|i|i now|i|]; try done; cbn [pool_step] in Hs.
  - apply Hq. by injection Hs as <- _.
  - destruct (entries tp !! i); [|done]. destruct (OutboundRelay_events _ _ _ _ _ _ Hs) as [E1 E2]. split; [done|].
    split; [done|]. right. by eauto.
  - apply Hq. destruct (retrying tp !! k) as [[j blk]|]; [|done]. destruct (send_call _ _); [|done..]. by injection Hs as <- _.
  - destruct (retrying tp !! k) as [[j blk]|]; [|done]. destruct (entries tp !! j) as [e|] eqn:Ej; [|done].
    destruct (tn_cancelled (e_tunnel e)) eqn:Ec; [|done]. injection Hs as <- _. split; [done|]. split; [|by left]. intros _.
    apply Exists_exists. exists e. split; [by eapply list_elem_of_lookup_2|done].
  - apply Hq. destruct (entries tp !! i) as [e|]; [|done]. unfold InboundRelay_step, InboundRelay_last in Hs.
    destruct (e_in e); try done. destruct (tn_cancelled _).
    + repeat case_match; try done; by injection Hs as <- _.
    + destruct (InboundRelay_read _ _ _) as [[[fwd g] t]| |]; [|done..]. by injection Hs as <- _.
  - apply Hq. destruct (entries tp !! i) as [e|]; [|done]. destruct (e_in e); try done.
    destruct (send_call _ _); [|done..]. by injection Hs as <- _.
  - apply Hq. destruct (entries tp !! i) as [e|]; [|done]. destruct (e_in e); try done. destruct (tn_cancelled _); [|done].
    by injection Hs as <- _.
  - apply Hq. destruct (entries tp !! i) as [e|]; [|done]. case_decide; [|done]. destruct (PingPong_tick _ _ _).
    by injection Hs as <- _.
  - apply Hq. destruct (entries tp !! i) as [e|]; [|done]. destruct (_ && _); [|done]. by injection Hs as <- _.
Qed.

Lemma kept_cancelled open (es es' : list (entry C)) :
  Forall2 (relay_kept open) es es' -> Exists (fun e => tn_cancelled (e_tunnel e) = true) es ->
  Exists (fun e => tn_cancelled (e_tunnel e) = true) es'.
Proof.
  induction 1 as [|e e' es es' [Hc _ _] _ IH]; intros He; inversion He; subst; [left|right]; auto.
Qed.

Lemma kept_in_ended open (es es' : list (entry C)) :
  Forall2 (relay_kept open) es es' -> Forall (fun e => e_in e = InEnded -> tn_cancelled (e_tunnel e) = true) es ->
  Forall (fun e => e_in e = InEnded -> tn_cancelled (e_tunnel e) = true) es'.
Proof.
  induction 1 as [|e e' es es' [Hc _ Hi] _ IH]; intros He; [done|]. apply Forall_cons in He as [He Hes].
  apply Forall_cons. split; [|auto]. intros E. destruct (Hi E) as [E'|E']; [|done]. by apply Hc, He.
Qed.

Lemma kept_ended (es es' : list (entry C)) :
  Forall2 (relay_kept true) es es' -> Forall (fun e => e_out e = OutEnded -> tn_cancelled (e_tunnel e) = true) es ->
  Forall (fun e => e_out e = OutEnded -> tn_cancelled (e_tunnel e) = true) es'.
Proof.
  induction 1 as [|e e' es es' [Hc Ho _] _ IH]; intros He; [done|]. apply Forall_cons in He as [He Hes].
  apply Forall_cons. split; [|auto]. intros E. destruct (Ho eq_refl E) as [E'|E']; [|done]. by apply Hc, He.
Qed.
End Relays.

(** * A peer with what it has been given to send

    [sh_issued]: the blocks its connections have put on their queue, [sh_events]: what
    has become of them in the tunnel pool. *)
Record shist (M C : Type) : Type := mkSHist {
  sh_peer : Peer M C;
  sh_issued : list Block;
  sh_events : list pool_event;
}.
Arguments mkSHist {M C} _ _ _.
Arguments sh_peer {M C} _.
Arguments sh_issued {M C} _.
Arguments sh_events {M C} _.

(** The block [sendRelay] has in its hands. *)
Definition in_hand (s : send_at) : list Block := match s with SendHolding blk => [blk] | _ => [] end.

Section PeerSending.
Context `{TV : TunnelVars} `{CV : ConnVars} {M C : Type} `{Manager M, ManagerRun M, Reader C, Writer C}.
Implicit Types (p : Peer M C) (h : shist M C).

Definition issued_by p (l : peer_label C) p' : list Block :=
  match l with YConn l => issued (connectionPool p) l (connectionPool p') | _ => [] end.

Definition sh_step h (l : peer_label C) : option (shist M C) :=
  let p := sh_peer h in
  match peer_step p l with
  | Ret (evs, p') => Some (mkSHist p' (sh_issued h ++ issued_by p l p') (sh_events h ++ evs))
  | _ => None
  end.

Definition sh_init p : shist M C := mkSHist p [] [].

(** All that a peer has still to send. *)
Definition pending p : list Block :=
  ch_buf (cp_sendQueue (connectionPool p)) ++ in_hand (cp_send (connectionPool p)).

(** A peer that has not been stopped: its queues are open, its relays run, and what
    its connections have issued is waiting, sent, or given up by a tunnel's retry. *)
Record unstopped h : Prop := {
  us_queues : closed_queues (tunnelPool (sh_peer h)) = (false, false, false);
  us_sender : cp_send (connectionPool (sh_peer h)) <> SendStopped;
  us_relays : Forall (fun e => e_out e = OutEnded -> tn_cancelled (e_tunnel e) = true) (entries (tunnelPool (sh_peer h)));
  us_blocks : received <$> sh_issued h ≡ₚ
    (received <$> pending (sh_peer h)) ++ held (tunnelPool (sh_peer h)) ++ sent_on (sh_events h) ++ dropped (sh_events h);
}.

Record send_ok h : Prop := {
  so_linked : linked (sh_peer h);
  so_cancelled : cp_cancelled (connectionPool (sh_peer h)) = pr_cancelled (sh_peer h);
  so_queue : ch_closed (cp_sendQueue (connectionPool (sh_peer h))) = false;
  so_caps : ch_cap (TunnelPool.sendQueue (tunnelPool (sh_peer h))) = Tunnel.SendQueueSize /\
    ch_cap (sendRetryQueue (tunnelPool (sh_peer h))) = Tunnel.SendQueueSize;
  so_running : pr_cancelled (sh_peer h) = false -> unstopped h;
  so_dropped : dropped (sh_events h) <> [] ->
    Exists (fun e => tn_cancelled (e_tunnel e) = true) (entries (tunnelPool (sh_peer h)));
}.

Lemma send_ok_init id mgr accept g : send_ok (sh_init (new_peer id mgr accept g)).
Proof. by constructor. Qed.

(** ** A step of the connection pool *)

Lemma conn_step_send h l p' :
  send_ok h -> own_conn l = true -> peer_step (sh_peer h) (YConn l) = Ret ([], p') ->
  send_ok (mkSHist p' (sh_issued h ++ issued_by (sh_peer h) (YConn l) p') (sh_events h)).
Proof.
  intros [S1 S2 S3 S4 S5 S6] Ho Hp. pose proof (linked_step _ _ _ _ S1 Hp) as Hl. cbn [peer_step] in Hp. rewrite Ho in Hp.
  destruct (cp_step _ l) as [cp| |] eqn:Es; [|done..]. injection Hp as <-.
  destruct (cp_step_send _ _ _ Ho Es) as (He & Hc & Hq). destruct (cp_step_open _ _ _ Ho Es) as [Hs Hr].
  destruct S1 as [L1 L2 L3].
  assert (ch_cap (tunnel_send cp) = ch_cap (TunnelPool.sendQueue (tunnelPool (sh_peer h)))) as Hcap
    by (rewrite <-L1; by injection Hs).
  constructor; cbn [sh_peer sh_issued sh_events with_conns connectionPool tunnelPool pr_cancelled issued_by]; try done.
  - by rewrite Hc.
  - by rewrite Hq.
  - cbn. rewrite Hcap. done.
  - intros Hn. destruct (S5 Hn) as [U1 U2 U3 U4]. constructor;
      cbn [sh_peer sh_issued sh_events with_conns connectionPool tunnelPool set_stats TunnelPool.set_recvQueue set_sendQueue entries]; try done.
    + unfold closed_queues in *. cbn. injection Hs as -> _. injection Hr as -> _. rewrite L1, L2. done.
    + destruct He as [l bs E1 E2|blk E1 E2 E3|blk E1 E2 E3|l E1 E2 [(-> & _ & E3)|(-> & _ & E3)]]; try congruence.
    + rewrite fmap_app, U4. unfold pending, held, issued. cbn. rewrite !fmap_app.
      destruct (own_conn_queues _ _ _ Ho Es) as [_ [[Q1 Q2]|(blk & -> & Q1 & Q2)]].
      * rewrite Q1, L1. destruct He as [l bs E1 E2 [->|Hi] _ _|blk E1 E2 E3|blk E1 E2 E3|l E1 E2 E3].
        -- rewrite E1, E2, app_nil_r. destruct (issuing l); [by rewrite drop_all, app_nil_r|by rewrite app_nil_r].
        -- rewrite Hi, E1, E2, drop_app_length, !fmap_app. solve_perm.
        -- rewrite E1, E2, E3. cbn. solve_perm.
        -- by destruct (Q2 blk).
        -- exfalso. destruct E3 as [(_ & _ & E3)|(_ & _ & E3)]; congruence.
      * apply chan_send_buf in Q2. rewrite Q2, L1, Q1. cbn.
        inversion He as [l bs E1 E2 Hb N1 N2|blk' E1 E2 E3|blk' E1 E2 E3|l E1 E2 [(? & _)|(? & _)]]; try done.
        rewrite E1, E3, fmap_app. cbn. solve_perm.
Qed.

(** ** The other steps *)

Lemma tunnel_step_send h l evs tp :
  send_ok h -> own_tunnel l = true -> pool_step (tunnelPool (sh_peer h)) l = Ret (evs, tp) ->
  send_ok (mkSHist (with_tunnels tp (sh_peer h)) (sh_issued h) (sh_events h ++ evs)).
Proof.
  intros [S1 S2 S3 S4 S5 S6] Ho Hs. destruct (pool_step_kept _ _ _ _ Ho Hs) as (es & Ees & Hk).
  destruct (pool_step_events _ _ _ _ Ho Hs) as (Ha & Hd & _). pose proof (pool_step_shapes _ _ _ _ Ho Hs) as Hsh.
  constructor; cbn [sh_peer sh_issued sh_events with_tunnels connectionPool tunnelPool pr_cancelled]; try done.
  - unfold queue_shapes, shape in Hsh. injection Hsh as _ -> _ -> _ _. exact S4.
  - intros Hn. destruct (S5 Hn) as [U1 U2 U3 U4].
    constructor; cbn [sh_peer sh_issued sh_events with_tunnels connectionPool tunnelPool]; try done.
    + by rewrite (shapes_closed _ _ Hsh).
    + assert (pool_open (tunnelPool (sh_peer h)) = true) as Hop
        by (unfold closed_queues in U1; unfold pool_open; by injection U1 as -> -> _).
      rewrite Hop in Hk. rewrite Ees. apply Forall_app. split; [by eapply kept_ended|]. by apply Forall_fmap, Forall_true.
    + apply pool_step_conserves in Hs. unfold conserves in Hs. rewrite Ha in Hs. cbn [app] in Hs.
      rewrite U4, sent_on_app, dropped_app. unfold pending. cbn. rewrite Hs. solve_perm.
  - rewrite dropped_app. intros Hne. rewrite Ees. apply Exists_app. left. eapply kept_cancelled; [exact Hk|].
    destruct (decide (dropped (sh_events h) = [])) as [E|E]; [|by apply S6]. rewrite E in Hne. by apply Hd.
Qed.

(** A step that changes neither the tunnels nor what is to be sent. *)
Lemma cancelled_send h p :
  send_ok h -> pr_cancelled p = true -> linked p -> cp_cancelled (connectionPool p) = true ->
  cp_sendQueue (connectionPool p) = cp_sendQueue (connectionPool (sh_peer h)) ->
  ch_cap (TunnelPool.sendQueue (tunnelPool p)) = Tunnel.SendQueueSize /\
    ch_cap (sendRetryQueue (tunnelPool p)) = Tunnel.SendQueueSize ->
  Forall2 (relay_kept false) (entries (tunnelPool (sh_peer h))) (entries (tunnelPool p)) ->
  send_ok (mkSHist p (sh_issued h) (sh_events h)).
Proof.
  intros [S1 S2 S3 S4 S5 S6] Hc Hl Hcp Hq Hcap Hk. constructor; cbn [sh_peer sh_issued sh_events]; try done.
  - congruence.
  - congruence.
  - by rewrite Hc.
  - intros Hd. eapply kept_cancelled; [exact Hk|by apply S6].
Qed.

Lemma Stop_send h p : send_ok h -> Stop (sh_peer h) = Ret p -> send_ok (mkSHist p (sh_issued h) (sh_events h)).
Proof.
  intros Hok Hs. pose proof (linked_step (sh_peer h) YStop [] p (so_linked _ Hok)) as Hl. cbn [peer_step] in Hl.
  rewrite Hs in Hl. specialize (Hl eq_refl). unfold Stop in Hs.
  destruct (Close _) as [tp| |] eqn:Ec; [|done..]. injection Hs as <-. pose proof (Close_spec _ _ Ec) as [C1 _ _ _ _].
  assert (ch_cap (TunnelPool.sendQueue tp) = ch_cap (TunnelPool.sendQueue (tunnelPool (sh_peer h))) /\
    ch_cap (sendRetryQueue tp) = ch_cap (sendRetryQueue (tunnelPool (sh_peer h)))) as [E1 E2].
  { unfold Close, close_call, chan_close in Ec. cbn in Ec.
    destruct (ch_closed (TunnelPool.sendQueue _)), (ch_closed (sendRetryQueue _)), (ch_closed (TunnelPool.recvQueue _)); try done.
    cbn in Ec. by injection Ec as <-. }
  apply cancelled_send; try done; cbn [with_tunnels tunnelPool].
  - rewrite E1, E2. apply Hok.
  - rewrite C1. apply Forall2_same_length_lookup_2; [by rewrite length_imap|]. intros i e e' Hi.
    rewrite list_lookup_imap. cbn [peer_cancel tunnelPool cancel_pool entries] in *. rewrite Hi. intros [= <-].
    case_decide; [apply relay_kept_same; [apply close_entry_same|by left]|apply relay_kept_refl].
Qed.

Lemma sh_step_ok h l h' : send_ok h -> sh_step h l = Some h' -> send_ok h'.
Proof.
  intros Hok. unfold sh_step. destruct (peer_step _ l) as [[evs p']| |] eqn:Ep; [|done..]. intros [= <-].
  destruct l as [l|l|l|g|].
  - assert (own_conn l = true) as Ho by (cbn in Ep; by destruct (own_conn l)).
    assert (evs = []) as -> by (cbn [peer_step] in Ep; rewrite Ho in Ep; destruct (cp_step _ l); [by injection Ep|done..]).
    rewrite app_nil_r. by apply conn_step_send.
  - cbn [peer_step issued_by] in Ep |- *. destruct (own_tunnel l) eqn:Ho; [|done].
    destruct (pool_step _ l) as [[es tp]| |] eqn:Es; [|done..]. injection Ep as <- <-. rewrite app_nil_r. by eapply tunnel_step_send.
  - pose proof (linked_step _ _ _ _ (so_linked _ Hok) Ep) as Hl. cbn [peer_step issued_by] in Ep |- *.
    destruct (manager_step _ _) as [[mgr removed]|]; [|done]. injection Ep as <- <-. rewrite !app_nil_r. destruct removed.
    + apply cancelled_send; try done; [by destruct Hok|]. apply relays_kept_refl.
    + destruct Hok as [S1 S2 S3 S4 S5 S6]. constructor; try done. intros Hn. by destruct (S5 Hn).
  - pose proof (linked_step _ _ _ _ (so_linked _ Hok) Ep) as Hl. cbn [peer_step issued_by] in Ep |- *.
    injection Ep as <- <-. rewrite !app_nil_r. destruct Hok as [S1 S2 S3 S4 S5 S6]. constructor; try done.
    intros Hn. by destruct (S5 Hn).
  - cbn [peer_step issued_by] in Ep |- *. destruct (Stop _) as [p| |] eqn:Es; [|done..]. injection Ep as <- <-.
    rewrite !app_nil_r. by apply Stop_send.
Qed.

(** ** How many steps are left *)

Lemma kept_length open (es es' : list (entry C)) : Forall2 (relay_kept open) es es' -> length es' = length es.
Proof. by intros ->%Forall2_length. Qed.

(** Every step that sends is paid for: by a block that is issued, or by a tunnel that
    is added. *)
Lemma sh_step_left h l h' :
  send_ok h -> sh_step h l = Some h' ->
  (send_left (sh_peer h') + (if send_move l then 1 else 0) +
     5 * length (sh_issued h) + 8 * length (entries (tunnelPool (sh_peer h))) <=
   send_left (sh_peer h) + 5 * length (sh_issued h') + 8 * length (entries (tunnelPool (sh_peer h'))))%nat.
Proof.
  intros [[L1 L2 _] _ _ _ _ _]. unfold sh_step. destruct (peer_step _ l) as [[evs p']| |] eqn:Ep; [|done..]. intros [= <-].
  cbn [sh_peer sh_issued]. rewrite length_app. unfold send_left.
  destruct l as [l|l|l|g|]; cbn [peer_step issued_by] in Ep |- *.
  - destruct (own_conn l) eqn:Ho; [|done]. destruct (cp_step _ l) as [cp| |] eqn:Es; [|done..]. injection Ep as _ <-.
    pose proof (conn_step_left _ _ _ Ho Es) as Hc. unfold pool_left.
    cbn [with_conns connectionPool tunnelPool set_stats TunnelPool.set_recvQueue set_sendQueue TunnelPool.sendQueue sendRetryQueue retrying entries].
    destruct (own_conn_queues _ _ _ Ho Es) as [_ [[-> Hn]|(blk & -> & _ & Q)]].
    + rewrite L1. assert (l <> CSendPut) as Hne.
      { intros ->. cbn [cp_step] in Es. unfold sendRelay_put in Es. destruct (cp_send _) as [|blk|] eqn:E; try done. by destruct (Hn blk). }
      destruct l; try done; cbn [send_move]; lia.
    + apply chan_send_buf in Q. rewrite Q, L1, length_app. cbn [length send_move]. lia.
  - destruct (own_tunnel l) eqn:Ho; [|done]. destruct (pool_step _ l) as [[es tp]| |] eqn:Es; [|done..]. injection Ep as _ <-.
    pose proof (pool_step_left _ _ _ _ Ho Es) as Hl. destruct (pool_step_kept _ _ _ _ Ho Es) as (es' & E & Hk%kept_length).
    cbn [with_tunnels connectionPool tunnelPool]. rewrite E, length_app, length_fmap, Hk.
    unfold conn_left. cbn [set_cp_stats set_connectionMapping set_tunnel_queues cp_sendQueue cp_send length]. lia.
  - destruct (manager_step _ _) as [[mgr removed]|]; [|done]. injection Ep as _ <-. destruct removed; cbn; lia.
  - injection Ep as _ <-. cbn. lia.
  - unfold Stop in Ep. destruct (Close _) as [tp| |] eqn:Ec; [|done..]. injection Ep as _ <-.
    pose proof (Close_left _ _ Ec) as Hl. apply Close_spec in Ec as [C1 _ _ _ _].
    cbn [with_tunnels connectionPool tunnelPool]. rewrite C1, length_imap.
    unfold conn_left, pool_left in *. cbn in *. lia.
Qed.

(** The steps that send of a run. *)
Definition sends (tr : list (peer_label C)) : nat := length (filter (fun l => send_move l = true) tr).

Lemma send_run_left h tr h' :
  send_ok h -> run sh_step h tr = Some h' ->
  send_ok h' /\
  (send_left (sh_peer h') + sends tr + 5 * length (sh_issued h) + 8 * length (entries (tunnelPool (sh_peer h))) <=
   send_left (sh_peer h) + 5 * length (sh_issued h') + 8 * length (entries (tunnelPool (sh_peer h'))))%nat.
Proof.
  revert h. induction tr as [|l tr IH]; intros h Hok; cbn [run].
  - intros [= <-]. split; [done|]. cbn. lia.
  - destruct (sh_step h l) as [h1|] eqn:Es; [|done]. pose proof (sh_step_left _ _ _ Hok Es) as Hl.
    intros [Hok' Hr]%IH; [|by eapply sh_step_ok]. split; [done|]. unfold sends in *. rewrite filter_cons.
    case_decide as Hm; [rewrite Hm in Hl; cbn [length]; lia|]. destruct (send_move l); [done|]. lia.
Qed.

(** ** Where none of them is left *)

Lemma send_room (blk : Block) (q : chan Block) :
  ch_closed q = false -> ch_buf q = [] -> ch_cap q <> 0%nat -> exists q', send_call blk q = Ret q'.
Proof.
  intros Hc Hb Hcap. unfold send_call, chan_send. rewrite Hc, Hb, decide_True by (cbn; lia). by eexists.
Qed.

Lemma rest_send h :
  send_ok h -> pr_cancelled (sh_peer h) = false -> Tunnel.SendQueueSize <> 0%nat ->
  Exists (fun e => tn_cancelled (e_tunnel e) = false) (entries (tunnelPool (sh_peer h))) ->
  at_rest sh_step send_move h -> pending (sh_peer h) = [] /\ held (tunnelPool (sh_peer h)) = [].
Proof.
  intros [[L1 L2 _] S2 S3 [S4 S4'] S5 _] Hn Hcap (e & Hin & He)%Exists_exists Hrest.
  destruct (S5 Hn) as [U1 U2 U3 _]. injection U1 as Q1 Q2 Q3. apply list_elem_of_lookup_1 in Hin as [i Hi].
  assert (forall l r, send_move l = true -> peer_step (sh_peer h) l <> Ret r) as Hno.
  { intros l [evs p] Hl E. specialize (Hrest l Hl). unfold sh_step in Hrest. by rewrite E in Hrest. }
  assert (waiting (tunnelPool (sh_peer h)) = []) as Hw.
  { destruct (decide (waiting (tunnelPool (sh_peer h)) = [])) as [?|Hw]; [done|]. exfalso.
    destruct (relay_progress i _ e Hi) as (ch & [r E]); try done.
    - intros Hend. rewrite Forall_forall in U3. rewrite (U3 e) in He; [done|by eapply list_elem_of_lookup_2|done].
    - unfold pool_hstep in E. cbn [fst snd] in E. destruct (pool_step _ (POut i ch)) as [[evs tp]| |] eqn:Es; [|done..].
      eapply (Hno (YTunnel (POut i ch))); [done|]. cbn [peer_step own_tunnel]. by rewrite Es. }
  apply app_eq_nil in Hw as [W1 W2].
  assert (in_hand (cp_send (connectionPool (sh_peer h))) = []) as Hh.
  { destruct (cp_send (connectionPool (sh_peer h))) as [|blk|] eqn:Ec; [done| |done]. exfalso.
    destruct (send_room blk (tunnel_send (connectionPool (sh_peer h)))) as [q Eq]; [by rewrite L1..|by rewrite L1, S4|].
    eapply (Hno (YConn CSendPut)); [done|]. cbn [peer_step own_conn cp_step]. unfold sendRelay_put. by rewrite Ec, Eq. }
  assert (ch_buf (cp_sendQueue (connectionPool (sh_peer h))) = []) as Hq.
  { destruct (ch_buf (cp_sendQueue (connectionPool (sh_peer h)))) as [|blk r] eqn:Eb; [done|]. exfalso.
    eapply (Hno (YConn CSendTake)); [done|]. cbn [peer_step own_conn cp_step]. unfold sendRelay_take, chan_recv. rewrite Eb.
    by destruct (cp_send (connectionPool (sh_peer h))). }
  assert (retrying (tunnelPool (sh_peer h)) = []) as Hr.
  { destruct (retrying (tunnelPool (sh_peer h))) as [|[j blk] r] eqn:Er; [done|]. exfalso.
    destruct (send_room blk (sendRetryQueue (tunnelPool (sh_peer h)))) as [q Eq]; [done..|by rewrite S4'|].
    eapply (Hno (YTunnel (PRetryPut 0))); [done|]. cbn [peer_step own_tunnel pool_step]. rewrite Er. cbn [lookup list_lookup]. by rewrite Eq. }
  unfold pending, held. by rewrite Hq, Hh, W1, W2, Hr.
Qed.
End PeerSending.

(** Only a relay that has something to take moves. *)
Section Resting.
Context `{TV : TunnelVars} `{CV : ConnVars} {M C : Type} `{Manager M, ManagerRun M, Reader C, Writer C}.
Implicit Types (h : shist M C).

Definition entry_rests (e : entry C) : Prop := e_out e = AtMain /\ tn_cancelled (e_tunnel e) = false \/ e_out e = OutEnded.

Lemma sent_rests h :
  cp_send (connectionPool (sh_peer h)) = SendWaiting -> pending (sh_peer h) = [] ->
  ch_closed (cp_sendQueue (connectionPool (sh_peer h))) = false ->
  waiting (tunnelPool (sh_peer h)) = [] -> retrying (tunnelPool (sh_peer h)) = [] ->
  pool_open (tunnelPool (sh_peer h)) = true -> Forall entry_rests (entries (tunnelPool (sh_peer h))) ->
  at_rest sh_step send_move h.
Proof.
  unfold pending, waiting, pool_open. intros Hs [Hp _]%app_eq_nil Hc [W1 W2]%app_eq_nil Hr [C1 C2]%andb_true_iff He l Hl.
  apply negb_true_iff in C1, C2. unfold sh_step.
  assert (peer_step (sh_peer h) l = Blocks) as ->; [|done].
  destruct l as [l|l|l|g|]; try done; cbn [peer_step].
  - destruct l; try done; cbn [own_conn cp_step].
    + unfold sendRelay_take, chan_recv. by rewrite Hs, Hp, Hc.
    + unfold sendRelay_put. by rewrite Hs.
  - destruct l as [blk| |t|i ch|k|k|i now|i|i|i now|i|]; try done; cbn [own_tunnel pool_step]; [|by rewrite Hr..].
    destruct (entries (tunnelPool (sh_peer h)) !! i) as [e|] eqn:Ei; [|done].
    unfold OutboundRelay_step. destruct (proj1 (Forall_lookup _ _) He _ _ Ei) as [[-> ->]| ->]; [|done].
    destruct ch; unfold take_retry, take_normal, chan_recv; rewrite ?W1, ?W2, ?C1, ?C2; done.
Qed.

(** Decided. *)
#[export] Instance entry_rests_dec (e : entry C) : Decision (entry_rests e).
Proof. unfold entry_rests. apply _. Defined.

Definition quiet_sender h : bool :=
  match cp_send (connectionPool (sh_peer h)) with SendWaiting => true | _ => false end &&
  bool_decide (pending (sh_peer h) = [] /\ ch_closed (cp_sendQueue (connectionPool (sh_peer h))) = false /\
    waiting (tunnelPool (sh_peer h)) = [] /\ retrying (tunnelPool (sh_peer h)) = [] /\
    pool_open (tunnelPool (sh_peer h)) = true /\ Forall entry_rests (entries (tunnelPool (sh_peer h)))).

Lemma quiet_sender_rests h : quiet_sender h = true -> at_rest sh_step send_move h.
Proof.
  unfold quiet_sender. intros [H1' (H2' & H3 & H4 & H5 & H6 & H7)%bool_decide_eq_true]%andb_true_iff.
  apply sent_rests; try done. by destruct (cp_send (connectionPool (sh_peer h))).
Qed.
End Resting.

(** * What is on the tunnels

    The blocks of the connections are laid out as they are, and the tunnel pool of a peer
    keeps the ledger of Ledger.v. *)
Section PackedConn.
Context `{CV : ConnVars}.
Implicit Types (cp : ConnectionPool).

Lemma issued_packed cp l cp' :
  own_conn l = true -> cp_step cp l = Ret cp' -> Forall packed_ok (ch_buf (cp_sendQueue cp)) ->
  Forall packed_ok (ch_buf (cp_sendQueue cp')).
Proof.
  intros Ho Hs Hp.
  assert (forall bs q, Forall packed_ok bs -> send_all bs (cp_sendQueue cp) = Ret q -> cp_sendQueue cp' = q ->
    Forall packed_ok (ch_buf (cp_sendQueue cp'))) as Hi
    by (intros bs q Hbs Hq ->; rewrite (send_all_buf _ _ _ Hq); by apply Forall_app).
  destruct (issuing l) eqn:El.
  - destruct l as [id now a|blk| | | | | | | | | |k l|k op|k l|k|]; try done; cbn [cp_step] in Hs.
    + unfold Dial in Hs. destruct (conns _ !! _); [|done]. destruct (SendConnect _ _ _) as [bs b] eqn:Es.
      destruct (send_all _ _) as [q| |] eqn:E; [|done..]. injection Hs as <-. eapply Hi; [|exact E|done].
      by eapply SendConnect_packed.
    + destruct (conns cp !! k) as [e|]; [|done]. destruct (ce_conn e) as [c|]; [|done]. destruct (user_call op); [|done].
      destruct (Inbound.ic_step _ _) as [[bs c0]|] eqn:Es; [|done].
      destruct (send_all _ _) as [q| |] eqn:E; [|done..]. injection Hs as <-. eapply Hi; [|exact E|done].
      eapply Inbound.ic_step_sends; [exact sendData_packed|exact SendDisconnect_packed|exact Es].
    + destruct (conns cp !! k) as [e|]; [|done]. destruct (ce_conn e) as [|s0]; [done|]. destruct (own_step l); [|done].
      destruct (Outbound.oc_step _ _) as [[bs s1]| |] eqn:Es; [|done..]. cbn [mbind outcome_bind] in Hs.
      destruct (send_all _ _) as [q| |] eqn:E; [|done..]. injection Hs as <-. eapply Hi; [|exact E|done].
      eapply Outbound.oc_step_sends; [exact sendData_packed|exact SendDisconnect_packed|exact Es].
  - destruct (cp_step_send _ _ _ Ho Hs) as [He _]. revert El.
    destruct He as [l0 bs E1 _ [->|?] _ _|blk E1 _ _|blk E1 _ _|l0 E1 _ _]; intros El; rewrite ?app_nil_r in E1;
      [by rewrite E1|congruence| |by rewrite E1..]. rewrite E1 in Hp. by apply Forall_cons in Hp as [].
Qed.
End PackedConn.

Section PeerLedger.
Context `{TV : TunnelVars} `{CV : ConnVars} {M C : Type} `{Manager M, ManagerRun M, Duplex C}.
Implicit Types (p : Peer M C) (h : shist M C) (tp : TunnelPool M C).

Lemma pending_packed p l evs p' :
  Forall packed_ok (pending p) -> peer_step p l = Ret (evs, p') -> Forall packed_ok (pending p').
Proof.
  intros Hp Hs. destruct l as [l|l|l|g|]; cbn [peer_step] in Hs.
  - destruct (own_conn l) eqn:Ho; [|done]. destruct (cp_step _ l) as [cp| |] eqn:Es; [|done..]. injection Hs as _ <-.
    unfold pending in *. cbn [with_conns connectionPool]. apply Forall_app in Hp as [Hq Hh]. apply Forall_app.
    split; [by eapply issued_packed|].
    destruct (cp_step_send _ _ _ Ho Es) as [[l0 bs _ -> _ _ _|blk E1 _ ->|blk _ _ ->|l0 _ -> _] _]; try done.
    rewrite E1 in Hq. by apply Forall_cons in Hq as [? _]; apply Forall_singleton.
  - destruct (own_tunnel l); [|done]. destruct (pool_step _ l) as [[es tp]| |]; [|done..]. by injection Hs as _ <-.
  - destruct (manager_step _ _) as [[mgr []]|]; [..|done]; by injection Hs as _ <-.
  - by injection Hs as _ <-.
  - unfold Stop in Hs. destruct (Close _) as [tp| |]; [|done..]. by injection Hs as _ <-.
Qed.

Lemma ledger_same ts evs tp tp' :
  ledger ts evs tp -> Forall packed_ok (queued tp') -> tunnels tp' = tunnels tp -> ledger ts evs tp'.
Proof. intros [_ A D] Hq E. constructor; rewrite ?E; done. Qed.

Lemma peer_ledger p l evs p' ts hist :
  linked p -> Forall packed_ok (pending p) -> ledger ts hist (tunnelPool p) -> peer_step p l = Ret (evs, p') ->
  ledger (ts ++ joining l) (hist ++ evs) (tunnelPool p').
Proof.
  intros [L1 _ _] Hp Hl Hs. pose proof (lg_queued _ _ _ Hl) as Hq.
  destruct l as [l|l|l|g|]; cbn [peer_step joining] in *; rewrite ?app_nil_r.
  - destruct (own_conn l) eqn:Ho; [|done]. destruct (cp_step _ l) as [cp| |] eqn:Es; [|done..]. injection Hs as <- <-.
    rewrite app_nil_r. eapply ledger_same; [exact Hl| |done]. unfold queued in *. cbn [with_conns tunnelPool] in *. cbn.
    apply Forall_app in Hq as [Hq1 Hq2]. apply Forall_app. split; [|done].
    destruct (own_conn_queues _ _ _ Ho Es) as [_ [[-> _]|(blk & _ & E & ->%chan_send_buf)]]; rewrite L1; [done|].
    apply Forall_app. split; [done|]. unfold pending in Hp. rewrite E in Hp. by apply Forall_app in Hp as [_ Hp].
  - destruct (own_tunnel l) eqn:Ho; [|done]. destruct (pool_step _ l) as [[es tp]| |] eqn:Es; [|done..]. injection Hs as <- <-.
    eapply ledger_next; [exact Hl|by destruct l|exact Es].
  - destruct (manager_step _ _) as [[mgr []]|]; [..|done]; injection Hs as <- <-; rewrite app_nil_r; by eapply ledger_same.
  - injection Hs as <- <-. rewrite app_nil_r. by eapply ledger_same.
  - unfold Stop in Hs. destruct (Close _) as [tp| |] eqn:Ec; [|done..]. injection Hs as <- <-.
    assert (ledger ts hist (tunnelPool (peer_cancel p))) as Hl' by (by eapply ledger_same).
    pose proof (ledger_next ts hist (tunnelPool (peer_cancel p)) PClose [] tp Hl' I) as Hn. cbn [pool_step joined] in Hn.
    rewrite Ec, !app_nil_r in Hn. rewrite app_nil_r. by apply Hn.
Qed.

(** The tunnels added before the [n]th step of an execution. *)
Definition joined_by (l : nat -> option (peer_label C)) (n : nat) : list (Tunnel C) :=
  concat ((fun i => from_option joining [] (l i)) <$> seq 0 n).

Lemma execution_ledger id mgr accept g (s : nat -> shist M C) l n :
  s 0%nat = sh_init (new_peer id mgr accept g) -> execution sh_step s l ->
  linked (sh_peer (s n)) /\ Forall packed_ok (pending (sh_peer (s n))) /\
  ledger (joined_by l n) (sh_events (s n)) (tunnelPool (sh_peer (s n))).
Proof.
  intros H0' He. induction n as [|n (IH1 & IH2 & IH3)].
  - rewrite H0'. split; [done|]. split; [by constructor|]. apply ledger_init.
  - unfold joined_by in *. rewrite seq_S, fmap_app, concat_app. cbn [Nat.add fmap list_fmap concat]. rewrite app_nil_r.
    specialize (He n). destruct (l n) as [r|]; [|rewrite He, app_nil_r; done]. cbn [from_option].
    unfold sh_step in He. destruct (peer_step _ r) as [[evs p']| |] eqn:Ep; [|done..]. injection He as <-.
    cbn [sh_peer sh_events]. split; [by eapply linked_step|]. split; [by eapply pending_packed|by eapply peer_ledger].
Qed.
End PeerLedger.

(** * Properties *)

(** However the goroutines of a peer interleave, and whatever tunnels fail, the steps
    that send are at most five for each block its connections have issued, eight for
    each tunnel it has ever had, and one. *)
Theorem sending_bounded {M C} `{TV : TunnelVars} `{CV : ConnVars} `{Manager M, ManagerRun M, Reader C, Writer C}
    (id : Z) (mgr : M) (accept : bool) (g : global_stats) (tr : list (peer_label C)) (h : shist M C) :
  run sh_step (sh_init (new_peer id mgr accept g)) tr = Some h ->
  (sends tr <= 5 * length (sh_issued h) + 8 * length (entries (tunnelPool (sh_peer h))) + 1)%nat.
Proof.
  intros Hrun. destruct (send_run_left _ _ _ (send_ok_init id mgr accept g) Hrun) as [_ Hl].
  unfold send_left at 2 in Hl. cbn in Hl. lia.
Qed.

(** C7: sending happens. In every execution of a peer that is fair to the relays that
    send and in which it is not stopped, whatever tunnels fail on the way: once its
    connections issue nothing more and no tunnel is added, and as long as one tunnel
    is not cancelled, there are for ever points at which nothing waits to be sent.
    Every block that was ever issued, each exactly once, has then been sent on one of
    the tunnels that were added, or been given up by the retry of a tunnel that failed;
    if none has failed, all have been sent. Sent means that it is on the tunnel's
    connection: what the connection carries since the tunnel was added are the blocks
    sent on it, each whole and in the order of sending, with nothing between them but
    keep-alives and nothing behind them but the beginning of a block that failed and
    closed the tunnel. *)
Theorem sending_happens {M C} `{TV : TunnelVars} `{CV : ConnVars} `{Manager M, ManagerRun M, Duplex C}
    (id : Z) (mgr : M) (accept : bool) (g : global_stats)
    (s : nat -> shist M C) (l : nat -> option (peer_label C)) (last : nat) :
  s 0%nat = sh_init (new_peer id mgr accept g) -> execution sh_step s l -> fair sh_step send_move s l ->
  (forall n, pr_cancelled (sh_peer (s n)) = false) -> Tunnel.SendQueueSize <> 0%nat ->
  (forall n, (last <= n)%nat -> sh_issued (s n) = sh_issued (s last) /\
     length (entries (tunnelPool (sh_peer (s n)))) = length (entries (tunnelPool (sh_peer (s last)))) /\
     Exists (fun e => tn_cancelled (e_tunnel e) = false) (entries (tunnelPool (sh_peer (s n))))) ->
  forall n, exists m, (n <= m)%nat /\ pending (sh_peer (s m)) = [] /\ held (tunnelPool (sh_peer (s m))) = [] /\
    received <$> sh_issued (s m) ≡ₚ sent_on (sh_events (s m)) ++ dropped (sh_events (s m)) /\
    (Forall (fun e => tn_cancelled (e_tunnel e) = false) (entries (tunnelPool (sh_peer (s m)))) ->
     received <$> sh_issued (s m) ≡ₚ sent_on (sh_events (s m))) /\
    sent_on (sh_events (s m)) ≡ₚ concat ((fun i => sent_at i (sh_events (s m))) <$> seq 0 (length (joined_by l m))) /\
    (forall i t0, joined_by l m !! i = Some t0 ->
     carries_sent (sent_at i (sh_events (s m))) t0 (tunnelPool (sh_peer (s m))) i).
Proof.
  intros H0' Hexec Hf Hn Hcap Hlast n.
  assert (forall m, send_ok (s m)) as Hok.
  { intros m. eapply (execution_invariant sh_step send_ok); [by apply sh_step_ok|exact Hexec|apply Nat.le_0_l|].
    rewrite H0'. apply send_ok_init. }
  destruct (fair_rests sh_step send_move (fun h => send_left (sh_peer h)) s l (Nat.max n last) Hexec Hf) as (m & Hm & Hr).
  { intros j r Hj El. pose proof (Hexec j) as Hs. rewrite El in Hs. pose proof (sh_step_left _ _ _ (Hok j) Hs) as Hl.
    destruct (Hlast j ltac:(lia)) as (E1 & E2 & _), (Hlast (S j) ltac:(lia)) as (E3 & E4 & _).
    rewrite E3, E4, E1, E2 in Hl. lia. }
  destruct (Hlast m ltac:(lia)) as (_ & _ & He). destruct (rest_send _ (Hok m) (Hn m) Hcap He Hr) as [Hp Hh].
  exists m. split; [lia|]. split; [done|]. split; [done|].
  pose proof (us_blocks _ (so_running _ (Hok m) (Hn m))) as Hb. rewrite Hp, Hh in Hb. split; [exact Hb|].
  destruct (execution_ledger _ _ _ _ _ _ m H0' Hexec) as (_ & _ & Hled).
  split; [|split; [by eapply ledger_sent|intros i t0; by apply ledger_carries]]. intros Hall.
  assert (dropped (sh_events (s m)) = []) as Ed.
  { destruct (decide (dropped (sh_events (s m)) = [])) as [?|Hd]; [done|]. exfalso.
    apply (so_dropped _ (Hok m)), Exists_exists in Hd as (e & Hin & Hc). rewrite Forall_forall in Hall.
    by rewrite (Hall e Hin) in Hc. }
  rewrite Ed, app_nil_r in Hb. exact Hb.
Qed.

(** ** Two tunnels of which the first breaks under the request of an application *)

#[local] Existing Instance Tunnel.const_go.
#[local] Existing Instance ConnPool.const_go.

Definition breaking_trace : list (peer_label (duplex stream sink)) :=
  [YTunnel (PAddTunnel (example_tunnel (Some 5%nat))); YTunnel (PAddTunnel (example_tunnel None));
   YConn (CDial 7 0 "t"%string); YConn CSendTake; YConn CSendPut;
   YTunnel (POut 0 ChooseDefault); YTunnel (POut 0 ChooseDefault); YTunnel (POut 0 ChooseNormal);
   YTunnel (POut 0 ChooseCancel); YTunnel (PRetryPut 0);
   YTunnel (POut 1 ChooseDefault); YTunnel (POut 1 ChooseRetry)].

(** The run ends with every block sent and every relay waiting. *)
Lemma breaking_end :
  exists h, run sh_step (sh_init client_peer) breaking_trace = Some h /\ at_rest sh_step send_move h /\
    pr_cancelled (sh_peer h) = false /\ (sent_at 0 (sh_events h) = [] /\ length (sent_at 1 (sh_events h)) = 1%nat) /\
    Exists (fun e => tn_cancelled (e_tunnel e) = false) (entries (tunnelPool (sh_peer h))).
Proof.
  destruct (run_succeeds (match run sh_step (sh_init client_peer) breaking_trace with
    | Some h => if decide (quiet_sender h = true /\ pr_cancelled (sh_peer h) = false /\ (sent_at 0 (sh_events h) = [] /\ length (sent_at 1 (sh_events h)) = 1%nat) /\
        Exists (fun e => tn_cancelled (e_tunnel e) = false) (entries (tunnelPool (sh_peer h)))) then Some h else None
    | None => None end)) as [h E']; [vm_compute; reflexivity|].
  destruct (run sh_step (sh_init client_peer) breaking_trace) as [h0|] eqn:E; [|discriminate E'].
  case_decide as Hd; [|discriminate E']. clear E E'. destruct Hd as (H1 & H2 & H3 & H4).
  exists h0. split; [reflexivity|]. split; [exact (quiet_sender_rests _ H1)|]. split; [exact H2|]. split; [exact H3|exact H4].
Qed.

Lemma breaking_running n h :
  run sh_step (sh_init client_peer) breaking_trace = Some h -> pr_cancelled (sh_peer h) = false ->
  pr_cancelled (sh_peer (traced sh_step (sh_init client_peer) breaking_trace n)) = false.
Proof.
  intros E Hc. destruct (decide (12 <= n)%nat) as [Hn|Hn]; [by rewrite (traced_late _ _ _ h)|]. clear E Hc.
  do 12 (destruct n as [|n]; [vm_compute; reflexivity|]). lia.
Qed.

Lemma sending_happens_witness :
  exists (s : nat -> shist ClientManager (duplex stream sink)) l, execution sh_step s l /\ fair sh_step send_move s l /\
    exists m, (12 <= m)%nat /\ pending (sh_peer (s m)) = [] /\
      received <$> sh_issued (s m) ≡ₚ sent_on (sh_events (s m)) ++ dropped (sh_events (s m)) /\
      sent_at 0 (sh_events (s m)) = [] /\ length (sent_at 1 (sh_events (s m))) = 1%nat /\
      carries_sent [] (example_tunnel (Some 5%nat)) (tunnelPool (sh_peer (s m))) 0 /\
      carries_sent (sent_at 1 (sh_events (s m))) (example_tunnel None) (tunnelPool (sh_peer (s m))) 1.
Proof.
  destruct breaking_end as (h & E & Hno & Hc & Hs & He).
  pose proof (traced_execution _ _ _ _ E) as Hexec. pose proof (traced_fair _ send_move _ _ _ E Hno) as Hf.
  exists (traced sh_step (sh_init client_peer) breaking_trace), (fun n => breaking_trace !! n). split; [exact Hexec|]. split; [exact Hf|].
  pose proof (fun n => breaking_running n h E Hc) as Hrun.
  assert (forall n, (12 <= n)%nat -> traced sh_step (sh_init client_peer) breaking_trace n = h) as Hlate
    by (intros n Hn; apply traced_late; [exact E|exact Hn]).
  destruct (sending_happens 77 (NewClientManager 1 ["a:1"%string] false) false (InitStats 10) _
    (fun n => breaking_trace !! n) 12 eq_refl Hexec Hf Hrun) with (n := 12%nat) as (m & Hm & Hp & _ & Hb & _ & _ & Hcar).
  - discriminate.
  - intros n Hn. rewrite (Hlate n Hn), (Hlate 12%nat (le_n _)). split; [reflexivity|]. split; [reflexivity|exact He].
  - exists m. split; [exact Hm|]. split; [exact Hp|]. split; [exact Hb|].
    rewrite (Hlate m Hm) in Hcar |- *. destruct Hs as [Hs1 Hs2]. split; [exact Hs1|]. split; [exact Hs2|].
    assert (joined_by (fun n => breaking_trace !! n) m !! 0%nat = Some (example_tunnel (Some 5%nat)) /\
      joined_by (fun n => breaking_trace !! n) m !! 1%nat = Some (example_tunnel None)) as [J1 J2]
      by (destruct m as [|[|m]]; [lia..|]; split; reflexivity).
    split; [|exact (Hcar 1%nat _ J2)]. rewrite <-Hs1. exact (Hcar 0%nat _ J1).
Defined.
