(* ===== verification/Receiving.v ===== *)
(** tunnel_pool/tunnel.go and connection_pool/pool.go: the way of a block from the
    bytes of a tunnel to the reader of its connection.  The [InboundRelay]s,
    [recvRelay] and the [OrderedRelay]s of a peer spend a bounded number of steps on
    it, whatever else the peer does, and under fair scheduling they rest only where
    everything the tunnels have brought has been delivered, or behind a reader. *)

From S2P Require Import Prelude GoIO Block Stats Processor Connection Tunnel TunnelPool PoolManager ConnPool.
From S2P Require Import Delivery EndToEnd Wire Peer System Sending.
From S2P Require Inbound Outbound.

Local Open Scope Z_scope.

(** How much a connection still brings. *)
Class FiniteInput (C : Type) `{LawfulReader C} : Type := {
  input_left : C -> nat;
  input_left_spec c bs oe : delivers c bs oe -> input_left c = length bs;
}.

#[export] Instance stream_input : FiniteInput stream.
Proof. refine {| input_left s := length (concat (st_chunks s)) |}. intros s bs oe [Hd _]. cbn in Hd. by rewrite Hd. Defined.

#[export] Instance duplex_input {R W} `{LawfulReader R, !FiniteInput R} `{LawfulWriter W} : FiniteInput (duplex R W).
Proof. refine {| input_left c := input_left (dx_in c) |}. intros c bs oe Hd. exact (input_left_spec (dx_in c) bs oe Hd). Defined.

(** The steps that move a block from a tunnel towards its reader. *)
Definition receive_move {C} (l : peer_label C) : bool :=
  match l with
  | YConn l => recv_move l
  | YTunnel (PIn _ _) | YTunnel (PInForward _) | YTunnel (PInCancel _) => true
  | _ => false
  end.

(** * One tunnel *)

Section Input.
Context `{TV : TunnelVars} {C : Type} `{Duplex C} `{!FiniteInput C}.
Implicit Types (t : Tunnel C) (e : entry C) (g : global_stats).

(** What the other goroutines of a tunnel do to its input: nothing, but they may
    close it. *)
Record same_input t t' : Prop := {
  sn_cancelled : stays_cancelled t t';
  sn_closed : tn_closed t = true -> tn_closed t' = true;
  sn_input bs oe : tn_closed t' = false -> delivers (Conn t) bs oe -> delivers (Conn t') bs oe;
}.

Lemma same_input_trans t1 t2 t3 : same_input t1 t2 -> same_input t2 t3 -> same_input t1 t3.
Proof.
  intros [A1 A2 A3] [B1 B2 B3]. constructor; unfold stays_cancelled in *; auto. intros bs oe Hc Hd. apply B3; [done|].
  apply A3; [|done]. destruct (tn_closed t2); [|done]. by rewrite B2 in Hc.
Qed.

Lemma same_input_conn t t' :
  Conn t' = Conn t -> (tn_cancelled t = true -> tn_cancelled t' = true) -> (tn_closed t = true -> tn_closed t' = true) ->
  same_input t t'.
Proof. intros E1 E2 E3. constructor; [done|done|]. by rewrite E1. Qed.

Lemma packThenSend_input blk retry g t rb g' t' : packThenSend blk retry g t = (rb, g', t') -> same_input t t'.
Proof.
  unfold packThenSend. destruct (Pack blk) as [data b]. unfold conn_write. destruct (tn_closed t) eqn:Ec.
  - rewrite bool_decide_eq_false_2 by (by intros [? _]). destruct retry; intros; simplify_eq/=; by apply same_input_conn.
  - destruct (copy_bytes data (Conn t)) as [[n oe] c] eqn:Ew.
    assert (forall t1, Conn t1 = c -> (tn_cancelled t = true -> tn_cancelled t1 = true) -> same_input t t1) as Hs.
    { intros t1 E1 E2. constructor; [done|by rewrite Ec|]. intros bs oe' _ Hd. rewrite E1. by eapply copy_bytes_delivers. }
    case_bool_decide; destruct retry; intros; simplify_eq/=; by apply Hs.
Qed.

Lemma PingPong_tick_input now g t g' t' : PingPong_tick now g t = (g', t') -> same_input t t'.
Proof.
  unfold PingPong_tick. set (sent := if decide (PingInterval < _) then _ else _). destruct sent as [g1 t1] eqn:Es. subst sent.
  intros Ht. assert (same_input t t1) as H1'.
  { clear Ht. destruct (decide (PingInterval < idle_seconds (now 0%nat) t)); [|injection Es as -> ->; by apply same_input_conn].
    destruct (packThenSend _ false g t) as [[rb g2] t2] eqn:E. injection Es as -> ->. by eapply packThenSend_input. }
  eapply same_input_trans; [exact H1'|]. case_decide; simplify_eq; by apply same_input_conn.
Qed.

Lemma InboundRelay_block_input now blk g t fwd g' t' : InboundRelay_block now blk g t = Ret (fwd, g', t') -> same_input t t'.
Proof.
  unfold InboundRelay_block. destruct (Pack blk) as [d b].
  case_decide; [destruct (Uint64 _); [|done]|case_decide; [destruct (Uint64 _); [|done]|]].
  - set (t1 := SetLatencyNano _ _). destruct (packThenSend _ false _ t1) as [[rb g1] t2] eqn:E. intros [= _ _ <-].
    eapply same_input_trans; [|by eapply packThenSend_input]. by apply same_input_conn.
  - intros [= _ _ <-]. by apply same_input_conn.
  - intros [= _ _ <-]. by apply same_input_conn.
Qed.

(** The steps its [InboundRelay] can still take: two for each byte is enough for a
    block, with five for the queue the block is put on. *)
Definition in_left e : nat :=
  let t := e_tunnel e in
  if tn_cancelled t then match e_in e with InLoop => 7 | InForward _ => 13 | InEnded => 0 end
  else match e_in e with
       | InLoop => 14 + (if tn_closed t then 0 else 20 * input_left (Conn t))
       | InForward _ => 20 + (if tn_closed t then 0 else 20 * input_left (Conn t))
       | InEnded => 0
       end.

Definition has_input t : Prop := tn_closed t = true \/ exists bs oe, delivers (Conn t) bs oe.

Lemma same_input_left e e' :
  has_input (e_tunnel e) -> same_input (e_tunnel e) (e_tunnel e') -> e_in e' = e_in e -> (in_left e' <= in_left e)%nat.
Proof.
  intros Hi [Hc Hcl Hd] Hin. unfold in_left, stays_cancelled in *. rewrite Hin.
  destruct (tn_cancelled (e_tunnel e)); [rewrite Hc by done; lia|]. destruct (tn_cancelled (e_tunnel e')); [destruct (e_in e); lia|].
  destruct (tn_closed (e_tunnel e)) eqn:Eo; [rewrite Hcl by done; lia|]. destruct (tn_closed (e_tunnel e')) eqn:Eo'; [destruct (e_in e); lia|].
  destruct Hi as [?|(bs & oe & Hb)]; [congruence|].
  rewrite (input_left_spec _ _ _ Hb), (input_left_spec _ _ _ (Hd _ _ eq_refl Hb)). lia.
Qed.

(** A block taken off the input is at least one byte. *)
Lemma parse_left (c c' : C) bs oe b :
  delivers c bs oe -> NewBlockFromReader c = Some (Ok b, c') -> exists rest, delivers c' rest oe /\ (length rest < length bs)%nat.
Proof.
  intros Hd Hp. destruct (parse_inv _ _ _ _ _ Hd Hp) as (_ & _ & rest & -> & Hd'). exists rest. split; [done|].
  rewrite encode_header, !length_app. cbn. lia.
Qed.

Lemma InboundRelay_read_left now g t fwd g' t' o w :
  has_input t -> tn_cancelled t = false -> InboundRelay_read now g t = Ret (fwd, g', t') ->
  (in_left (mkEntry t' o (match fwd with Some blk => InForward blk | None => InLoop end) w) + 1 <= in_left (mkEntry t o InLoop w))%nat.
Proof.
  intros Hi Hc. unfold InboundRelay_read.
  assert (in_left (mkEntry t o InLoop w) = 14 + (if tn_closed t then 0 else 20 * input_left (Conn t)))%nat as ->
    by (unfold in_left; cbn; by rewrite Hc).
  destruct (tn_closed t) eqn:Ecl; [intros [= <- _ <-]; cbn; lia|].
  destruct Hi as [?|(bs & oe & Hd)]; [congruence|].
  destruct (NewBlockFromReader (Conn t)) as [[[b|err] c]|] eqn:Ep; [|intros [= <- _ <-]; cbn; lia|done].
  destruct (parse_left _ _ _ _ _ Hd Ep) as (rest & Hd' & Hl). intros Hb.
  destruct (InboundRelay_block_input _ _ _ _ _ _ _ Hb) as [_ _ Hin].
  assert (in_left (mkEntry t' o (match fwd with Some blk => InForward blk | None => InLoop end) w) <= 20 + 20 * length rest)%nat as Hle.
  { unfold in_left. cbn [e_tunnel e_in]. destruct (tn_cancelled t'); [destruct fwd; lia|].
    destruct (tn_closed t') eqn:Ecl'; [destruct fwd; lia|]. rewrite (input_left_spec _ _ _ (Hin rest oe eq_refl Hd')).
    destruct fwd; lia. }
  rewrite (input_left_spec _ _ _ Hd). lia.
Qed.
End Input.

(** * The tunnels of a pool *)

Section PoolInput.
Context `{TV : TunnelVars} {M C : Type} `{Manager M} `{Duplex C} `{!FiniteInput C}.
Implicit Types (tp : TunnelPool M C) (e : entry C) (t : Tunnel C).

Definition arrivals_left tp : nat := sum_list (in_left <$> entries tp) + 5 * length (ch_buf (TunnelPool.recvQueue tp)).

Definition all_have_input tp : Prop := Forall (fun e => has_input (e_tunnel e)) (entries tp).

Lemma arrivals_update tp tp' i e e' (k : nat) :
  entries tp !! i = Some e -> entries tp' = <[i := e']> (entries tp) ->
  (in_left e' + 5 * length (ch_buf (TunnelPool.recvQueue tp')) + k <= in_left e + 5 * length (ch_buf (TunnelPool.recvQueue tp)))%nat ->
  (arrivals_left tp' + k <= arrivals_left tp)%nat.
Proof. intros Hi E Hl. pose proof (sum_list_insert in_left (entries tp) i e e' Hi). unfold arrivals_left. rewrite E. lia. Qed.

(** Another goroutine's step. *)
Lemma arrivals_same tp tp' i e e' :
  all_have_input tp -> entries tp !! i = Some e -> entries tp' = <[i := e']> (entries tp) ->
  TunnelPool.recvQueue tp' = TunnelPool.recvQueue tp -> same_input (e_tunnel e) (e_tunnel e') -> e_in e' = e_in e ->
  (arrivals_left tp' <= arrivals_left tp)%nat.
Proof.
  intros Ha Hi E Eq Hs Hin. pose proof (Forall_lookup_1 _ _ _ _ Ha Hi) as Ht. cbn in Ht.
  pose proof (same_input_left _ _ Ht Hs Hin). pose proof (arrivals_update tp tp' i e e' 0 Hi E) as Hu.
  rewrite Eq in Hu. lia.
Qed.

Lemma relay_send_arrivals i e blk next tp evs tp' :
  all_have_input tp -> entries tp !! i = Some e -> relay_send i e blk next tp = (evs, tp') ->
  (arrivals_left tp' <= arrivals_left tp)%nat.
Proof.
  intros Ha Hi. unfold relay_send. destruct (packThenSend _ _ _ _) as [[rb g] t] eqn:Ep. apply packThenSend_input in Ep.
  destruct rb; intros [= _ <-]; by eapply arrivals_same.
Qed.

Lemma OutboundRelay_arrivals i e ch tp evs tp' :
  all_have_input tp -> entries tp !! i = Some e -> OutboundRelay_step i e ch tp = Ret (evs, tp') ->
  (arrivals_left tp' <= arrivals_left tp)%nat.
Proof.
  intros Ha Hi.
  assert (forall pc, (arrivals_left (goto_out i e pc tp) <= arrivals_left tp)%nat) as Hgo
    by (intros pc; eapply arrivals_same; [done|exact Hi|done|done|by apply same_input_conn|done]).
  unfold OutboundRelay_step, take_retry, take_normal. destruct (e_out e), ch; try done; repeat case_match; try done;
    first [intros [= _ <-]; apply Hgo|intros [= E]; by eapply (relay_send_arrivals _ _ _ _ (set_retryQueue _ tp))
          |intros [= E]; by eapply (relay_send_arrivals _ _ _ _ (set_sendQueue _ tp))].
Qed.

Lemma InboundRelay_arrivals i now e tp evs tp' :
  all_have_input tp -> entries tp !! i = Some e -> InboundRelay_step i now e tp = Ret (evs, tp') ->
  (arrivals_left tp' + 1 <= arrivals_left tp)%nat.
Proof.
  intros Ha Hi. unfold InboundRelay_step. destruct (e_in e) eqn:Ein; [|done..]. destruct (tn_cancelled (e_tunnel e)) eqn:Ec.
  - assert (in_left e = 7%nat) as El by (unfold in_left; by rewrite Ec, Ein).
    assert (forall t tp1, entries tp1 = <[i := mkEntry t (e_out e) InEnded (e_waiting e)]> (entries tp) ->
      (length (ch_buf (TunnelPool.recvQueue tp1)) <= length (ch_buf (TunnelPool.recvQueue tp)) + 1)%nat ->
      (arrivals_left tp1 + 1 <= arrivals_left tp)%nat) as Hend.
    { intros t tp1 E Hq. eapply arrivals_update; [exact Hi|exact E|]. rewrite El.
      assert (in_left (mkEntry t (e_out e) InEnded (e_waiting e)) = 0%nat) as -> by (unfold in_left; cbn; by destruct (tn_cancelled t)).
      lia. }
    unfold InboundRelay_last. destruct (tn_closed _); [intros [= _ <-]; eapply Hend; [done|cbn; lia]|].
    destruct (NewBlockFromReader _) as [[[b|err] c]|]; [|intros [= _ <-]; eapply Hend; [done|cbn; lia]|done].
    destruct (Pack b) as [d b']. destruct (chan_send _ _) as [q| |] eqn:Eq; [| |done]; intros [= _ <-].
    + eapply Hend; [done|]. apply chan_send_buf in Eq. cbn. rewrite Eq, length_app. done.
    + eapply Hend; [done|cbn; lia].
  - destruct (InboundRelay_read _ _ _) as [[[fwd g] t]| |] eqn:Er; [|done..]. intros [= _ <-].
    pose proof (Forall_lookup_1 _ _ _ _ Ha Hi) as Ht.
    pose proof (InboundRelay_read_left _ _ _ _ _ _ (e_out e) (e_waiting e) Ht Ec Er) as Hl.
    assert (e = mkEntry (e_tunnel e) (e_out e) InLoop (e_waiting e)) as E by (destruct e; cbn in *; by subst).
    rewrite <-E in Hl. eapply arrivals_update; [exact Hi|done|]. cbn. lia.
Qed.

Lemma forward_left e blk :
  e_in e = InForward blk -> (in_left (mkEntry (e_tunnel e) (e_out e) InLoop (e_waiting e)) + 6 <= in_left e)%nat.
Proof. intros E. unfold in_left. cbn. rewrite E. destruct (tn_cancelled (e_tunnel e)); lia. Qed.

Lemma pool_step_arrivals tp l evs tp' :
  all_have_input tp -> own_tunnel l = true -> joined l = [] -> pool_step tp l = Ret (evs, tp') ->
  (arrivals_left tp' + (if receive_move (YTunnel l) then 1 else 0) <= arrivals_left tp)%nat.
Proof.
  intros Ha Ho Hj Hs. destruct l as [blk| |t|i ch|k|k|i now|i|i|i now|i|]; try done; cbn [pool_step receive_move] in *.
  - destruct (entries tp !! i) as [e|] eqn:Ei; [|done]. pose proof (OutboundRelay_arrivals _ _ _ _ _ _ Ha Ei Hs). lia.
  - destruct (retrying tp !! k) as [[j blk]|]; [|done]. destruct (send_call _ _) as [q| |]; [|done..]. injection Hs as _ <-.
    unfold arrivals_left. cbn. lia.
  - destruct (retrying tp !! k) as [[j blk]|]; [|done]. destruct (entries tp !! j); [|done].
    destruct (tn_cancelled _); [|done]. injection Hs as _ <-. unfold arrivals_left. cbn. lia.
  - destruct (entries tp !! i) as [e|] eqn:Ei; [|done]. by eapply InboundRelay_arrivals.
  - destruct (entries tp !! i) as [e|] eqn:Ei; [|done]. destruct (e_in e) as [|blk|] eqn:Ein; try done.
    unfold send_call in Hs. destruct (chan_send _ _) as [q| |] eqn:Eq; [|done..]. injection Hs as _ <-. apply chan_send_buf in Eq.
    eapply arrivals_update; [exact Ei|done|]. pose proof (forward_left e blk Ein). cbn. rewrite Eq, length_app. cbn. lia.
  - destruct (entries tp !! i) as [e|] eqn:Ei; [|done]. destruct (e_in e) as [|blk|] eqn:Ein; try done.
    destruct (tn_cancelled (e_tunnel e)) eqn:Ec; [|done]. injection Hs as _ <-.
    eapply arrivals_update; [exact Ei|done|]. unfold in_left. cbn. rewrite Ein, Ec. lia.
  - destruct (entries tp !! i) as [e|] eqn:Ei; [|done]. case_decide; [|done]. destruct (PingPong_tick _ _ _) as [g t] eqn:Ep.
    injection Hs as _ <-. apply PingPong_tick_input in Ep.
    assert (arrivals_left (goto_in i e t (e_in e) g tp) <= arrivals_left tp)%nat by (by eapply arrivals_same). lia.
  - destruct (entries tp !! i) as [e|] eqn:Ei; [|done]. destruct (_ && _); [|done]. injection Hs as _ <-.
    set (tp1 := set_entry i _ tp). destruct (RemoveTunnel_keeps (e_tunnel e) tp1) as (E1 & _ & _ & E2 & _).
    assert (arrivals_left (RemoveTunnel (e_tunnel e) tp1) <= arrivals_left tp)%nat; [|lia].
    eapply arrivals_same; [done|exact Ei|exact E1|exact E2|by apply same_input_conn|done].
Qed.

Lemma Close_arrivals tp tp' : all_have_input tp -> Close tp = Ret tp' -> (arrivals_left tp' <= arrivals_left tp)%nat.
Proof.
  intros Ha [E1 _ _ E2 _]%Close_spec. unfold arrivals_left. rewrite E1, E2.
  assert (sum_list (in_left <$> imap (fun i e => if decide (i ∈ (map_to_list (tunnelMapping tp)).*2) then close_entry e else e)
    (entries tp)) <= sum_list (in_left <$> entries tp))%nat; [|lia].
  apply sum_list_le, Forall2_same_length_lookup_2; [by rewrite length_imap|]. intros i e e' Hi.
  rewrite list_lookup_imap, Hi. intros [= <-]. case_decide; [|done].
  apply same_input_left; [exact (Forall_lookup_1 _ _ _ _ Ha Hi)|by constructor|done].
Qed.
End PoolInput.

(** * A peer *)

Section PeerReceiving.
Context `{TV : TunnelVars} `{CV : ConnVars} {M C : Type} `{Manager M, ManagerRun M} `{Duplex C} `{!FiniteInput C}.
Implicit Types (h : yhist M C) (p : Peer M C).

(** A peer in its run, all of whose tunnels bring whole blocks, those of [acc] and
    keep-alives. *)
Record recv_ok (acc : list Block) h : Prop := {
  rv_inv : yh_inv h;
  rv_from : from_inv acc h;
  rv_pool : pool_ok (connectionPool (yh_peer h));
  rv_cancelled : cp_cancelled (connectionPool (yh_peer h)) = pr_cancelled (yh_peer h);
  rv_open : pr_cancelled (yh_peer h) = false -> closed_queues (tunnelPool (yh_peer h)) = (false, false, false);
  rv_cap : ch_cap (TunnelPool.recvQueue (tunnelPool (yh_peer h))) = Tunnel.RecvQueueSize;
  rv_ended : Forall (fun e => e_in e = InEnded -> tn_cancelled (e_tunnel e) = true) (entries (tunnelPool (yh_peer h)));
}.

(** What is asked of a step's environment, and that a new tunnel brings such blocks. *)
Definition brings (acc : list Block) h (l : peer_label C) h' : Prop :=
  step_env h l h' /\ Forall (conn_ok (carries acc)) (joining l).

Lemma recv_ok_init acc id mgr accept g : recv_ok acc (yh_init (new_peer id mgr accept g)).
Proof.
  constructor; [apply yh_inv_init| |apply new_pool_ok|done|done|done|apply Forall_nil_2].
  constructor; [apply recv_inv_init|apply Forall_nil_2].
Qed.

(** The connection pool with other queues, of which that of arrivals is closed if it
    was. *)
Lemma pool_ok_queues cp g sq rq :
  pool_ok cp -> (ch_closed (tunnel_recv cp) = true -> ch_closed rq = true) ->
  pool_ok (set_cp_stats g (set_tunnel_queues sq rq cp)).
Proof.
  intros [P1 P2 P3] Hq. constructor; [by apply (cp_inv_same cp); auto|done|]. cbn. intros [?|?]%P3; auto.
Qed.

Lemma pool_ok_stop cp : pool_ok cp -> pool_ok (stopRelay cp).
Proof. intros Hp. by apply (cp_step_ok cp CStop). Qed.

(** The parts of the invariant that the two pools keep by themselves. *)
Record recv_sound p : Prop := {
  rs_pool : pool_ok (connectionPool p);
  rs_cancelled : cp_cancelled (connectionPool p) = pr_cancelled p;
  rs_open : pr_cancelled p = false -> closed_queues (tunnelPool p) = (false, false, false);
  rs_cap : ch_cap (TunnelPool.recvQueue (tunnelPool p)) = Tunnel.RecvQueueSize;
  rs_ended : Forall (fun e => e_in e = InEnded -> tn_cancelled (e_tunnel e) = true) (entries (tunnelPool p));
}.

Lemma Stop_sound p p' : linked p -> recv_sound p -> Peer.Stop p = Ret p' -> recv_sound p'.
Proof.
  intros [L1 L2 L3] [R1 R2 R3 R4 R5]. unfold Peer.Stop. destruct (Close _) as [tp| |] eqn:Ec; [|done..]. intros [= <-].
  pose proof (Close_spec _ _ Ec) as [C1 _ _ _ _].
  assert (ch_closed (TunnelPool.recvQueue tp) = true /\ ch_cap (TunnelPool.recvQueue tp) = ch_cap (TunnelPool.recvQueue (tunnelPool p))) as [E1 E2].
  { unfold Close, close_call, chan_close in Ec. cbn in Ec.
    destruct (ch_closed (TunnelPool.sendQueue _)), (ch_closed (sendRetryQueue _)), (ch_closed (TunnelPool.recvQueue _)); try done.
    cbn in Ec. by injection Ec as <-. }
  constructor; cbn [with_tunnels connectionPool tunnelPool pr_cancelled]; try done.
  - apply pool_ok_queues; [by apply pool_ok_stop|done].
  - by rewrite E2.
  - rewrite C1. apply (kept_in_ended false (entries (tunnelPool p))); [|done].
    apply Forall2_same_length_lookup_2; [by rewrite length_imap|]. intros i e e' Hi. rewrite list_lookup_imap.
    cbn [peer_cancel tunnelPool cancel_pool entries]. rewrite Hi. intros [= <-].
    case_decide; [apply relay_kept_same; [apply close_entry_same|by left]|apply relay_kept_refl].
Qed.

Lemma sound_step p l evs p' : linked p -> recv_sound p -> peer_step p l = Ret (evs, p') -> recv_sound p'.
Proof.
  intros Hlk Hs Hp. pose proof Hlk as [L1 L2 L3]. pose proof Hs as [R1 R2 R3 R4 R5].
  destruct l as [l|l|l|g|]; cbn [peer_step] in Hp.
  - destruct (own_conn l) eqn:Ho; [|done]. destruct (cp_step _ l) as [cp| |] eqn:Es; [|done..]. injection Hp as _ <-.
    destruct (cp_step_send _ _ _ Ho Es) as (_ & Hc & _). destruct (cp_step_open _ _ _ Ho Es) as [[= E1 _] [= E2 E3]].
    constructor; cbn [with_conns connectionPool tunnelPool pr_cancelled]; try done.
    + by eapply cp_step_ok.
    + by rewrite Hc.
    + intros Hn. specialize (R3 Hn). unfold closed_queues in *. cbn. by rewrite E1, E2, L1, L2.
    + cbn. by rewrite E3, L2.
  - destruct (own_tunnel l) eqn:Ho; [|done]. destruct (pool_step _ l) as [[es tp]| |] eqn:Es; [|done..]. injection Hp as _ <-.
    pose proof (pool_step_shapes _ _ _ _ Ho Es) as Hsh. destruct (pool_step_kept _ _ _ _ Ho Es) as (es' & E & Hk).
    constructor; cbn [with_tunnels connectionPool tunnelPool pr_cancelled]; try done.
    + apply pool_ok_queues; [done|]. rewrite L2. unfold queue_shapes, shape in Hsh. by injection Hsh as _ _ _ _ -> _.
    + intros Hn. rewrite (shapes_closed _ _ Hsh). auto.
    + unfold queue_shapes, shape in Hsh. injection Hsh as _ _ _ _ _ ->. done.
    + rewrite E. apply Forall_app. split; [by eapply kept_in_ended|]. by apply Forall_fmap, Forall_true.
  - destruct (manager_step _ _) as [[mgr removed]|]; [|done]. injection Hp as _ <-. destruct removed; [|by constructor].
    constructor; try done. by apply pool_ok_stop.
  - injection Hp as _ <-. constructor; try done. destruct R1 as [P1 P2 P3].
    constructor; [by apply (cp_inv_same (connectionPool p)); auto|done|done].
  - destruct (Peer.Stop p) as [q| |] eqn:Es; [|done..]. injection Hp as _ <-. by eapply Stop_sound.
Qed.

Lemma recv_ok_step acc h l h' : recv_ok acc h -> brings acc h l h' -> yh_step h l = Some h' -> recv_ok acc h'.
Proof.
  intros [I F P1 P2 P3 P4 P5] [He Hb] Hs. pose proof (yh_inv_step _ _ _ I He Hs) as I'.
  assert (from_inv acc h') as F' by (eapply from_inv_step; [exact F|by destruct I|exact Hb|exact Hs]).
  unfold yh_step in Hs. destruct (peer_step _ l) as [[evs p']| |] eqn:Ep; [|done..]. injection Hs as <-.
  destruct (sound_step (yh_peer h) l evs p') as [Q1 Q2 Q3 Q4 Q5]; [by destruct I|by constructor|done|]. by constructor.
Qed.

(** ** How many steps are left *)

Definition receive_left p : nat :=
  recv_left (cp_recv (connectionPool p)) + conns_left (conns (connectionPool p)) + arrivals_left (tunnelPool p).

Lemma recv_inputs acc h : recv_ok acc h -> all_have_input (tunnelPool (yh_peer h)).
Proof.
  intros [I _ _ _ _ _ _]. eapply Forall_impl; [exact (ri_entries _ _ _ (yi_recv _ I))|]. intros e He.
  destruct (ck_bytes _ _ (eo_conn _ _ _ He)) as [?|(bs & oe & Hd & _)]; [by left|right; eauto].
Qed.

Lemma receive_step_left acc h l h' :
  recv_ok acc h -> yh_step h l = Some h' -> joining l = [] ->
  (receive_left (yh_peer h') + (if receive_move l then 1 else 0) <= receive_left (yh_peer h))%nat.
Proof.
  intros Hok Hs Hj. pose proof (recv_inputs _ _ Hok) as Ha. destruct Hok as [[Hlk _ _ _ _ _ _] _ P _ _ _ _]. destruct Hlk as [L1 L2 L3].
  unfold yh_step in Hs. destruct (peer_step _ l) as [[evs p']| |] eqn:Ep; [|done..]. injection Hs as <-. cbn [yh_peer].
  unfold receive_left. destruct l as [l|l|l|g|]; cbn [peer_step joining receive_move] in *.
  - destruct (own_conn l) eqn:Ho; [|done]. destruct (cp_step _ l) as [cp| |] eqn:Es; [|done..]. injection Ep as _ <-.
    destruct (cp_step_bounded _ _ _ P Es) as [_ Hb]. assert (is_arrival l = false) as Hna by (by destruct l).
    rewrite Hna in Hb. unfold Delivery.steps_left in Hb. rewrite L2 in Hb. unfold conns_left, arrivals_left.
    cbn [with_conns connectionPool tunnelPool set_stats TunnelPool.set_recvQueue set_sendQueue entries TunnelPool.recvQueue]. lia.
  - destruct (own_tunnel l) eqn:Ho; [|done]. destruct (pool_step _ l) as [[es tp]| |] eqn:Es; [|done..]. injection Ep as _ <-.
    pose proof (pool_step_arrivals _ _ _ _ Ha Ho Hj Es) as Hl. cbn [with_tunnels connectionPool tunnelPool] in *.
    cbn [set_cp_stats set_connectionMapping set_tunnel_queues cp_recv conns receive_move] in *. lia.
  - destruct (manager_step _ _) as [[mgr removed]|]; [|done]. injection Ep as _ <-. rewrite Nat.add_0_r. destruct removed; [|apply le_n].
    cbn [peer_cancel connectionPool stopRelay cp_recv conns tunnelPool]. rewrite conns_left_stop. apply le_n.
  - injection Ep as _ <-. rewrite Nat.add_0_r. apply le_n.
  - unfold Peer.Stop in Ep. destruct (Close _) as [tp| |] eqn:Ec; [|done..]. injection Ep as _ <-.
    apply Close_arrivals in Ec; [|exact Ha]. cbn [with_tunnels connectionPool tunnelPool].
    cbn [set_cp_stats set_connectionMapping set_tunnel_queues cp_recv conns peer_cancel connectionPool stopRelay].
    rewrite conns_left_stop. change (arrivals_left (tunnelPool (peer_cancel (yh_peer h)))) with (arrivals_left (tunnelPool (yh_peer h))) in Ec. lia.
Qed.
End PeerReceiving.

(** ** Where none of them is left *)

Section Rest.
Context `{TV : TunnelVars} `{CV : ConnVars} {M C : Type} `{Manager M, ManagerRun M} `{Duplex C} `{!FiniteInput C}.
Implicit Types (h : yhist M C).

(** A block of a peer never makes an [InboundRelay] panic. *)
Lemma InboundRelay_block_total acc now blk g (t : Tunnel C) :
  on_wire acc blk -> exists r, InboundRelay_block now blk g t = Ret r.
Proof.
  intros (_ & _ & Hk). unfold InboundRelay_block.
  assert (Type_ (Pack blk).2 = Type_ blk /\ BlockData (Pack blk).2 = BlockData blk) as [E1 E2] by (unfold Pack; by case_match).
  destruct (Pack blk) as [d b]. cbn [snd] in E1, E2. rewrite E1, E2.
  assert (keepalive blk -> exists v, Uint64 (BlockData blk) = Some v) as Hu.
  { intros Hka. destruct Hk as [[_ Hl]|[_ ?]]; [|done]. unfold Uint64. rewrite Hl. rewrite decide_False by lia. by eexists. }
  case_decide; [destruct Hu as [v ->]; [by left|]; destruct (packThenSend _ _ _ _) as [[rb g1] t1]; by eexists|].
  case_decide; [destruct Hu as [v ->]; [by right|]; by eexists|by eexists].
Qed.

(** A tunnel that waits for the rest of a block. *)
Definition waits_for_bytes (t : Tunnel C) : Prop := tn_closed t = false /\ NewBlockFromReader (Conn t) = None.

Lemma rest_tunnel acc h i e :
  recv_ok acc h -> pr_cancelled (yh_peer h) = false -> Tunnel.RecvQueueSize <> 0%nat ->
  ch_buf (TunnelPool.recvQueue (tunnelPool (yh_peer h))) = [] -> at_rest yh_step receive_move h ->
  entries (tunnelPool (yh_peer h)) !! i = Some e -> tn_cancelled (e_tunnel e) = false ->
  e_in e = InLoop /\ waits_for_bytes (e_tunnel e).
Proof.
  intros [_ [F _] _ _ R3 R4 R5] Hn Hcap Hb Hrest Hi He. specialize (R3 Hn). injection R3 as _ _ Hop.
  assert (forall l r, receive_move l = true -> peer_step (yh_peer h) l <> Ret r) as Hno.
  { intros l [evs p] Hl E. specialize (Hrest l Hl). unfold yh_step in Hrest. by rewrite E in Hrest. }
  destruct (e_in e) as [|blk|] eqn:Ein.
  - split; [done|].
    assert (forall r, InboundRelay_read (fun _ => 0) (tp_stats (tunnelPool (yh_peer h))) (e_tunnel e) <> Ret r) as Hr.
    { intros [[fwd g] t] E. eapply (Hno (YTunnel (PIn i (fun _ => 0)))); [done|]. cbn [peer_step own_tunnel pool_step].
      rewrite Hi. unfold InboundRelay_step. rewrite Ein, He, E. done. }
    unfold InboundRelay_read in Hr. unfold waits_for_bytes. destruct (tn_closed (e_tunnel e)) eqn:Ecl; [by edestruct Hr|]. split; [done|].
    destruct (NewBlockFromReader (Conn (e_tunnel e))) as [[[b|err] c]|] eqn:Ep; [|by edestruct Hr|done]. exfalso.
    pose proof (eo_conn _ _ _ (Forall_lookup_1 _ _ _ _ (ri_entries _ _ _ F) Hi)) as Hok.
    destruct (conn_ok_parse _ _ _ _ _ Hok Ecl Ep) as [Hw _].
    destruct (InboundRelay_block_total acc (fun _ => 0) b (tp_stats (tunnelPool (yh_peer h))) (set_Conn c (e_tunnel e)) Hw) as [r Er].
    by apply (Hr r).
  - exfalso. destruct (send_room blk (TunnelPool.recvQueue (tunnelPool (yh_peer h)))) as [q Eq]; [done..|by rewrite R4|].
    eapply (Hno (YTunnel (PInForward i))); [done|]. cbn [peer_step own_tunnel pool_step]. rewrite Hi, Ein, Eq. done.
  - exfalso. pose proof (Forall_lookup_1 _ _ _ _ R5 Hi Ein). congruence.
Qed.

(** Nothing that has come is left on the way to the connections, and no tunnel has a
    whole block to be read. *)
Definition all_received h : Prop :=
  cp_recv (connectionPool (yh_peer h)) = RecvWaiting /\ ch_buf (TunnelPool.recvQueue (tunnelPool (yh_peer h))) = [] /\
  forall i e, entries (tunnelPool (yh_peer h)) !! i = Some e -> tn_cancelled (e_tunnel e) = false ->
    e_in e = InLoop /\ waits_for_bytes (e_tunnel e).

(** So it is, or [recvRelay] waits for a connection. *)
Definition receiver_rests h : Prop :=
  (exists k blk e, cp_recv (connectionPool (yh_peer h)) = RecvHanding k blk /\ conns (connectionPool (yh_peer h)) !! k = Some e /\
     (full (Connection.recvQueue (conn_base (ce_conn e))) /\ reader_behind e \/ over e)) \/
  all_received h.

Lemma rest_receive acc h :
  recv_ok acc h -> pr_cancelled (yh_peer h) = false -> ConnPool.RecvQueueSize <> 0%nat -> Tunnel.RecvQueueSize <> 0%nat ->
  at_rest yh_step receive_move h ->
  (forall k e, conns (connectionPool (yh_peer h)) !! k = Some e -> Delivery.settled e \/ reader_behind e \/ over e) /\ receiver_rests h.
Proof.
  intros Hok Hn Hc1 Hc2 Hrest.
  destruct (stuck_pool (connectionPool (yh_peer h)) (rv_pool _ _ Hok) Hc1) as [Hall Hr].
  { intros l Hl. specialize (Hrest (YConn l) Hl). unfold yh_step in Hrest. cbn [peer_step] in Hrest.
    assert (own_conn l = true) as Ho by (by destruct l). rewrite Ho in Hrest. unfold cp_run_step.
    by destruct (cp_step _ l). }
  split; [done|]. unfold receiver_rests. pose proof Hok as [[Hlk _ _ _ _ _ _] _ _ R2 R3 _ _]. destruct Hlk as [_ L2 _].
  specialize (R3 Hn). destruct (cp_recv (connectionPool (yh_peer h))) as [|k blk|k blk|] eqn:Er.
  - right. rewrite L2 in Hr. split; [done|]. split; [done|]. intros i e Hi He. by eapply rest_tunnel.
  - done.
  - left. destruct Hr as (e & Hk & He). by exists k, blk, e.
  - exfalso. rewrite R2, Hn, L2 in Hr. injection R3 as _ _ R3. destruct Hr; congruence.
Qed.
End Rest.

(** ** A rest, recognised *)

(** The converse of [rest_receive] for a peer that has nothing left to receive. *)
Definition input_rests {C} `{Reader C} (e : entry C) : Prop :=
  e_in e = InEnded \/
  e_in e = InLoop /\ tn_cancelled (e_tunnel e) = false /\ tn_closed (e_tunnel e) = false /\ NewBlockFromReader (Conn (e_tunnel e)) = None.

Lemma received_rests {M C} `{TV : TunnelVars} `{CV : ConnVars} `{Manager M, ManagerRun M} `{Duplex C} (h : yhist M C) :
  Forall Delivery.settled (conns (connectionPool (yh_peer h))) -> cp_recv (connectionPool (yh_peer h)) = RecvWaiting ->
  ch_buf (tunnel_recv (connectionPool (yh_peer h))) = [] -> ch_closed (tunnel_recv (connectionPool (yh_peer h))) = false ->
  Forall input_rests (entries (tunnelPool (yh_peer h))) -> at_rest yh_step receive_move h.
Proof.
  intros Hs Hr Hb Hc He l Hl. unfold yh_step. destruct l as [l|l|l|g|]; [| |done..].
  - pose proof (delivered_rests _ Hs Hr Hb Hc l Hl) as Hn. cbn [peer_step]. assert (own_conn l = true) as -> by (by destruct l).
    unfold cp_run_step in Hn. by destruct (cp_step _ l).
  - assert (forall i e, entries (tunnelPool (yh_peer h)) !! i = Some e -> input_rests e) as Hi
      by (intros i e Hi; exact (Forall_lookup_1 _ _ _ _ He Hi)).
    cbn [peer_step]. destruct l as [ | | | | | |i now|i|i| | |]; try done; cbn [own_tunnel pool_step];
      (destruct (entries _ !! i) as [e|] eqn:Ei; [|done]);
      (destruct (Hi i e Ei) as [E|(E & E1 & E2 & E3)]); unfold InboundRelay_step; rewrite E; try done.
    unfold InboundRelay_read. by rewrite E1, E2, E3.
Qed.

(** Decided. *)
Definition quiet_conn (e : centry) : bool :=
  let b := conn_base (ce_conn e) in
  bool_decide (ce_relay e = AtSelect /\ ch_buf (Connection.recvQueue b) = [] /\ stopped b = false /\
    ch_closed (Connection.recvQueue b) = false /\ ch_closed (orderedRecvQueue b) = false) &&
  match cache (bc_processor b) !! recvBlockID (bc_processor b) with None => true | _ => false end.

Definition quiet_input {C} `{Reader C} (e : entry C) : bool :=
  match e_in e, NewBlockFromReader (Conn (e_tunnel e)) with
  | InLoop, None => negb (tn_cancelled (e_tunnel e)) && negb (tn_closed (e_tunnel e))
  | InEnded, _ => true
  | _, _ => false
  end.

Definition quiet_receiver {M C} `{Reader C} (h : yhist M C) : bool :=
  let cp := connectionPool (yh_peer h) in
  forallb quiet_conn (conns cp) && match cp_recv cp with RecvWaiting => true | _ => false end &&
  bool_decide (ch_buf (tunnel_recv cp) = [] /\ ch_closed (tunnel_recv cp) = false) &&
  forallb quiet_input (entries (tunnelPool (yh_peer h))).

(** No reader keeps a peer from receiving. *)
Definition readers_ready {M C} (h : yhist M C) : Prop :=
  forall k e, conns (connectionPool (yh_peer h)) !! k = Some e -> ~ reader_behind e /\ ~ over e.

Lemma quiet_conn_settled e : quiet_conn e = true -> Delivery.settled e /\ ~ reader_behind e /\ ~ over e.
Proof.
  unfold quiet_conn. intros [(E1 & E2 & E3 & E4 & E5)%bool_decide_eq_true E6]%andb_true_iff. split.
  - split; [done|]. split; [done|]. by destruct (cache _ !! _).
  - unfold reader_behind, over. rewrite E1, E3, E4, E5. split; [by intros [[blk [?|?]] _]|by intros [?|[?|?]]].
Qed.

Lemma quiet_input_rests {C} `{Reader C} (e : entry C) : quiet_input e = true -> input_rests e.
Proof.
  unfold quiet_input, input_rests. destruct (e_in e); [|done|by left]. destruct (NewBlockFromReader _); [done|].
  intros [?%negb_true_iff ?%negb_true_iff]%andb_true_iff. by right.
Qed.

Lemma quiet_receiver_rests {M C} `{TV : TunnelVars} `{CV : ConnVars} `{Manager M, ManagerRun M} `{Duplex C} (h : yhist M C) :
  quiet_receiver h = true -> at_rest yh_step receive_move h /\ readers_ready h.
Proof.
  unfold quiet_receiver. intros [[[Q1 Q2]%andb_true_iff [Q3 Q4]%bool_decide_eq_true]%andb_true_iff Q5]%andb_true_iff.
  rewrite forallb_forall in Q1, Q5. split.
  - apply received_rests; [|by destruct (cp_recv _)|done|done|].
    + apply Forall_forall. intros e He. apply quiet_conn_settled, Q1. by apply list_elem_of_In.
    + apply Forall_forall. intros e He. apply quiet_input_rests, Q5. by apply list_elem_of_In.
  - intros k e Hk. apply quiet_conn_settled, Q1, list_elem_of_In. by eapply list_elem_of_lookup_2.
Qed.

(** ** What a connection that rests has delivered *)

(** The reader of the connection has been given [bs], or finds them on its queue. *)
Definition reader_has (e : centry) (t : chist) (bs : list Block) : Prop :=
  match ce_conn e with
  | InConn c => ct_out t ++ Inbound.unread c = concat (data_of <$> bs)
  | OutConn s => ct_taken t ++ ch_buf (orderedRecvQueue (conn_base (ce_conn e))) = bs
  end.

(** Of the blocks the connection was handed, when they are those of a stream, the reader
    has exactly those below the first ID that is missing: each once and in order. *)
Definition delivered_in_order (e : centry) (t : chist) : Prop :=
  forall f, Forall (of_stream f) (ct_handed t) ->
    exists n, 0 <= n /\ reader_has e t (f <$> seqZ 0 n) /\
      (forall i, 0 <= i < n -> i ∈ BlockID <$> ct_handed t) /\ n ∉ BlockID <$> ct_handed t.

Lemma settled_delivers e t : conn_inv e t -> Delivery.settled e -> delivered_in_order e t.
Proof.
  intros Hi (Hpc & Hq & Hnext) f Hf. pose proof (cv_handed _ _ Hi) as Hh. rewrite Hq, app_nil_r in Hh.
  pose proof (cv_relay _ _ Hi f Hf) as [Hr Hs Hb _ _ Hk _ _]. cbn [rl_x rl_pc] in *. rewrite Hpc in Hk.
  exists (recvBlockID (bc_processor (conn_base (ce_conn e)))). split; [lia|]. rewrite <-Hs, Hh. split; [|split; [exact Hb|]].
  - pose proof (cv_side _ _ Hi) as Hside. unfold reader_has. destruct (ce_conn e); [by destruct Hside as (_ & _ & _ & _ & ?)|].
    by destruct Hside as [_ ->].
  - intros Hin. destruct (Hk _ ltac:(done) Hin) as [?|[[b Eb]|[_ [b ?]]]]; [lia| |done]. by rewrite Hnext in Eb.
Qed.

(** * Receiving comes to rest *)

Lemma receiving_rests {M C} `{TV : TunnelVars} `{CV : ConnVars} `{Manager M, ManagerRun M} `{Duplex C, !FiniteInput C}
    (acc : list Block) (s : nat -> yhist M C) (l : nat -> option (peer_label C)) (last n : nat) :
  (forall m, recv_ok acc (s m)) -> execution yh_step s l -> fair yh_step receive_move s l ->
  (forall n, (last <= n)%nat -> yh_joined (s n) = yh_joined (s last)) ->
  exists m, (n <= m)%nat /\ at_rest yh_step receive_move (s m).
Proof.
  intros Hok Hexec Hf Hlast.
  destruct (fair_rests yh_step receive_move (fun h => receive_left (yh_peer h)) s l (Nat.max n last) Hexec Hf) as (m & Hm & Hr).
  { intros j r Hj El. pose proof (Hexec j) as Hs. rewrite El in Hs. eapply receive_step_left; [apply Hok|exact Hs|].
    pose proof (Hlast j ltac:(lia)) as E1. pose proof (Hlast (S j) ltac:(lia)) as E2.
    unfold yh_step in Hs. destruct (peer_step _ r) as [[evs p']| |]; [|done..]. injection Hs as Hs. rewrite <-Hs in E2.
    cbn [yh_joined] in E2. rewrite <-E1 in E2. apply (f_equal length) in E2. rewrite length_app in E2.
    apply length_zero_iff_nil. lia. }
  exists m. split; [lia|done].
Qed.

(** ** A tunnel that brings two blocks and the beginning of another *)

(** What is asked of an execution's steps, of the steps of a run. *)
Lemma traced_brings {M C} `{TV : TunnelVars} `{CV : ConnVars} `{Manager M, ManagerRun M} `{Duplex C} (acc : list Block)
    (h : yhist M C) tr h' n r :
  run yh_step h tr = Some h' -> environment h tr h' -> Forall (conn_ok (carries acc)) (yh_joined h') -> tr !! n = Some r ->
  brings acc (traced yh_step h tr n) r (traced yh_step h tr (S n)).
Proof.
  intros Hrun [Hl Hr Hk] Hc. revert h n Hrun Hk. induction Hl as [|l tr Hyl Htr IH]; intros h n Hrun Hk Hn; [done|].
  cbn [run keepalives_whole] in Hrun, Hk. destruct (yh_step h l) as [h1|] eqn:Es; [|done]. destruct Hk as [Hk1 Hk].
  assert (forall m, traced yh_step h (l :: tr) (S m) = traced yh_step h1 tr m \/ run yh_step h1 (take m tr) = None) as Ht.
  { intros m. unfold traced. cbn [take run]. rewrite Es. destruct (run yh_step h1 (take m tr)); [by left|by right]. }
  assert (forall m, run yh_step h1 (take m tr) <> None) as Hsome.
  { intros m E. rewrite <-(take_drop m tr), run_app, E in Hrun. done. }
  destruct (Ht n) as [E|E]; [|by apply Hsome in E]. rewrite E. destruct n as [|n].
  - injection Hn as <-. unfold traced. cbn [take run default]. split; [|by eapply step_joining]. split; [done|].
    split; [by eapply step_joining|done].
  - destruct (Ht n) as [E'|E']; [|by apply Hsome in E']. rewrite E'. by apply IH.
Qed.

#[local] Existing Instance Tunnel.const_go.
#[local] Existing Instance ConnPool.const_go.

Definition torn_bytes : list byte := encode block_0 ++ encode block_1 ++ take 6 (encode block_1).

Definition torn_trace : list (peer_label (duplex stream sink)) :=
  [YTunnel (PAddTunnel (link_reading torn_bytes 6 false))] ++ block_in ++ block_in ++
  conn_steps [COrderedRelay 0 (LRecv block_0); COrderedRelay 0 (LSent block_0);
              COrderedRelay 0 (LRecv block_1); COrderedRelay 0 (LSent block_1)].

Definition sent_blocks : list Block := [received block_0; received block_1].

Lemma torn_carries : conn_ok (carries sent_blocks) (link_reading torn_bytes 6 false).
Proof.
  constructor; [done|]. right. exists torn_bytes, None. split; [apply link_delivers|].
  exists sent_blocks, (take 6 (encode block_1)). split; [done|].
  assert (on_wire sent_blocks (received block_0) /\ on_wire sent_blocks (received block_1)) as [H0' H1'].
  { split; (split; [constructor; try done; by unfold is_u8, is_u32, is_i64; cbn; lia|split; [done|]]); right;
      (split; [unfold sent_blocks; set_solver|]); intros [?|?]; discriminate. }
  split; [by repeat apply Forall_cons_2|]. right. exists (received block_1). split; [done|]. eexists. symmetry. apply take_drop.
Qed.

Definition readers_have {M C} (h : yhist M C) : nat :=
  length (concat ((fun e : centry => ch_buf (orderedRecvQueue (conn_base (ce_conn e)))) <$> conns (connectionPool (yh_peer h)))).

(** The run ends with the two blocks on the queue of the target's writer. *)
Lemma torn_end :
  exists h, run yh_step (yh_init server_peer) torn_trace = Some h /\ keepalives_whole (yh_init server_peer) torn_trace /\
    at_rest yh_step receive_move h /\ pr_cancelled (yh_peer h) = false /\ readers_have h = 2%nat.
Proof.
  destruct (run_succeeds (match run yh_step (yh_init server_peer) torn_trace with
    | Some h => if decide (quiet_receiver h = true /\ pr_cancelled (yh_peer h) = false /\ readers_have h = 2%nat /\
        keepalives_whole (yh_init server_peer) torn_trace) then Some h else None
    | None => None end)) as [h E']; [vm_compute; reflexivity|].
  destruct (run yh_step (yh_init server_peer) torn_trace) as [h0|] eqn:E; [|discriminate E'].
  case_decide as Hd; [|discriminate E']. clear E E'. destruct Hd as (H1' & H2' & H3 & H4).
  exists h0. split; [reflexivity|]. split; [exact H4|]. split; [exact (proj1 (quiet_receiver_rests _ H1'))|].
  split; [exact H2'|exact H3].
Qed.

Lemma torn_running n h :
  run yh_step (yh_init server_peer) torn_trace = Some h -> pr_cancelled (yh_peer h) = false ->
  pr_cancelled (yh_peer (traced yh_step (yh_init server_peer) torn_trace n)) = false.
Proof.
  intros E Hc. destruct (decide (15 <= n)%nat) as [Hn|Hn]; [by rewrite (traced_late _ _ _ h)|]. clear E Hc.
  do 15 (destruct n as [|n]; [vm_compute; reflexivity|]). lia.
Qed.

Lemma torn_environment h :
  run yh_step (yh_init server_peer) torn_trace = Some h -> keepalives_whole (yh_init server_peer) torn_trace ->
  environment (yh_init server_peer) torn_trace h /\ Forall (conn_ok (carries sent_blocks)) (yh_joined h).
Proof.
  intros E Hk. pose proof (run_joined _ _ _ E) as J. change (yh_joined h = [link_reading torn_bytes 6 false]) in J. rewrite J.
  split; [|apply Forall_singleton, torn_carries]. constructor; [|rewrite J; apply Forall_singleton, readable_link|exact Hk].
  repeat (apply Forall_cons_2; [repeat split; try done|]). apply Forall_nil_2.
Qed.
