(* ===== verification/Arrival.v ===== *)
(** connection_pool/pool.go, tunnel_pool/tunnel.go: nothing is lost on the way. What
    a peer's connections have issued is on the bytes of its tunnels, or given up by
    the retry of a tunnel that failed; what the bytes of the other peer's tunnels
    carry has come to its pool, once they have been read; and what has come to a pool
    that accepts connections has been handed to the connection of its ID, whose reader has
    it in order.  A peer on which this is done fairly gets there again and again. *)

From S2P Require Import Prelude GoIO Block Stats Processor Connection Tunnel TunnelPool PoolManager ConnPool.
From S2P Require Import Delivery EndToEnd Sendable Wire Peer System Sending Receiving.
From S2P Require Inbound Outbound.

Local Open Scope Z_scope.

(** * From the pool's queue to a connection *)

Section Handed.
Context `{CV : ConnVars}.
Implicit Types (cp : ConnectionPool) (ts : list chist).

(** A connection with the block's ID has been handed it. *)
Definition handed_to cp ts (b : Block) : Prop :=
  exists k e t, conns cp !! k = Some e /\ ts !! k = Some t /\ GetConnectionID (ce_conn e) = ConnectionID b /\ b ∈ ct_handed t.

Definition none_lost cp ts (ins : list Block) : Prop :=
  forall b, b ∈ ins -> b ∈ incoming cp \/ handed_to cp ts b.

Lemma none_lost_same cp cp' ts ins :
  conns cp' = conns cp -> (forall b, b ∈ incoming cp -> b ∈ incoming cp') -> none_lost cp ts ins -> none_lost cp' ts ins.
Proof.
  intros E Hi Hn b Hb. destruct (Hn b Hb) as [?|(k & e & t & Hk & H)]; [left; auto|]. right. exists k, e, t. by rewrite E.
Qed.

Lemma noted_more_handed cp l cp' ts j t :
  ts !! j = Some t -> exists t', noted cp l cp' ts !! j = Some t' /\ ct_handed t `prefix_of` ct_handed t'.
Proof.
  intros Ht. set (R := fun t t' => ct_handed t `prefix_of` ct_handed t'). assert (Reflexive R) by (intros ?; unfold R; done).
  apply (noted_extends R) with (ts := ts); [intros; unfold R; cbn; by (apply prefix_app_r || done)..|exact Ht].
Qed.

Lemma handed_to_step cp l cp' ts b :
  cp_inv cp -> cp_step cp l = Ret cp' -> handed_to cp ts b -> handed_to cp' (noted cp l cp' ts) b.
Proof.
  intros Hi Hs (k & e & t & Hk & Ht & Hid & Hb). destruct (step_ids _ _ _ Hi Hs) as (new & E & _).
  destruct (noted_more_handed cp l cp' _ _ _ Ht) as (t' & Ht' & [more Em]).
  assert (ids (conns cp') !! k = Some (ConnectionID b)) as Hk'.
  { rewrite E. apply lookup_app_l_Some. unfold ids. rewrite list_lookup_fmap, Hk. cbn. by rewrite Hid. }
  unfold ids in Hk'. rewrite list_lookup_fmap in Hk'. destruct (conns cp' !! k) as [e'|] eqn:Ek; [|done]. injection Hk' as Hid'.
  exists k, e', t'. split; [done|]. split; [done|]. split; [done|]. rewrite Em. apply elem_of_app. by left.
Qed.

(** A step of [recvRelay] that takes a block finds a connection for it, or may make
    one. *)
Definition knows cp (l : cp_label) : Prop :=
  match l, cp_recv cp, chan_recv (tunnel_recv cp) with
  | CRecvTake, RecvWaiting, Received blk _ => acceptNewConnection cp = true \/ is_Some (connectionMapping cp !! ConnectionID blk)
  | _, _, _ => True
  end.

(** A block leaves the pool's hands when it is handed over, as long as the pool is
    not cancelled and knows its connection. *)
Lemma incoming_step cp l cp' b :
  own_conn l = true -> knows cp l -> cp_cancelled cp = false -> cp_step cp l = Ret cp' ->
  b ∈ incoming cp -> b ∈ incoming cp' \/ l = CRecvHand /\ exists k, cp_recv cp = RecvHanding k b.
Proof.
  intros Ho Ha Hc Hs Hb.
  assert (tunnel_recv cp' = tunnel_recv cp -> cp_recv cp' = cp_recv cp ->
    b ∈ incoming cp' \/ l = CRecvHand /\ exists k, cp_recv cp = RecvHanding k b) as Hq
    by (intros E1 E2; left; unfold incoming; by rewrite E1, E2).
  destruct l as [id now a|blk| | | | | | | | | |k l|k op|k l|k|]; try done; cbn [cp_step] in Hs.
  - unfold Dial in Hs. destruct (conns _ !! _); [|done]. destruct (SendConnect _ _ _). destruct (send_all _ _); [|done..].
    injection Hs as <-. by apply Hq.
  - left. unfold recvRelay_take, find_connection in Hs. destruct (cp_recv cp) eqn:Er; try done. unfold incoming in *. rewrite Er in Hb.
    cbn in Hb. rewrite app_nil_r in Hb. unfold knows in Ha. rewrite Er in Ha.
    destruct (chan_recv _) as [blk q| |] eqn:E; [| |done].
    + apply chan_recv_buf in E. rewrite E in Hb.
      change (connectionMapping (set_tunnel_recv q cp)) with (connectionMapping cp) in Hs.
      change (acceptNewConnection (set_tunnel_recv q cp)) with (acceptNewConnection cp) in Hs.
      destruct (connectionMapping cp !! _); [injection Hs as <-; cbn; in_app|].
      destruct Ha as [Ha|[? ?]]; [|done]. rewrite Ha in Hs. injection Hs as <-. cbn. in_app.
    + injection Hs as <-. cbn. by rewrite app_nil_r.
  - left. unfold recvRelay_check in Hs. destruct (cp_recv cp) eqn:Er; try done. injection Hs as <-. unfold incoming in *.
    rewrite Er in Hb. rewrite Hc. exact Hb.
  - unfold recvRelay_hand in Hs. destruct (cp_recv cp) as [|k blk|k blk|] eqn:Er; try done. destruct (conns cp !! k); [|done].
    destruct (conn_RecvBlock _ _); [|done..]. injection Hs as <-. unfold incoming in *. rewrite Er in Hb. cbn in *.
    apply elem_of_app in Hb as [Hb|Hb]; [left; by rewrite app_nil_r|]. apply list_elem_of_singleton in Hb as ->. right. eauto.
  - unfold recvRelay_done in Hs. rewrite Hc in Hs. by destruct (cp_recv cp).
  - unfold sendRelay_take in Hs. destruct (cp_send cp); try done. destruct (chan_recv _); try done; injection Hs as <-; by apply Hq.
  - unfold sendRelay_put in Hs. destruct (cp_send cp); try done. destruct (send_call _ _); [|done..]. injection Hs as <-. by apply Hq.
  - unfold sendRelay_done in Hs. rewrite Hc in Hs. by destruct (cp_send cp).
  - destruct (conns cp !! k); [|done]. destruct (OrderedRelay_step _ _); [|done..]. injection Hs as <-. by apply Hq.
  - destruct (conns cp !! k) as [e|]; [|done]. destruct (ce_conn e); [|done].
    destruct (if user_call op then _ else _) as [[]|]; [|done]. destruct (send_all _ _); [|done..]. injection Hs as <-. by apply Hq.
  - destruct (conns cp !! k) as [e|]; [|done]. destruct (ce_conn e); [done|].
    destruct (if own_step l then _ else _) as [[]| |]; [|done..]. cbn [mbind outcome_bind] in Hs.
    destruct (send_all _ _); [|done..]. injection Hs as <-. by apply Hq.
  - destruct (conns cp !! k) as [e|]; [|done]. destruct (_ && _); [|done]. injection Hs as <-.
    unfold removeConnection in *. case_match; by apply Hq.
Qed.

Lemma none_lost_step cp l cp' ts ins :
  cp_inv cp -> conns_inv (conns cp) ts -> own_conn l = true -> knows cp l -> cp_cancelled cp = false ->
  cp_step cp l = Ret cp' -> none_lost cp ts ins -> none_lost cp' (noted cp l cp' ts) ins.
Proof.
  intros Hi Hc Ho Ha Hn Hs Hl b Hb. destruct (Hl b Hb) as [Hin|Hh]; [|right; by eapply handed_to_step].
  destruct (incoming_step _ _ _ _ Ho Ha Hn Hs Hin) as [?|(-> & k & Er)]; [by left|right].
  cbn [cp_step] in Hs. unfold recvRelay_hand in Hs. rewrite Er in Hs.
  destruct (cp_holding _ Hi k b) as (e & Hk & Hid); [by rewrite Er|]. rewrite Hk in Hs.
  destruct (conn_RecvBlock b (ce_conn e)) as [c| |] eqn:Ec; [|done..]. injection Hs as <-.
  apply conn_RecvBlock_spec in Ec as (_ & E & _ & _).
  destruct (Forall2_lookup_l _ _ _ _ _ Hc Hk) as (t & Ht & _). exists k, (set_conn c e), (add_handed b t).
  erewrite noted_update by done. cbn [note recv_goto set_conns conns]. rewrite Er, list_lookup_alter_eq, Ht.
  rewrite list_lookup_insert_eq by (by eapply lookup_lt_Some). split; [done|]. split; [done|]. cbn. split; [congruence|].
  apply elem_of_app. right. by left.
Qed.

End Handed.

(** * From a tunnel's bytes to the pool's queue *)

Section Reading.
Context `{TV : TunnelVars} {M C : Type} `{Manager M} `{Duplex C}.
Implicit Types (tp : TunnelPool M C) (e : entry C) (t : Tunnel C) (ins : list Block).

(** Whole blocks that have been taken off a tunnel and have come in, or are being
    put on the queue. *)
Definition taken ins (pc : in_pc) (b : Block) : Prop :=
  block_wf b /\ (keepalive b \/ forwarded b ∈ ins \/ pc = InForward (forwarded b)).

(** A tunnel that is open, since it was added as [t0]. *)
Definition read_from ins (t0 : Tunnel C) e : Prop :=
  tn_closed (e_tunnel e) = false ->
  forall bs oe, delivers (Conn t0) bs oe ->
    exists L rest, bs = concat (encode <$> L) ++ rest /\ delivers (Conn (e_tunnel e)) rest oe /\ Forall (taken ins (e_in e)) L.

(** What a step may do to it. *)
Definition read_step ins e e' : Prop :=
  tn_closed (e_tunnel e') = false ->
  tn_closed (e_tunnel e) = false /\
  forall bs oe, delivers (Conn (e_tunnel e)) bs oe ->
    delivers (Conn (e_tunnel e')) bs oe /\ (forall b, e_in e = InForward b -> e_in e' = e_in e \/ b ∈ ins) \/
    e_in e = InLoop /\ exists b rest, bs = encode b ++ rest /\ delivers (Conn (e_tunnel e')) rest oe /\ taken [] (e_in e') b /\ packed b = None.

Lemma read_from_new ins t : read_from ins t (mkEntry t AtCancel InLoop true).
Proof. intros _ bs oe Hd. by exists [], bs. Qed.

Lemma read_from_step ins ins' t0 e e' :
  (forall b, b ∈ ins -> b ∈ ins') -> read_from ins t0 e -> read_step ins' e e' -> read_from ins' t0 e'.
Proof.
  intros Hin Hr Hs Hc bs oe Hd. destruct (Hs Hc) as [Hc0 Hb]. destruct (Hr Hc0 bs oe Hd) as (L & rest & -> & Hd' & HL).
  destruct (Hb _ _ Hd') as [[Hd2 Hf]|(Hpc & b & rest' & -> & Hd2 & Ht & _)].
  - exists L, rest. split; [done|]. split; [done|]. eapply Forall_impl; [exact HL|].
    intros b [Hw [?|[?|E]]]; (split; [done|]); [by left|right; left; auto|]. destruct (Hf _ E) as [E'|?]; [|auto].
    right. right. congruence.
  - exists (L ++ [b]), rest'. rewrite fmap_app, concat_app. cbn. rewrite app_nil_r, <-app_assoc.
    split; [done|]. split; [done|]. apply Forall_app. split.
    + eapply Forall_impl; [exact HL|]. intros b' [Hw [?|[?|E]]]; (split; [done|]); [by left|right; left; auto|]. congruence.
    + apply Forall_singleton. destruct Ht as [Hw [?|[Hn|?]]]; (split; [done|]); [by left| |auto]. by apply elem_of_nil in Hn.
Qed.

Lemma read_step_same ins e e' : same_input (e_tunnel e) (e_tunnel e') -> e_in e' = e_in e -> read_step ins e e'.
Proof.
  intros [_ Hcl Hd] Hin Hc. split; [destruct (tn_closed (e_tunnel e)) eqn:E; [|done]; by rewrite Hcl in Hc|].
  intros bs oe Hb. left. split; [by apply Hd|]. intros b _. by left.
Qed.

Lemma reading_step_refl ins e : read_step ins e e.
Proof. apply read_step_same; [by apply same_input_conn|done]. Qed.

Lemma read_step_closed ins e e' : tn_closed (e_tunnel e') = true -> read_step ins e e'.
Proof. intros E Hc. congruence. Qed.

(** A block read: a keep-alive is answered, any other is the relay's to forward. *)
Lemma InboundRelay_block_taken now blk g t fwd g' t' :
  block_wf blk -> packed blk = None -> InboundRelay_block now blk g t = Ret (fwd, g', t') ->
  taken [] (match fwd with Some b => InForward b | None => InLoop end) blk.
Proof.
  intros Hw Hp. unfold InboundRelay_block. pose proof (keepalive_Pack blk) as Hk.
  assert (forwarded blk = (Pack blk).2) as Hf by (unfold forwarded, received; destruct blk; cbn in *; by subst).
  destruct (Pack blk) as [d b]. cbn [snd] in *. unfold keepalive in Hk.
  case_decide as E1; [destruct (Uint64 _); [|done]|case_decide as E2; [destruct (Uint64 _); [|done]|]].
  - destruct (packThenSend _ _ _ _) as [[rb g1] t2]. intros [= <- _ _]. split; [done|]. left. apply Hk. by left.
  - intros [= <- _ _]. split; [done|]. left. apply Hk. by right.
  - intros [= <- _ _]. split; [done|]. right. right. by rewrite Hf.
Qed.

Lemma InboundRelay_read_step ins now g e fwd g' t' o w :
  e_in e = InLoop -> InboundRelay_read now g (e_tunnel e) = Ret (fwd, g', t') ->
  read_step ins e (mkEntry t' o (match fwd with Some blk => InForward blk | None => InLoop end) w).
Proof.
  intros Hin. unfold InboundRelay_read. destruct (tn_closed (e_tunnel e)) eqn:Ecl; [intros [= _ _ <-]; by apply read_step_closed|].
  destruct (NewBlockFromReader (Conn (e_tunnel e))) as [[[b|err] c]|] eqn:Ep; [|intros [= _ _ <-]; by apply read_step_closed|done].
  intros Hb Hc. split; [done|]. intros bs oe Hd. destruct (parse_inv _ _ _ _ _ Hd Ep) as (Hw & Hpk & rest & -> & Hd').
  right. split; [done|]. exists b, rest. destruct (InboundRelay_block_input _ _ _ _ _ _ _ Hb) as [_ _ Hi].
  split; [done|]. split; [by apply Hi|]. split; [|done]. by eapply InboundRelay_block_taken.
Qed.

(** The tunnels after a step of the pool, the blocks that have come in among [ins]. *)
Definition came_in ins tp tp' : list Block :=
  ins ++ drop (length (ch_buf (TunnelPool.recvQueue tp))) (ch_buf (TunnelPool.recvQueue tp')).

Lemma read_step_insert ins (es : list (entry C)) i e e' :
  es !! i = Some e -> read_step ins e e' -> Forall2 (read_step ins) es (<[i := e']> es).
Proof.
  intros Hi Hs. apply Forall2_same_length_lookup_2; [by rewrite length_insert|]. intros j x y Hx.
  destruct (decide (i = j)) as [<-|Hne].
  - rewrite list_lookup_insert_eq by (by eapply lookup_lt_Some). intros [= <-]. rewrite Hi in Hx. by injection Hx as <-.
  - rewrite list_lookup_insert_ne, Hx by done. intros [= <-]. apply reading_step_refl.
Qed.

Lemma read_step_all ins (es : list (entry C)) : Forall2 (read_step ins) es es.
Proof. apply Forall_Forall2_diag, Forall_forall. intros e _. apply reading_step_refl. Qed.

(** A cancelled tunnel is closed. *)
Definition closes_cancelled tp : Prop :=
  Forall (fun e => tn_cancelled (e_tunnel e) = true -> tn_closed (e_tunnel e) = true) (entries tp).

Lemma relay_send_reads ins i e blk next tp evs tp' :
  entries tp !! i = Some e -> relay_send i e blk next tp = (evs, tp') -> Forall2 (read_step ins) (entries tp) (entries tp').
Proof.
  intros Hi. unfold relay_send. destruct (packThenSend _ _ _ _) as [[rb g] t] eqn:Ep. apply packThenSend_input in Ep.
  destruct rb; intros [= _ <-]; (eapply read_step_insert; [exact Hi|]); by apply read_step_same.
Qed.

Lemma OutboundRelay_reads ins i e ch tp evs tp' :
  entries tp !! i = Some e -> OutboundRelay_step i e ch tp = Ret (evs, tp') -> Forall2 (read_step ins) (entries tp) (entries tp').
Proof.
  intros Hi.
  assert (forall pc, Forall2 (read_step ins) (entries tp) (entries (goto_out i e pc tp))) as Hgo.
  { intros pc. eapply read_step_insert; [exact Hi|]. apply read_step_same; [by apply same_input_conn|done]. }
  unfold OutboundRelay_step, take_retry, take_normal. destruct (e_out e), ch; try done; repeat case_match; try done;
    first [intros [= _ <-]; apply Hgo|intros [= E]; by eapply (relay_send_reads _ _ _ _ _ (set_retryQueue _ tp))
          |intros [= E]; by eapply (relay_send_reads _ _ _ _ _ (set_sendQueue _ tp))].
Qed.

Lemma InboundRelay_reads ins i now e tp evs tp' :
  closes_cancelled tp -> entries tp !! i = Some e -> InboundRelay_step i now e tp = Ret (evs, tp') ->
  Forall2 (read_step ins) (entries tp) (entries tp').
Proof.
  intros Hcc Hi. unfold InboundRelay_step. destruct (e_in e) eqn:Ein; [|done..]. destruct (tn_cancelled (e_tunnel e)) eqn:Ec.
  - pose proof (Forall_lookup_1 _ _ _ _ Hcc Hi Ec) as Hcl. unfold InboundRelay_last. rewrite Hcl. intros [= _ <-].
    eapply read_step_insert; [exact Hi|]. by apply read_step_closed.
  - destruct (InboundRelay_read _ _ _) as [[[fwd g] t]| |] eqn:Er; [|done..]. intros [= _ <-].
    eapply read_step_insert; [exact Hi|]. by eapply InboundRelay_read_step.
Qed.

(** What a step of the pool's own does to the tunnels it had. *)
Lemma pool_step_reads ins tp l evs tp' :
  closes_cancelled tp -> own_tunnel l = true -> pool_step tp l = Ret (evs, tp') ->
  exists es, entries tp' = es ++ ((fun t => mkEntry t AtCancel InLoop true) <$> joined l) /\
    Forall2 (read_step (came_in ins tp tp')) (entries tp) es.
Proof.
  intros Hcc Ho Hs. generalize (eq_refl (came_in ins tp tp')). generalize (came_in ins tp tp') at 1 3. intros ins' Eins.
  assert (joined l = [] -> Forall2 (read_step ins') (entries tp) (entries tp') ->
    exists es, entries tp' = es ++ ((fun t => mkEntry t AtCancel InLoop true) <$> joined l) /\
      Forall2 (read_step ins') (entries tp) es) as Hq.
  { intros -> Hk. exists (entries tp'). split; [by rewrite app_nil_r|done]. }
  destruct l as [blk| |t|i ch|k|k|i now|i|i|i now|i|]; try done; cbn [pool_step joined] in *.
  - injection Hs as _ <-. exists (entries tp). split; [done|apply read_step_all].
  - destruct (entries tp !! i) as [e|] eqn:Ei; [|done]. apply Hq; [done|]. by eapply OutboundRelay_reads.
  - destruct (retrying tp !! k) as [[j blk]|]; [|done]. destruct (send_call _ _) as [q| |]; [|done..].
    injection Hs as _ <-. apply Hq; [done|apply read_step_all].
  - destruct (retrying tp !! k) as [[j blk]|]; [|done]. destruct (entries tp !! j); [|done].
    destruct (tn_cancelled _); [|done]. injection Hs as _ <-. apply Hq; [done|apply read_step_all].
  - destruct (entries tp !! i) as [e|] eqn:Ei; [|done]. apply Hq; [done|]. by eapply InboundRelay_reads.
  - destruct (entries tp !! i) as [e|] eqn:Ei; [|done]. destruct (e_in e) as [|blk|] eqn:Ein; try done.
    unfold send_call in Hs. destruct (chan_send _ _) as [q| |] eqn:Eq; [|done..]. injection Hs as _ <-. apply chan_send_buf in Eq.
    apply Hq; [done|]. eapply read_step_insert; [exact Ei|]. intros Hc. split; [done|]. intros bs oe Hd. left. split; [done|].
    intros b E. rewrite Ein in E. injection E as ->. right. rewrite Eins. unfold came_in. cbn. rewrite Eq, drop_app_length.
    apply elem_of_app. right. by left.
  - destruct (entries tp !! i) as [e|] eqn:Ei; [|done]. destruct (e_in e) as [|blk|] eqn:Ein; try done.
    destruct (tn_cancelled (e_tunnel e)) eqn:Ec; [|done]. injection Hs as _ <-. apply Hq; [done|].
    eapply read_step_insert; [exact Ei|]. apply read_step_closed. exact (Forall_lookup_1 _ _ _ _ Hcc Ei Ec).
  - destruct (entries tp !! i) as [e|] eqn:Ei; [|done]. case_decide; [|done]. destruct (PingPong_tick _ _ _) as [g t] eqn:Ep.
    injection Hs as _ <-. apply PingPong_tick_input in Ep. apply Hq; [done|]. eapply read_step_insert; [exact Ei|].
    by apply read_step_same.
  - destruct (entries tp !! i) as [e|] eqn:Ei; [|done]. destruct (_ && _); [|done]. injection Hs as _ <-. apply Hq; [done|].
    rewrite (proj1 (RemoveTunnel_keeps _ _)). eapply read_step_insert; [exact Ei|].
    apply read_step_same; [by apply same_input_conn|done].
Qed.

Lemma Close_reads ins tp tp' : Close tp = Ret tp' -> Forall2 (read_step ins) (entries tp) (entries tp').
Proof.
  intros [E1 _ _ _ _]%Close_spec. rewrite E1. apply Forall2_same_length_lookup_2; [by rewrite length_imap|].
  intros i e e' Hi. rewrite list_lookup_imap, Hi. intros [= <-]. case_decide; [by apply read_step_closed|apply reading_step_refl].
Qed.

(** All the tunnels, since each was added. *)
Definition all_read ins (ts : list (Tunnel C)) tp : Prop := Forall2 (read_from ins) ts (entries tp).

Lemma all_read_trans ins ins' ts (es es' : list (entry C)) :
  (forall b, b ∈ ins -> b ∈ ins') -> Forall2 (read_from ins) ts es -> Forall2 (read_step ins') es es' ->
  Forall2 (read_from ins') ts es'.
Proof.
  intros Hin Hr. revert es'. induction Hr as [|t e ts es Ht Hr IH]; intros es' Hs; inversion Hs; subst; constructor; [|auto].
  by eapply read_from_step.
Qed.

Lemma all_read_step ins ts tp l evs tp' :
  closes_cancelled tp -> own_tunnel l = true -> pool_step tp l = Ret (evs, tp') ->
  all_read ins ts tp -> all_read (came_in ins tp tp') (ts ++ joined l) tp'.
Proof.
  intros Hcc Ho Hs Ha. destruct (pool_step_reads ins _ _ _ _ Hcc Ho Hs) as (es & E & Hk). unfold all_read. rewrite E.
  apply Forall2_app.
  - eapply all_read_trans; [|exact Ha|exact Hk]. intros b Hb. unfold came_in. apply elem_of_app. by left.
  - apply Forall2_fmap_r, Forall_Forall2_diag, Forall_forall. intros t _. apply read_from_new.
Qed.
End Reading.

(** * A peer that receives *)

Section PeerArrival.
Context `{TV : TunnelVars} `{CV : ConnVars} {M C : Type} `{Manager M, ManagerRun M} `{Duplex C, !FiniteInput C}.
Implicit Types (h : yhist M C) (p : Peer M C).

(** What has come to a peer in its run. *)
Record arrival_ok (acc : list Block) h : Prop := {
  ar_recv : recv_ok acc h;
  ar_handed : pr_cancelled (yh_peer h) = false -> none_lost (connectionPool (yh_peer h)) (yh_conns h) (yh_in h);
  ar_read : all_read (yh_in h) (yh_joined h) (tunnelPool (yh_peer h));
}.

Lemma arrival_ok_init acc id mgr accept g : arrival_ok acc (yh_init (new_peer id mgr accept g)).
Proof.
  constructor; [apply recv_ok_init| |constructor]. intros _ b Hb. by apply elem_of_nil in Hb.
Qed.

Lemma recv_closes acc h : recv_ok acc h -> closes_cancelled (tunnelPool (yh_peer h)).
Proof.
  intros [I _ _ _ _ _ _]. eapply Forall_impl; [exact (ri_entries _ _ _ (yi_recv _ I))|]. intros e He. by apply He.
Qed.

(** What the tunnels bring in is on the pool's queue. *)
Lemma none_lost_queues cp ts ins g sq rq new :
  ch_buf rq = ch_buf (tunnel_recv cp) ++ new -> none_lost cp ts ins ->
  none_lost (set_cp_stats g (set_tunnel_queues sq rq cp)) ts (ins ++ new).
Proof.
  intros Hq Hn b Hb. unfold incoming. cbn. rewrite Hq. apply elem_of_app in Hb as [Hb|Hb]; [|left; in_app].
  destruct (Hn b Hb) as [Hi|Hh]; [left; unfold incoming in Hi; in_app|by right].
Qed.

(** No block of the run is of a connection its pool does not know. *)
Definition peer_knows h (l : peer_label C) : Prop :=
  match l with YConn l => knows (connectionPool (yh_peer h)) l | _ => True end.

Fixpoint all_known h (tr : list (peer_label C)) : Prop :=
  match tr with
  | [] => True
  | l :: tr => peer_knows h l /\ match yh_step h l with Some h' => all_known h' tr | None => True end
  end.

#[export] Instance knows_dec cp l : Decision (knows cp l).
Proof. unfold knows. destruct l; try apply _. destruct (cp_recv cp); try apply _. destruct (chan_recv _); apply _. Defined.

#[export] Instance all_known_dec tr : forall h, Decision (all_known h tr).
Proof.
  induction tr as [|l tr IH]; intros h; cbn [all_known]; [apply _|]. apply and_dec; [destruct l; cbn; apply _|].
  destruct (yh_step h l); [apply IH|apply _].
Defined.

Lemma accepts_step h l h' :
  yh_step h l = Some h' -> acceptNewConnection (connectionPool (yh_peer h')) = acceptNewConnection (connectionPool (yh_peer h)).
Proof.
  unfold yh_step. destruct (peer_step _ l) as [[evs p']| |] eqn:Ep; [|done..]. intros [= <-]. cbn [yh_peer].
  destruct l as [l|l|l|g|]; cbn [peer_step] in Ep.
  - destruct (own_conn l); [|done]. destruct (cp_step _ l) as [cp| |] eqn:Es; [|done..]. injection Ep as _ <-.
    exact (proj2 (cp_step_flags _ _ _ Es)).
  - destruct (if own_tunnel l then _ else _) as [[es tp]| |]; [|done..]. by injection Ep as _ <-.
  - destruct (manager_step _ _) as [[mgr removed]|]; [|done]. injection Ep as _ <-. by destruct removed.
  - by injection Ep as _ <-.
  - unfold Peer.Stop in Ep. destruct (Close _) as [tp| |]; [|done..]. by injection Ep as _ <-.
Qed.

(** A pool that accepts connections knows every block. *)
Lemma accepting_knows h tr : acceptNewConnection (connectionPool (yh_peer h)) = true -> all_known h tr.
Proof.
  revert h. induction tr as [|l tr IH]; intros h Ha; cbn [all_known]; [done|]. split.
  - destruct l as [l|l|l|g|]; try done. unfold peer_knows, knows. destruct l; try done.
    destruct (cp_recv _); try done. destruct (chan_recv _); try done. by left.
  - destruct (yh_step h l) as [h'|] eqn:Es; [|done]. apply IH. by rewrite (accepts_step _ _ _ Es).
Qed.

Lemma arrival_ok_step acc h l h' :
  arrival_ok acc h -> brings acc h l h' -> peer_knows h l -> yh_step h l = Some h' -> arrival_ok acc h'.
Proof.
  intros [R N Rd] Hb A Hs. pose proof (recv_ok_step _ _ _ _ R Hb Hs) as R'. pose proof (recv_closes _ _ R) as Hcc.
  pose proof R as [[Hlk Hi _ _ _ _ _] _ _ R1 _ _ _]. destruct Hlk as [L1 L2 L3].
  destruct h as [p ts ins outs js]. unfold yh_step, yh_pool in *. cbn [yh_peer yh_conns yh_in yh_joined] in *.
  destruct (peer_step p l) as [[evs p']| |] eqn:Ep; [|done..]. injection Hs as <-.
  destruct l as [l|l|l|g|]; cbn [peer_step note_peer arriving joining peer_knows yh_peer] in *.
  - destruct (own_conn l) eqn:Ho; [|done]. destruct (cp_step _ l) as [cp| |] eqn:Es; [|done..]. injection Ep as _ <-.
    constructor; [exact R'|cbn [yh_peer yh_conns yh_in yh_joined with_conns connectionPool tunnelPool pr_cancelled]; rewrite ?app_nil_r..].
    + intros Hn. apply none_lost_step; try done; [apply Hi|apply Hi|congruence|auto].
    + exact Rd.
  - destruct (own_tunnel l) eqn:Ho; [|done]. destruct (pool_step _ l) as [[es tp]| |] eqn:Es; [|done..]. injection Ep as _ <-.
    constructor; [exact R'|cbn [yh_peer yh_conns yh_in yh_joined with_tunnels connectionPool tunnelPool pr_cancelled]..].
    + intros Hn. apply none_lost_queues; [|auto]. rewrite L2. destruct (own_tunnel_queues _ _ _ _ Ho Es) as [_ [new Q]].
      by rewrite Q, drop_app_length.
    + by apply (all_read_step _ _ _ _ _ _ Hcc Ho Es).
  - destruct (manager_step _ _) as [[mgr removed]|]; [|done]. injection Ep as _ <-.
    constructor; [exact R'|cbn [yh_peer yh_conns yh_in yh_joined]; rewrite ?app_nil_r; by destruct removed..].
  - injection Ep as _ <-. constructor; [exact R'|cbn [yh_peer yh_conns yh_in yh_joined]; rewrite ?app_nil_r..]; done.
  - unfold Peer.Stop in Ep. destruct (Close _) as [tp| |] eqn:Ec; [|done..]. injection Ep as _ <-.
    constructor; [exact R'|done|]. cbn [yh_peer yh_conns yh_in yh_joined]. rewrite !app_nil_r.
    eapply all_read_trans; [|exact Rd|]; [done|]. by apply (Close_reads ins) in Ec.
Qed.

Lemma arrival_run_ok acc h tr h' :
  arrival_ok acc h -> environment h tr h' -> all_known h tr -> Forall (conn_ok (carries acc)) (yh_joined h') ->
  run yh_step h tr = Some h' -> arrival_ok acc h'.
Proof.
  intros Hok [Hl Hr Hk] Ha Hc Hrun. revert h Hok Hk Ha Hrun.
  induction Hl as [|l tr Hyl Htr IH]; intros h Hok; cbn [keepalives_whole all_known run]; [by intros _ _ [= <-]|].
  destruct (yh_step h l) as [h1|] eqn:Es; [|done]. intros [Hk1 Hk] [Ha1 Ha] Hrun. apply (IH h1); try done.
  eapply arrival_ok_step; [exact Hok| |exact Ha1|exact Es]. split; [|by eapply step_joining]. split; [done|].
  split; [by eapply step_joining|done].
Qed.

(** ** Where everything has been read *)

(** Blocks whose layouts begin the same bytes are the same. *)
Lemma layouts_agree (L L' : list Block) tail rest :
  Forall block_wf L -> Forall block_wf L' -> (forall b k, block_wf b -> rest <> encode b ++ k) ->
  concat (encode <$> L) ++ tail = concat (encode <$> L') ++ rest -> (received <$> L) `prefix_of` (received <$> L').
Proof.
  intros HL. revert L'. induction HL as [|b L Hb HL IH]; intros L' HL' Hr E; [apply prefix_nil|].
  cbn [fmap list_fmap concat] in *. rewrite <-app_assoc in E. destruct HL' as [|b' L' Hb' HL'].
  - cbn in E. by destruct (Hr b (concat (encode <$> L) ++ tail) Hb).
  - cbn [fmap list_fmap concat] in *. rewrite <-app_assoc in E.
    destruct (encode_prefix_free _ _ _ _ Hb Hb' E) as [-> E']. apply prefix_cons. by apply IH.
Qed.

(** A tunnel that waits has been read to the last whole block. *)
Lemma waits_read ins t0 (e : entry C) bs oe (L : list Block) tail b :
  read_from ins t0 e -> e_in e = InLoop -> waits_for_bytes (e_tunnel e) -> delivers (Conn t0) bs oe ->
  bs = concat (encode <$> L) ++ tail -> Forall block_wf L -> b ∈ L -> ~ keepalive b -> forwarded b ∈ ins.
Proof.
  intros Hr Hin [Hc Hw] Hd E HL Hb Hk. destruct (Hr Hc _ _ Hd) as (L' & rest & E' & Hd' & HL').
  rewrite E in E'. apply layouts_agree in E' as [more Em]; [|done| |].
  - assert (received b ∈ received <$> L') as Hb'.
    { rewrite Em. apply elem_of_app. left. by apply list_elem_of_fmap_2. }
    apply list_elem_of_fmap in Hb' as (b' & Eb & Hb'). rewrite Forall_forall in HL'.
    assert (forwarded b = forwarded b') as -> by (unfold forwarded; by rewrite Eb).
    destruct (HL' b' Hb') as [_ [Hka|[?|?]]]; [|done|congruence]. exfalso. apply Hk.
    unfold keepalive in *. apply (f_equal Type_) in Eb. cbn in Eb. by rewrite Eb.
  - eapply Forall_impl; [exact HL'|]. by intros b' [].
  - intros b' k Hwf ->. destruct (parse_encode _ _ _ _ Hwf Hd') as (c' & Ep & _). congruence.
Qed.
End PeerArrival.

(** ** What has been received at a rest *)
Section Received.
Context `{TV : TunnelVars} `{CV : ConnVars} {M C : Type} `{Manager M, ManagerRun M} `{Duplex C, !FiniteInput C}.
Implicit Types (h : yhist M C) (p : Peer M C).

(** Every whole block, keep-alives apart, that the bytes of a tunnel begin with has come to
    the pool, and every block that has come to the pool has been handed to the connection
    with its ID. *)
Definition bytes_handed h : Prop :=
  (forall i t0 e bs oe L tail b, yh_joined h !! i = Some t0 -> entries (tunnelPool (yh_peer h)) !! i = Some e ->
     tn_cancelled (e_tunnel e) = false -> delivers (Conn t0) bs oe -> bs = concat (encode <$> L) ++ tail ->
     Forall block_wf L -> b ∈ L -> ~ keepalive b -> forwarded b ∈ yh_in h) /\
  (forall b, b ∈ yh_in h -> handed_to (connectionPool (yh_peer h)) (yh_conns h) b).

Lemma received_handed acc h :
  arrival_ok acc h -> pr_cancelled (yh_peer h) = false -> all_received h -> bytes_handed h.
Proof.
  intros Ha Hn (A1 & A2 & A3). split.
  - intros i t0 e bs oe L tail b Hi He Hc Hd Eb HL Hb Hk. destruct (A3 _ _ He Hc) as [Hin Hw].
    pose proof (Forall2_lookup_lr _ _ _ _ _ _ (ar_read _ _ Ha) Hi He) as Hr.
    exact (waits_read _ _ _ _ _ _ _ b Hr Hin Hw Hd Eb HL Hb Hk).
  - intros b Hb. destruct (ar_handed _ _ Ha Hn _ Hb) as [Hi|Hi]; [exfalso|exact Hi].
    unfold incoming in Hi. rewrite A1 in Hi. destruct (yi_linked _ (rv_inv _ _ (ar_recv _ _ Ha))) as [_ L2 _].
    rewrite L2, A2 in Hi. by apply elem_of_nil in Hi.
Qed.

(** A peer in an execution. *)
Lemma execution_recv_ok acc id mgr accept g (s : nat -> yhist M C) l n :
  s 0%nat = yh_init (new_peer id mgr accept g) -> execution yh_step s l ->
  (forall n r, l n = Some r -> brings acc (s n) r (s (S n))) -> recv_ok acc (s n).
Proof.
  intros H0' Hexec Hb. induction n as [|n IH]; [rewrite H0'; apply recv_ok_init|]. pose proof (Hexec n) as Hs.
  destruct (l n) as [r|] eqn:El; [by eapply recv_ok_step; [exact IH|by apply Hb|exact Hs]|by rewrite Hs].
Qed.

Lemma execution_arrival_ok acc id mgr accept g (s : nat -> yhist M C) l n :
  s 0%nat = yh_init (new_peer id mgr accept g) -> execution yh_step s l ->
  (forall n r, l n = Some r -> brings acc (s n) r (s (S n))) ->
  (forall n r, l n = Some r -> peer_knows (s n) r) -> arrival_ok acc (s n).
Proof.
  intros H0' Hexec Hb Hk. induction n as [|n IH]; [rewrite H0'; apply arrival_ok_init|]. pose proof (Hexec n) as Hs.
  destruct (l n) as [r|] eqn:El; [by eapply arrival_ok_step; [exact IH|by apply Hb|by apply Hk|exact Hs]|by rewrite Hs].
Qed.
End Received.

(** * From a connection to the bytes of a tunnel *)

(** What a connection sends is put on its pool's queue. *)
Section Issued.
Context `{CV : ConnVars}.
Implicit Types (cp : ConnectionPool) (ts : list chist).

Definition all_in (bs : list Block) (t : chist) : Prop := Forall (fun b => b ∈ bs) (ct_sent t).

Lemma all_in_mono bs bs' t : (forall b, b ∈ bs -> b ∈ bs') -> all_in bs t -> all_in bs' t.
Proof. intros Hb Ht. eapply Forall_impl; [exact Ht|]. exact Hb. Qed.

Lemma send_all_issued bs cp cp' l :
  send_all bs (cp_sendQueue cp) = Ret (cp_sendQueue cp') -> issuing l = true -> issued cp l cp' = bs.
Proof. intros E%send_all_buf Hl. unfold issued. by rewrite Hl, E, drop_app_length. Qed.

Lemma step_issued cp l cp' ts bs :
  own_conn l = true -> cp_step cp l = Ret cp' -> Forall (all_in bs) ts ->
  Forall (all_in (bs ++ issued cp l cp')) (noted cp l cp' ts).
Proof.
  intros Ho Hs Ht.
  assert (Forall (all_in (bs ++ issued cp l cp')) (ts ++ replicate (length (conns cp') - length (conns cp)) no_hist)) as H0.
  { apply Forall_app. split; [|apply Forall_replicate, Forall_nil_2]. eapply Forall_impl; [exact Ht|]. intros t.
    apply all_in_mono. intros b. in_app. }
  assert (forall f k more, (forall t, ct_sent (f t) = ct_sent t ++ more) -> (forall b, b ∈ more -> b ∈ issued cp l cp') ->
    Forall (all_in (bs ++ issued cp l cp')) (alter f k (ts ++ replicate (length (conns cp') - length (conns cp)) no_hist))) as Ha.
  { intros f k more Hf Hm. apply Forall_alter; [exact H0|]. intros t _ Hall. unfold all_in. rewrite Hf. apply Forall_app.
    split; [exact Hall|]. apply Forall_forall. intros b Hb. apply elem_of_app. right. auto. }
  unfold noted. destruct l as [id now a|blk| | | | | | | | | |k l|k op|k l|k|]; try done; cbn [note]; try exact H0.
  - cbn [cp_step] in Hs. unfold Dial in Hs. set (c := in_context cp (new_inbound id now)) in *.
    assert (conns (NewPooledInboundConnection id now cp) = conns cp ++ [mkCEntry c AtSelect true]) as Ec by done.
    rewrite Ec, list_lookup_middle in Hs by done. cbn [ce_conn] in Hs.
    destruct (SendConnect now a (conn_base c)) as [bs0 b] eqn:Es. destruct (send_all _ _) as [q| |] eqn:Ea; [|done..].
    injection Hs as E. apply (Ha _ _ bs0); [done|]. intros b' Hb'.
    rewrite (send_all_issued bs0); [done| |done]. rewrite <-E. exact Ea.
  - destruct (cp_recv cp); try exact H0. apply (Ha _ _ []); [intros t; cbn; by rewrite app_nil_r|]. intros b Hb. by apply elem_of_nil in Hb.
  - apply (Ha _ _ []); [intros t; cbn; by rewrite app_nil_r|]. intros b Hb. by apply elem_of_nil in Hb.
  - cbn [cp_step] in Hs. destruct (conns cp !! k) as [e|] eqn:Ek; [|done]. cbn [fmap option_fmap option_map].
    destruct (ce_conn e) as [c|] eqn:Ec; [|done].
    destruct (user_call op); [|done]. destruct (Inbound.ic_step ([], c) op) as [[bs0 c']|] eqn:Eop; [|done].
    destruct (send_all _ _) as [q| |] eqn:Ea; [|done..]. injection Hs as E.
    apply (Ha _ _ bs0); [intros t; cbn [ct_sent add_user]; by rewrite Eop|]. intros b' Hb'. rewrite (send_all_issued bs0); [done| |done].
    rewrite <-E. exact Ea.
  - cbn [cp_step] in Hs. destruct (conns cp !! k) as [e|] eqn:Ek; [|done]. cbn [fmap option_fmap option_map].
    destruct (ce_conn e) as [|s] eqn:Ec; [done|].
    destruct (own_step l); [|done]. destruct (Outbound.oc_step s l) as [[bs0 s']| |] eqn:Eop; [|done..]. cbn [mbind outcome_bind] in Hs.
    destruct (send_all _ _) as [q| |] eqn:Ea; [|done..]. injection Hs as E.
    apply (Ha _ _ bs0); [intros t; cbn [ct_sent add_own]; unfold sent_by; by rewrite Eop|]. intros b' Hb'. rewrite (send_all_issued bs0); [done| |done].
    rewrite <-E. exact Ea.
Qed.
End Issued.

Section Written.
Context `{TV : TunnelVars} {M C : Type} `{Manager M} `{Duplex C}.
Implicit Types (tp : TunnelPool M C) (e : entry C) (t : Tunnel C) (b : Block).

(** The block is whole among the bytes put on the tunnel since it was added. *)
Definition carried b t0 t : Prop :=
  exists L tail, emitted (Conn t) = emitted (Conn t0) ++ concat (encode <$> L) ++ tail /\ Forall block_wf L /\ received b ∈ L.

Definition on_tunnels (ts : list (Tunnel C)) tp (evs : list pool_event) : Prop :=
  forall i b, SentOn i b ∈ evs -> exists t0 t, ts !! i = Some t0 /\ tunnels tp !! i = Some t /\ carried b t0 t.

Lemma carried_more b t0 t t' more : emitted (Conn t') = emitted (Conn t) ++ more -> carried b t0 t -> carried b t0 t'.
Proof.
  intros E (L & tail & E0 & HL & Hb). exists L, (tail ++ more). rewrite E, E0, <-!app_assoc. done.
Qed.

Lemma carried_wire acc b t0 t t' : wire_ok acc t t' -> carried b t0 t -> carried b t0 t'.
Proof. intros [_ _ (L & tail & E & _)]. by apply (carried_more _ _ _ _ (concat (encode <$> L) ++ tail)). Qed.

(** A block put whole after others. *)
Lemma carried_sent acc b t0 t t' :
  wire_ok acc t0 t -> tn_closed t = false -> block_wf b -> emitted (Conn t') = emitted (Conn t) ++ encode b -> carried b t0 t'.
Proof.
  intros [_ _ (L & tail & E & HL & Ht)] Hc Hb E'. destruct Ht as [->|[? _]]; [|congruence].
  exists (L ++ [received b]), []. rewrite E', E, fmap_app, concat_app. cbn [fmap list_fmap concat]. rewrite encode_received, !app_nil_r, <-app_assoc.
  split; [done|]. split; [|apply elem_of_app; right; by left]. apply Forall_app. split.
  - eapply Forall_impl; [exact HL|]. intros b'. apply on_wire_wf.
  - apply Forall_singleton. by apply block_wf_received.
Qed.

Lemma on_tunnels_moves acc ts more es tp tp' evs :
  moves acc (tunnels tp ++ es) (tunnels tp') -> on_tunnels ts tp evs -> on_tunnels (ts ++ more) tp' evs.
Proof.
  intros Hm Ht i b Hb. destruct (Ht i b Hb) as (t0 & t & E0 & E1 & Hc).
  pose proof (lookup_app_l_Some _ es _ _ E1) as E1'. destruct (Forall2_lookup_l _ _ _ _ _ Hm E1') as (t' & E2 & Hw).
  exists t0, t'. split; [by apply lookup_app_l_Some|]. split; [done|]. by eapply carried_wire.
Qed.

(** What [OutboundRelay] reports has been put on its tunnel. *)
Lemma relay_send_written acc i e blk next tp evs tp' ts j b :
  entries tp !! i = Some e -> Forall2 (wire_ok acc) ts (tunnels tp) -> packed_ok blk -> block_wf blk ->
  relay_send i e blk next tp = (evs, tp') -> SentOn j b ∈ evs ->
  exists t0 t, ts !! j = Some t0 /\ tunnels tp' !! j = Some t /\ carried b t0 t.
Proof.
  intros Hi Hw Hp Hb. unfold relay_send. destruct (packThenSend _ _ _ _) as [[rb g] t] eqn:E.
  destruct (packThenSend_spec _ _ _ _ _ _ _ Hp E) as [(-> & Hc & He & _)|(n & _ & _ & _ & _ & -> & _)];
    intros [= <- <-]; [|by intros ?%elem_of_nil]. intros [= -> ->]%list_elem_of_singleton.
  assert (tunnels tp !! i = Some (e_tunnel e)) as Ht by (unfold tunnels; by rewrite list_lookup_fmap, Hi).
  destruct (Forall2_lookup_r _ _ _ _ _ Hw Ht) as (t0 & E0 & Hw0). exists t0, t. split; [done|]. split.
  - unfold tunnels. cbn. rewrite list_lookup_fmap, list_lookup_insert_eq by (by eapply lookup_lt_Some). done.
  - by eapply carried_sent.
Qed.

Lemma OutboundRelay_written acc ts i e ch tp evs tp' j b :
  send_inv acc ts tp -> entries tp !! i = Some e -> OutboundRelay_step i e ch tp = Ret (evs, tp') -> SentOn j b ∈ evs ->
  exists t0 t, ts !! j = Some t0 /\ tunnels tp' !! j = Some t /\ carried b t0 t.
Proof.
  intros Hi He. pose proof (si_wire _ _ _ Hi) as Hw.
  assert (forall blk, blk ∈ queued tp -> packed_ok blk /\ block_wf blk) as Hq.
  { intros blk Hb. destruct Hi as [Hp Hq _ _]. rewrite Forall_forall in Hp, Hq. split; [auto|]. by destruct (Hq blk Hb). }
  unfold OutboundRelay_step, take_retry, take_normal, end_out, goto_out. intros Hs Hb.
  destruct (e_out e), ch; try done; try (repeat case_match; simplify_eq; by apply elem_of_nil in Hb);
    match type of Hs with context [chan_recv ?q] => destruct (chan_recv q) as [blk q1| |] eqn:Eq end;
    try done; try (simplify_eq; by apply elem_of_nil in Hb); injection Hs as Hs;
    (destruct (Hq blk) as [Hp Hwf]; [eapply queued_in; by eauto|]).
  - by eapply (relay_send_written acc i e blk _ (set_retryQueue q1 tp)).
  - by eapply (relay_send_written acc i e blk _ (set_retryQueue q1 tp)).
  - by eapply (relay_send_written acc i e blk _ (set_sendQueue q1 tp)).
Qed.

Lemma elem_of_sent_on b evs : b ∈ sent_on evs <-> exists i b', SentOn i b' ∈ evs /\ b = received b'.
Proof.
  unfold sent_on. rewrite list_elem_of_omap. split.
  - intros ([|i b'| | |] & Hin & E); try done. injection E as <-. by exists i, b'.
  - intros (i & b' & Hin & ->). by exists (SentOn i b').
Qed.

Lemma on_tunnels_step acc ts tp l evs tp' hist :
  send_inv acc ts tp -> label_ok l -> keepalive_whole tp l tp' -> own_tunnel l = true -> pool_step tp l = Ret (evs, tp') ->
  on_tunnels ts tp hist -> on_tunnels (ts ++ joined l) tp' (hist ++ evs).
Proof.
  intros Hi Hl Hk Ho Hs Ht i b Hb. apply elem_of_app in Hb as [Hb|Hb].
  - by eapply (on_tunnels_moves acc); [eapply step_moves|exact Ht|].
  - destruct (pool_step_events _ _ _ _ Ho Hs) as (_ & _ & [Hn|(j & ch & ->)]).
    + exfalso. assert (received b ∈ sent_on evs) as Hin by (apply elem_of_sent_on; by eauto). rewrite Hn in Hin.
      by apply elem_of_nil in Hin.
    + cbn [pool_step joined] in *. rewrite app_nil_r. destruct (entries tp !! j) as [e|] eqn:Ej; [|done].
      by eapply OutboundRelay_written.
Qed.
End Written.

(** * A peer that sends

    With both histories: what its connections have sent, and what has become of it. *)

Section PeerSent.
Context `{TV : TunnelVars} `{CV : ConnVars} {M C : Type} `{Manager M, ManagerRun M} `{Duplex C}.
Implicit Types (h : yhist M C) (u : shist M C).

Record sends_ok h u : Prop := {
  se_peer : sh_peer u = yh_peer h;
  se_inv : yh_inv h;
  se_send : send_ok u;
  se_issued : Forall (all_in (sh_issued u)) (yh_conns h);
  se_tunnels : on_tunnels (yh_joined h) (tunnelPool (yh_peer h)) (sh_events u);
}.

Lemma sends_ok_init id mgr accept g :
  sends_ok (yh_init (new_peer id mgr accept g)) (sh_init (new_peer id mgr accept g)).
Proof.
  constructor; [done|apply yh_inv_init|apply send_ok_init|apply Forall_nil_2|]. intros i b Hb. by apply elem_of_nil in Hb.
Qed.

Lemma on_tunnels_same (ts : list (Tunnel C)) (tp tp' : TunnelPool M C) (evs : list pool_event) :
  entries tp' = entries tp -> on_tunnels ts tp evs -> on_tunnels ts tp' evs.
Proof. intros E Ht i b Hb. unfold tunnels. rewrite E. exact (Ht i b Hb). Qed.

Lemma sends_ok_step h u l h' :
  sends_ok h u -> step_env h l h' -> yh_step h l = Some h' -> exists u', sh_step u l = Some u' /\ sends_ok h' u'.
Proof.
  intros [E I S Hi Ht] He Hs. pose proof (yh_inv_step _ _ _ I He Hs) as I'. destruct He as (Hl & Hr & Hk).
  unfold yh_step in Hs. destruct (peer_step _ l) as [[evs p']| |] eqn:Ep; [|done..]. injection Hs as <-.
  assert (sh_step u l = Some (mkSHist p' (sh_issued u ++ issued_by (yh_peer h) l p') (sh_events u ++ evs))) as Hu
    by (unfold sh_step; by rewrite E, Ep).
  eexists. split; [exact Hu|]. constructor; [done|exact I'|by eapply sh_step_ok|..];
    cbn [sh_issued sh_events yh_conns yh_joined yh_peer]; clear Hu I'.
  - destruct l as [l|l|l|g|]; cbn [note_peer issued_by peer_step] in *; rewrite ?app_nil_r; try exact Hi.
    destruct (own_conn l) eqn:Ho; [|done]. destruct (cp_step _ l) as [cp| |] eqn:Es; [|done..]. injection Ep as _ <-.
    by apply step_issued.
  - destruct l as [l|l|l|g|]; cbn [joining peer_step yl_ok] in *; rewrite ?app_nil_r.
    + destruct (if own_conn l then _ else _) as [cp| |]; [|done..]. injection Ep as <- <-. rewrite app_nil_r.
      by eapply on_tunnels_same.
    + destruct (own_tunnel l) eqn:Ho; [|done]. destruct (pool_step _ l) as [[es tp]| |] eqn:Es; [|done..]. injection Ep as <- <-.
      by eapply on_tunnels_step; [exact (yi_send _ I)|..].
    + destruct (manager_step _ _) as [[mgr removed]|]; [|done]. injection Ep as <- <-. rewrite app_nil_r.
      eapply on_tunnels_same; [|exact Ht]. by destruct removed.
    + injection Ep as <- <-. rewrite app_nil_r. by eapply on_tunnels_same.
    + unfold Peer.Stop in Ep. destruct (Close _) as [tp| |] eqn:Ec; [|done..]. injection Ep as <- <-. rewrite app_nil_r.
      rewrite <-(app_nil_r (yh_joined h)). eapply (on_tunnels_moves []); [|exact Ht]. rewrite app_nil_r.
      by apply (Close_moves []) in Ec.
Qed.

Lemma sends_run_ok h u tr h' :
  sends_ok h u -> environment h tr h' -> run yh_step h tr = Some h' -> exists u', run sh_step u tr = Some u' /\ sends_ok h' u'.
Proof.
  intros Hok [Hl Hr Hk]. revert h u Hok Hk. induction Hl as [|l tr Hyl Htr IH]; intros h u Hok; cbn [keepalives_whole run].
  - intros _ [= <-]. by exists u.
  - destruct (yh_step h l) as [h1|] eqn:Es; [|done]. intros [Hk1 Hk] Hrun.
    destruct (sends_ok_step h u l h1 Hok) as (u1 & Eu & Hok1); [|done|].
    { split; [done|]. split; [by eapply step_joining|done]. }
    rewrite Eu. by eapply IH.
Qed.

(** With nothing pending and nothing given up every block is on some tunnel. *)
Lemma all_written h u t b :
  sends_ok h u -> pr_cancelled (yh_peer h) = false -> pending (yh_peer h) = [] -> held (tunnelPool (yh_peer h)) = [] ->
  dropped (sh_events u) = [] -> t ∈ yh_conns h -> b ∈ ct_sent t ->
  exists i t0 t1, yh_joined h !! i = Some t0 /\ tunnels (tunnelPool (yh_peer h)) !! i = Some t1 /\ carried b t0 t1.
Proof.
  intros [E I S Hi Ht] Hn Hp Hh Hd Hin Hb. rewrite Forall_forall in Hi. specialize (Hi t Hin). unfold all_in in Hi.
  rewrite Forall_forall in Hi. specialize (Hi b Hb). destruct (so_running _ S) as [_ _ _ U]; [by rewrite E|].
  rewrite E, Hp, Hh, Hd, app_nil_r in U. cbn in U.
  assert (received b ∈ sent_on (sh_events u)) as Hs by (rewrite <-U; by apply list_elem_of_fmap_2).
  apply elem_of_sent_on in Hs as (i & b' & Hev & Eb). destruct (Ht i b' Hev) as (t0 & t1 & E0 & E1 & L & tail & Hc).
  exists i, t0, t1. split; [done|]. split; [done|]. exists L, tail. by rewrite Eb.
Qed.
End PeerSent.

(** * Two peers *)

(** The bytes each tunnel of the first peer has put on its connection are all the
    bytes some tunnel of the second brings, which has not failed. *)
Definition fully_wired {M1 M2 C} `{LawfulReader C, LawfulWriter C} (h1 : yhist M1 C) (h2 : yhist M2 C) : Prop :=
  forall i t0 t1, yh_joined h1 !! i = Some t0 -> tunnels (tunnelPool (yh_peer h1)) !! i = Some t1 ->
    emitted (Conn t1) = emitted (Conn t0) \/
    exists j t e bs oe, yh_joined h2 !! j = Some t /\ entries (tunnelPool (yh_peer h2)) !! j = Some e /\
      tn_cancelled (e_tunnel e) = false /\ delivers (Conn t) bs oe /\ emitted (Conn t1) = emitted (Conn t0) ++ bs.

Section Across.
Context `{TV1 : TunnelVars} `{CV1 : ConnVars} `{TV2 : TunnelVars} `{CV2 : ConnVars} {M1 M2 C : Type}.
Context `{Manager M1, ManagerRun M1, Manager M2, ManagerRun M2} `{Duplex C, !FiniteInput C}.

Lemma carried_in_bytes b (t0 t1 : Tunnel C) bs :
  carried b t0 t1 -> emitted (Conn t1) = emitted (Conn t0) ++ bs ->
  exists L tail, bs = concat (encode <$> L) ++ tail /\ Forall block_wf L /\ received b ∈ L.
Proof. intros (L & tail & E & HL & Hb) E'. exists L, tail. rewrite E in E'. by apply app_inv_head in E' as <-. Qed.

Lemma carried_bytes b (t0 t1 : Tunnel C) : carried b t0 t1 -> emitted (Conn t1) <> emitted (Conn t0).
Proof.
  intros Hc E. destruct (carried_in_bytes b t0 t1 [] Hc) as (L & tail & E' & _ & Hb); [by rewrite app_nil_r|].
  destruct L as [|b0 L]; [by apply elem_of_nil in Hb|].
  cbn [fmap list_fmap concat] in E'. by rewrite encode_header in E'.
Qed.

Lemma all_arrive acc (h1 : yhist M1 C) (u1 : shist M1 C) (h2 : yhist M2 C) t b :
  sends_ok (TV := TV1) h1 u1 -> pr_cancelled (yh_peer h1) = false -> pending (yh_peer h1) = [] ->
  held (tunnelPool (yh_peer h1)) = [] -> dropped (sh_events u1) = [] ->
  arrival_ok (TV := TV2) (CV := CV2) acc h2 -> pr_cancelled (yh_peer h2) = false -> all_received h2 -> fully_wired h1 h2 ->
  t ∈ yh_conns h1 -> b ∈ ct_sent t ->
  handed_to (connectionPool (yh_peer h2)) (yh_conns h2) (forwarded b).
Proof.
  intros Hs Hn1 Hp Hh Hd Ha Hn2 (A1 & A2 & A3) Hw Ht Hb.
  assert (~ keepalive b) as Hk.
  { pose proof (yi_sent _ (se_inv _ _ Hs)) as Hsent. rewrite Forall_forall in Hsent. specialize (Hsent t Ht).
    unfold sent_ok in Hsent. rewrite Forall_forall in Hsent. by destruct (Hsent b Hb) as (_ & _ & ?). }
  destruct (all_written _ _ _ _ Hs Hn1 Hp Hh Hd Ht Hb) as (i & t0 & t1 & E0 & E1 & Hc).
  destruct (Hw _ _ _ E0 E1) as [E|(j & t2 & e & bs & oe & Ej & Ee & Hcan & Hdel & Eb)]; [by apply carried_bytes in Hc|].
  destruct (carried_in_bytes _ _ _ _ Hc Eb) as (L & tail & EL & HL & HbL).
  destruct (A3 _ _ Ee Hcan) as [Hin Hwait].
  pose proof (Forall2_lookup_lr _ _ _ _ _ _ (ar_read _ _ Ha) Ej Ee) as Hr.
  pose proof (waits_read _ _ _ _ _ _ _ (received b) Hr Hin Hwait Hdel EL HL HbL Hk) as Hin2.
  destruct (ar_handed _ _ Ha Hn2 _ Hin2) as [Hi|Hi]; [exfalso|exact Hi].
  unfold incoming in Hi. rewrite A1 in Hi. destruct (yi_linked _ (rv_inv _ _ (ar_recv _ _ Ha))) as [_ L2 _].
  rewrite L2, A2 in Hi. by apply elem_of_nil in Hi.
Qed.
End Across.

(** ** At rest *)

Section AtRest.
Context {M C : Type} `{TV : TunnelVars} `{CV : ConnVars} `{Manager M, ManagerRun M} `{Duplex C, !FiniteInput C}.
Implicit Types (h : yhist M C).

Lemma ready_receive acc h :
  recv_ok acc h -> pr_cancelled (yh_peer h) = false -> ConnPool.RecvQueueSize <> 0%nat -> Tunnel.RecvQueueSize <> 0%nat ->
  at_rest yh_step receive_move h -> readers_ready h ->
  all_received h /\ forall k e, conns (connectionPool (yh_peer h)) !! k = Some e -> EndToEnd.settled e.
Proof.
  intros Hok Hn Hc1 Hc2 Hr Hready. destruct (rest_receive _ _ Hok Hn Hc1 Hc2 Hr) as [Hall Hrest]. split.
  - destruct Hrest as [(k & blk & e & _ & Hk & [[_ Hb]|Ho])|?]; [| |done]; by destruct (Hready k e Hk).
  - intros k e Hk. destruct (Hready k e Hk) as [H1' H2']. destruct (Hall k e Hk) as [(E1 & E2 & _)|[?|?]]; [by split|done..].
Qed.
End AtRest.

(** Blocks of one ID that have all been handed over, where one connection has it. *)
Lemma handed_to_one `{CV : ConnVars} cp ts (id : Z) (bs : list Block) :
  NoDup (ids (conns cp)) -> bs <> [] -> (forall b, b ∈ bs -> ConnectionID b = id /\ handed_to cp ts (forwarded b)) ->
  exists k e t, conns cp !! k = Some e /\ ts !! k = Some t /\ GetConnectionID (ce_conn e) = id /\
    forall b, b ∈ bs -> forwarded b ∈ ct_handed t.
Proof.
  intros Hnd Hne Hto. destruct bs as [|b0 bs]; [done|].
  destruct (Hto b0) as [Hid0 (k & e & t & Hk & Ht & Hid & _)]; [by left|]. exists k, e, t.
  change (ConnectionID (forwarded b0)) with (ConnectionID b0) in Hid. rewrite Hid0 in Hid. split_and!; [done..|].
  intros b Hb. destruct (Hto b Hb) as [Hidb (k' & e' & t' & Hk' & Ht' & Hid' & Hin)].
  change (ConnectionID (forwarded b)) with (ConnectionID b) in Hid'.
  assert (k' = k) as ->; [|congruence]. eapply NoDup_lookup; [exact Hnd| |]; unfold ids; rewrite list_lookup_fmap.
  - rewrite Hk'. cbn. by rewrite Hid', Hidb, <-Hid.
  - by rewrite Hk.
Qed.

(** The sender has nothing left to do and has given nothing up. *)
Record sender_done {M C} `{TV : TunnelVars} `{CV : ConnVars} `{Manager M, ManagerRun M, Reader C, Writer C} (u : shist M C) : Prop := {
  sd_rest : at_rest sh_step send_move u;
  sd_running : pr_cancelled (sh_peer u) = false;
  sd_tunnel : Exists (fun e => tn_cancelled (e_tunnel e) = false) (entries (tunnelPool (sh_peer u)));
  sd_room : Tunnel.SendQueueSize <> 0%nat;
  sd_kept : dropped (sh_events u) = [];
}.

(** The receiver has nothing left to do, no reader keeps it from receiving, and its
    connections have IDs of their own. *)
Record receiver_done {M C} `{TV : TunnelVars} `{CV : ConnVars} `{Manager M, ManagerRun M, Reader C, Writer C} (h : yhist M C) : Prop := {
  rd_rest : at_rest yh_step receive_move h;
  rd_running : pr_cancelled (yh_peer h) = false;
  rd_ready : readers_ready h;
  rd_room : ConnPool.RecvQueueSize <> 0%nat /\ Tunnel.RecvQueueSize <> 0%nat;
  rd_ids : NoDup (ids (conns (connectionPool (yh_peer h))));
}.

(** What a connection has sent has all been handed to the one with its ID. *)
Lemma rest_handed {M1 M2 C} `{Manager M1, ManagerRun M1, Manager M2, ManagerRun M2, Duplex C, !FiniteInput C}
    (TV1 : TunnelVars) (CV1 : ConnVars) (TV2 : TunnelVars) (CV2 : ConnVars) id1 mgr1 accept1 g1 id2 mgr2 accept2 g2 tr1 tr2
    (h1 : yhist M1 C) (u1 : shist M1 C) (h2 : yhist M2 C) (j : nat) (e1 : centry) (t1 : chist) :
  peers_run TV1 CV1 TV2 CV2 (new_peer (TV := TV1) id1 mgr1 accept1 g1) (new_peer (TV := TV2) id2 mgr2 accept2 g2) tr1 tr2 h1 h2 ->
  run (sh_step (TV := TV1) (CV := CV1)) (sh_init (new_peer (TV := TV1) id1 mgr1 accept1 g1)) tr1 = Some u1 ->
  sender_done (TV := TV1) (CV := CV1) u1 -> receiver_done (TV := TV2) (CV := CV2) h2 -> fully_wired h1 h2 ->
  all_known (TV := TV2) (CV := CV2) (yh_init (new_peer (TV := TV2) id2 mgr2 accept2 g2)) tr2 ->
  sole_sender (yh_pool h1) j e1 t1 -> ct_sent t1 <> [] ->
  (forall k e, conns (connectionPool (yh_peer h2)) !! k = Some e -> EndToEnd.settled e) /\
  exists k e2 t2, conns (connectionPool (yh_peer h2)) !! k = Some e2 /\ yh_conns h2 !! k = Some t2 /\
    GetConnectionID (ce_conn e2) = GetConnectionID (ce_conn e1) /\ forall b, b ∈ ct_sent t1 -> forwarded b ∈ ct_handed t2.
Proof.
  intros Hruns Hu [Hr1 Hn1 Hlive Hc0 Hd] [Hr2 Hn2 Hready [Hc1 Hc2] Hnd] Hw Hknown Hj Hne.
  pose proof (two_peers _ _ _ _ _ _ _ _ _ _ _ _ Hruns) as (I1 & _ & _). destruct Hruns as [R1 R2 E1 E2 Hwired].
  destruct (sends_run_ok _ _ _ _ (sends_ok_init _ _ _ _) E1 R1) as (u & Eu & Hs).
  pose proof (eq_trans (eq_sym Hu) Eu) as E. injection E as <-. clear Eu.
  assert (Forall (conn_ok (carries (received <$> yh_out h1))) (yh_joined h2)) as Hcar
    by (apply wired_carries; [exact (se_inv _ _ Hs)|done|by destruct E2]).
  pose proof (arrival_run_ok _ _ _ _ (arrival_ok_init (received <$> yh_out h1) _ _ _ _) E2 Hknown Hcar R2) as Ha.
  destruct (rest_send _ (se_send _ _ Hs) Hn1 Hc0 Hlive Hr1) as [Hp Hh]. rewrite (se_peer _ _ Hs) in Hp, Hh, Hn1.
  destruct (ready_receive _ _ (ar_recv _ _ Ha) Hn2 Hc1 Hc2 Hr2 Hready) as [Hall Hset]. split; [exact Hset|].
  pose proof Hj as (J1 & J2 & _). cbn [yh_pool ph_pool ph_conns] in J1, J2.
  pose proof (Forall2_lookup_lr _ _ _ _ _ _ (hi_conns _ I1) J1 J2) as Ic.
  apply handed_to_one; [exact Hnd|exact Hne|]. intros b Hb.
  split; [by apply list_elem_of_lookup_1 in Hb as [m [? _]%(conn_inv_numbered _ _ Ic)]|].
  eapply (all_arrive (TV1 := TV1) (TV2 := TV2) (CV2 := CV2));
    [exact Hs|exact Hn1|exact Hp|exact Hh|exact Hd|exact Ha|exact Hn2|exact Hall|exact Hw| |exact Hb].
  by eapply list_elem_of_lookup_2.
Qed.

(** * Properties *)

(** C8: receiving happens. In every execution of a peer as the program makes it that is
    fair to the [InboundRelay]s, [recvRelay] and the [OrderedRelay]s: when the tunnels
    bring whole blocks of the peer at the other end and keep-alives, cut off anywhere,
    then, once no tunnel is added any more and as long as the peer is not stopped, there
    are for ever points at which every connection has delivered what it was handed: when
    those are blocks of one numbered stream, its reader has been given, or finds on its
    queue, exactly the blocks below the first number that has not come, each once and in
    order. Else the connection waits for its reader with the queue full, or is stopped or
    closed. At these points [recvRelay] waits for one such connection, or the pool's queue
    is empty and every tunnel that has not been cancelled waits for bytes that have not
    come; and then, if the pool knew the connection of every block (as one that accepts
    connections does), every whole block the tunnels have brought, keep-alives apart, has
    come to the pool and has been handed to the connection of its ID. *)
Theorem receiving_happens {M C} `{TV : TunnelVars} `{CV : ConnVars} `{Manager M, ManagerRun M} `{Duplex C, !FiniteInput C}
    (id : Z) (mgr : M) (accept : bool) (g : global_stats) (acc : list Block)
    (s : nat -> yhist M C) (l : nat -> option (peer_label C)) (last : nat) :
  s 0%nat = yh_init (new_peer id mgr accept g) -> execution yh_step s l -> fair yh_step receive_move s l ->
  (forall n r, l n = Some r -> brings acc (s n) r (s (S n))) ->
  (forall n, pr_cancelled (yh_peer (s n)) = false) ->
  (forall n, (last <= n)%nat -> yh_joined (s n) = yh_joined (s last)) ->
  ConnPool.RecvQueueSize <> 0%nat -> Tunnel.RecvQueueSize <> 0%nat ->
  forall n, exists m, (n <= m)%nat /\
    (forall k e t, conns (connectionPool (yh_peer (s m))) !! k = Some e -> yh_conns (s m) !! k = Some t ->
       Delivery.settled e /\ delivered_in_order e t \/ reader_behind e \/ over e) /\
    receiver_rests (s m) /\
    (all_received (s m) -> (forall n r, l n = Some r -> peer_knows (s n) r) -> bytes_handed (s m)).
Proof.
  intros H0' Hexec Hf Hb Hn Hlast Hc1 Hc2 n.
  pose proof (fun m => execution_recv_ok acc id mgr accept g s l m H0' Hexec Hb) as Hok.
  destruct (receiving_rests acc s l last n Hok Hexec Hf Hlast) as (m & Hm & Hr). exists m. split; [exact Hm|].
  destruct (rest_receive _ _ (Hok m) (Hn m) Hc1 Hc2 Hr) as [Hset Hrest]. split; [|split; [exact Hrest|]].
  - intros k e t He Ht. destruct (Hset k e He) as [Hs|?]; [left; split; [done|]|by right].
    apply settled_delivers; [|done]. exact (Forall2_lookup_lr _ _ _ _ _ _ (hi_conns _ (yi_hist _ (rv_inv _ _ (Hok m)))) He Ht).
  - intros Hall Hk. eapply received_handed; [|apply Hn|exact Hall]. by eapply execution_arrival_ok.
Qed.

(** C3: nothing is lost on the way to a target. Take a client and a server peer as the
    program makes them, each in a run of its own, and let both have come to rest: the
    client can take no step that sends, the server none that receives. If the bytes of
    each tunnel of the client have all been brought to the server by a tunnel that has
    not failed there, if no block was given up by the retry of a tunnel that failed,
    and if no reader keeps the server from receiving, then every connection [j] of the
    client that is the only one with its ID and has sent fewer than 2^32-1 blocks has
    a connection at the server with that ID, whose reader has been given, in order and
    without gap, all that the user has written: once its goroutine has taken them from
    its queue, the target has been sent exactly these bytes. *)
Theorem nothing_lost {C : Type} `{Duplex C, !FiniteInput C} (TV1 : TunnelVars) (CV1 : ConnVars) (TV2 : TunnelVars) (CV2 : ConnVars)
    (id1 id2 n : Z) (endpoints : list string) (retry : bool) (g1 g2 : global_stats) (tr1 tr2 : list (peer_label C))
    (h1 : yhist ClientManager C) (u1 : shist ClientManager C) (h2 : yhist ServerManager C) (j : nat) (e1 : centry) (t1 : chist) :
  peers_run TV1 CV1 TV2 CV2 (newClientPeerWithID (TV := TV1) id1 n endpoints retry g1) (NewServerPeerWithID (TV := TV2) id2 g2)
    tr1 tr2 h1 h2 ->
  run (sh_step (TV := TV1) (CV := CV1)) (sh_init (newClientPeerWithID (TV := TV1) id1 n endpoints retry g1)) tr1 = Some u1 ->
  sender_done (TV := TV1) (CV := CV1) u1 -> receiver_done (TV := TV2) (CV := CV2) h2 -> fully_wired h1 h2 ->
  sole_sender (yh_pool h1) j e1 t1 -> Z.of_nat (length (ct_sent t1)) < 2 ^ 32 - 1 -> ct_sent t1 <> [] ->
  exists k e2 t2, conns (connectionPool (yh_peer h2)) !! k = Some e2 /\ yh_conns h2 !! k = Some t2 /\
    GetConnectionID (ce_conn e2) = GetConnectionID (ce_conn e1) /\ EndToEnd.delivered t2 = ct_in t1 /\
    forall s t, ce_conn e2 = OutConn s -> (Outbound.established (ct_calls t2) <= 1)%nat ->
      Outbound.HalfOpenConn (Outbound.os_conn s) = Some t -> Outbound.tcp_closed t = false -> Outbound.tcp_wclosed t = false ->
      ch_buf (orderedRecvQueue (conn_base (ce_conn e2))) = [] -> Outbound.tcp_out t = ct_in t1.
Proof.
  intros Hruns Hu Hsd Hrd Hw Hj Hlen Hne. pose proof (two_peers _ _ _ _ _ _ _ _ _ _ _ _ Hruns) as (I1 & I2 & Harr).
  destruct (rest_handed _ _ _ _ _ _ _ _ _ _ _ _ _ _ _ _ _ _ _ _ Hruns Hu Hsd Hrd Hw (accepting_knows (CV := CV2) (yh_init (NewServerPeerWithID (TV := TV2) id2 g2)) tr2 eq_refl) Hj Hne)
    as (Hset & k & e2 & t2 & Hk & Ht2 & Hid & Hhand).
  exists k, e2, t2. split; [exact Hk|]. split; [exact Ht2|]. split; [exact Hid|].
  split; [by apply (delivered_all (yh_pool h1) (yh_pool h2) I1 I2 Harr j k e1 e2 t1 t2 Hj Hk Ht2 Hid Hlen); [eapply Hset|]|].
  intros s t Ec Hest Hconn Hcl Hwc Hq. rewrite Ec in Hq.
  destruct (target_sent (yh_pool h1) (yh_pool h2) I1 I2 Harr j k e1 e2 t1 t2 Hj Hk Ht2 Hid Hlen s t Ec Hest Hconn) as [_ Ht].
  apply Ht; [by eapply Hset|done..].
Qed.

(** C4: nor is anything on the way back. In runs as above, with the server at rest as
    the sender and the client as the receiver, when the client knew the connection of
    every block that came to it: what the user of a connection of the client has been
    given and what is there for the next reads are exactly the bytes that were read
    from the target of the server's connection with its ID. *)
Theorem no_answer_lost {C : Type} `{Duplex C, !FiniteInput C} (TV1 : TunnelVars) (CV1 : ConnVars) (TV2 : TunnelVars) (CV2 : ConnVars)
    (id1 id2 n : Z) (endpoints : list string) (retry : bool) (g1 g2 : global_stats) (tr1 tr2 : list (peer_label C))
    (h1 : yhist ServerManager C) (u1 : shist ServerManager C) (h2 : yhist ClientManager C) (j : nat) (e1 : centry) (t1 : chist) :
  peers_run TV1 CV1 TV2 CV2 (NewServerPeerWithID (TV := TV1) id1 g1) (newClientPeerWithID (TV := TV2) id2 n endpoints retry g2)
    tr1 tr2 h1 h2 ->
  run (sh_step (TV := TV1) (CV := CV1)) (sh_init (NewServerPeerWithID (TV := TV1) id1 g1)) tr1 = Some u1 ->
  sender_done (TV := TV1) (CV := CV1) u1 -> receiver_done (TV := TV2) (CV := CV2) h2 -> fully_wired h1 h2 ->
  all_known (TV := TV2) (CV := CV2) (yh_init (newClientPeerWithID (TV := TV2) id2 n endpoints retry g2)) tr2 ->
  sole_sender (yh_pool h1) j e1 t1 -> Z.of_nat (length (ct_sent t1)) < 2 ^ 32 - 1 -> ct_sent t1 <> [] ->
  exists k e2 t2, conns (connectionPool (yh_peer h2)) !! k = Some e2 /\ yh_conns h2 !! k = Some t2 /\
    GetConnectionID (ce_conn e2) = GetConnectionID (ce_conn e1) /\
    forall c, ce_conn e2 = InConn c -> ct_out t2 ++ Inbound.unread c = ct_in t1.
Proof.
  intros Hruns Hu Hsd Hrd Hw Hknown Hj Hlen Hne. pose proof (two_peers _ _ _ _ _ _ _ _ _ _ _ _ Hruns) as (I1 & I2 & Harr).
  destruct (rest_handed _ _ _ _ _ _ _ _ _ _ _ _ _ _ _ _ _ _ _ _ Hruns Hu Hsd Hrd Hw Hknown Hj Hne)
    as (Hset & k & e2 & t2 & Hk & Ht2 & Hid & Hhand).
  exists k, e2, t2. split; [exact Hk|]. split; [exact Ht2|]. split; [exact Hid|]. intros c Ec.
  destruct (user_given (yh_pool h1) (yh_pool h2) I1 I2 Harr j k e1 e2 t1 t2 Hj Hk Ht2 Hid Hlen c Ec) as [_ Ho].
  apply Ho; [by eapply Hset|done].
Qed.

(** ** Two blocks, to the target, and one back *)

#[local] Existing Instance Tunnel.const_go.
#[local] Existing Instance ConnPool.const_go.

(** One tunnel at each end, the second reading what is on the first. *)
Lemma one_link {M1 M2} (h1 : yhist M1 (duplex stream sink)) (h2 : yhist M2 (duplex stream sink)) bs1 bs id1 id2 c1 c2 :
  yh_joined h1 = [link_reading bs1 id1 c1] -> yh_joined h2 = [link_reading bs id2 c2] ->
  (fun t => emitted (Conn t)) <$> tunnels (tunnelPool (yh_peer h1)) = [bs] ->
  (fun e => tn_cancelled (e_tunnel e)) <$> entries (tunnelPool (yh_peer h2)) = [false] -> fully_wired h1 h2.
Proof.
  intros J1 J2 E1 E2 i t0 t1. rewrite J1. intros Hi Ht. destruct i as [|i]; [|done]. injection Hi as <-.
  destruct (tunnels (tunnelPool (yh_peer h1))) as [|tn [|]]; [discriminate E1| |discriminate E1]. injection E1 as Eb.
  destruct (entries (tunnelPool (yh_peer h2))) as [|en [|]] eqn:Ee; [discriminate E2| |discriminate E2]. injection E2 as Ec.
  injection Ht as <-. right. exists 0%nat, (link_reading bs id2 c2), en, bs, None. rewrite J2.
  split; [done|]. split; [done|]. split; [exact Ec|]. split; [apply link_delivers|exact Eb].
Qed.

(** Two runs that end at rest, decided. *)
Section Quiet.
Context {M1 M2 : Type} `{Manager M1, ManagerRun M1, Manager M2, ManagerRun M2}.
Context (p1 : Peer M1 (duplex stream sink)) (p2 : Peer M2 (duplex stream sink)).

Definition quiet_end (bs : list byte) (h1 : yhist M1 (duplex stream sink)) (u1 : shist M1 (duplex stream sink))
    (h2 : yhist M2 (duplex stream sink)) (t1 : chist) : Prop :=
  quiet_sender u1 = true /\ pr_cancelled (sh_peer u1) = false /\
  Exists (fun e => tn_cancelled (e_tunnel e) = false) (entries (tunnelPool (sh_peer u1))) /\ dropped (sh_events u1) = [] /\
  quiet_receiver h2 = true /\ pr_cancelled (yh_peer h2) = false /\ NoDup (ids (conns (connectionPool (yh_peer h2)))) /\
  (fun t => emitted (Conn t)) <$> tunnels (tunnelPool (yh_peer h1)) = [bs] /\
  (fun e => tn_cancelled (e_tunnel e)) <$> entries (tunnelPool (yh_peer h2)) = [false] /\ length (ct_sent t1) <> 0%nat.

#[export] Instance quiet_end_dec bs h1 u1 h2 t1 : Decision (quiet_end bs h1 u1 h2 t1).
Proof. unfold quiet_end. apply _. Defined.

Definition quiet_exchanged tr1 tr2 bs
    : option (yhist M1 (duplex stream sink) * shist M1 (duplex stream sink) * yhist M2 (duplex stream sink) * centry * chist) :=
  match exchanged p1 p2 tr1 tr2 bs, run sh_step (sh_init p1) tr1 with
  | Some (h1, h2, e1, t1, _, _), Some u1 => if decide (quiet_end bs h1 u1 h2 t1) then Some (h1, u1, h2, e1, t1) else None
  | _, _ => None
  end.

Lemma quiet_exchanged_spec tr1 tr2 bs bs1 id1 id2 c1 c2 h1 u1 h2 e1 t1 :
  quiet_exchanged tr1 tr2 bs = Some (h1, u1, h2, e1, t1) -> Forall yl_ok tr1 -> Forall yl_ok tr2 ->
  concat (joining <$> tr1) = [link_reading bs1 id1 c1] -> concat (joining <$> tr2) = [link_reading bs id2 c2] ->
  (peers_run Tunnel.const_go ConnPool.const_go Tunnel.const_go ConnPool.const_go p1 p2 tr1 tr2 h1 h2 /\
   run sh_step (sh_init p1) tr1 = Some u1) /\
  (sender_done u1 /\ receiver_done h2 /\ fully_wired h1 h2) /\
  sole_sender (yh_pool h1) 0 e1 t1 /\ Z.of_nat (length (ct_sent t1)) < 2 ^ 32 - 1 /\ ct_sent t1 <> [].
Proof.
  unfold quiet_exchanged. intros E L1 L2 J1 J2. destruct (exchanged p1 p2 tr1 tr2 bs) as [[[[[[h1' h2'] e1'] t1'] e2'] t2']|] eqn:Ex; [|done].
  destruct (run sh_step (sh_init p1) tr1) as [u1'|] eqn:Eu; [|done]. case_decide as Hq; [|done]. injection E as <- <- <- <- <-.
  destruct Hq as (Q1 & Q2 & Q3 & Q4 & Q5 & Q6 & Q7 & Q8 & Q9 & Q10).
  destruct (exchanged_spec p1 p2 _ _ _ _ _ _ _ _ _ _ _ _ _ _ Ex L1 L2 J1 J2) as (R & Hj & Hl & _).
  destruct (quiet_receiver_rests _ Q5) as [Hr Hready]. split; [by split|]. split.
  - split; [constructor; [exact (quiet_sender_rests u1' Q1)|exact Q2|exact Q3|discriminate|exact Q4]|].
    split; [constructor; [exact Hr|exact Q6|exact Hready|split; discriminate|exact Q7]|]. destruct R as [R1 R2 _ _ _].
    pose proof (run_joined _ _ _ R1) as J1'. pose proof (run_joined _ _ _ R2) as J2'. rewrite J1 in J1'. rewrite J2 in J2'.
    exact (one_link h1' h2' bs1 bs id1 id2 c1 c2 J1' J2' Q8 Q9).
  - split; [exact Hj|]. split; [exact Hl|]. intros E. by rewrite E in Q10.
Qed.
End Quiet.

Definition link_bytes : list byte := encode block_0 ++ encode block_1.

Definition sending_side : list (peer_label (duplex stream sink)) :=
  [YTunnel (PAddTunnel (link_reading [] 5 true))] ++
  conn_steps [CDial 7 0 "t"; CInbound 0 (Inbound.OpWrite (fun _ => 1) [x01; x02; x03])] ++
  block_out ++ block_out ++ tunnel_steps [POut 0 ChooseDefault; POut 0 ChooseDefault].

Definition receiving_side : list (peer_label (duplex stream sink)) :=
  [YTunnel (PAddTunnel (link_reading link_bytes 6 false))] ++ block_in ++ block_in ++
  conn_steps [COrderedRelay 0 (LRecv block_0); COrderedRelay 0 (LSent block_0);
              COrderedRelay 0 (LRecv block_1); COrderedRelay 0 (LSent block_1);
              COutbound 0 (Outbound.OConnect 0); COutbound 0 (Outbound.ODialed 0 4 true);
              COutbound 0 (Outbound.OSend 0 5 None); COutbound 0 (Outbound.OSend 0 5 None)].

(** [System.server_exchange], until the server's relays rest. *)
Definition answering_side : list (peer_label (duplex stream sink)) :=
  server_exchange ++ tunnel_steps [POut 0 ChooseDefault; POut 0 ChooseDefault].

Lemma sending_labels : Forall yl_ok sending_side.
Proof. repeat (apply Forall_cons_2; [repeat split; try done|]). apply Forall_nil_2. Qed.

Lemma receiving_labels : Forall yl_ok receiving_side.
Proof. repeat (apply Forall_cons_2; [repeat split; try done|]). apply Forall_nil_2. Qed.

Lemma answering_labels : Forall yl_ok answering_side.
Proof. apply Forall_app. split; [exact server_labels|]. by repeat apply Forall_cons_2. Qed.

(** A connection with an open target, which has taken all from its queue. *)
Definition open_target (e : centry) : option Outbound.tcp :=
  match ce_conn e with
  | OutConn s =>
      match Outbound.HalfOpenConn (Outbound.os_conn s) with
      | Some t =>
          if decide (Outbound.tcp_closed t = false /\ Outbound.tcp_wclosed t = false /\ ch_buf (orderedRecvQueue (conn_base (ce_conn e))) = [])
          then Some t else None
      | None => None
      end
  | InConn _ => None
  end.

Lemma open_target_spec e t :
  open_target e = Some t ->
  exists s, ce_conn e = OutConn s /\ Outbound.HalfOpenConn (Outbound.os_conn s) = Some t /\ Outbound.tcp_closed t = false /\
    Outbound.tcp_wclosed t = false /\ ch_buf (orderedRecvQueue (conn_base (ce_conn e))) = [].
Proof.
  unfold open_target. destruct (ce_conn e) as [c|s] eqn:Ec; [done|].
  destruct (Outbound.HalfOpenConn (Outbound.os_conn s)) as [t'|] eqn:Et; [|done]. case_decide as Hd; [|done].
  intros [= ->]. exists s. split; [done|]. split; [done|exact Hd].
Qed.

Lemma nothing_lost_witness :
  exists t t2, Outbound.tcp_out t = [x01; x02; x03] /\ EndToEnd.delivered t2 = [x01; x02; x03].
Proof.
  destruct (run_succeeds (match quiet_exchanged client_peer server_peer sending_side receiving_side link_bytes with
    | Some (h1, u1, h2, e1, t1) =>
        if decide (ct_in t1 = [x01; x02; x03] /\ Forall (fun e => is_Some (open_target e)) (conns (connectionPool (yh_peer h2))) /\
          Forall (fun t => (Outbound.established (ct_calls t) <= 1)%nat) (yh_conns h2)) then Some (h1, u1, h2, e1, t1) else None
    | None => None
    end)) as [[[[[h1 u1] h2] e1] t1] E]; [vm_compute; reflexivity|].
  destruct (quiet_exchanged _ _ _ _ _) as [[[[[h1' u1'] h2'] e1'] t1']|] eqn:Ex; [|discriminate E].
  case_decide as Hd; [|discriminate E]. clear E. destruct Hd as (D1 & D2 & D3).
  destruct (quiet_exchanged_spec client_peer server_peer _ _ _ [] 5 6 true false _ _ _ _ _ Ex sending_labels receiving_labels eq_refl eq_refl)
    as ((R & Eu) & (Hsd & Hrd & Hw) & Hj & Hl & Hne).
  destruct (nothing_lost Tunnel.const_go ConnPool.const_go Tunnel.const_go ConnPool.const_go 77 77 1 ["a:1"%string] false
    (InitStats 10) (InitStats 10) sending_side receiving_side h1' u1' h2' 0 e1' t1' R Eu Hsd Hrd Hw Hj Hl Hne)
    as (k & e & t' & Hk & Ht & _ & Hd & Hout).
  destruct (proj1 (Forall_lookup _ _) D2 _ _ Hk) as [t Et].
  destruct (open_target_spec _ _ Et) as (s & Ec & Es & C1 & C2 & C3). exists t, t'. rewrite <-D1. split; [|exact Hd].
  exact (Hout s t Ec (proj1 (Forall_lookup _ _) D3 _ _ Ht) Es C1 C2 C3).
Defined.

Lemma no_answer_lost_witness :
  exists c t2, ct_out t2 ++ Inbound.unread c = [x0a; x0b].
Proof.
  destruct (run_succeeds (match quiet_exchanged server_peer client_peer answering_side client_exchange (encode answer) with
    | Some (h1, u1, h2, e1, t1) =>
        if decide (ct_in t1 = [x0a; x0b] /\ all_known (yh_init client_peer) client_exchange /\
          Forall (fun e => inbound (ce_conn e) = true) (conns (connectionPool (yh_peer h2)))) then Some (h1, u1, h2, e1, t1) else None
    | None => None
    end)) as [[[[[h1 u1] h2] e1] t1] E]; [vm_compute; reflexivity|].
  destruct (quiet_exchanged _ _ _ _ _) as [[[[[h1' u1'] h2'] e1'] t1']|] eqn:Ex; [|discriminate E].
  case_decide as Hd; [|discriminate E]. clear E. destruct Hd as (D1 & D2 & D3).
  destruct (quiet_exchanged_spec server_peer client_peer _ _ _ link_bytes 6 5 false true _ _ _ _ _ Ex answering_labels client_labels eq_refl eq_refl)
    as ((R & Eu) & (Hsd & Hrd & Hw) & Hj & Hl & Hne).
  destruct (no_answer_lost Tunnel.const_go ConnPool.const_go Tunnel.const_go ConnPool.const_go 77 77 1 ["a:1"%string] false
    (InitStats 10) (InitStats 10) answering_side client_exchange h1' u1' h2' 0 e1' t1' R Eu Hsd Hrd Hw D2 Hj Hl Hne)
    as (k & e & t' & Hk & _ & _ & Hout).
  assert (inbound (ce_conn e) = true) as Hi by (exact (proj1 (Forall_lookup _ _) D3 _ _ Hk)). destruct (ce_conn e) as [c|s] eqn:Ec; [|discriminate Hi].
  exists c, t'. rewrite <-D1. exact (Hout c eq_refl).
Defined.

(** ** Receiving: the two blocks of Receiving.v *)

Lemma accepting_execution {M C} `{TV : TunnelVars} `{CV : ConnVars} `{Manager M, ManagerRun M} `{Duplex C, !FiniteInput C}
    id (mgr : M) g (s : nat -> yhist M C) l n r :
  s 0%nat = yh_init (new_peer id mgr true g) -> execution yh_step s l -> l n = Some r -> peer_knows (s n) r.
Proof.
  intros H0' Hexec _.
  assert (acceptNewConnection (connectionPool (yh_peer (s n))) = true) as Ha.
  { eapply (execution_invariant yh_step (fun h => acceptNewConnection (connectionPool (yh_peer h)) = true));
      [|exact Hexec|apply Nat.le_0_l|by rewrite H0']. intros h l0 h' Hh Hs. by rewrite (accepts_step _ _ _ Hs). }
  by destruct (accepting_knows (s n) [r] Ha).
Qed.

(** The target's connection is handed the blocks 0 and 1, and no others. *)
Definition torn_shape {M C} (h : yhist M C) : bool :=
  match conns (connectionPool (yh_peer h)), yh_conns h with
  | [e], [t] => bool_decide (ct_handed t = [block_0; block_1]) && quiet_conn e
  | _, _ => false
  end.

Lemma torn_handed h :
  run yh_step (yh_init server_peer) torn_trace = Some h ->
  exists e t, conns (connectionPool (yh_peer h)) = [e] /\ yh_conns h = [t] /\ ct_handed t = [block_0; block_1] /\
    quiet_conn e = true.
Proof.
  intros E.
  assert (match run yh_step (yh_init server_peer) torn_trace with Some h => torn_shape h | None => false end = true) as Hh
    by (vm_compute; reflexivity).
  rewrite E in Hh. clear E. unfold torn_shape in Hh.
  destruct (conns (connectionPool (yh_peer h))) as [|e [|e' es]]; [discriminate Hh| |discriminate Hh].
  destruct (yh_conns h) as [|t [|t' ts]]; [discriminate Hh| |discriminate Hh].
  apply andb_prop in Hh as [Hh%bool_decide_eq_true_1 Hq]. by exists e, t.
Qed.

(** They are the first two of a stream. *)
Definition target_stream (i : Z) : Block :=
  if decide (i = 0) then block_0 else if decide (i = 1) then block_1 else newDataBlock 0 7 i [].

Lemma torn_stream : Forall (of_stream target_stream) [block_0; block_1].
Proof. repeat (apply Forall_cons_2; [by split|]). apply Forall_nil_2. Qed.

Lemma receiving_happens_witness :
  exists (s : nat -> yhist ServerManager (duplex stream sink)) l, execution yh_step s l /\ fair yh_step receive_move s l /\
    exists m e t, (15 <= m)%nat /\ receiver_rests (s m) /\ readers_have (s m) = 2%nat /\
      conns (connectionPool (yh_peer (s m))) = [e] /\ reader_has e t [block_0; block_1] /\ bytes_handed (s m).
Proof.
  destruct torn_end as (h & E & Hk & Hno & Hc & Hr). destruct (torn_environment h E Hk) as [Henv Hj].
  destruct (torn_handed h E) as (e & t & Hce & Hct & Hh & Hq).
  pose proof (traced_execution _ _ _ _ E) as Hexec. pose proof (traced_fair _ receive_move _ _ _ E Hno) as Hf.
  exists (traced yh_step (yh_init server_peer) torn_trace), (fun n => torn_trace !! n). split; [exact Hexec|]. split; [exact Hf|].
  assert (forall n, (15 <= n)%nat -> traced yh_step (yh_init server_peer) torn_trace n = h) as Hlate
    by (intros n Hn; apply traced_late; [exact E|exact Hn]).
  destruct (receiving_happens 77 NewServerManager true (InitStats 10) sent_blocks _ (fun n => torn_trace !! n) 15 eq_refl Hexec Hf
    (fun n r => traced_brings sent_blocks _ _ h n r E Henv Hj) (fun n => torn_running n h E Hc)) with (n := 15%nat)
    as (m & Hm & Hd & Hw & Hb).
  - intros n Hn. rewrite (Hlate n Hn), (Hlate 15%nat (le_n _)). reflexivity.
  - discriminate.
  - discriminate.
  - exists m, e, t. rewrite (Hlate m Hm) in Hd, Hw, Hb |- *. split; [exact Hm|]. split; [exact Hw|]. split; [exact Hr|].
    split; [exact Hce|]. destruct (quiet_conn_settled e Hq) as (_ & Hnb & Hno').
    destruct (Hd 0%nat e t) as [[_ Hd']|[Hd'|Hd']]; [by rewrite Hce|by rewrite Hct| |by destruct (Hnb Hd')|by destruct (Hno' Hd')].
    destruct (Hd' target_stream) as (n & Hn & Hhas & Hbelow & Hnot); [rewrite Hh; exact torn_stream|].
    rewrite Hh in Hbelow, Hnot. split.
    + assert (n = 2) as ->; [|exact Hhas].
      destruct (decide (n = 0)) as [->|]; [destruct Hnot; left|]. destruct (decide (n = 1)) as [->|]; [destruct Hnot; right; left|].
      destruct (decide (n = 2)) as [|]; [done|]. exfalso. specialize (Hbelow 2 ltac:(lia)).
      apply elem_of_cons in Hbelow as [?|[?|?%elem_of_nil]%elem_of_cons]; done.
    + apply Hb.
      * destruct Hw as [(k & blk & e' & _ & Hk' & [[_ Hb']|Ho])|Hall]; [..|exact Hall]; exfalso; rewrite Hce in Hk';
          (destruct k as [|k]; [injection Hk' as <-|discriminate Hk']); [by destruct (Hnb Hb')|by destruct (Hno' Ho)].
      * intros j r. exact (accepting_execution 77 NewServerManager (InitStats 10) _ _ j r eq_refl Hexec).
Defined.
