(* ===== verification/Process.v ===== *)
(** cmd/rabbit.go and client/client.go: the client process as a whole - the listener
    of [main], a relay for each application it lets in, the peer they share, and the
    signal that ends it.  Its steps are steps of its peer. *)

From S2P Require Import Prelude GoIO GoNet Text Block Stats Processor Connection Tunnel TunnelPool PoolManager ConnPool.
From S2P Require Import Delivery EndToEnd Sendable Wire Peer Socks5 Relay Client FrontEnd System Sending.
From S2P Require Inbound Outbound PeerGroup Server.

Local Open Scope Z_scope.

(** * The process *)

(** The branch of [main] on [mcfg.Listen]. *)
Inductive front_end : Type :=
  | Forward (dest : list byte)         (** [c.ServeForward(mcfg.Listen, mcfg.Dest)] *)
  | Socks5 (listen : list byte).       (** [c.ServeForwardSocks5(mcfg.Listen)] *)

Definition main_front (listen dest : list byte) : front_end :=
  if has_prefix listen (str "socks5://") then Socks5 listen else Forward dest.

(** Where [main] is: waiting at [<-quit], about to call [c.Cancel()], behind it,
    returned. *)
Inductive main_at : Type := MainServing | MainInterrupted | MainCancelled | MainEnded.

#[export] Instance main_at_eq_dec : EqDecision main_at.
Proof. solve_decision. Defined.

(** An application that is relayed: the connection it came on, its place in the
    connection pool, and the state of its [biRelay] but for the pool's connection. *)
Record app_state (A : Type) : Type := mkApp {
  ap_conn : A;
  ap_place : nat;
  ap_left : Outbound.tcp;
  ap_up : copy_pc;
  ap_down : copy_pc;
  ap_main : main_pc;
}.
Arguments mkApp {A} _ _ _ _ _ _.
Arguments ap_conn {A} _.
Arguments ap_place {A} _.
Arguments ap_left {A} _.
Arguments ap_up {A} _.
Arguments ap_down {A} _.
Arguments ap_main {A} _.

Definition start_app {A} (c : A) (place : nat) : app_state A := mkApp c place Outbound.new_tcp CopyRead CopyRead WgWait.

Definition app_relay {A} (a : app_state A) (c : Inbound.InboundConnection) : birelay :=
  mkBi (ap_left a) c (ap_up a) (ap_down a) (ap_main a).
Definition relayed {A} (s : birelay) (a : app_state A) : app_state A :=
  mkApp (ap_conn a) (ap_place a) (bi_left s) (bi_up s) (bi_down s) (bi_main s).

Record client_process (A C : Type) : Type := mkProc {
  kp_client : Client C;
  kp_at : front_at;
  kp_accepted : list A;
  kp_apps : list (app_state A);
  kp_main : main_at;
}.
Arguments mkProc {A C} _ _ _ _ _.
Arguments kp_client {A C} _.
Arguments kp_at {A C} _.
Arguments kp_accepted {A C} _.
Arguments kp_apps {A C} _.
Arguments kp_main {A C} _.

Inductive proc_label (A C : Type) : Type :=
  | KFront (l : front_label A)         (** the listener and the goroutines it starts *)
  | KApp (i : nat) (l : bi_label)      (** the relay of application [i] *)
  | KPeer (l : peer_label C)           (** any other goroutine of the peer *)
  | KSignal                            (** an interrupt *)
  | KCancel                            (** [c.Cancel()] *)
  | KExit.                             (** [statsCancel()], [logger.CloseSyslog()], return *)
Arguments KFront {A C} _.
Arguments KApp {A C} _ _.
Arguments KPeer {A C} _.
Arguments KSignal {A C}.
Arguments KCancel {A C}.
Arguments KExit {A C}.

Section Process.
Context (Parse : list byte -> result error URL).
Context `{TV : TunnelVars} `{CV : ConnVars} {A C : Type} `{Reader A, Writer A} `{Reader C, Writer C}.
Implicit Types (k : client_process A C) (fe : front_end).

Definition kp_peer k : Peer ClientManager C := cl_Peer (kp_client k).
Definition kp_pool k : ConnectionPool := connectionPool (kp_peer k).

Definition front_server fe : server (C := A) :=
  match fe with Forward dest => forward_server dest | Socks5 listen => socks5_server Parse listen end.

(** [main] up to [<-quit]: the listener is started on the client's peer. *)
Definition start_process fe (c : Client C) : client_process A C :=
  let f : front A :=
    match fe with
    | Forward _ => ServeForward (connectionPool (cl_Peer c))
    | Socks5 listen => ServeForwardSocks5 Parse listen (connectionPool (cl_Peer c))
    end in
  mkProc c (fr_at f) (fr_accepted f) [] MainServing.

Definition set_peer (p : Peer ClientManager C) k : client_process A C :=
  mkProc (mkClient p (cl_authkey (kp_client k))) (kp_at k) (kp_accepted k) (kp_apps k) (kp_main k).
Definition set_apps (apps : list (app_state A)) k : client_process A C :=
  mkProc (kp_client k) (kp_at k) (kp_accepted k) apps (kp_main k).
Definition set_main (m : main_at) k : client_process A C :=
  mkProc (kp_client k) (kp_at k) (kp_accepted k) (kp_apps k) m.

(** The listener's view. *)
Definition view_front k : front A :=
  mkFront (kp_at k) (kp_accepted k) ((fun a => (ap_conn a, ap_place a)) <$> kp_apps k) (kp_pool k).

(** The relay of application [i], with its connection of the pool. *)
Definition view_relay k (i : nat) : option (app_state A * centry * birelay) :=
  a ← kp_apps k !! i;
  e ← conns (kp_pool k) !! ap_place a;
  match ce_conn e with InConn c => Some (a, e, app_relay a c) | OutConn _ => None end.

(** A listener's step: who it serves from now on has a relay. *)
Definition front_part fe k (l : front_label A) : outcome (client_process A C) :=
  match l with
  | FPool _ => Blocks
  | _ =>
      f ← front_step (front_server fe) (view_front k) l;
      let started := (fun s => start_app s.1 s.2) <$> drop (length (kp_apps k)) (fr_served f) in
      Ret (mkProc (mkClient (with_conns (fr_pool f) (kp_peer k)) (cl_authkey (kp_client k)))
             (fr_at f) (fr_accepted f) (kp_apps k ++ started) (kp_main k))
  end.

(** What the relay does itself; the pool hands over blocks. *)
Definition relay_own (l : bi_label) : bool := match l with BRecvBlock _ | BDeliver _ => false | _ => true end.

Definition relay_part k (i : nat) (l : bi_label) : outcome (client_process A C) :=
  match view_relay k i with
  | Some (a, e, s) =>
      match (if relay_own l then bi_step s l else None) with
      | Some (bs, s') =>
          q ← send_all bs (cp_sendQueue (kp_pool k));
          let cs := <[ap_place a := set_conn (InConn (bi_right s')) e]> (conns (kp_pool k)) in
          Ret (set_apps (<[i := relayed s' a]> (kp_apps k))
                 (set_peer (with_conns (set_cp_sendQueue q (set_conns cs (kp_pool k))) (kp_peer k)) k))
      | None => Blocks
      end
  | None => Blocks
  end.

(** The goroutines that are neither the listener's nor a relay's. *)
Definition own_peer (l : peer_label C) : bool :=
  match l with YConn (CDial _ _ _) | YConn (CInbound _ _) | YStop => false | _ => true end.

Definition proc_step fe k (l : proc_label A C) : outcome (client_process A C) :=
  match kp_main k, l with
  | MainEnded, _ => Blocks
  | _, KFront l => front_part fe k l
  | _, KApp i l => relay_part k i l
  | _, KPeer l =>
      if own_peer l then '(_, p) ← peer_step (kp_peer k) l; Ret (set_peer p k) else Blocks
  | MainServing, KSignal => Ret (set_main MainInterrupted k)
  | MainInterrupted, KCancel => c ← Client_Cancel (kp_client k); Ret (set_main MainCancelled (set_peer (cl_Peer c) k))
  | MainCancelled, KExit => Ret (set_main MainEnded k)
  | _, _ => Blocks
  end.

(** * The same step as the peer sees it *)

(** The target of an application that is let in. *)
Definition dial_target fe (c : A) : option (list byte) :=
  match fe with
  | Forward dest => Some dest
  | Socks5 listen =>
      match parseSocks5URL Parse listen with
      | Err _ => None
      | Ok (_, username, password, requireAuth) =>
          match handleSocks5Client (if requireAuth : bool then Some (mkAuth username password) else None) c with
          | Ret (Ok target, _) => Some target
          | _ => None
          end
      end
  end.

Definition peer_part fe k (l : proc_label A C) : list (peer_label C) :=
  match l with
  | KFront (FServe i id now) =>
      match kp_accepted k !! i ≫= dial_target fe with
      | Some target => [YConn (CDial id now (String.string_of_list_byte target))]
      | None => []
      end
  | KFront _ => []
  | KApp i l =>
      match view_relay k i with
      | Some (a, _, s) => match right_call s l with Some op => [YConn (CInbound (ap_place a) op)] | None => [] end
      | None => []
      end
  | KPeer l => [l]
  | KCancel => [YStop]
  | KSignal | KExit => []
  end.

Definition note_read k (l : proc_label A C) k' (rs : list (list byte)) : list (list byte) :=
  match l with
  | KApp i l => match view_relay k i with Some (_, _, s) => alter (fun r => r ++ left_got s l) i rs | None => rs end
  | _ => rs ++ replicate (length (kp_apps k') - length (kp_apps k)) []
  end.

End Process.

(** * A step of the process is a step of its peer *)

Section Effects.
Context (Parse : list byte -> result error URL).
Context `{TV : TunnelVars} `{CV : ConnVars} {A C : Type} `{Reader A, Writer A} `{Reader C, Writer C}.
Implicit Types (k : client_process A C) (fe : front_end).

(** What a step does to the applications, and which step of the peer it is. *)
Inductive proc_effect fe k : proc_label A C -> client_process A C -> Prop :=
  | EffQuiet l k' :
      peer_part Parse fe k l = [] -> kp_peer k' = kp_peer k -> kp_apps k' = kp_apps k ->
      note_read k l k' = (fun rs => rs ++ []) -> proc_effect fe k l k'
  | EffPeer l pl evs k' :
      peer_part Parse fe k l = [pl] -> own_peer pl = true \/ pl = YStop -> peer_step (kp_peer k) pl = Ret (evs, kp_peer k') ->
      kp_apps k' = kp_apps k -> note_read k l k' = (fun rs => rs ++ []) -> proc_effect fe k l k'
  | EffServe i id now c target evs k' :
      kp_accepted k !! i = Some c -> dial_target Parse fe c = Some target ->
      peer_step (kp_peer k) (YConn (CDial id now (String.string_of_list_byte target))) = Ret (evs, kp_peer k') ->
      kp_apps k' = kp_apps k ++ [start_app c (length (conns (kp_pool k)))] -> proc_effect fe k (KFront (FServe i id now)) k'
  | EffRelayed i l a e c bs s' k' :
      kp_apps k !! i = Some a -> conns (kp_pool k) !! ap_place a = Some e -> ce_conn e = InConn c ->
      bi_step (app_relay a c) l = Some (bs, s') -> kp_apps k' = <[i := relayed s' a]> (kp_apps k) ->
      match right_call (app_relay a c) l with
      | Some op => exists evs, peer_step (kp_peer k) (YConn (CInbound (ap_place a) op)) = Ret (evs, kp_peer k')
      | None => kp_peer k' = kp_peer k
      end -> proc_effect fe k (KApp i l) k'.

Lemma with_conns_self (p : Peer ClientManager C) : linked p -> with_conns (connectionPool p) p = p.
Proof.
  intros [L1 L2 L3]. destruct p as [cp tp cancelled]. unfold with_conns. cbn in *. rewrite L1, L2, L3. by destruct tp.
Qed.

(** Serving an application is dialling the target it is let in with. *)
Lemma front_server_dials fe id now (c : A) cp s c' cp' :
  front_server Parse fe id now c cp = Ret (s, c', cp') ->
  match dial_target Parse fe c with
  | Some target => is_Some s /\ Dial id now (String.string_of_list_byte target) cp = Ret cp'
  | None => s = None /\ cp' = cp
  end.
Proof.
  assert (forall target r cp1, ServeForward_conn target id now cp = Ret (r, cp1) ->
    Dial id now (String.string_of_list_byte target) cp = Ret cp1) as Hd.
  { intros target r cp1. unfold ServeForward_conn, Client_Dial. destruct (Dial _ _ _ _) as [cp2| |]; [|done..].
    cbn [mbind outcome_bind]. destruct (ce_conn <$> _) as [[ic|]|]; [|done..]. by intros [= _ <-]. }
  destruct fe as [dest|listen]; cbn [front_server dial_target].
  - unfold forward_server. destruct (ServeForward_conn dest id now cp) as [[r cp1]| |] eqn:Es; [|done..].
    cbn [mbind outcome_bind]. intros [= <- _ <-]. split; [by eexists|by eapply Hd].
  - unfold socks5_server, ServeForwardSocks5_conn.
    destruct (parseSocks5URL Parse listen) as [[[[host user] pass] auth]|e]; [|by intros [= <- _ <-]].
    unfold handle_socks5. destruct (handleSocks5Client _ c) as [[r c1]| |]; [|done..]. cbn [mbind outcome_bind].
    destruct r as [target|e]; [|by intros [= <- _ <-]].
    destruct (ServeForward_conn target id now cp) as [[r cp1]| |] eqn:Es; [|done..]. cbn [mbind outcome_bind].
    intros [= <- _ <-]. split; [by eexists|by eapply Hd].
Qed.

Lemma drop_view k (l : list (A * nat)) :
  drop (length (kp_apps k)) (fr_served (view_front k) ++ l) = l.
Proof. cbn [view_front fr_served]. rewrite drop_app_length'; [done|]. by rewrite length_fmap. Qed.

Lemma front_part_effect fe k l k' :
  linked (kp_peer k) -> front_part Parse fe k l = Ret k' -> proc_effect fe k (KFront l) k'.
Proof.
  intros Hl. unfold front_part.
  assert (forall at' acc, fr_pool (view_front k) = kp_pool k ->
    mkProc (mkClient (with_conns (kp_pool k) (kp_peer k)) (cl_authkey (kp_client k))) at' acc
      (kp_apps k ++ ((fun s => start_app s.1 s.2) <$> drop (length (kp_apps k)) (fr_served (view_front k)))) (kp_main k) =
    mkProc (kp_client k) at' acc (kp_apps k) (kp_main k)) as Hq.
  { intros at' acc _. unfold kp_pool. rewrite with_conns_self by done.
    pose proof (drop_view k []) as Hd. rewrite app_nil_r in Hd. rewrite Hd. cbn. rewrite app_nil_r.
    unfold kp_peer. by destruct (kp_client k). }
  assert (forall at' acc, (forall i id now, l <> FServe i id now) ->
    proc_effect fe k (KFront l) (mkProc (kp_client k) at' acc (kp_apps k) (kp_main k))) as Hquiet.
  { intros at' acc Hn. apply EffQuiet; [by destruct l; [..|by destruct (Hn i id now)|]|done|done|].
    unfold note_read. cbn [kp_apps]. by rewrite Nat.sub_diag. }
  destruct l as [r|r|i id now|l]; [| | |done]; cbn [front_step].
  - destruct (fr_at (view_front k)); try done. cbn [mbind outcome_bind fr_pool fr_served fr_at fr_accepted].
    intros [= <-]. rewrite Hq by done. by apply Hquiet.
  - destruct (fr_at (view_front k)); try done. cbn [mbind outcome_bind fr_pool fr_served fr_at fr_accepted].
    intros [= <-]. rewrite Hq by done. by apply Hquiet.
  - cbn [view_front fr_accepted fr_pool]. destruct (kp_accepted k !! i) as [c|] eqn:Hc; [|done].
    destruct (front_server Parse fe id now c (kp_pool k)) as [[[s c'] cp']| |] eqn:Es; [|done..].
    apply front_server_dials in Es. destruct (dial_target Parse fe c) as [target|] eqn:Et.
    + destruct Es as [[s0 ->] Hd]. cbn [mbind outcome_bind fr_pool fr_served fr_at fr_accepted]. intros [= <-].
      pose proof (drop_view k [(c, length (conns (kp_pool k)))]) as Hdrop. cbn [view_front fr_served] in Hdrop. rewrite Hdrop.
      apply EffServe with c target []; [done|done| |done]. cbn [peer_step own_conn cp_step]. unfold kp_pool in Hd. by rewrite Hd.
    + destruct Es as [-> ->]. cbn [mbind outcome_bind fr_pool fr_served fr_at fr_accepted]. intros [= <-].
      rewrite Hq by done. apply EffQuiet; [|done|done|].
      * cbn [peer_part]. rewrite Hc. cbn. by rewrite Et.
      * unfold note_read. cbn [kp_apps]. by rewrite Nat.sub_diag.
Qed.

Lemma relay_part_effect fe k i l k' :
  linked (kp_peer k) -> relay_part k i l = Ret k' -> proc_effect fe k (KApp i l) k'.
Proof.
  intros Hl. unfold relay_part, view_relay. destruct (kp_apps k !! i) as [a|] eqn:Ha; [|done]. cbn [mbind option_bind].
  destruct (conns (kp_pool k) !! ap_place a) as [e|] eqn:He; [|done]. cbn [mbind option_bind].
  destruct (ce_conn e) as [c|] eqn:Hc; [|done]. destruct (relay_own l) eqn:Ho; [|done]. destruct (bi_step (app_relay a c) l) as [[bs s']|] eqn:Es; [|done].
  destruct (send_all bs _) as [q| |] eqn:Eq; [|done..]. cbn [mbind outcome_bind]. intros [= <-].
  eapply EffRelayed; [exact Ha|exact He|exact Hc|exact Es|done|]. pose proof (bi_step_call _ _ _ _ Es) as Hr.
  destruct (right_call (app_relay a c) l) as [op|] eqn:Ecall.
  - assert (user_call op = true) as Hu.
    { destruct l as [| | | | | |now|now|now| |]; cbn in Ecall; repeat case_match; simplify_eq/=; try done;
        match goal with |- user_call (right_op _ ?o) = _ => by destruct o end. }
    exists []. cbn [peer_step own_conn cp_step]. unfold kp_pool in *. rewrite He, Hc, Hu. cbn [app_relay bi_right] in Hr.
    rewrite Hr, Eq. done.
  - destruct Hr as [-> Hr]. cbn [app_relay bi_right] in Hr. injection Eq as <-. rewrite Hr.
    assert (set_conn (InConn c) e = e) as -> by (destruct e; cbn in *; by rewrite Hc).
    rewrite (list_insert_id _ _ _ He). unfold kp_peer. cbn.
    assert (set_cp_sendQueue (cp_sendQueue (kp_pool k)) (set_conns (conns (kp_pool k)) (kp_pool k)) = kp_pool k) as ->
      by (by destruct (kp_pool k)).
    by apply with_conns_self.
Qed.

Lemma proc_step_effect fe k l k' :
  linked (kp_peer k) -> proc_step Parse fe k l = Ret k' -> proc_effect fe k l k'.
Proof.
  intros Hl Hs.
  assert (kp_main k <> MainEnded) as Hne by (intros E; unfold proc_step in Hs; by rewrite E in Hs).
  assert (forall l', l = l' -> match l' with
    | KFront l => front_part Parse fe k l = Ret k'
    | KApp i l => relay_part k i l = Ret k'
    | KPeer pl => own_peer pl = true /\ exists evs p, peer_step (kp_peer k) pl = Ret (evs, p) /\ k' = set_peer p k
    | KCancel => exists c, Client_Cancel (kp_client k) = Ret c /\ k' = set_main MainCancelled (set_peer (cl_Peer c) k)
    | KSignal => k' = set_main MainInterrupted k
    | KExit => k' = set_main MainEnded k
    end) as Hcase.
  { intros l' <-. unfold proc_step in Hs. destruct (kp_main k), l; try done; try (by injection Hs as <-);
      try (destruct (own_peer l) eqn:Eo; [|done]; destruct (peer_step _ l) as [[evs p]| |]; [|done..];
           cbn in Hs; injection Hs as <-; split; [done|]; by exists evs, p);
      destruct (Client_Cancel _) as [c| |]; try done; cbn in Hs; injection Hs as <-; by exists c. }
  specialize (Hcase l eq_refl). destruct l as [l|i l|pl| | |].
  - by apply front_part_effect.
  - by apply relay_part_effect.
  - destruct Hcase as (Ho & evs & p & Hp & ->). eapply EffPeer; [done|by left|exact Hp|done|].
    unfold note_read. cbn [set_peer kp_apps]. by rewrite Nat.sub_diag.
  - subst k'. apply EffQuiet; [done..|]. unfold note_read. cbn [set_main kp_apps]. by rewrite Nat.sub_diag.
  - destruct Hcase as (c & Hc & ->). unfold Client_Cancel in Hc. destruct (Peer.Stop _) as [p| |] eqn:Ep; [|done..].
    cbn in Hc. injection Hc as <-. eapply (EffPeer _ _ _ YStop []); [done|by right| |done|].
    + cbn [peer_step]. unfold kp_peer. by rewrite Ep.
    + unfold note_read. cbn [set_main set_peer kp_apps]. by rewrite Nat.sub_diag.
  - subst k'. apply EffQuiet; [done..|]. unfold note_read. cbn [set_main kp_apps]. by rewrite Nat.sub_diag.
Qed.
End Effects.

(** * The end of a client *)

Section Ending.
Context (Parse : list byte -> result error URL).
Context `{TV : TunnelVars} `{CV : ConnVars} {A C : Type} `{Reader A, Writer A} `{Reader C, Writer C}.
Implicit Types (k : client_process A C) (fe : front_end).

Definition proc_run_step fe k (l : proc_label A C) : option (client_process A C) :=
  match proc_step Parse fe k l with Ret k => Some k | _ => None end.

Definition cancelled_at (m : main_at) : bool := match m with MainServing | MainInterrupted => false | _ => true end.

Record ending_inv k : Prop := {
  ei_linked : linked (kp_peer k);
  ei_queues : closed_queues (tunnelPool (kp_peer k)) =
    (cancelled_at (kp_main k), cancelled_at (kp_main k), cancelled_at (kp_main k));
}.

(** Who moves [main] on. *)
Lemma proc_step_main fe k l k' :
  proc_step Parse fe k l = Ret k' ->
  kp_main k' = match l with KSignal => MainInterrupted | KCancel => MainCancelled | KExit => MainEnded | _ => kp_main k end /\
  (l = KCancel -> kp_main k = MainInterrupted) /\ (l = KSignal -> kp_main k = MainServing) /\ (l = KExit -> kp_main k = MainCancelled) /\
  kp_main k <> MainEnded.
Proof.
  intros Hs. unfold proc_step in Hs.
  assert (forall i l, relay_part k i l = Ret k' -> kp_main k' = kp_main k) as Hr.
  { intros i l'. unfold relay_part. destruct (view_relay k i) as [[[a e] s]|]; [|done].
    destruct (if relay_own l' then _ else _) as [[bs s']|]; [|done]. destruct (send_all _ _); [|done..]. by intros [= <-]. }
  assert (forall l, front_part Parse fe k l = Ret k' -> kp_main k' = kp_main k) as Hf.
  { intros l'. unfold front_part. destruct l' as [r|r|i id now|]; [| | |done];
      (destruct (front_step _ _ _) as [f| |]; [|done..]); by intros [= <-]. }
  destruct (kp_main k) eqn:Em, l as [fl|i l|pl| | |]; try done;
    try (by rewrite (Hr _ _ Hs)); try (by rewrite (Hf _ Hs)); try (by injection Hs as <-);
    try (destruct (own_peer pl); [|done]; destruct (peer_step _ pl) as [[evs p]| |]; [|done..]; injection Hs as <-; by cbn; rewrite Em);
    destruct (Client_Cancel _); try done; by injection Hs as <-.
Qed.

Lemma ending_inv_step fe k l k' : ending_inv k -> proc_step Parse fe k l = Ret k' -> ending_inv k'.
Proof.
  intros [Hl Hq] Hs. destruct (proc_step_main _ _ _ _ Hs) as (Hm & M1 & M2 & M3 & M4).
  pose proof (proc_step_effect _ _ _ _ _ Hl Hs) as He.
  assert (forall pl evs, pl <> YStop -> l <> KSignal -> l <> KCancel -> l <> KExit ->
    peer_step (kp_peer k) pl = Ret (evs, kp_peer k') -> ending_inv k') as Hgo.
  { intros pl evs Hp N1 N2 N3 Hps. assert (kp_main k' = kp_main k) as Hm' by (by destruct l).
    constructor; [by eapply linked_step|]. by rewrite Hm', (peer_step_open _ _ _ _ Hp Hl Hps). }
  assert (kp_peer k' = kp_peer k -> l <> KCancel -> ending_inv k') as Hsame.
  { intros E N. constructor; rewrite E; [done|]. rewrite Hq, Hm. destruct l; try done; [by rewrite (M2 eq_refl)|by rewrite (M3 eq_refl)]. }
  destruct He as [l k' E1 E2 E3 _|l pl evs k' E1 Ho Hps _ _|i id now a target evs k' _ _ Hps _|i l a e c bs s' k' _ _ _ _ _ Hps].
  - apply Hsame; [done|]. by intros ->.
  - destruct l as [fl|i l|pl'| | |]; cbn [peer_part] in E1; try done.
    + destruct fl; try done. destruct (_ ≫= _); [|done]. injection E1 as <-. by destruct Ho.
    + destruct (view_relay k i) as [[[a e] s]|]; [|done]. destruct (right_call s l); [|done]. injection E1 as <-. by destruct Ho.
    + injection E1 as ->. eapply Hgo; [|done..|exact Hps]. intros ->. unfold proc_step in Hs. by destruct (kp_main k).
    + injection E1 as <-. specialize (M1 eq_refl). cbn [peer_step] in Hps. rewrite M1 in Hq.
      destruct (Stop_open _ Hq) as (p' & Ep & Hc). rewrite Ep in Hps. injection Hps as _ Ep'.
      constructor; [by eapply (linked_step _ YStop []); [exact Hl|cbn [peer_step]; rewrite Ep; cbn; by rewrite Ep']|].
      by rewrite Hm, <-Ep'.
  - eapply Hgo; [| | | |exact Hps]; done.
  - destruct (right_call _ l); [|by apply Hsame]. destruct Hps as [evs Hps]. eapply Hgo; [| | | |exact Hps]; done.
Qed.

Lemma ending_run_inv fe (c : Client C) tr k :
  linked (cl_Peer c) -> closed_queues (tunnelPool (cl_Peer c)) = (false, false, false) ->
  run (proc_run_step fe) (start_process Parse fe c) tr = Some k -> ending_inv k.
Proof.
  intros Hl Hq. apply (run_invariant (proc_run_step fe) (fun _ k => ending_inv k)); [by constructor|].
  intros _ k1 l k2 Hi. unfold proc_run_step. destruct (proc_step Parse fe k1 l) eqn:Es; [|done..]. intros [= <-]. by eapply ending_inv_step.
Qed.

(** The blocks a client still has to send. *)
Definition unsent k : list Block :=
  ch_buf (cp_sendQueue (kp_pool k)) ++ ch_buf (TunnelPool.sendQueue (tunnelPool (kp_peer k))) ++
  ch_buf (sendRetryQueue (tunnelPool (kp_peer k))).

Lemma Stop_unsent (p p' : Peer ClientManager C) :
  Peer.Stop p = Ret p' ->
  cp_sendQueue (connectionPool p') = cp_sendQueue (connectionPool p) /\
  ch_buf (TunnelPool.sendQueue (tunnelPool p')) = ch_buf (TunnelPool.sendQueue (tunnelPool p)) /\
  ch_buf (sendRetryQueue (tunnelPool p')) = ch_buf (sendRetryQueue (tunnelPool p)).
Proof.
  unfold Peer.Stop. destruct (TunnelPool.Close _) as [tp| |] eqn:Ec; [|done..]. cbn [mbind outcome_bind]. intros [= <-].
  destruct (Close_spec _ _ Ec) as [_ H5 H6 _ _]. cbn in *. by rewrite H5, H6.
Qed.
End Ending.

(** * The server process *)

(** [main] in server mode: a call of [Serve], in a goroutine of its own. *)
Record server_process (C : Type) : Type := mkServerProc { sp_serving : Server.serving C; sp_main : main_at }.
Arguments mkServerProc {C} _ _.
Arguments sp_serving {C} _.
Arguments sp_main {C} _.

Inductive server_label (C : Type) : Type :=
  | QServe (l : Server.serve_label C)
  | QSignal
  | QCancel        (** [s.Cancel()] *)
  | QExit.
Arguments QServe {C} _.
Arguments QSignal {C}.
Arguments QCancel {C}.
Arguments QExit {C}.

Section ServerMain.
Context `{TV : TunnelVars} `{CV : ConnVars} {C : Type} `{Reader C, Writer C}.
Implicit Types (pg : PeerGroup.PeerGroup C) (q : server_process C).

Definition start_server (addresses : list (list byte)) (s : Server.Server C) : server_process C :=
  mkServerProc (Server.Serve addresses s) MainServing.

Definition server_step q (l : server_label C) : outcome (server_process C) :=
  match sp_main q, l with
  | MainEnded, _ => Blocks
  | _, QServe Server.SCancel => Blocks
  | _, QServe l => v ← Server.serve_step (sp_serving q) l; Ret (mkServerProc v (sp_main q))
  | MainServing, QSignal => Ret (mkServerProc (sp_serving q) MainInterrupted)
  | MainInterrupted, QCancel => v ← Server.serve_step (sp_serving q) Server.SCancel; Ret (mkServerProc v MainCancelled)
  | MainCancelled, QExit => Ret (mkServerProc (sp_serving q) MainEnded)
  | _, _ => Blocks
  end.

Definition server_run_step q (l : server_label C) : option (server_process C) :=
  match server_step q l with Ret q => Some q | _ => None end.

Definition sp_group q : PeerGroup.PeerGroup C := Server.peerGroup (Server.sv_server (sp_serving q)).

(** A peer that can be stopped. *)
Definition stoppable (p : Peer ServerManager C) : Prop := linked p /\ closed_queues (tunnelPool p) = (false, false, false).

Lemma on_peer_open k l pg pg' :
  l <> YStop -> Forall stoppable (PeerGroup.pg_peers pg) -> PeerGroup.on_peer k l pg = Ret pg' -> Forall stoppable (PeerGroup.pg_peers pg').
Proof.
  intros Hl Hp. unfold PeerGroup.on_peer. destruct (PeerGroup.pg_peers pg !! k) as [p|] eqn:Ek; [|done].
  destruct (peer_step _ l) as [[evs p']| |] eqn:Es; [|done..]. cbn [mbind outcome_bind]. intros [= <-].
  destruct (Forall_lookup_1 _ _ _ _ Hp Ek) as [[L1 L2 L3] Ho]. apply Forall_insert; [done|].
  assert (linked (with_counts (PeerGroup.pg_stats pg) p)) as Hw by (by constructor).
  split; [by eapply linked_step|]. rewrite (peer_step_open _ _ _ _ Hl Hw Es). exact Ho.
Qed.

Lemma group_step_open pg l pg' :
  l <> PeerGroup.GStop -> Forall stoppable (PeerGroup.pg_peers pg) -> PeerGroup.group_step pg l = Ret pg' ->
  Forall stoppable (PeerGroup.pg_peers pg').
Proof.
  intros Hl Hp. destruct l as [r id|i|k l|i|]; cbn [PeerGroup.group_step]; [..|done].
  - intros [= <-]. destruct r as [c|e]; [|done]. cbn [PeerGroup.ServeThread_pass]. unfold PeerGroup.AddTunnelFromConn.
    destruct (NewPassiveTunnel c id) as [[e|] t]; [done|]. cbn [snd]. unfold PeerGroup.find_peer.
    destruct (PeerGroup.peerMapping pg !! _); [done|]. cbn [PeerGroup.pg_peers]. apply Forall_app. split; [done|].
    apply Forall_singleton. split; [apply linked_new|done].
  - unfold PeerGroup.attach. destruct (PeerGroup.pg_found pg !! i) as [[k t]|]; [|done]. by apply on_peer_open.
  - destruct (PeerGroup.own_peer l) eqn:Eo; [|done]. apply on_peer_open; [|done]. by intros ->.
  - unfold PeerGroup.RemovePeer. destruct (PeerGroup.pg_waiting pg !! i) as [[id k]|]; [|done].
    destruct (PeerGroup.pg_peers pg !! k) as [p|]; [|done]. destruct (pr_cancelled p); [|done]. by intros [= <-].
Qed.

(** Each of a list of peers can be stopped, one after the other. *)
Lemma stop_peers_total ks pg :
  NoDup ks -> Forall (fun k => exists p, PeerGroup.pg_peers pg !! k = Some p /\ stoppable p) ks ->
  exists pg', PeerGroup.stop_peers ks pg = Ret pg'.
Proof.
  intros Hn. revert pg. induction Hn as [|k ks Hk Hn IH]; intros pg; [by eexists|].
  intros [(p & Ep & [L1 L2 L3] & Ho) Hks]%Forall_cons. cbn [PeerGroup.stop_peers]. unfold PeerGroup.on_peer. rewrite Ep.
  destruct (Stop_open (with_counts (PeerGroup.pg_stats pg) p) Ho) as (p' & Es & _). cbn [peer_step]. rewrite Es.
  cbn [mbind outcome_bind]. apply IH. rewrite Forall_forall in Hks |- *. intros j Hj. destruct (Hks j Hj) as (pj & Ej & Hoj).
  exists pj. split; [|done]. cbn. rewrite list_lookup_insert_ne; [done|]. by intros ->.
Qed.

(** Two IDs are never registered for one peer. *)
Lemma registered_NoDup pg : PeerGroup.group_inv pg -> NoDup (PeerGroup.registered pg).
Proof.
  intros Hi. unfold PeerGroup.registered. apply NoDup_fmap_2_strong; [|apply NoDup_map_to_list].
  intros [id k] [id' k'] Hin Hin' E. cbn in E. subst k'. apply elem_of_map_to_list, (PeerGroup.gi_mapped _ Hi) in Hin, Hin'.
  destruct (PeerGroup.gi_ids _ Hi _ _ Hin) as (p & Hp & <-). destruct (PeerGroup.gi_ids _ Hi _ _ Hin') as (p' & Hp' & <-). congruence.
Qed.

Lemma Stop_total pg :
  PeerGroup.group_inv pg -> Forall stoppable (PeerGroup.pg_peers pg) -> exists pg', PeerGroup.Stop pg = Ret pg'.
Proof.
  intros Hi Hp. apply stop_peers_total; [by apply registered_NoDup|]. apply Forall_forall. intros k Hk.
  apply list_elem_of_fmap in Hk as ([id k'] & -> & Hin). apply elem_of_map_to_list, (PeerGroup.gi_mapped _ Hi) in Hin.
  destruct (PeerGroup.gi_ids _ Hi _ _ Hin) as (p & Hk & _). exists p. split; [exact Hk|]. by eapply Forall_lookup_1.
Qed.

(** A server in its run, seen from the call of [Serve]. *)
Record server_inv (addresses : list (list byte)) (s : Server.Server C) q : Prop := {
  vi_serving : exists tr, run Server.serve_run_step (Server.Serve addresses s) tr = Some (sp_serving q);
  vi_open : cancelled_at (sp_main q) = false -> Forall stoppable (PeerGroup.pg_peers (sp_group q));
}.

Lemma serve_step_open v l v' :
  l <> Server.SCancel -> Forall stoppable (PeerGroup.pg_peers (Server.peerGroup (Server.sv_server v))) ->
  Server.serve_step v l = Ret v' -> Forall stoppable (PeerGroup.pg_peers (Server.peerGroup (Server.sv_server v'))).
Proof.
  intros Hl Ho. destruct l as [i r|i r id| |l|]; cbn [Server.serve_step]; [..|done].
  - intros Hs. apply Server.listen_inv in Hs as (a & _ & -> & _). exact Ho.
  - destruct (Server.sv_threads v !! i) as [[|a|]|]; try done. intros [= <-].
    by apply (group_step_open (Server.peerGroup (Server.sv_server v)) (PeerGroup.GAccept r id)).
  - destruct (Server.sv_returned v); [done|]. case_decide; [|done]. by intros [= <-].
  - destruct (Server.own_group l) eqn:Eo; [|done]. destruct (PeerGroup.group_step _ l) as [pg| |] eqn:Es; [|done..].
    cbn [mbind outcome_bind]. intros [= <-]. eapply group_step_open; [|exact Ho|exact Es]. by intros ->.
Qed.

Lemma server_inv_step addresses s q l q' :
  server_inv addresses s q -> server_step q l = Ret q' -> server_inv addresses s q'.
Proof.
  intros [(tr & Ht) Ho] Hs.
  assert (forall sl v m, Server.serve_step (sp_serving q) sl = Ret v -> q' = mkServerProc v m ->
    (cancelled_at m = false -> sl <> Server.SCancel /\ cancelled_at (sp_main q) = false) -> server_inv addresses s q') as Hgo.
  { intros sl v m Hv -> Hm. constructor.
    - exists (tr ++ [sl]). rewrite run_app, Ht. cbn [run]. unfold Server.serve_run_step at 1. by rewrite Hv.
    - intros Hc. destruct (Hm Hc) as [N Hq]. by eapply serve_step_open; [exact N|exact (Ho Hq)|exact Hv]. }
  assert (forall m, q' = mkServerProc (sp_serving q) m -> cancelled_at m = cancelled_at (sp_main q) -> server_inv addresses s q') as Hsame.
  { intros m -> Hm. constructor; [by exists tr|]. cbn [sp_main]. rewrite Hm. exact Ho. }
  unfold server_step in Hs. destruct (sp_main q) eqn:Em, l as [sl| | |]; try done;
    try (by injection Hs as <-; eapply Hsame);
    try (destruct sl; try done; (destruct (Server.serve_step _ _) as [v| |] eqn:Ev; [|done..]); injection Hs as <-; by eapply Hgo);
    destruct (Server.serve_step _ _) as [v| |] eqn:Ev; try done; injection Hs as <-; by eapply Hgo.
Qed.
End ServerMain.

(** * Properties *)

(** C37: an interrupt ends a client, and what it has not sent is lost. However a
    client process runs, [main] can always go on from where it is - the signal, then
    [c.Cancel()], which closes the queues of its tunnels, each once, and does not panic,
    then the return -, without waiting for anything else; the blocks on their way to
    the tunnels when it is interrupted are still there when it has returned, and from
    then on nothing moves. *)
Theorem interrupt_ends {A C : Type} `{Reader A, Writer A} `{Reader C, Writer C} `{TV : TunnelVars} `{CV : ConnVars}
    (Parse : list byte -> result error URL) (fe : front_end) (id n : Z) (endpoints : list string) (retry : bool) (auth : list byte)
    (g : global_stats) (tr : list (proc_label A C)) (k : client_process A C) :
  run (proc_run_step Parse fe) (start_process Parse fe (mkClient (newClientPeerWithID id n endpoints retry g) auth)) tr = Some k ->
  (kp_main k = MainServing ->
   exists k', run (proc_run_step Parse fe) k [KSignal; KCancel; KExit] = Some k' /\ kp_main k' = MainEnded /\ unsent k' = unsent k) /\
  (kp_main k = MainInterrupted -> is_Some (proc_run_step Parse fe k KCancel)) /\
  (kp_main k = MainCancelled -> is_Some (proc_run_step Parse fe k KExit)) /\
  (kp_main k = MainEnded -> forall l, proc_step Parse fe k l = Blocks) /\
  closed_queues (tunnelPool (kp_peer k)) =
    (cancelled_at (kp_main k), cancelled_at (kp_main k), cancelled_at (kp_main k)).
Proof.
  intros Hrun. apply ending_run_inv in Hrun as [Hl Hq]; [|apply linked_new|done].
  assert (cancelled_at (kp_main k) = false -> exists p, Peer.Stop (kp_peer k) = Ret p) as Hstop.
  { intros E. rewrite E in Hq. destruct (Stop_open _ Hq) as (p & Hp & _). by exists p. }
  split; [|split; [|split; [|split; [|done]]]].
  - intros Em. destruct Hstop as [p Hp]; [by rewrite Em|].
    destruct (Stop_unsent _ _ Hp) as (E1 & E2 & E3).
    exists (set_main MainEnded (set_main MainCancelled (set_peer p (set_main MainInterrupted k)))).
    split; [|split; [done|by unfold unsent, kp_pool; cbn; rewrite E1, E2, E3]].
    cbn [run]. unfold proc_run_step. unfold proc_step at 1. rewrite Em. cbn [proc_step set_main kp_main kp_client].
    unfold Client_Cancel. unfold kp_peer in Hp. by rewrite Hp.
  - intros Em. destruct Hstop as [p Hp]; [by rewrite Em|]. unfold proc_run_step, proc_step. rewrite Em.
    unfold Client_Cancel. unfold kp_peer in Hp. rewrite Hp. by eexists.
  - intros Em. unfold proc_run_step, proc_step. rewrite Em. by eexists.
  - intros Em l. unfold proc_step. by rewrite Em.
Qed.

(** The same of a server: however it runs, an interrupt stops each of its registered
    peers, once, and the process ends; nothing but the signal ends it, not even that it
    could open none of its listeners. *)
Theorem interrupt_ends_server `{TV : TunnelVars} `{CV : ConnVars} {C : Type} `{Reader C, Writer C} (addresses : list (list byte))
    (auth key cert : list byte) (g : global_stats) (tr : list (server_label C)) (q : server_process C) :
  run server_run_step (start_server addresses (Server.NewServer auth key cert g)) tr = Some q ->
  (sp_main q = MainServing -> exists q', run server_run_step q [QSignal; QCancel; QExit] = Some q' /\ sp_main q' = MainEnded) /\
  (sp_main q = MainInterrupted -> is_Some (server_run_step q QCancel)) /\
  (sp_main q = MainEnded -> forall l, server_step q l = Blocks) /\
  (sp_main q = MainServing -> forall l q', server_step q (QServe l) = Ret q' -> sp_main q' = MainServing).
Proof.
  intros Hrun.
  assert (server_inv addresses (Server.NewServer auth key cert g) q) as [(str & Hs) Ho].
  { revert Hrun. apply (run_invariant server_run_step (fun _ q => server_inv addresses (Server.NewServer auth key cert g) q)).
    - constructor; [by exists []|]. intros _. unfold sp_group. cbn [start_server sp_serving]. unfold Server.Serve.
      destruct (Server.spawn_spec addresses (Server.mkServing (Server.NewServer (C := C) auth key cert g) [] 0 None)) as (_ & _ & _ & ->).
      apply Forall_nil_2.
    - intros _ q1 l q2 Hi. unfold server_run_step. destruct (server_step q1 l) eqn:Es; [|done..]. intros [= <-]. by eapply server_inv_step. }
  pose proof (Server.serve_run_inv _ _ _ _ Hs) as [_ _ _ Hg].
  assert (cancelled_at (sp_main q) = false -> exists v, Server.serve_step (sp_serving q) Server.SCancel = Ret v) as Hcancel.
  { intros Hc. destruct (Stop_total _ (PeerGroup.group_run_inv _ _ _ Hg) (Ho Hc)) as (pg & Hp).
    cbn [Server.serve_step]. unfold Server.Server_Cancel. rewrite Hp. by eexists. }
  split; [|split; [|split]].
  - intros Em. destruct Hcancel as [v Hv]; [by rewrite Em|]. exists (mkServerProc v MainEnded). split; [|done].
    cbn [run]. unfold server_run_step. unfold server_step at 1. rewrite Em. cbn [server_step sp_main sp_serving]. by rewrite Hv.
  - intros Em. destruct Hcancel as [v Hv]; [by rewrite Em|]. unfold server_run_step, server_step. rewrite Em, Hv. by eexists.
  - intros Em l. unfold server_step. by rewrite Em.
  - intros Em l q'. unfold server_step. rewrite Em. unfold mbind, outcome_bind.
    destruct l; try done; case_match; try done; by intros [= <-].
Qed.

(** ** An application that has sent three bytes: they are lost, and the request before
    them. *)

#[local] Existing Instance Tunnel.const_go.
#[local] Existing Instance ConnPool.const_go.

Definition no_url (_ : list byte) : result error URL := Err EOF.

Definition example_front : front_end := main_front (str "127.0.0.1:8080") (str "t").
Definition example_client : Client (duplex stream sink) := mkClient client_peer [].

Definition exchange_label : Type := proc_label (duplex stream sink) (duplex stream sink).

Definition app_start : list exchange_label :=
  [KPeer (YTunnel (PAddTunnel (link_reading (encode answer) 5 true))); KFront (FListen None);
   KFront (FAccept (Ok (client_says []))); KFront (FServe 0 7 0);
   KApp 0 (BLeftRead (Ok [x01; x02; x03])); KApp 0 BRightWrite; KApp 0 (BRightBlock 1); KApp 0 BRightWritten].

Lemma interrupt_ends_witness :
  exists k k', run (proc_run_step no_url example_front) (start_process no_url example_front example_client) app_start = Some k /\
    length (unsent k) = 2%nat /\ run (proc_run_step no_url example_front) k [KSignal; KCancel; KExit] = Some k' /\
    kp_main k' = MainEnded /\ unsent k' = unsent k.
Proof.
  destruct (run_succeeds (match run (proc_run_step no_url example_front) (start_process no_url example_front example_client) app_start with
    | Some k => if decide (length (unsent k) = 2%nat /\ kp_main k = MainServing) then Some k else None
    | None => None end)) as [k E']; [vm_compute; reflexivity|].
  destruct (run (proc_run_step no_url example_front) (start_process no_url example_front example_client) app_start) as [k0|] eqn:E;
    [|discriminate E'].
  case_decide as Hd; [|discriminate E']. destruct Hd as [Hn Es]. clear E'.
  destruct (proj1 (interrupt_ends no_url example_front 77 1 ["a:1"%string] false [] (InitStats 10) app_start k0 E) Es)
    as (k' & H1' & H2' & H3'). exists k0, k'.
  split; [reflexivity|]. split; [exact Hn|]. split; [exact H1'|]. split; [exact H2'|exact H3'].
Defined.

Lemma interrupt_ends_server_witness :
  exists (q q' : server_process (duplex stream sink)),
    run server_run_step (start_server [str "0.0.0.0:443"; str "0.0.0.0:80"] (Server.NewServer [] [] [] (InitStats 20)))
      (QServe <$> Server.example_serve) = Some q /\
    length (PeerGroup.pg_peers (sp_group q)) = 1%nat /\
    run server_run_step q [QSignal; QCancel; QExit] = Some q' /\ sp_main q' = MainEnded.
Proof.
  destruct (run_succeeds (match run server_run_step (start_server [str "0.0.0.0:443"; str "0.0.0.0:80"]
      (Server.NewServer [] [] [] (InitStats 20))) (QServe <$> Server.example_serve) with
    | Some q => if decide (length (PeerGroup.pg_peers (sp_group q)) = 1%nat /\ sp_main q = MainServing) then Some q else None
    | None => None end)) as [q E']; [vm_compute; reflexivity|].
  destruct (run server_run_step _ (QServe <$> Server.example_serve)) as [q0|] eqn:E; [|discriminate E'].
  case_decide as Hd; [|discriminate E']. destruct Hd as [Hl Em]. clear E'.
  destruct (proj1 (interrupt_ends_server [str "0.0.0.0:443"; str "0.0.0.0:80"] [] [] [] (InitStats 20)
    (QServe <$> Server.example_serve) q0 E) Em) as (q' & Hr & He).
  exists q0, q'. split; [reflexivity|]. split; [exact Hl|]. split; [exact Hr|exact He].
Defined.
