(* ===== verification/Applications.v ===== *)
(** The client process with its history: what each application has sent and been
    sent.  Joined by tunnels to a peer of a server, an application and the target it
    asked for are sent each other's bytes. *)

From S2P Require Import Prelude GoIO GoNet Text Block Stats Processor Connection Tunnel TunnelPool PoolManager ConnPool.
From S2P Require Import Delivery EndToEnd Sendable Wire Peer Socks5 Relay Client FrontEnd System Process.
From S2P Require Inbound Outbound.

Local Open Scope Z_scope.

(** * Runs with their history

    With the peer's history and its labels, and the bytes that were read from each
    application. *)
Section History.
Context (Parse : list byte -> result error URL).
Context `{TV : TunnelVars} `{CV : ConnVars} {A C : Type} `{Reader A, Writer A} `{Reader C, Writer C}.
Implicit Types (k : client_process A C) (fe : front_end).

Record khist : Type := mkKHist {
  kh_proc : client_process A C;
  kh_peer : yhist ClientManager C;
  kh_labels : list (peer_label C);
  kh_read : list (list byte);
}.

Definition proc_hstep fe (h : khist) (l : proc_label A C) : option khist :=
  match proc_step Parse fe (kh_proc h) l with
  | Ret k =>
      y ← run yh_step (kh_peer h) (peer_part Parse fe (kh_proc h) l);
      Some (mkKHist k y (kh_labels h ++ peer_part Parse fe (kh_proc h) l) (note_read (kh_proc h) l k (kh_read h)))
  | _ => None
  end.

Definition kh_init fe (c : Client C) : khist := mkKHist (start_process Parse fe c) (yh_init (cl_Peer c)) [] [].
End History.
Arguments khist : clear implicits.


(** * Connections keep their kind and their streams *)

Section Kept.
Context `{CV : ConnVars}.
Implicit Types (p : ConnectionPool).

(** No step changes whose connection an entry is. *)
Definition kept_kinds (cs cs' : list centry) : Prop :=
  forall k e, cs !! k = Some e -> exists e', cs' !! k = Some e' /\ inbound (ce_conn e') = inbound (ce_conn e).

Lemma kept_refl cs : kept_kinds cs cs.
Proof. intros k e Hk. by exists e. Qed.

Lemma kept_insert cs k e e' : cs !! k = Some e -> inbound (ce_conn e') = inbound (ce_conn e) -> kept_kinds cs (<[k := e']> cs).
Proof.
  intros Hk Hi j ej Hj. destruct (decide (k = j)) as [->|Hne].
  - rewrite list_lookup_insert_eq by (by apply lookup_lt_Some in Hk). exists e'. split; [done|]. congruence.
  - rewrite list_lookup_insert_ne by done. by exists ej.
Qed.

Lemma kept_app cs l : kept_kinds cs (cs ++ l).
Proof. intros k e Hk. exists e. by rewrite lookup_app_l by (by apply lookup_lt_Some in Hk). Qed.

Lemma kept_stop cs : kept_kinds cs (stop_conn <$> cs).
Proof. intros k e Hk. rewrite list_lookup_fmap, Hk. exists (stop_conn e). split; [done|]. apply set_conn_base_kind. Qed.

Lemma cp_step_kinds p l p' : cp_step p l = Ret p' -> kept_kinds (conns p) (conns p').
Proof.
  intros [He _]%cp_step_effect. destruct He as [_|k e e' Hk He|e _ _|_];
    [apply kept_refl| |apply kept_app|apply kept_stop].
  apply kept_insert with e; [done|].
  destruct He as [l e' _ _ _ Hi|blk c Hc|j l e' Hr]; [done|by apply RecvBlock_kind in Hc|by apply OrderedRelay_kind in Hr].
Qed.

(** What a connection has been written and read, over a step that is not its user's. *)
Lemma note_keeps p l ts k e t :
  conns p !! k = Some e -> inbound (ce_conn e) = true -> ts !! k = Some t -> (forall op, l <> CInbound k op) ->
  exists t', note p l ts !! k = Some t' /\ ct_in t' = ct_in t /\ ct_out t' = ct_out t /\ ct_sent t' = ct_sent t.
Proof.
  intros Hk Hi Ht Hl.
  assert (forall f j, (j = k -> ct_in (f t) = ct_in t /\ ct_out (f t) = ct_out t /\ ct_sent (f t) = ct_sent t) ->
    exists t', alter f j ts !! k = Some t' /\ ct_in t' = ct_in t /\ ct_out t' = ct_out t /\ ct_sent t' = ct_sent t) as Ha.
  { intros f j Hf. destruct (decide (j = k)) as [->|Hne].
    - exists (f t). rewrite list_lookup_alter_eq, Ht. split; [done|by apply Hf].
    - exists t. by rewrite list_lookup_alter_ne. }
  destruct l; cbn [note]; try (by exists t); try (by apply Ha).
  - apply Ha. intros E. apply lookup_lt_Some in Hk. lia.
  - destruct (cp_recv p); try (by exists t). by apply Ha.
  - destruct (ce_conn <$> conns p !! _) as [[c|s]|] eqn:Ec; try (by exists t). apply Ha. intros ->. by destruct (Hl op).
  - destruct (ce_conn <$> conns p !! _) as [[c|s]|] eqn:Ec; try (by exists t). apply Ha. intros ->.
    rewrite Hk in Ec. cbn in Ec. injection Ec as Ec. by rewrite Ec in Hi.
Qed.
End Kept.

Section PeerKept.
Context `{TV : TunnelVars} `{CV : ConnVars} {M C : Type} `{Manager M, ManagerRun M, Reader C, Writer C}.
Implicit Types (y : yhist M C).

Definition yh_entries y : list centry := conns (connectionPool (yh_peer y)).

(** Every connection has its history. *)
Definition recorded y : Prop := length (yh_conns y) = length (yh_entries y).

Lemma length_noted p l p' ts :
  cp_step p l = Ret p' -> length ts = length (conns p) -> length (noted p l p' ts) = length (conns p').
Proof.
  intros Hs Hl. apply conns_grow in Hs. unfold noted.
  assert (forall ts, length (note p l ts) = length ts) as ->
    by (intros ts'; destruct l; cbn [note]; repeat case_match; rewrite ?length_alter; done).
  rewrite length_app, length_replicate. lia.
Qed.

(** A step is one of the connection pool, or leaves the connections but for their
    contexts. *)
Lemma yh_step_conns y l y' :
  yh_step y l = Some y' ->
  match l with
  | YConn l =>
      exists p', cp_step (connectionPool (yh_peer y)) l = Ret p' /\ yh_entries y' = conns p' /\
        yh_conns y' = noted (connectionPool (yh_peer y)) l (connectionPool (yh_peer y')) (yh_conns y)
  | _ => yh_conns y' = yh_conns y /\ (yh_entries y' = yh_entries y \/ yh_entries y' = stop_conn <$> yh_entries y)
  end.
Proof.
  unfold yh_step, yh_entries. destruct l as [l|l|l|g|]; cbn [peer_step note_peer].
  - destruct (own_conn l); [|done]. destruct (cp_step _ l) as [p'| |] eqn:Es; [|done..]. intros [= <-]. by exists p'.
  - destruct (if own_tunnel l then _ else _) as [[evs tp]| |]; [|done..]. intros [= <-]. auto.
  - destruct (manager_step _ _) as [[mgr removed]|]; [|done]. intros [= <-]. destruct removed; auto.
  - intros [= <-]. auto.
  - unfold Stop. destruct (TunnelPool.Close _) as [tp| |]; [|done..]. intros [= <-]. auto.
Qed.

Lemma yh_step_recorded y l y' : yh_step y l = Some y' -> recorded y -> recorded y'.
Proof.
  intros Hs Hr. pose proof (yh_step_conns _ _ _ Hs) as Hc. unfold recorded, yh_entries in *. destruct l as [l|l|l|g|];
    try (destruct Hc as [-> [->| ->]]; by rewrite ?length_fmap).
  destruct Hc as (p' & Hp & E & ->). unfold noted. rewrite E. by apply (length_noted _ _ _ _ Hp).
Qed.

Lemma yh_step_keeps_kind y l y' k e :
  yh_step y l = Some y' -> yh_entries y !! k = Some e ->
  exists e', yh_entries y' !! k = Some e' /\ inbound (ce_conn e') = inbound (ce_conn e).
Proof.
  intros Hs Hk. pose proof (yh_step_conns _ _ _ Hs) as Hc. destruct l as [l|l|l|g|].
  2-5: destruct Hc as [_ [->| ->]]; [by exists e|by apply kept_stop].
  destruct Hc as (p' & Hp & -> & _). by eapply cp_step_kinds.
Qed.

Lemma yh_step_keeps y l y' k e t :
  yh_step y l = Some y' -> recorded y -> yh_entries y !! k = Some e -> inbound (ce_conn e) = true ->
  yh_conns y !! k = Some t -> (forall op, l <> YConn (CInbound k op)) ->
  exists e' t', yh_entries y' !! k = Some e' /\ inbound (ce_conn e') = true /\ yh_conns y' !! k = Some t' /\
    ct_in t' = ct_in t /\ ct_out t' = ct_out t /\ ct_sent t' = ct_sent t.
Proof.
  intros Hs Hr Hk Hi Ht Hl. pose proof (yh_step_conns _ _ _ Hs) as Hc. destruct l as [l|l|l|g|].
  2-5: destruct Hc as [-> [->| ->]]; [by exists e, t|]; exists (stop_conn e), t; rewrite list_lookup_fmap, Hk;
    (split; [done|]); split; [|done]; cbn; unfold stopped_conn; by rewrite set_conn_base_kind.
  destruct Hc as (p' & Hp & E & ->). rewrite E. pose proof (cp_step_kinds _ _ _ Hp _ _ Hk) as (e' & He' & Hi').
  unfold noted. rewrite <-Hi' in Hi. exists e'.
  destruct (note_keeps (connectionPool (yh_peer y)) l
    (yh_conns y ++ replicate (length (conns (connectionPool (yh_peer y'))) - length (conns (connectionPool (yh_peer y)))) no_hist)
    k e t) as (t' & Hn & E1 & E2 & E3).
  - exact Hk.
  - congruence.
  - rewrite lookup_app_l; [done|]. by eapply lookup_lt_Some.
  - intros op ->. by apply (Hl op).
  - by exists t'.
Qed.

(** A new connection, with nothing written or read. *)
Lemma yh_step_dial y id now a y' :
  yh_step y (YConn (CDial id now a)) = Some y' -> recorded y ->
  exists e t, yh_entries y' !! length (yh_entries y) = Some e /\ inbound (ce_conn e) = true /\
    yh_conns y' !! length (yh_entries y) = Some t /\ ct_in t = [] /\ ct_out t = [] /\
    (forall b, b ∈ ct_sent t -> BlockData b = String.list_byte_of_string a).
Proof.
  intros Hs Hr. destruct (yh_step_conns _ _ _ Hs) as (p' & Hp & E & ->). cbn [cp_step] in Hp.
  apply Dial_effect in Hp as (e & _ & Ec & _ & _ & Hi). rewrite E, Ec. unfold yh_entries in *.
  exists e. eexists. rewrite list_lookup_middle by done. split; [done|]. split; [done|].
  unfold noted. unfold yh_entries in E. rewrite E, Ec, length_app, Nat.add_comm, Nat.add_sub. cbn [length replicate note].
  rewrite list_lookup_alter_eq, lookup_app_r by (by rewrite Hr). unfold recorded in Hr. rewrite Hr. unfold yh_entries. rewrite Nat.sub_diag.
  cbn [lookup list_lookup fmap option_fmap option_map]. do 3 (split; [done|]).
  cbn [add_sent no_hist ct_sent]. unfold SendConnect, packConnect. destruct (take_sendBlockID _) as [n x].
  cbn [fst]. by intros b ->%list_elem_of_singleton.
Qed.

(** A call of the user. *)
Lemma yh_step_user y k op y' c e t :
  yh_step y (YConn (CInbound k op)) = Some y' -> yh_entries y !! k = Some e -> ce_conn e = InConn c -> yh_conns y !! k = Some t ->
  yh_conns y' !! k = Some (add_user c op t).
Proof.
  intros Hs Hk Hc Ht. destruct (yh_step_conns _ _ _ Hs) as (p' & Hp & E & ->).
  unfold yh_entries in *. unfold noted. cbn [note]. rewrite Hk. cbn [fmap option_fmap option_map]. rewrite Hc.
  rewrite list_lookup_alter_eq, lookup_app_l by (by eapply lookup_lt_Some). by rewrite Ht.
Qed.
End PeerKept.

(** * The invariant of a process *)

Section Invariant.
Context (Parse : list byte -> result error URL).
Context `{TV : TunnelVars} `{CV : ConnVars} {A C : Type} `{Reader A, Writer A} `{Reader C, Writer C}.
Implicit Types (k : client_process A C) (fe : front_end) (h : khist A C).

(** It has asked for the target the application was let in with; what was read from
    the application is on its way up, what its connection gave on its way down. *)
Record app_copies fe (a : app_state A) (read : list byte) (t : chist) : Prop := {
  ac_asks : Forall (fun b => Type_ b = TypeConnect -> dial_target Parse fe (ap_conn a) = Some (BlockData b)) (ct_sent t);
  ac_up : copied (ap_up a) read (ct_in t);
  ac_down : copied (ap_down a) (ct_out t) (Outbound.tcp_out (ap_left a));
}.

(** The connection of an application, with its history. *)
Definition app_conn fe (y : yhist ClientManager C) (a : app_state A) (read : list byte) : Prop :=
  exists e t, yh_entries y !! ap_place a = Some e /\ inbound (ce_conn e) = true /\
    yh_conns y !! ap_place a = Some t /\ app_copies fe a read t.

Record kh_inv fe (c : Client C) h : Prop := {
  ki_run : run yh_step (yh_init (cl_Peer c)) (kh_labels h) = Some (kh_peer h);
  ki_peer : yh_peer (kh_peer h) = kp_peer (kh_proc h);
  ki_linked : linked (kp_peer (kh_proc h));
  ki_recorded : recorded (kh_peer h);
  ki_apps : Forall2 (app_conn fe (kh_peer h)) (kp_apps (kh_proc h)) (kh_read h);
  ki_places : NoDup (ap_place <$> kp_apps (kh_proc h));
}.

Lemma kh_inv_init fe (c : Client C) :
  linked (cl_Peer c) -> conns (connectionPool (cl_Peer c)) = [] -> kh_inv fe c (kh_init Parse fe c).
Proof.
  intros Hl Hc. constructor; try done; try constructor. unfold recorded, yh_entries. cbn. by rewrite Hc.
Qed.

Lemma yh_step_peer (y : yhist ClientManager C) pl evs p :
  peer_step (yh_peer y) pl = Ret (evs, p) -> exists y', yh_step y pl = Some y' /\ yh_peer y' = p.
Proof. intros Hs. unfold yh_step. rewrite Hs. by eexists. Qed.

(** A step of the peer that is not of the application's user. *)
Lemma app_conn_keeps fe (y : yhist ClientManager C) pl y' a r :
  yh_step y pl = Some y' -> recorded y -> (forall op, pl <> YConn (CInbound (ap_place a) op)) ->
  app_conn fe y a r -> app_conn fe y' a r.
Proof.
  intros Hs Hr Hn (e & t & He & Hi & Ht & [Hq Hu Hd]).
  destruct (yh_step_keeps _ _ _ _ _ _ Hs Hr He Hi Ht Hn) as (e' & t' & He' & Hi' & Ht' & E1 & E2 & E3).
  exists e', t'. split_and!; try done. constructor; congruence.
Qed.

(** The labels are those of the peer's steps. *)
Lemma kh_extend fe (c : Client C) h pls y :
  kh_inv fe c h -> run yh_step (kh_peer h) pls = Some y -> run yh_step (yh_init (cl_Peer c)) (kh_labels h ++ pls) = Some y.
Proof. intros [Hr _ _ _ _ _] Hs. by rewrite run_app, Hr. Qed.

Lemma apps_keep fe (y : yhist ClientManager C) pl y' apps rs :
  yh_step y pl = Some y' -> recorded y -> own_peer pl = true \/ pl = YStop ->
  Forall2 (app_conn fe y) apps rs -> Forall2 (app_conn fe y') apps rs.
Proof.
  intros Hs Hr Ho Hf. eapply Forall2_impl; [exact Hf|]. intros a r. apply (app_conn_keeps _ _ _ _ _ _ Hs Hr).
  intros op ->. by destruct Ho.
Qed.

(** The place of a connection that is still to be made. *)
Lemma place_bound fe (y : yhist ClientManager C) a r : app_conn fe y a r -> (ap_place a < length (yh_entries y))%nat.
Proof. intros (e & t & He & _). by eapply lookup_lt_Some. Qed.

Lemma apps_new fe (y : yhist ClientManager C) id now target y' apps rs (c : A) :
  yh_step y (YConn (CDial id now (String.string_of_list_byte target))) = Some y' -> dial_target Parse fe c = Some target -> recorded y -> NoDup (ap_place <$> apps) ->
  Forall2 (app_conn fe y) apps rs ->
  Forall2 (app_conn fe y') (apps ++ [start_app c (length (yh_entries y))]) (rs ++ [[]]) /\
  NoDup (ap_place <$> (apps ++ [start_app c (length (yh_entries y))])).
Proof.
  intros Hs Ht0 Hr Hn Hf. split.
  - apply Forall2_app.
    + eapply Forall2_impl; [exact Hf|]. intros a r. by apply (app_conn_keeps _ _ _ _ _ _ Hs Hr).
    + apply Forall2_cons_2; [|apply Forall2_nil_2]. destruct (yh_step_dial _ _ _ _ _ Hs Hr) as (e & t & He & Hi & Ht & E1 & E2 & E3).
      exists e, t. do 3 (split; [done|]). constructor; cbn; [|congruence..]. apply Forall_forall. intros b Hb _.
      by rewrite (E3 b Hb), String.list_byte_of_string_of_list_byte.
  - rewrite fmap_app. apply NoDup_app. split; [done|]. split; [|apply NoDup_singleton].
    intros p Hp Hp'. apply list_elem_of_singleton in Hp'. cbn in Hp'. subst p.
    apply list_elem_of_fmap in Hp as (a & Ha & Hin). apply list_elem_of_lookup in Hin as [i Hi].
    destruct (Forall2_lookup_l _ _ _ _ _ Hf Hi) as (r & _ & Hb%place_bound). lia.
Qed.

(** A step of a relay. *)
Lemma apps_relay fe (y y' : yhist ClientManager C) apps rs i a e c l bs s' :
  recorded y -> NoDup (ap_place <$> apps) -> Forall2 (app_conn fe y) apps rs ->
  apps !! i = Some a -> yh_entries y !! ap_place a = Some e -> ce_conn e = InConn c ->
  bi_step (app_relay a c) l = Some (bs, s') ->
  match right_call (app_relay a c) l with
  | Some op => yh_step y (YConn (CInbound (ap_place a) op)) = Some y'
  | None => y' = y
  end ->
  Forall2 (app_conn fe y') (<[i := relayed s' a]> apps) (alter (fun r => r ++ left_got (app_relay a c) l) i rs).
Proof.
  intros Hr Hn Hf Ha He Hc Hb Hs. destruct (Forall2_lookup_l _ _ _ _ _ Hf Ha) as (r & Hri & (e0 & t & He0 & Hi & Ht & [Hq Hu Hd])).
  apply Forall2_same_length_lookup. split.
  { rewrite length_insert, length_alter. by eapply Forall2_length. }
  intros j aj rj. destruct (decide (i = j)) as [<-|Hne].
  - rewrite list_lookup_insert_eq by (by eapply lookup_lt_Some). rewrite list_lookup_alter_eq, Hri. intros [= <-] [= <-].
    assert (copies (app_relay a c) r (ct_in t) (ct_out t)) as Hcp by (by constructor).
    apply (copies_step _ _ _ _ _ _ _ Hb) in Hcp as [C1 C2]. unfold right_took, right_gave in *.
    destruct (right_call (app_relay a c) l) as [op|] eqn:Eop.
    + destruct (yh_step_keeps_kind y _ y' _ _ Hs He) as (e' & He' & Hi').
      exists e', (add_user c op t). cbn [relayed ap_place]. split; [done|]. split; [congruence|].
      split; [exact (yh_step_user _ _ _ _ _ _ _ Hs He Hc Ht)|]. constructor; [|exact C1|exact C2]. cbn [add_user ct_sent relayed ap_conn]. apply Forall_app. split; [exact Hq|].
      pose proof (bi_step_call _ _ _ _ Hb) as Hcall. rewrite Eop in Hcall. cbn [app_relay bi_right] in Hcall. rewrite Hcall.
      cbn [from_option fst]. eapply Forall_impl; [by eapply ic_step_no_connect|]. by intros b Hb' ?.
    + subst y'. cbn [from_option] in C1. rewrite !app_nil_r in *. exists e, t. cbn [relayed ap_place].
      split_and!; [done|congruence|done|]. constructor; cbn; [exact Hq|exact C1|exact C2].
  - rewrite list_lookup_insert_ne, list_lookup_alter_ne by done. intros Haj Hrj.
    pose proof (Forall2_lookup_lr _ _ _ _ _ _ Hf Haj Hrj) as Hj.
    destruct (right_call (app_relay a c) l) as [op|]; [|by subst y'].
    apply (app_conn_keeps _ _ _ _ _ _ Hs Hr); [|exact Hj]. intros op' [= Hp _]. apply Hne.
    eapply NoDup_lookup; [exact Hn|..]; rewrite list_lookup_fmap; [by rewrite Ha|rewrite Haj; cbn; by rewrite Hp].
Qed.
End Invariant.

Section Runs.
Context (Parse : list byte -> result error URL).
Context `{TV : TunnelVars} `{CV : ConnVars} {A C : Type} `{Reader A, Writer A} `{Reader C, Writer C}.
Implicit Types (k : client_process A C) (fe : front_end) (h : khist A C) (c : Client C).

(** Nothing is added to the peer's history but the peer's steps, and no step of the
    process is lost for it. *)
Lemma proc_hstep_total fe c h l k :
  kh_inv Parse fe c h -> proc_step Parse fe (kh_proc h) l = Ret k ->
  exists h', proc_hstep Parse fe h l = Some h' /\ kh_proc h' = k.
Proof.
  intros Hi Hs. pose proof (proc_step_effect _ _ _ _ _ (ki_linked _ _ _ _ Hi) Hs) as He. unfold proc_hstep. rewrite Hs.
  assert (forall pls, peer_part Parse fe (kh_proc h) l = pls ->
    pls = [] \/ (exists pl evs p, pls = [pl] /\ peer_step (kp_peer (kh_proc h)) pl = Ret (evs, p)) ->
    exists y, run yh_step (kh_peer h) (peer_part Parse fe (kh_proc h) l) = Some y) as Hrun.
  { intros pls -> [->|(pl & evs & p & -> & Hp)]; [by eexists|].
    rewrite <-(ki_peer _ _ _ _ Hi) in Hp. apply yh_step_peer in Hp as (y & Hy & _). exists y. cbn [run]. by rewrite Hy. }
  destruct (Hrun _ eq_refl) as [y ->]; [|by eexists].
  destruct He as [l k' -> _ _ _|l pl evs k' -> _ Hp _ _|i id now a target evs k' Ha Ht Hp _|i l a e ci bs s' k' Ha He Hc Hb _ Hp];
    [by left|right; by eauto 6|..]; cbn [peer_part].
  - rewrite Ha. cbn [mbind option_bind]. rewrite Ht. right. by eauto 6.
  - unfold view_relay. rewrite Ha. cbn [mbind option_bind]. rewrite He. cbn [mbind option_bind]. rewrite Hc.
    destruct (right_call _ l); [|by left]. destruct Hp as [evs Hp]. right. by eauto 6.
Qed.

Lemma kh_inv_step fe c h l h' : kh_inv Parse fe c h -> proc_hstep Parse fe h l = Some h' -> kh_inv Parse fe c h'.
Proof.
  intros Hi. unfold proc_hstep. destruct (proc_step Parse fe (kh_proc h) l) as [k| |] eqn:Hs; [|done..].
  destruct (run yh_step (kh_peer h) _) as [y|] eqn:Hrun; [|done]. cbn [mbind option_bind]. intros [= <-].
  pose proof (kh_extend _ _ _ _ _ _ Hi Hrun) as Hext. pose proof Hi as [_ Hp Hl Hr Ha Hn].
  assert (forall pl evs p, run yh_step (kh_peer h) [pl] = Some y -> peer_step (kp_peer (kh_proc h)) pl = Ret (evs, p) ->
    yh_step (kh_peer h) pl = Some y /\ yh_peer y = p /\ linked p /\ recorded y) as Hone.
  { intros pl evs p Hy Hps. cbn [run] in Hy. destruct (yh_step (kh_peer h) pl) as [y1|] eqn:Ey; [|done]. injection Hy as <-.
    split; [done|]. pose proof Hps as Hps'. rewrite <-Hp in Hps'. apply yh_step_peer in Hps' as (y2 & Ey2 & <-).
    rewrite Ey in Ey2. injection Ey2 as <-. split; [done|]. split; [by eapply linked_step|by eapply yh_step_recorded]. }
  pose proof (proc_step_effect _ _ _ _ _ Hl Hs) as He.
  destruct He as [l k E1 E2 E3 E4|l pl evs k E1 Ho Hps E3 E4|i id now a target evs k Hacc Ht Hps E3|i l a e ci bs s' k Hai He Hc Hb E3 Hps].
  - rewrite E1 in *. injection Hrun as <-. constructor; cbn [kh_labels kh_peer kh_proc kh_read]; rewrite ?E2, ?E3, ?E4, ?app_nil_r; try done.
    by rewrite app_nil_r in Hext.
  - rewrite E1 in *. destruct (Hone _ _ _ Hrun Hps) as (Hy & Hpy & Hly & Hry).
    constructor; cbn [kh_labels kh_peer kh_proc kh_read]; rewrite ?E3, ?E4, ?app_nil_r; try done. by eapply apps_keep.
  - cbn [peer_part] in *. rewrite Hacc in *. cbn [mbind option_bind] in *. rewrite Ht in *.
    destruct (Hone _ _ _ Hrun Hps) as (Hy & Hpy & Hly & Hry).
    assert (note_read (kh_proc h) (KFront (FServe i id now)) k (kh_read h) = kh_read h ++ [[]]) as ->
      by (unfold note_read; rewrite E3, length_app, Nat.add_comm; cbn [length]; by rewrite Nat.add_sub).
    pose proof (apps_new _ _ _ _ _ _ _ _ _ a Hy Ht Hr Hn Ha) as [Ha' Hn'].
    assert (yh_entries (kh_peer h) = conns (kp_pool (kh_proc h))) as Ee by (unfold yh_entries, kp_pool; by rewrite Hp).
    rewrite Ee in Ha', Hn'. constructor; cbn [kh_labels kh_peer kh_proc kh_read]; rewrite ?E3; done.
  - cbn [peer_part note_read] in *. unfold view_relay in *. rewrite Hai in *. cbn [mbind option_bind] in *. rewrite He in *.
    cbn [mbind option_bind] in *. rewrite Hc in *.
    assert (yh_entries (kh_peer h) !! ap_place a = Some e) as Hee by (unfold yh_entries; rewrite Hp; exact He).
    assert (ap_place <$> <[i := relayed s' a]> (kp_apps (kh_proc h)) = ap_place <$> kp_apps (kh_proc h)) as Eplaces.
    { rewrite list_fmap_insert. apply list_insert_id. by rewrite list_lookup_fmap, Hai. }
    destruct (right_call (app_relay a ci) l) as [op|] eqn:Ecall.
    + destruct Hps as [evs Hps]. destruct (Hone _ _ _ Hrun Hps) as (Hy & Hpy & Hly & Hry).
      constructor; cbn [kh_labels kh_peer kh_proc kh_read]; rewrite ?E3, ?Eplaces; try done.
      eapply apps_relay; [exact Hr|exact Hn|exact Ha|exact Hai|exact Hee|exact Hc|exact Hb|]. by rewrite Ecall.
    + injection Hrun as <-. constructor; cbn [kh_labels kh_peer kh_proc kh_read]; rewrite ?E3, ?Eplaces, ?Hps; try done.
      eapply apps_relay; [exact Hr|exact Hn|exact Ha|exact Hai|exact Hee|exact Hc|exact Hb|]. by rewrite Ecall.
Qed.

Lemma kh_run_inv fe c tr h :
  linked (cl_Peer c) -> conns (connectionPool (cl_Peer c)) = [] -> run (proc_hstep Parse fe) (kh_init Parse fe c) tr = Some h -> kh_inv Parse fe c h.
Proof.
  intros Hl Hc. apply (run_invariant (proc_hstep Parse fe) (fun _ h => kh_inv Parse fe c h)); [by apply kh_inv_init|].
  intros _ h1 l h2 Hi Hs. by eapply kh_inv_step.
Qed.
End Runs.

(** * Labels in range *)

Section Labels.
Context (Parse : list byte -> result error URL).
Context `{TV : TunnelVars} `{CV : ConnVars} {A C : Type} `{Reader A, Writer A} `{Reader C, Writer C}.
Implicit Types (k : client_process A C) (fe : front_end) (h : khist A C) (c : Client C).

Definition bl_ok (l : bi_label) : Prop :=
  match l with
  | BRightBlock now => is_i64 now
  | BUpOp now | BDownOp now | BMain now => is_i64 now
  | _ => True
  end.

Lemma right_call_ok s l op : bl_ok l -> right_call s l = Some op -> Inbound.op_ok op.
Proof.
  destruct l as [net| |now| |now pick|net|now|now|now|blk|blk]; cbn; intros Hl Hc; repeat case_match; simplify_eq/=; try done;
    match goal with |- Inbound.op_ok (right_op _ ?o) => by destruct o end.
Qed.

Definition short_target fe (a : A) : Prop :=
  forall target, dial_target Parse fe a = Some target -> Z.of_nat (length target) < 2 ^ 32.

(** Random IDs are uint32s, clock readings int64s, targets shorter than 4 GB. *)
Definition kl_ok fe (l : proc_label A C) : Prop :=
  match l with
  | KFront (FAccept (Ok a)) => short_target fe a
  | KFront (FServe _ id now) => is_u32 id /\ is_i64 now
  | KApp _ l => bl_ok l
  | KPeer l => yl_ok l
  | _ => True
  end.

Lemma accepted_ok fe k l k' :
  kl_ok fe l -> proc_step Parse fe k l = Ret k' -> Forall (short_target fe) (kp_accepted k) -> Forall (short_target fe) (kp_accepted k').
Proof.
  intros Hl Hs Ha. unfold proc_step in Hs.
  assert (forall i l, relay_part k i l = Ret k' -> kp_accepted k' = kp_accepted k) as Hrel.
  { intros i l'. unfold relay_part. destruct (view_relay k i) as [[[a e] s]|]; [|done].
    destruct (if relay_own l' then _ else _) as [[bs s']|]; [|done]. destruct (send_all _ _); [|done..]. by intros [= <-]. }
  assert (forall fl, l = KFront fl -> front_part Parse fe k fl = Ret k' -> Forall (short_target fe) (kp_accepted k')) as Hf.
  { intros fl -> Hs'. unfold front_part in Hs'. destruct fl as [r|r|i id now|]; [| | |done]; cbn [front_step] in Hs'.
    - destruct (fr_at (view_front k)); try done. cbn in Hs'. by injection Hs' as <-.
    - destruct (fr_at (view_front k)); try done. cbn in Hs'. injection Hs' as <-. cbn. destruct r as [a|e]; [|done].
      apply Forall_app. split; [done|]. by apply Forall_singleton.
    - destruct (fr_accepted (view_front k) !! i) as [a|]; [|done].
      destruct (front_server Parse fe id now a _) as [[[s c'] cp']| |]; [|done..]. cbn in Hs'. injection Hs' as <-.
      cbn. by apply Forall_delete. }
  destruct (kp_main k), l as [fl|i l|pl| | |]; try done; try (by eapply Hf); try (by rewrite (Hrel _ _ Hs)); try (by injection Hs as <-);
    try (destruct (own_peer pl); [|done]; destruct (peer_step _ pl) as [[evs p]| |]; [|done..]; by injection Hs as <-).
  destruct (Client_Cancel _); [|done..]. by injection Hs as <-.
Qed.

Lemma peer_part_ok fe k l :
  kl_ok fe l -> Forall (short_target fe) (kp_accepted k) -> Forall yl_ok (peer_part Parse fe k l).
Proof.
  intros Hl Ha. destruct l as [fl|i l|pl| | |]; cbn [peer_part]; try apply Forall_nil_2.
  - destruct fl as [r|r|i id now|fl]; try apply Forall_nil_2. destruct (kp_accepted k !! i) as [a|] eqn:Ei; [|apply Forall_nil_2].
    cbn [mbind option_bind]. destruct (dial_target Parse fe a) as [target|] eqn:Et; [|apply Forall_nil_2].
    apply Forall_singleton. cbn. destruct Hl as [Hid Hnow]. split; [done|]. split; [done|].
    rewrite String.list_byte_of_string_of_list_byte. by apply (Forall_lookup_1 _ _ _ _ Ha Ei).
  - destruct (view_relay k i) as [[[a e] s]|]; [|apply Forall_nil_2]. destruct (right_call s l) as [op|] eqn:Ec; [|apply Forall_nil_2].
    apply Forall_singleton. cbn. by eapply right_call_ok.
  - by apply Forall_singleton.
  - by apply Forall_singleton.
Qed.

Lemma labels_ok fe c tr h :
  Forall (kl_ok fe) tr -> run (proc_hstep Parse fe) (kh_init Parse fe c) tr = Some h -> Forall yl_ok (kh_labels h).
Proof.
  intros Ht Hrun. revert Ht. enough (Forall (kl_ok fe) tr -> Forall yl_ok (kh_labels h) /\ Forall (short_target fe) (kp_accepted (kh_proc h)))
    as Hb by (intros Ht; by apply Hb).
  revert Hrun. apply (run_invariant (proc_hstep Parse fe) (fun tr h => Forall (kl_ok fe) tr ->
    Forall yl_ok (kh_labels h) /\ Forall (short_target fe) (kp_accepted (kh_proc h)))).
  - intros _. split; [apply Forall_nil_2|]. by destruct fe.
  - intros tr' h1 l h2 IH Hs [Ht [Hl _]%Forall_cons]%Forall_app. destruct (IH Ht) as [H5 H6].
    unfold proc_hstep in Hs. destruct (proc_step Parse fe (kh_proc h1) l) as [k| |] eqn:Es; [|done..].
    destruct (run yh_step (kh_peer h1) _) as [y|]; [|done]. injection Hs as <-. cbn [kh_labels kh_proc].
    split; [apply Forall_app; split; [done|by apply peer_part_ok]|by eapply accepted_ok].
Qed.
End Labels.

(** * Properties *)

(** A client process and the peer of a server, each in a run of its own. *)
Record linked_run {A C : Type} `{Reader A, Writer A} `{Duplex C} (TV1 : TunnelVars) (CV1 : ConnVars) (TV2 : TunnelVars) (CV2 : ConnVars)
    (Parse : list byte -> result error URL) (fe : front_end) (c : Client C) (p : Peer ServerManager C)
    (ktr : list (proc_label A C)) (tr : list (peer_label C)) (h1 : khist A C) (h2 : yhist ServerManager C) : Prop := {
  lr_client : run (proc_hstep (TV := TV1) (CV := CV1) Parse fe) (kh_init Parse fe c) ktr = Some h1;
  lr_server : run (yh_step (TV := TV2) (CV := CV2)) (yh_init p) tr = Some h2;
  lr_labels : Forall (kl_ok Parse fe) ktr;
  lr_readable : Forall readable (yh_joined (kh_peer h1));
  lr_whole : keepalives_whole (TV := TV1) (CV := CV1) (yh_init (cl_Peer c)) (kh_labels h1);
  lr_env : environment (TV := TV2) (CV := CV2) (yh_init p) tr h2;
}.

(** A copier that holds nothing back, and has not failed. *)
Definition caught_up (pc : copy_pc) : Prop := match pc with CopyRead | CopyEnd None _ => True | _ => False end.

Lemma copied_caught_up pc got put : caught_up pc -> copied pc got put -> put = got.
Proof. by destruct pc as [| | |[] ?]. Qed.

Section Linked.
Context {A C : Type} `{Reader A, Writer A} `{Duplex C} {TV1 : TunnelVars} {CV1 : ConnVars} {TV2 : TunnelVars} {CV2 : ConnVars}.
Context (Parse : list byte -> result error URL) (fe : front_end) (id1 id2 n : Z) (endpoints : list string) (retry : bool)
  (auth : list byte) (g1 g2 : global_stats) (ktr : list (proc_label A C)) (tr : list (peer_label C))
  (h1 : khist A C) (h2 : yhist ServerManager C).

Let p1 : Peer ClientManager C := newClientPeerWithID (TV := TV1) id1 n endpoints retry g1.
Let p2 : Peer ServerManager C := NewServerPeerWithID (TV := TV2) id2 g2.

Context (Hl : linked_run TV1 CV1 TV2 CV2 Parse fe (mkClient p1 auth) p2 ktr tr h1 h2).

Lemma linked_inv : kh_inv (TV := TV1) (CV := CV1) Parse fe (mkClient p1 auth) h1.
Proof. eapply kh_run_inv; [| |exact (lr_client _ _ _ _ _ _ _ _ _ _ _ _ Hl)]; [apply linked_new|done]. Qed.

Lemma linked_up : wired (kh_peer h1) h2 -> peers_run TV1 CV1 TV2 CV2 p1 p2 (kh_labels h1) tr (kh_peer h1) h2.
Proof.
  intros Hw. pose proof linked_inv as [Hr _ _ _ _ _]. destruct Hl. constructor; try done.
  constructor; [eapply (labels_ok Parse (TV := TV1) (CV := CV1)); eassumption|done|done].
Qed.

Lemma linked_down : wired h2 (kh_peer h1) -> peers_run TV2 CV2 TV1 CV1 p2 p1 tr (kh_labels h1) h2 (kh_peer h1).
Proof.
  intros Hw. pose proof linked_inv as [Hr _ _ _ _ _]. destruct Hl. constructor; try done.
  constructor; [eapply (labels_ok Parse (TV := TV1) (CV := CV1)); eassumption|done|done].
Qed.

Lemma linked_app i a read :
  kp_apps (kh_proc h1) !! i = Some a -> kh_read h1 !! i = Some read -> app_conn Parse fe (kh_peer h1) a read.
Proof. intros Ha Hr. exact (Forall2_lookup_lr _ _ _ _ _ _ (ki_apps _ _ _ _ linked_inv) Ha Hr). Qed.
End Linked.

(** C1: what an application sends is what the target it asked for is sent. Take a
    client process as [main] makes it - a listener, a relay for each application it
    lets in, and the peer they share, in any interleaving - and a peer of a server,
    joined by tunnels of which is only asked that each reads a prefix of the bytes put
    on it. If the connection of application [i] is the only one with its ID and has
    sent fewer than 2^32-1 blocks, then the server's connection with that ID dials
    nothing but the target the application was let in with; what the target has been
    sent is a prefix of what was read from the application; and it is all of it once
    the copier holds nothing back, every block has been handed over, the relay has no
    gap left and the socket is open. Tunnels may reorder, repeat, hold back or lose
    blocks. *)
Theorem application_to_target {A C : Type} `{Reader A, Writer A} `{Duplex C} (TV1 : TunnelVars) (CV1 : ConnVars)
    (TV2 : TunnelVars) (CV2 : ConnVars) (Parse : list byte -> result error URL) (fe : front_end) (id1 id2 n : Z)
    (endpoints : list string) (retry : bool) (auth : list byte) (g1 g2 : global_stats)
    (ktr : list (proc_label A C)) (tr : list (peer_label C)) (h1 : khist A C) (h2 : yhist ServerManager C)
    (i k : nat) (a : app_state A) (read : list byte) (e1 : centry) (t1 t2 : chist) (s : Outbound.oc_state) (pc : relay_pc) (w : bool) :
  linked_run TV1 CV1 TV2 CV2 Parse fe (mkClient (newClientPeerWithID (TV := TV1) id1 n endpoints retry g1) auth)
    (NewServerPeerWithID (TV := TV2) id2 g2) ktr tr h1 h2 ->
  wired (kh_peer h1) h2 ->
  kp_apps (kh_proc h1) !! i = Some a -> kh_read h1 !! i = Some read ->
  sole_sender (yh_pool (kh_peer h1)) (ap_place a) e1 t1 -> Z.of_nat (length (ct_sent t1)) < 2 ^ 32 - 1 ->
  conns (connectionPool (yh_peer h2)) !! k = Some (mkCEntry (OutConn s) pc w) -> yh_conns h2 !! k = Some t2 ->
  GetConnectionID (OutConn s) = GetConnectionID (ce_conn e1) ->
  (forall target, target ∈ Outbound.os_spawned s ++ Outbound.os_dialing s -> dial_target Parse fe (ap_conn a) = Some target) /\
  forall t, Outbound.HalfOpenConn (Outbound.os_conn s) = Some t -> (Outbound.established (ct_calls t2) <= 1)%nat ->
    Outbound.tcp_out t `prefix_of` read /\
    (caught_up (ap_up a) -> (forall b, b ∈ ct_sent t1 -> forwarded b ∈ ct_handed t2) ->
     settled (mkCEntry (OutConn s) pc w) -> ch_buf (orderedRecvQueue (conn_base (OutConn s))) = [] ->
     Outbound.tcp_closed t = false -> Outbound.tcp_wclosed t = false -> Outbound.tcp_out t = read).
Proof.
  intros Hl Hw Ha Hread Hj Hlen Hk Ht Hid. pose proof Hj as (Hj1 & Hj2 & _).
  destruct (linked_app _ _ _ _ _ _ _ _ _ _ _ _ _ _ Hl _ _ _ Ha Hread) as (e & t0 & He & _ & Ht0 & [Hq Hu _]).
  cbn [yh_pool ph_conns ph_pool] in Hj2. rewrite Ht0 in Hj2. injection Hj2 as ->.
  pose proof (linked_up _ _ _ _ _ _ _ _ _ _ _ _ _ _ Hl Hw) as Hp. split.
  - intros target Hin. destruct (two_peers _ _ _ _ _ _ _ _ _ _ _ _ Hp) as (I1 & I2 & Harr).
    destruct (dials_asked _ _ I1 I2 Harr _ _ _ _ _ _ Hj Hk Ht Hid target Hin) as (b & Hb & Hty & <-).
    rewrite Forall_forall in Hq. by apply Hq.
  - intros t Hconn Hest.
    destruct (user_to_target TV1 CV1 TV2 CV2 _ _ _ _ _ _ _ _ _ _ _ _ _ _ _ _ _ _ _ _ Hp Hj Hlen Hk Ht Hid Hest Hconn) as [Hpre Hfull].
    split; [etrans; [exact Hpre|by eapply copied_prefix]|]. intros Hc Hall Hs Ho Hcl Hwc.
    rewrite (Hfull Hs Ho Hcl Hwc Hall). by eapply copied_caught_up.
Qed.

(** C2: what the target answers is what the application is sent. In runs as above,
    with the server's tunnels read by the client's: an application has been sent a
    prefix of the bytes read from the target of the server's connection with the ID of
    its own, and all of them once every block that carries them has been handed over,
    the relay has no gap left, the reads of the connection have taken everything and
    the copier holds nothing back. *)
Theorem target_to_application {A C : Type} `{Reader A, Writer A} `{Duplex C} (TV1 : TunnelVars) (CV1 : ConnVars)
    (TV2 : TunnelVars) (CV2 : ConnVars) (Parse : list byte -> result error URL) (fe : front_end) (id1 id2 n : Z)
    (endpoints : list string) (retry : bool) (auth : list byte) (g1 g2 : global_stats)
    (ktr : list (proc_label A C)) (tr : list (peer_label C)) (h1 : khist A C) (h2 : yhist ServerManager C)
    (i j : nat) (a : app_state A) (read : list byte) (e2 : centry) (t1 t2 : chist) (c : Inbound.InboundConnection) (pc : relay_pc) (w : bool) :
  linked_run TV1 CV1 TV2 CV2 Parse fe (mkClient (newClientPeerWithID (TV := TV1) id1 n endpoints retry g1) auth)
    (NewServerPeerWithID (TV := TV2) id2 g2) ktr tr h1 h2 ->
  wired h2 (kh_peer h1) ->
  kp_apps (kh_proc h1) !! i = Some a -> kh_read h1 !! i = Some read ->
  sole_sender (yh_pool h2) j e2 t2 -> Z.of_nat (length (ct_sent t2)) < 2 ^ 32 - 1 ->
  conns (kp_pool (kh_proc h1)) !! ap_place a = Some (mkCEntry (InConn c) pc w) -> yh_conns (kh_peer h1) !! ap_place a = Some t1 ->
  GetConnectionID (InConn c) = GetConnectionID (ce_conn e2) ->
  Outbound.tcp_out (ap_left a) `prefix_of` ct_in t2 /\
  (caught_up (ap_down a) -> Inbound.unread c = [] -> settled (mkCEntry (InConn c) pc w) ->
   (forall b, b ∈ ct_sent t2 -> forwarded b ∈ ct_handed t1) -> Outbound.tcp_out (ap_left a) = ct_in t2).
Proof.
  intros Hl Hw Ha Hread Hj Hlen Hk Ht Hid.
  destruct (linked_app _ _ _ _ _ _ _ _ _ _ _ _ _ _ Hl _ _ _ Ha Hread) as (e & t0 & He & _ & Ht0 & [_ _ Hd]).
  rewrite Ht0 in Ht. injection Ht as ->.
  pose proof (linked_down _ _ _ _ _ _ _ _ _ _ _ _ _ _ Hl Hw) as Hp.
  unfold kp_pool in Hk. rewrite <-(ki_peer _ _ _ _ (linked_inv _ _ _ _ _ _ _ _ _ _ _ _ _ _ Hl)) in Hk.
  destruct (target_to_user TV2 CV2 TV1 CV1 _ _ _ _ _ _ _ _ _ _ _ _ _ _ _ _ _ _ _ Hp Hj Hlen Hk Ht0 Hid) as [Hpre Hfull].
  split; [etrans; [by eapply copied_prefix|exact Hpre]|]. intros Hc Hun Hs Hall.
  rewrite (copied_caught_up _ _ _ Hc Hd), <-(Hfull Hs Hall), Hun. by rewrite app_nil_r.
Qed.

(** ** An exchange

    An application that is let in without being asked for anything: the exchange of
    System, seen from the application. *)

#[local] Existing Instance Tunnel.const_go.
#[local] Existing Instance ConnPool.const_go.

Definition of_peer (l : list (peer_label (duplex stream sink))) : list exchange_label := KPeer <$> l.

Definition app_exchange : list exchange_label :=
  app_start ++
  of_peer (block_out ++ block_out ++ block_in ++
    conn_steps [COrderedRelay 0 (LRecv answer); COrderedRelay 0 (LSent answer)]) ++
  [KApp 0 (BRightRead (fun _ => 6) (fun _ => false)); KApp 0 (BLeftWrite None)].

Lemma app_labels : Forall (kl_ok no_url example_front) app_exchange.
Proof.
  unfold app_exchange, app_start, of_peer, block_out, block_in, conn_steps, tunnel_steps. cbn [app fmap list_fmap].
  repeat (apply Forall_cons_2; [first [done|by intros ? [= <-]|by repeat split]|]). apply Forall_nil_2.
Qed.

(** What the witnesses evaluate: the two ends, when all that is decided holds. *)
Section Exchange.
Context (Parse : list byte -> result error URL) (fe : front_end) (c0 : Client (duplex stream sink))
  (p2 : Peer ServerManager (duplex stream sink)) (ktr : list exchange_label) (tr : list (peer_label (duplex stream sink)))
  (bs1 bs2 : list byte).

Definition app_exchanged : option (khist (duplex stream sink) (duplex stream sink) * yhist ServerManager (duplex stream sink) *
    app_state (duplex stream sink) * list byte * centry * chist * centry * chist) :=
  match run (proc_hstep Parse fe) (kh_init Parse fe c0) ktr, run yh_step (yh_init p2) tr with
  | Some h1, Some h2 =>
      match kp_apps (kh_proc h1) !! 0%nat, kh_read h1 !! 0%nat, yh_entries (kh_peer h1) !! 0%nat, yh_conns (kh_peer h1) !! 0%nat,
            yh_entries h2 !! 0%nat, yh_conns h2 !! 0%nat,
            tunnels (tunnelPool (yh_peer (kh_peer h1))) !! 0%nat, tunnels (tunnelPool (yh_peer h2)) !! 0%nat with
      | Some a, Some read, Some e1, Some t1, Some e2, Some t2, Some tn1, Some tn2 =>
          if decide (keepalives_whole (yh_init (cl_Peer c0)) (kh_labels h1) /\ keepalives_whole (yh_init p2) tr /\
                     bs1 `prefix_of` emitted (Conn tn1) /\ bs2 `prefix_of` emitted (Conn tn2) /\
                     ap_place a = 0%nat /\ length (yh_entries (kh_peer h1)) = 1%nat /\ length (yh_entries h2) = 1%nat /\
                     (length (ct_sent t1) < 10)%nat /\ (length (ct_sent t2) < 10)%nat /\
                     GetConnectionID (ce_conn e2) = GetConnectionID (ce_conn e1))
          then Some (h1, h2, a, read, e1, t1, e2, t2) else None
      | _, _, _, _, _, _, _, _ => None
      end
  | _, _ => None
  end.

Lemma app_exchanged_spec h1 h2 a read e1 t1 e2 t2 :
  app_exchanged = Some (h1, h2, a, read, e1, t1, e2, t2) ->
  Forall (kl_ok Parse fe) ktr -> Forall yl_ok tr -> yh_joined (kh_peer h1) = [link_reading bs2 5 true] ->
  concat (joining <$> tr) = [link_reading bs1 6 false] ->
  linked_run Tunnel.const_go ConnPool.const_go Tunnel.const_go ConnPool.const_go Parse fe c0 p2 ktr tr h1 h2 /\
  (wired (kh_peer h1) h2 /\ wired h2 (kh_peer h1)) /\
  (kp_apps (kh_proc h1) !! 0%nat = Some a /\ kh_read h1 !! 0%nat = Some read) /\
  sole_sender (yh_pool (kh_peer h1)) (ap_place a) e1 t1 /\ sole_sender (yh_pool h2) 0 e2 t2 /\
  Z.of_nat (length (ct_sent t1)) < 2 ^ 32 - 1 /\ Z.of_nat (length (ct_sent t2)) < 2 ^ 32 - 1 /\
  GetConnectionID (ce_conn e2) = GetConnectionID (ce_conn e1).
Proof.
  unfold app_exchanged. intros Hex Hkl Hyl J1 J3.
  destruct (run (proc_hstep Parse fe) _ ktr) as [h1'|] eqn:R1; [|done]. destruct (run yh_step _ tr) as [h2'|] eqn:R2; [|done].
  destruct (kp_apps (kh_proc h1') !! 0%nat) as [a'|] eqn:E1; [|done]. destruct (kh_read h1' !! 0%nat) as [r'|] eqn:E2; [|done].
  destruct (yh_entries (kh_peer h1') !! 0%nat) as [e1'|] eqn:E3; [|done].
  destruct (yh_conns (kh_peer h1') !! 0%nat) as [t1'|] eqn:E4; [|done].
  destruct (yh_entries h2' !! 0%nat) as [e2'|] eqn:E5; [|done]. destruct (yh_conns h2' !! 0%nat) as [t2'|] eqn:E6; [|done].
  destruct (tunnels (tunnelPool (yh_peer (kh_peer h1'))) !! 0%nat) as [n1|] eqn:E7; [|done].
  destruct (tunnels (tunnelPool (yh_peer h2')) !! 0%nat) as [n2|] eqn:E8; [|done].
  case_decide as Hd; [|done]. destruct Hd as (K1 & K2 & P1 & P2 & Hp & L1 & L2 & S1 & S2 & Hid).
  injection Hex as <- <- <- <- <- <- <- <-. pose proof (run_joined _ _ _ R2) as J2. rewrite J3 in J2. cbn [yh_init yh_joined app] in J2.
  split; [|split; [|split; [exact (conj E1 E2)|]]].
  - constructor; [exact R1|exact R2|exact Hkl|rewrite J1; apply Forall_singleton, readable_link|exact K1|].
    constructor; [exact Hyl|rewrite J2; apply Forall_singleton, readable_link|exact K2].
  - split; intros t; rewrite ?J1, ?J2; intros ->%list_elem_of_singleton.
    + exists 0%nat, (link_reading bs2 5 true), n1, bs1, None. split_and!; [done|exact E7|apply link_delivers|exact P1].
    + exists 0%nat, (link_reading bs1 6 false), n2, bs2, None. split_and!; [done|exact E8|apply link_delivers|exact P2].
  - rewrite Hp. split; [by apply (sole_of_one (yh_pool (kh_peer h1')))|]. split; [by apply (sole_of_one (yh_pool h2'))|].
    split; [lia|]. split; [lia|exact Hid].
Qed.

(** With what an application and a target have been sent. *)
Definition exchanged_bytes : option (khist (duplex stream sink) (duplex stream sink) * yhist ServerManager (duplex stream sink) *
    app_state (duplex stream sink) * list byte * centry * chist * centry * chist * Outbound.oc_state * relay_pc * bool * Outbound.tcp *
    Inbound.InboundConnection * relay_pc * bool) :=
  match app_exchanged with
  | Some (h1, h2, a, read, mkCEntry (InConn c) pc1 w1 as e1, t1, mkCEntry (OutConn s) pc2 w2 as e2, t2) =>
      match Outbound.HalfOpenConn (Outbound.os_conn s) with
      | Some t =>
          if decide ((Outbound.established (ct_calls t2) <= 1)%nat /\ Outbound.tcp_out t = [x01; x02; x03] /\
                     read = [x01; x02; x03] /\ Outbound.tcp_out (ap_left a) = [x0a; x0b] /\ ct_in t2 = [x0a; x0b])
          then Some (h1, h2, a, read, e1, t1, e2, t2, s, pc2, w2, t, c, pc1, w1) else None
      | None => None
      end
  | _ => None
  end.

Lemma exchanged_bytes_spec h1 h2 a read e1 t1 e2 t2 s pc2 w2 t c pc1 w1 :
  exchanged_bytes = Some (h1, h2, a, read, e1, t1, e2, t2, s, pc2, w2, t, c, pc1, w1) ->
  app_exchanged = Some (h1, h2, a, read, e1, t1, e2, t2) /\ e1 = mkCEntry (InConn c) pc1 w1 /\ e2 = mkCEntry (OutConn s) pc2 w2 /\
  Outbound.HalfOpenConn (Outbound.os_conn s) = Some t /\ (Outbound.established (ct_calls t2) <= 1)%nat /\
  Outbound.tcp_out t = [x01; x02; x03] /\ read = [x01; x02; x03] /\
  Outbound.tcp_out (ap_left a) = [x0a; x0b] /\ ct_in t2 = [x0a; x0b].
Proof.
  unfold exchanged_bytes. destruct app_exchanged as [[[[[[[[h1' h2'] a'] r'] [[c'|] q1 v1]] t1'] [[|s'] q2 v2]] t2']|]; try discriminate.
  destruct (Outbound.HalfOpenConn _) as [t'|] eqn:Et; [|discriminate]. case_decide as Hd; [|discriminate].
  destruct Hd as (D1 & D2 & D3 & D4 & D5). intros Hx. injection Hx as <- <- <- <- <- <- <- <- <- <- <- <- <- <- <-.
  repeat (split; [first [reflexivity|exact Et|exact D1|exact D2|exact D3|exact D4]|]). exact D5.
Qed.

End Exchange.

Local Notation "'example_bytes'" :=
  (exchanged_bytes no_url example_front example_client server_peer app_exchange server_exchange (encode block_0 ++ encode block_1) (encode answer)).

Lemma example_joined :
  match example_bytes with
  | Some (h1, _, _, _, _, _, _, _, _, _, _, _, _, _, _) => yh_joined (kh_peer h1)
  | None => []
  end = [link_reading (encode answer) 5 true].
Proof. vm_compute. reflexivity. Qed.

Lemma server_joined : concat (joining <$> server_exchange) = [link_reading (encode block_0 ++ encode block_1) 6 false].
Proof. done. Qed.

Lemma application_to_target_witness :
  exists t read, Outbound.tcp_out t = [x01; x02; x03] /\ read = [x01; x02; x03] /\ Outbound.tcp_out t `prefix_of` read.
Proof.
  destruct (run_succeeds example_bytes) as [[[[[[[[[[[[[[[h1 h2] a] read] e1] t1] e2] t2] s] pc2] w2] t] c] pc1] w1] E];
    [vm_compute; reflexivity|].
  pose proof example_joined as J. rewrite E in J.
  destruct (exchanged_bytes_spec _ _ _ _ _ _ _ _ _ _ _ _ _ _ _ _ _ _ _ _ _ _ _ E) as (Ex & _ & -> & Et & D1 & D2 & D3 & _ & _).
  destruct (app_exchanged_spec _ _ _ _ _ _ _ _ _ _ _ _ _ _ _ _ Ex app_labels server_labels J server_joined)
    as (Hl & (Hw & _) & (Ha & Hr) & Hj & Hj2 & Hn & _ & Hid).
  exists t, read. split; [exact D2|]. split; [exact D3|]. destruct Hj2 as (Hk & Ht & _).
  exact (proj1 (proj2 (application_to_target Tunnel.const_go ConnPool.const_go Tunnel.const_go ConnPool.const_go no_url example_front
    77 77 1 ["a:1"%string] false [] (InitStats 10) (InitStats 10) app_exchange server_exchange h1 h2 0 0 a read e1 t1 t2 s pc2 w2
    Hl Hw Ha Hr Hj Hn Hk Ht Hid) t Et D1)).
Defined.

Lemma target_to_application_witness :
  exists (a : app_state (duplex stream sink)) t2, Outbound.tcp_out (ap_left a) = [x0a; x0b] /\ ct_in t2 = [x0a; x0b] /\
    Outbound.tcp_out (ap_left a) `prefix_of` ct_in t2.
Proof.
  destruct (run_succeeds example_bytes) as [[[[[[[[[[[[[[[h1 h2] a] read] e1] t1] e2] t2] s] pc2] w2] t] c] pc1] w1] E];
    [vm_compute; reflexivity|].
  pose proof example_joined as J. rewrite E in J.
  destruct (exchanged_bytes_spec _ _ _ _ _ _ _ _ _ _ _ _ _ _ _ _ _ _ _ _ _ _ _ E) as (Ex & -> & _ & _ & _ & _ & _ & D4 & D5).
  destruct (app_exchanged_spec _ _ _ _ _ _ _ _ _ _ _ _ _ _ _ _ Ex app_labels server_labels J server_joined)
    as (Hl & (_ & Hw) & (Ha & Hr) & Hj & Hj2 & _ & Hn & Hid).
  exists a, t2. split; [exact D4|]. split; [exact D5|]. destruct Hj as (Hk & Ht & _). cbn [yh_pool ph_pool ph_conns] in Hk, Ht.
  pose proof (ki_peer _ _ _ _ (linked_inv _ _ _ _ _ _ _ _ _ _ _ _ _ _ Hl)) as Ep. rewrite Ep in Hk.
  exact (proj1 (target_to_application Tunnel.const_go ConnPool.const_go Tunnel.const_go ConnPool.const_go no_url example_front
    77 77 1 ["a:1"%string] false [] (InitStats 10) (InitStats 10) app_exchange server_exchange h1 h2 0 0 a read e2 t1 t2 c pc1 w1
    Hl Hw Ha Hr Hj2 Hn Hk Ht (eq_sym Hid))).
Defined.
